(* ===== verification/_CoqProject ===== *)
-Q . S2P
Prelude.v
Text.v
Net.v
System.v
Tun.v
Guards.v
Config.v
RateLimit.v
Queue.v
Worker.v
DtlsApi.v
Session.v
TunRead.v
UdpRead.v
Platform.v
Encrypt.v
UdpWrite.v
Decrypt.v
DecryptOk.v
Control.v
ControlPoll.v
ControlBind.v
Server.v
ControlRun.v
ServerTunnel.v
Delivery.v
ServerStop.v
Startup.v
Dtls.v
DtlsLife.v
HostRun.v
Launcher.v
Loader.v
ClientAuth.v
Embedded.v
Terminal.v
ClientLoop.v
ClientTunnel.v
TunWrite.v
ClientStop.v
EndToEnd.v
