(* ===== verification/Prelude.v ===== *)
(** * Autobricks VPN: verification library

    Autobricks VPN is a DTLS tunnel for IPv4: clients authenticate with certificates (and
    optionally a login), and server and client carry the packets of a TUN device as DTLS
    records over UDP. This library models its Rust code (file names below are relative to
    [src/src/] in the repository) and proves what the code promises. This file holds
    what everything else shares; each other file opens with what it models.

    ** The program and how its parts interact

    The server has one list of sessions under a mutex, and five threads over it. The TUN
    reader queues packets for the encrypt worker, which routes each one to sessions by VPN
    address and writes it into their DTLS objects; the objects' send callback pushes
    encrypted datagrams to a per-session queue, which the UDP writer drains to the socket.
    The main thread reads datagrams and queues them for the decrypt worker, which feeds them to
    the session of their sender, or, for a new sender, to the stateless acceptor; it finishes
    handshakes, authorises certificates, checks logins and writes decrypted packets to the
    TUN device. The control thread expires sessions, retransmits handshakes, serves the
    command socket and reloads the bindings, which it sends to the decrypt worker. The
    client connects, logs in, and then runs one worker per direction and stage until the
    server falls silent or a worker fails, and reconnects. Both configure the host they run
    on, through commands and system calls, and put it back when they end.

    ** Which file models what

    - [Prelude]: results and [std::io::Error], machine integers, time, [Vec] operations,
      record update, automation. [Text]: [str] and UTF-8.
    - [Net]: addresses, CIDR networks, tunnelled packets, control frames ([lib.rs],
      [server/socket.rs]).
    - [Config]: INI files, bindings, logins, certificate policies ([lib.rs], [server.rs],
      [client/mod.rs]).
    - [RateLimit]: [IpRateLimiter] ([lib.rs]). [Queue]: [base/queue.rs].
      [Worker]: [base/worker.rs].
    - [System]: programs that call the operating system, as computations over the history of
      their calls; protocols, which such computations keep. On it: [Tun] and [Guards] (the TUN
      device, [ForwardingGuard] and [DnsGuard] of [lib.rs]), [ControlBind]
      ([ControlSocket::bind]), [ControlPoll] (the sleep of the thread in [server/control.rs]),
      [UdpRead] ([server/udp_read.rs] with the receive functions of [server/socket.rs], and the
      waiting of [client/udp_read.rs]), [Platform] ([linux/mod.rs], [macos/mod.rs] and
      [windows/mod.rs], against the device of [Tun]), [DtlsLife] (the wolfSSL objects of
      [Dtls]), [Loader] (the launcher's dynamic library), [Terminal] (asking for the login),
      and [HostRun] (all that a run changes on the host and puts back).
    - [DtlsApi]: the interface of a DTLS session, as the classes [DtlsSession] and
      [DtlsLaws]. [Dtls] implements it ([Dtls] and [DtlsIo] of [lib.rs]) over any library
      of the class [WolfSSL]; server and client workers are proved against the interface only.
    - [Session]: [server/session.rs], and the [World] the server threads share.
    - [TunRead], [Encrypt], [UdpWrite], [Decrypt], [Control]: the threads of the files of
      these names in [server/], with [send_encrypted_datagram] of [server/socket.rs].
      [DecryptOk]: the invariants and properties of the decrypt worker.
    - [Server]: all the server's threads as one step relation over the session list.
      [ControlRun]: the turns of the control thread ([server/control.rs]) with the other threads
      at work in between. [ServerTunnel]: what passed through the server, packet by packet.
      [Delivery]: one client's packet on its way through the encrypt worker. [ServerStop]: the
      threads as far as flags, wake-ups and joins go.
    - [Startup]: the settings, checks and first state of [server::run] and of the client,
      [Dtls::new] and the private-key check. [Embedded]: the credentials in a
      configuration as files, and [server::run] and [run_with_login] around them.
    - [Launcher]: [bin/common/mod.rs] and the C interface of [lib.rs].
    - [ClientAuth]: the handshake and login of [client/mod.rs]. [ClientLoop]: its connection
      loop and the turns of the worker threads in [client/]. [ClientTunnel]: the workers
      together, as one step relation over the client's queues. [ClientStop]: the workers as far
      as spawns, flags, wake-ups and joins go. [TunWrite]: [server/tun_write.rs], a writer
      thread like the client's.
    - [EndToEnd]: a server and a client with DTLS and the network between them.

    ** How code corresponds to definitions

    A definition has the name of the function it models where that is possible. Objects that
    a thread changes are passed in and returned: a [Session] and the [World] in the server, a
    [Client] in the client's workers, a [Queue] or a limiter elsewhere. Errors are the
    values of [result io_error]. A queue operation that waits is [None] while it would wait.
    The program holds a mutex during each handler, so one handler is one function; what runs
    between two handlers of a thread is left open, in the step relations of [Server], [Queue],
    [ClientLoop] and [ClientTunnel] and in the runs of [Worker]. [ServerStop] and [ClientStop]
    go down to single accesses to shared state. Where a theorem is about what happened, the
    state has a history that is only ever written: [past] of the [World], [log] of a [Tunnel],
    and the last fields of a [TunWriter]. What only the environment knows is an argument
    or a field holding its answers (the clock, the DTLS library, files), or the [system] of
    [System], a function from the calls so far and the next one to its answer.

    ** What the theorems show

    - From end to end ([EndToEnd], [ServerTunnel], [ClientTunnel]): what a TUN device is given
      under a client's address entered the TUN device of the other side, addressed to or from
      that client, no unicast packet more often than it entered; packets of different clients
      are never mixed up. Of DTLS and the network it is assumed that a session's reader accepts
      only what the other end sent, each record once ([EndToEnd.dtls_channel]); loss and, where
      the network reorders, another order are allowed.
    - The server as a whole ([Server], [Startup], [ServerStop]): in every reachable state, under
      every interleaving, the limits on sessions, handshakes and addresses hold, sessions are
      well-formed, nothing is queued for a peer that has not authenticated, a session is
      established only by its own successful handshake with a certificate the bindings
      name; a configuration that the server starts with satisfies what this needs; and a
      server that is told to stop ends, whatever its threads wait for.
    - The control thread over its turns ([ControlRun]): a RELOAD is answered, truthfully, in the
      turn that takes it; after a reload no session of a certificate that it removed is left,
      except for one whose handshake completes before the decrypt thread has the new bindings.
    - Delivery ([Delivery]): a packet for an authenticated client is written into the DTLS
      session of that client, or still waits there, unless it has expired or a full queue has
      dropped it.
    - Handlers of the server ([DecryptOk], [Encrypt], [UdpWrite], [Control]): source
      addresses of packets written to the TUN device, logins, authorisation, isolation and
      order of tunnel traffic, expiry, reload, framing of the watcher stream; [ControlPoll]: the
      control thread sleeps until it has work, and maps events to the right watchers.
    - The client as a whole ([ClientTunnel], [ClientStop]): packets pass it in order, unrepeated
      and uninvented, and towards the TUN device are lost only in full or closed queues; a
      connection that is to end ends, and what a failing spawn leaves behind.
    - Parts of the client ([ClientAuth], [ClientLoop], [Launcher]): [connect] is sound and ends,
      client and server agree on logins, a silent server is probed before it is given up, what a
      connection and the process end with.
    - The host ([HostRun], [Guards], [Tun], [ControlBind], [Embedded], [Loader], [Terminal],
      [DtlsLife], [UdpRead]): what a run leaves on the host whichever call fails: the device
      closed, the control socket and the rule in the firewall removed, the name servers as they
      were unless the command for that fails, two settings of the kernel on purpose, and no private
      key on the disk, where on Unix only its owner could read it; the TLS context is complete
      or gone, without a check that was asked for skipped ([Startup]);
      descriptors, wolfSSL objects and library handles are used while they live and freed once;
      the control socket is not taken from a running server, and has its group before its mode; the terminal's echo comes back;
      received datagrams are accounted for.
    - Code that is not in the build ([Platform], [TunWrite]): the backends' devices are
      non-blocking, which the program's own is not; their packets are the same except for
      those longer than the caller's buffer; waiting ends in time; the writer thread keeps the
      order of its queue.
    - Components ([Queue], [Worker], [RateLimit], [Dtls], [Config], [Net], [TunRead]):
      accounting, order and wake-ups of queues, stopping of workers, equivalence of the
      limiter with its specification, whole datagrams through the DTLS callbacks, exact
      characterisations and round trips of the parsers.

    ** Bounds and fuel

    Loops are structural recursions over what they consume, or have enough fuel: draining a
    queue runs for its length, scanning a list while removing from it for the list's length,
    reading and writing a stream for the number of the kernel's answers plus one, folding the
    carries of a checksum for two turns (a loop that did not end would be [None], which
    [TunRead.internet_checksum_spec] excludes), and the digits of a number for its binary
    length. Removing forwarding rules needs more turns than there are rules
    ([Guards.remove_rule_ends]). The client's loops consume a list of clock readings and are
    [None] when it ends; [ClientAuth.connect_session] is shown to end with the readings of about
    a minute, and the wait of the Windows backend with one turn for each ten milliseconds and two
    more. A TUN write consumes the kernel's answers to its attempts, and their end is the
    server stopping. A stopping server takes at most 30 more steps, a stopping client 46, and 7
    for each item two of its workers still take before their queues are closed. The signal
    generations of these two models do not wrap; those of [Queue] and [Worker] do.

    ** What is not modelled

    - wolfSSL, the kernel, and the dynamic loader: parameters with stated assumptions.
      So is the random secret of the server's cookies, an argument.
    - Installing signal handlers, the FFI declarations, the entry points and the unit tests.
    - [validate_tun_ipv4], which [linux/mod.rs], [macos/mod.rs] and [windows/mod.rs] call and no
      file defines: a parameter.
    - Diagnostics: log lines and counters, except what is sent to syslog about clients.
    - Time does not overflow, and mutex poisoning, which the code undoes everywhere, does
      not appear. *)

From stdpp Require Export base tactics numbers list option gmap sorting strings.
From Stdlib Require Export ZArith Lia.
From Stdlib Require Import Ascii.

#[export] Set Warnings "-level-tolerance".

(** ** Results and I/O errors *)

(** Rust's [Result<T, E>]. *)
Inductive result (E T : Type) : Type :=
| Ok (t : T)
| Err (e : E).
Arguments Ok {E T} _.
Arguments Err {E T} _.

#[export] Instance result_ret {E} : MRet (result E) := fun T t => Ok t.
#[export] Instance result_bind {E} : MBind (result E) :=
  fun T U f m => match m with Ok t => f t | Err e => Err e end.
#[export] Instance result_fmap {E} : FMap (result E) :=
  fun T U f m => match m with Ok t => Ok (f t) | Err e => Err e end.

#[export] Instance result_eq_dec {E T} `{EqDecision E, EqDecision T} :
  EqDecision (result E T).
Proof. solve_decision. Defined.

Definition is_ok {E T} (r : result E T) : bool :=
  match r with Ok _ => true | Err _ => false end.

Definition is_err {E T} (r : result E T) : bool := negb (is_ok r).

(** [Option::ok_or] *)
Definition ok_or {E T} (o : option T) (e : E) : result E T :=
  match o with Some t => Ok t | None => Err e end.

(** [Result::map_err] *)
Definition map_err {E F T} (f : E -> F) (r : result E T) : result F T :=
  match r with Ok t => Ok t | Err e => Err (f e) end.

(** [Result::and] *)
Definition result_and {E T U} (r : result E T) (s : result E U) : result E U :=
  match r with Ok _ => s | Err e => Err e end.

Lemma result_bind_Ok {E T U} (m : result E T) (f : T -> result E U) u :
  (m ≫= f) = Ok u <-> exists t, m = Ok t /\ f t = Ok u.
Proof. destruct m; cbn; naive_solver. Qed.

Lemma ok_or_Ok {E T} (o : option T) (e : E) t : ok_or o e = Ok t <-> o = Some t.
Proof. destruct o; cbn; naive_solver. Qed.

Lemma map_err_Ok {E F T} (f : E -> F) (r : result E T) t :
  map_err f r = Ok t <-> r = Ok t.
Proof. destruct r; cbn; naive_solver. Qed.

(** Text is a sequence of Unicode scalar values, so a [str] is a [list N]. *)
Abbreviation rstr := (list N) (only parsing).

(** ASCII literals of the source as text. *)
Definition str (s : string) : rstr := N_of_ascii <$> String.list_ascii_of_string s.

(** The kinds of [std::io::ErrorKind] the program tells apart; every other kind of
    the standard library is [Uncategorized]. *)
Inductive ErrorKind :=
| NotFound | PermissionDenied | ConnectionRefused | WouldBlock | Interrupted
| InvalidInput | InvalidData | TimedOut | WriteZero | BrokenPipe | AddrInUse
| UnexpectedEof | Other | Uncategorized.

#[export] Instance ErrorKind_eq_dec : EqDecision ErrorKind.
Proof. solve_decision. Defined.

(** [std::io::Error]: an operating-system error number, a bare kind, or a kind with
    a message. *)
Inductive io_error :=
| Os (errno : Z)
| Simple (k : ErrorKind)
| Custom (k : ErrorKind) (msg : rstr).

#[export] Instance io_error_eq_dec : EqDecision io_error.
Proof. solve_decision. Defined.

(** Linux error numbers, as [libc] defines them. *)
Definition EINTR : Z := 4.
Definition EBADF : Z := 9.
Definition EAGAIN : Z := 11.
Definition EIO : Z := 5.
Definition ENODEV : Z := 19.
Definition ENOBUFS : Z := 105.

(** [std::sys::decode_error_kind] on Linux, for the kinds above. *)
Definition decode_error_kind (errno : Z) : ErrorKind :=
  match errno with
  | 1%Z | 13%Z => PermissionDenied
  | 2%Z => NotFound
  | 4%Z => Interrupted
  | 11%Z => WouldBlock
  | 22%Z => InvalidInput
  | 32%Z => BrokenPipe
  | 98%Z => AddrInUse
  | 110%Z => TimedOut
  | 111%Z => ConnectionRefused
  | _ => Uncategorized
  end.

(** [io::Error::kind] *)
Definition kind (e : io_error) : ErrorKind :=
  match e with
  | Os n => decode_error_kind n
  | Simple k | Custom k _ => k
  end.

(** [io::Error::raw_os_error] *)
Definition raw_os_error (e : io_error) : option Z :=
  match e with Os n => Some n | _ => None end.

(** [io::Error::other] with a literal message. *)
Definition other (msg : string) : io_error := Custom Other (str msg).

(** [io::Error::new] with a literal message. *)
Definition new_error (k : ErrorKind) (msg : string) : io_error := Custom k (str msg).

Abbreviation io := (result io_error) (only parsing).

(** ** Field update

    [r <| f := v |>] is the record [r] with field [f] set to [v]. A record type opts
    in with an [Eta] instance that rebuilds a record from its projections. *)
Class Eta (R : Type) := eta : R -> R.

Class SetField {R T : Type} (proj : R -> T) := set_field : (T -> T) -> R -> R.
Arguments set_field {R T} proj {_} _ _ /.

Ltac derive_setter proj :=
  let upd := fresh "upd" in
  let r := fresh "r" in
  intros upd r;
  let t := eval hnf in (eta r) in
  match t with
  | context C [proj r] => let t' := context C [upd (proj r)] in exact t'
  end.

#[export] Hint Extern 1 (@SetField ?R _ ?proj) => derive_setter proj : typeclass_instances.

Declare Scope vpn_scope.
Delimit Scope vpn_scope with vpn.
Notation "r <| f := v |>" := (set_field f (fun _ => v) r)
  (at level 1, f at next level, left associativity) : vpn_scope.
Notation "r <| f ::= g |>" := (set_field f g r)
  (at level 1, f at next level, left associativity) : vpn_scope.
Open Scope vpn_scope.

(** ** Automation *)

(** The side conditions the handlers of several components share. *)
Create HintDb vpn discriminated.

(** [H] is that a chain of checks, the first of which gave [x], succeeded. *)
Ltac next_check H x Hx := apply result_bind_Ok in H as (x & Hx & H).

(** ** Machine integers and time

    A [u8], [u16], [u32] or [u64] is a [Z]; wrap-around and saturation are written
    out at the width the code uses. *)
Definition u8_max : Z := 2 ^ 8 - 1.
Definition u16_max : Z := 2 ^ 16 - 1.
Definition u32_max : Z := 2 ^ 32 - 1.
Definition u64_max : Z := 2 ^ 64 - 1.
Definition i32_max : Z := 2 ^ 31 - 1.
(** [usize] on the 64-bit targets the program is built for. *)
Definition usize_max : Z := u64_max.

(** [u64::wrapping_add], also what [AtomicU64::fetch_add] does. *)
Definition wrapping_add_u64 (a b : Z) : Z := (a + b) mod 2 ^ 64.

(** [u64::saturating_add] *)
Definition saturating_add_u64 (a b : Z) : Z := Z.min (a + b) u64_max.

(** [std::time::Instant] and [Duration], both in nanoseconds. An [Instant] is counted
    from an arbitrary origin; the overflow panic of [Instant + Duration] (about 584
    years of uptime) is not modelled. *)
Abbreviation Instant := Z (only parsing).
Abbreviation Duration := Z (only parsing).

(** [Duration::from_secs], [Duration::from_millis] *)
Definition from_secs (s : Z) : Duration := s * 1000000000.
Definition from_millis (ms : Z) : Duration := ms * 1000000.
Definition as_secs (d : Duration) : Z := d / 1000000000.
Definition as_millis (d : Duration) : Z := d / 1000000.

(** [Instant::saturating_duration_since]; [t.elapsed()] at the instant [now] is
    [saturating_duration_since now t]. *)
Definition saturating_duration_since (later earlier : Instant) : Duration :=
  Z.max 0 (later - earlier).
Definition elapsed (now t : Instant) : Duration := saturating_duration_since now t.

(** ** Lists used as [Vec] *)
Section vec.
Context {A : Type}.
Implicit Types (l : list A) (x : A) (i : nat).

(** [Vec::swap_remove] for an index in range (the code panics out of range; every
    use in the program is in range): the last element takes the removed one's place. *)
Definition swap_remove (i : nat) (l : list A) : list A :=
  match last l with
  | Some x => take (length l - 1) (<[i := x]> l)
  | None => l
  end.

Lemma swap_remove_snoc l x i :
  i < length l -> swap_remove i (l ++ [x]) = <[i := x]> l.
Proof.
  intros Hi. unfold swap_remove. rewrite last_snoc, length_app. cbn.
  rewrite insert_app_l by done.
  rewrite take_app_length'; [done|]. rewrite length_insert. lia.
Qed.

Lemma swap_remove_last l x : swap_remove (length l) (l ++ [x]) = l.
Proof.
  unfold swap_remove. rewrite last_snoc, length_app. cbn.
  rewrite (insert_app_r_alt l [x] (length l)) by lia.
  rewrite Nat.sub_diag. cbn. rewrite take_app_length'; [done|lia].
Qed.

Lemma swap_remove_perm l i x : l !! i = Some x -> l ≡ₚ x :: swap_remove i l.
Proof.
  destruct l as [|y l' _] using rev_ind; [done|]. intros Hi.
  destruct (decide (i < length l')) as [Hlt|Hge].
  - rewrite swap_remove_snoc by done. rewrite lookup_app_l in Hi by done.
    rewrite (Permutation_app_comm l' [y]). cbn.
    rewrite <-(take_drop_middle l' i x Hi) at 1.
    rewrite insert_take_drop by done. solve_Permutation.
  - assert (i = length l') as ->.
    { apply lookup_lt_Some in Hi. rewrite length_app in Hi. cbn in Hi. lia. }
    rewrite lookup_app_r in Hi by lia. rewrite Nat.sub_diag in Hi.
    cbn in Hi. simplify_eq. rewrite swap_remove_last. solve_Permutation.
Qed.

Lemma swap_remove_length l i : i < length l -> length (swap_remove i l) = length l - 1.
Proof.
  intros [x Hx]%lookup_lt_is_Some. apply swap_remove_perm in Hx as Hp.
  apply Permutation_length in Hp. cbn in Hp. lia.
Qed.

Lemma swap_remove_lookup_lt l i j :
  j < i -> i < length l -> swap_remove i l !! j = l !! j.
Proof.
  destruct l as [|y l' _] using rev_ind; cbn; [lia|]. rewrite length_app. cbn.
  intros Hj Hi. destruct (decide (i < length l')).
  - rewrite swap_remove_snoc by done. rewrite list_lookup_insert_ne by lia.
    by rewrite lookup_app_l by lia.
  - assert (i = length l') as -> by lia. rewrite swap_remove_last.
    by rewrite lookup_app_l by lia.
Qed.

Lemma swap_remove_subset l i x : x ∈ swap_remove i l -> x ∈ l.
Proof.
  destruct (decide (i < length l)) as [[y Hy]%lookup_lt_is_Some|Hge].
  - intros Hx. apply swap_remove_perm in Hy as Hp. rewrite Hp. by right.
  - unfold swap_remove. destruct (last l); [|done].
    rewrite list_insert_ge by lia. intros Hx.
    rewrite <-(take_drop (length l - 1) l). set_solver.
Qed.

(** [Iterator::position] *)
Fixpoint position (P : A -> bool) (l : list A) : option nat :=
  match l with
  | [] => None
  | x :: l => if P x then Some 0 else S <$> position P l
  end.

Lemma position_Some P l i :
  position P l = Some i ->
  exists x, l !! i = Some x /\ P x = true /\
    forall j y, j < i -> l !! j = Some y -> P y = false.
Proof.
  revert i. induction l as [|x l IH]; intros i; cbn; [done|].
  destruct (P x) eqn:HP.
  - intros [= <-]. exists x. split_and!; [done|done|intros ?? Hl; lia].
  - destruct (position P l) as [k|] eqn:Hk; [|done]. intros [= <-].
    destruct (IH k eq_refl) as (y & Hy & HPy & Hbefore).
    exists y. split_and!; [done|done|].
    intros [|j] z Hj Hz; cbn in Hz; [congruence|]. eapply Hbefore; [|done]. lia.
Qed.

Lemma position_None P l : position P l = None <-> Forall (fun x => P x = false) l.
Proof.
  induction l as [|x l IH]; cbn.
  { split; [constructor|done]. }
  rewrite Forall_cons. destruct (P x) eqn:HP.
  { split; [done|]. intros [? _]. congruence. }
  destruct (position P l); cbn; naive_solver.
Qed.

(** [iter().filter(..).count()] *)
Definition count (P : A -> bool) (l : list A) : nat := length (filter (fun x => P x) l).

Lemma count_cons P x l :
  count P (x :: l) = (if P x then 1 else 0) + count P l.
Proof. unfold count. rewrite filter_cons. destruct (P x); cbn; done. Qed.

Lemma count_app P l k : count P (l ++ k) = count P l + count P k.
Proof. unfold count. by rewrite filter_app, length_app. Qed.

#[export] Instance count_Permutation P :
  Proper ((≡ₚ) ==> (=)) (count P).
Proof. intros l k Hlk. unfold count. by rewrite Hlk. Qed.

(** [Vec::retain] *)
Definition retain (P : A -> bool) (l : list A) : list A := filter (fun x => P x) l.

(** [slice::contains], [iter().any(..)] *)
Definition any (P : A -> bool) (l : list A) : bool := existsb P l.

Lemma any_true P l : any P l = true <-> exists x, x ∈ l /\ P x = true.
Proof.
  unfold any. rewrite existsb_exists. by setoid_rewrite list_elem_of_In.
Qed.

(** The elements of [k] in order, with some of them left out. *)
Lemma retain_sublist P l : retain P l `sublist_of` l.
Proof. apply sublist_filter. Qed.

Lemma retain_app P k l : retain P (k ++ l) = retain P k ++ retain P l.
Proof. apply filter_app. Qed.

Lemma retain_cons P x l : retain P (x :: l) = (if P x then [x] else []) ++ retain P l.
Proof. unfold retain. rewrite filter_cons. by destruct (P x). Qed.

Lemma elem_of_retain P l x : x ∈ retain P l <-> P x = true /\ x ∈ l.
Proof. unfold retain. by rewrite list_elem_of_filter, Is_true_true. Qed.

Lemma Forall_submseteq (P : A -> Prop) k l : k ⊆+ l -> Forall P l -> Forall P k.
Proof. intros Hk. rewrite !Forall_forall. intros Hl x Hx. apply Hl. by eapply elem_of_submseteq. Qed.

Lemma retain_submseteq P k l : k ⊆+ l -> retain P k ⊆+ retain P l.
Proof.
  intros [r Hl]%submseteq_Permutation. unfold retain. rewrite Hl, filter_app. by apply submseteq_inserts_r.
Qed.

Lemma retain_sublist_mono P k l : k `sublist_of` l -> retain P k `sublist_of` retain P l.
Proof.
  induction 1 as [|x k l _ IH|x k l _ IH]; [done|..]; rewrite !retain_cons; [by apply sublist_app|].
  by apply sublist_inserts_l.
Qed.

Lemma count_retain_le P Q l : count P (retain Q l) <= count P l.
Proof.
  unfold retain. induction l as [|x l IH]; [done|].
  rewrite filter_cons. case_decide; rewrite !count_cons; destruct (P x); lia.
Qed.

(** Removing at increasing positions, the last one first, removes exactly the elements
    that were at these positions. *)
Lemma swap_remove_all_perm (idx : list nat) l :
  StronglySorted lt idx -> Forall (fun i => i < length l) idx ->
  l ≡ₚ omap (fun i => l !! i) idx ++ foldr swap_remove l idx /\
  forall j, Forall (fun i => j < i) idx -> foldr swap_remove l idx !! j = l !! j.
Proof.
  induction idx as [|i idx IH]; intros Hs Hlt; [done|].
  apply StronglySorted_inv in Hs as [Hs Hi]. apply Forall_cons in Hlt as [Hil Hlt].
  destruct (IH Hs Hlt) as [Hp Hl]. cbn [foldr omap list_omap].
  specialize (Hl i Hi) as Hli. apply lookup_lt_is_Some in Hil as [x Hx].
  rewrite Hx in Hli |- *. split.
  - rewrite Hp at 1. rewrite (swap_remove_perm _ _ _ Hli) at 1. cbn. solve_Permutation.
  - intros j [Hji Hj]%Forall_cons. rewrite swap_remove_lookup_lt; [by apply Hl|done|].
    by apply lookup_lt_Some in Hli.
Qed.

Lemma swap_remove_insert l i x : i < length l -> swap_remove i (<[i := x]> l) = swap_remove i l.
Proof.
  destruct l as [|y l' _] using rev_ind; [done|]. rewrite length_app. cbn. intros Hi.
  destruct (decide (i < length l')).
  - rewrite insert_app_l by done.
    rewrite !swap_remove_snoc by (rewrite ?length_insert; done). by rewrite list_insert_insert_eq.
  - assert (i = length l') as -> by lia.
    rewrite (insert_app_r_alt l' [y]), Nat.sub_diag by lia. cbn. by rewrite !swap_remove_last.
Qed.

Lemma swap_remove_submseteq l i : swap_remove i l ⊆+ l.
Proof.
  destruct (decide (i < length l)) as [[y Hy]%lookup_lt_is_Some|Hge].
  - apply swap_remove_perm in Hy as Hp. rewrite Hp at 2. by apply submseteq_cons.
  - unfold swap_remove. destruct (last l); [|done]. rewrite list_insert_ge by lia.
    apply sublist_submseteq, sublist_take.
Qed.

Lemma count_insert P l i x y :
  l !! i = Some x -> count P (<[i := y]> l) + (if P x then 1 else 0) = count P l + (if P y then 1 else 0).
Proof.
  intros Hx. pose proof (lookup_lt_Some _ _ _ Hx). rewrite <-(take_drop_middle l i x Hx) at 2.
  rewrite insert_take_drop by done. rewrite !count_app, !count_cons. lia.
Qed.

Lemma count_le_length P l : count P l <= length l.
Proof. unfold count. apply length_filter. Qed.

Lemma count_split P l : count P l + count (fun x => negb (P x)) l = length l.
Proof. induction l as [|x l IH]; [done|]. rewrite !count_cons. cbn. destruct (P x); cbn; lia. Qed.

Lemma sublist_reverse l k : l `sublist_of` k -> reverse l `sublist_of` reverse k.
Proof.
  induction 1 as [|x l k _ IH|x l k _ IH]; rewrite ?reverse_cons; [done|by apply sublist_app|].
  by apply sublist_inserts_r.
Qed.
End vec.

#[export] Hint Resolve retain_sublist swap_remove_submseteq sublist_reverse : vpn.
