(* ===== verification/Text.v ===== *)
(** * Text: the string operations of the Rust standard library the program uses

    A [str] is the sequence of its Unicode scalar values ([rstr], a [list N]); byte
    lengths and byte views go through its UTF-8 encoding. Packets and other byte
    strings are [list Z] with values 0..255. *)

From S2P Require Import Prelude.
From Stdlib Require Import Ascii.

Local Open Scope Z_scope.

(** A character literal. *)
Definition ch (a : ascii) : N := N_of_ascii a.

(** [char::is_whitespace]: the Unicode White_Space property. *)
Definition is_whitespace (c : N) : bool :=
  ((9 <=? c) && (c <=? 13) || (c =? 32) || (c =? 133) || (c =? 160) || (c =? 5760)
   || (8192 <=? c) && (c <=? 8202) || (c =? 8232) || (c =? 8233) || (c =? 8239)
   || (c =? 8287) || (c =? 12288))%N.

(** ** UTF-8 *)
Definition utf8_char (c : N) : list Z :=
  let c := Z.of_N c in
  if c <? 0x80 then [c]
  else if c <? 0x800 then [0xC0 + c / 64; 0x80 + c mod 64]
  else if c <? 0x10000 then [0xE0 + c / 4096; 0x80 + (c / 64) mod 64; 0x80 + c mod 64]
  else [0xF0 + c / 262144; 0x80 + (c / 4096) mod 64; 0x80 + (c / 64) mod 64; 0x80 + c mod 64].

(** [str::as_bytes] *)
Definition as_bytes (s : rstr) : list Z := s ≫= utf8_char.

(** [str::len]: the length in bytes. *)
Definition str_len (s : rstr) : Z := Z.of_nat (length (as_bytes s)).

(** A byte string literal such as [b"..."]. *)
Definition bytes (s : String.string) : list Z := Z.of_N <$> str s.

(** [String::from_utf8_lossy]: every maximal ill-formed part becomes U+FFFD. [sequence]
    gives the allowed ranges of the bytes after a lead byte, and the lead byte's bits. *)
Definition sequence (b : Z) : option (list (Z * Z) * Z) :=
  if (0xC2 <=? b) && (b <=? 0xDF) then Some ([(0x80, 0xBF)], b - 0xC0)
  else if b =? 0xE0 then Some ([(0xA0, 0xBF); (0x80, 0xBF)], 0)
  else if b =? 0xED then Some ([(0x80, 0x9F); (0x80, 0xBF)], b - 0xE0)
  else if (0xE1 <=? b) && (b <=? 0xEF) then Some ([(0x80, 0xBF); (0x80, 0xBF)], b - 0xE0)
  else if b =? 0xF0 then Some ([(0x90, 0xBF); (0x80, 0xBF); (0x80, 0xBF)], 0)
  else if (0xF1 <=? b) && (b <=? 0xF3) then Some ([(0x80, 0xBF); (0x80, 0xBF); (0x80, 0xBF)], b - 0xF0)
  else if b =? 0xF4 then Some ([(0x80, 0x8F); (0x80, 0xBF); (0x80, 0xBF)], b - 0xF0)
  else None.

(** [wanted] is what may still follow in the current character, [acc] its bits so far. *)
Fixpoint decode_lossy (wanted : list (Z * Z)) (acc : Z) (bs : list Z) : rstr :=
  match bs with
  | [] => match wanted with [] => [] | _ => [0xFFFD%N] end
  | b :: bs' =>
      let start :=
        if b <? 0x80 then Z.to_N b :: decode_lossy [] 0 bs'
        else match sequence b with
             | Some (ranges, bits) => decode_lossy ranges bits bs'
             | None => 0xFFFD%N :: decode_lossy [] 0 bs'
             end in
      match wanted with
      | [] => start
      | (lo, hi) :: wanted' =>
          if (lo <=? b) && (b <=? hi) then
            let acc := acc * 64 + (b - 0x80) in
            match wanted' with
            | [] => Z.to_N acc :: decode_lossy [] 0 bs'
            | _ => decode_lossy wanted' acc bs'
            end
          else 0xFFFD%N :: start
      end
  end.
Definition from_utf8_lossy (bs : list Z) : rstr := decode_lossy [] 0 bs.

(** [str::from_utf8]: [None] for ill-formed input. *)
Fixpoint decode_strict (wanted : list (Z * Z)) (acc : Z) (bs : list Z) : option rstr :=
  match bs with
  | [] => match wanted with [] => Some [] | _ => None end
  | b :: bs' =>
      match wanted with
      | [] =>
          if b <? 0x80 then cons (Z.to_N b) <$> decode_strict [] 0 bs'
          else '(ranges, bits) ← sequence b; decode_strict ranges bits bs'
      | (lo, hi) :: wanted' =>
          if (lo <=? b) && (b <=? hi) then
            let acc := acc * 64 + (b - 0x80) in
            match wanted' with
            | [] => cons (Z.to_N acc) <$> decode_strict [] 0 bs'
            | _ => decode_strict wanted' acc bs'
            end
          else None
      end
  end.
Definition from_utf8 (bs : list Z) : option rstr := decode_strict [] 0 bs.

(** ** Trimming and splitting *)
Fixpoint trim_start_by (P : N -> bool) (s : rstr) : rstr :=
  match s with
  | c :: s' => if P c then trim_start_by P s' else s
  | [] => []
  end.

Definition trim_end_by (P : N -> bool) (s : rstr) : rstr :=
  reverse (trim_start_by P (reverse s)).

(** [str::trim] *)
Definition trim (s : rstr) : rstr := trim_end_by is_whitespace (trim_start_by is_whitespace s).

(** [str::split_once] on a character. *)
Fixpoint split_once (d : N) (s : rstr) : option (rstr * rstr) :=
  match s with
  | [] => None
  | c :: s' =>
      if decide (c = d) then Some ([], s')
      else '(a, b) ← split_once d s'; Some (c :: a, b)
  end.

(** [s.split(d).next().unwrap_or("")]: what precedes the first [d]. *)
Fixpoint before (d : N) (s : rstr) : rstr :=
  match s with
  | [] => []
  | c :: s' => if decide (c = d) then [] else c :: before d s'
  end.

(** [str::strip_prefix], also [<[u8]>::strip_prefix] on byte strings. *)
Fixpoint strip_prefix {A} `{EqDecision A} (p s : list A) : option (list A) :=
  match p, s with
  | [], _ => Some s
  | a :: p', c :: s' => if decide (a = c) then strip_prefix p' s' else None
  | _ :: _, [] => None
  end.

(** [str::starts_with] *)
Definition starts_with (p s : rstr) : bool := bool_decide (is_Some (strip_prefix p s)).

(** [str::ends_with] on a character. *)
Definition ends_with (d : N) (s : rstr) : bool := bool_decide (last s = Some d).

(** [str::contains] *)
Fixpoint contains (p s : rstr) : bool :=
  starts_with p s || match s with [] => false | _ :: s' => contains p s' end.

(** [str::split_whitespace]: the maximal runs of non-whitespace characters. *)
Fixpoint words (cur s : rstr) : list rstr :=
  let flush := match cur with [] => [] | _ => [cur] end in
  match s with
  | [] => flush
  | c :: s' => if is_whitespace c then flush ++ words [] s' else words (cur ++ [c]) s'
  end.
Definition split_whitespace (s : rstr) : list rstr := words [] s.

(** [str::lines]: lines end with [\n] or [\r\n]; the last line may be unterminated. *)
Definition strip_cr (s : rstr) : rstr :=
  if decide (last s = Some 13%N) then take (length s - 1)%nat s else s.
Fixpoint lines_from (cur s : rstr) : list rstr :=
  match s with
  | [] => match cur with [] => [] | _ => [cur] end
  | c :: s' => if decide (c = 10%N) then strip_cr cur :: lines_from [] s'
               else lines_from (cur ++ [c]) s'
  end.
Definition lines (s : rstr) : list rstr := lines_from [] s.

(** [\[_\]::join("\n")] *)
Fixpoint join_lines (ls : list rstr) : rstr :=
  match ls with
  | [] => []
  | [l] => l
  | l :: ls' => l ++ 10%N :: join_lines ls'
  end.

(** [str::to_ascii_lowercase] *)
Definition to_ascii_lower_char (c : N) : N :=
  if ((65 <=? c) && (c <=? 90))%N then (c + 32)%N else c.
Definition to_ascii_lowercase (s : rstr) : rstr := to_ascii_lower_char <$> s.

(** [str::replace(c, "")] *)
Definition remove_char (d : N) (s : rstr) : rstr := filter (fun c => c <> d) s.

(** [u8::is_ascii_hexdigit] *)
Definition is_ascii_hexdigit (b : Z) : bool :=
  (48 <=? b) && (b <=? 57) || (65 <=? b) && (b <=? 70) || (97 <=? b) && (b <=? 102).

(** ** Decimal numbers *)

(** [char::to_digit(10)] *)
Definition to_digit (c : N) : option Z :=
  if ((48 <=? c) && (c <=? 57))%N then Some (Z.of_N c - 48) else None.

(** The digit loop of [uN::from_str_radix]: every step is checked against the type's
    maximum. *)
Fixpoint parse_digits (max acc : Z) (s : rstr) : option Z :=
  match s with
  | [] => Some acc
  | c :: s' =>
      d ← to_digit c;
      let v := acc * 10 + d in
      if v <=? max then parse_digits max v s' else None
  end.

(** [str::parse::<uN>()] where [max] is [uN::MAX]: one leading [+] is accepted, an
    empty text or a bare sign is not. *)
Definition parse_uint (max : Z) (s : rstr) : option Z :=
  match s with
  | [] => None
  | c :: s' =>
      if decide (c = ch "+") then (match s' with [] => None | _ => parse_digits max 0 s' end)
      else parse_digits max 0 s
  end.

(** [Display] of an unsigned integer. *)
Definition digit_char (d : Z) : N := Z.to_N (d + 48).
Fixpoint dec_digits (fuel : nat) (n : Z) (tail : rstr) : rstr :=
  if n <? 10 then digit_char n :: tail
  else match fuel with
       | O => tail
       | S fuel' => dec_digits fuel' (n / 10) (digit_char (n mod 10) :: tail)
       end.
Definition display_uint (n : Z) : rstr := dec_digits (Z.to_nat (Z.log2 n)) n [].

(** [Display] of a signed integer. *)
Definition display_int (n : Z) : rstr :=
  if n <? 0 then ch "-" :: display_uint (- n) else display_uint n.

(** ** Lemmas *)

Lemma strip_prefix_Some {A} `{EqDecision A} (p s r : list A) :
  strip_prefix p s = Some r <-> s = p ++ r.
Proof.
  revert s. induction p as [|a p IH]; intros [|c s]; cbn; try naive_solver.
  case_decide; [|naive_solver]. rewrite IH. naive_solver.
Qed.

Lemma starts_with_spec p s : starts_with p s = true <-> exists r, s = p ++ r.
Proof.
  unfold starts_with. rewrite bool_decide_eq_true. unfold is_Some.
  by setoid_rewrite strip_prefix_Some.
Qed.

Lemma split_once_Some d s a b :
  split_once d s = Some (a, b) <-> s = a ++ d :: b /\ d ∉ a.
Proof.
  revert a b. induction s as [|c s IH]; intros a b; cbn.
  { split; [done|]. intros [H _]. by destruct a. }
  case_decide as Hc; subst.
  - split; [intros [= <- <-]; split; [done|set_solver]|].
    intros [H Hd]. destruct a as [|x a]; cbn in H; simplify_eq; [done|]. set_solver.
  - destruct (split_once d s) as [[a' b']|] eqn:Hs; cbn.
    + destruct (proj1 (IH a' b') eq_refl) as [-> Hd]. split.
      * intros [= <- <-]. split; [done|set_solver].
      * intros [H Hd']. destruct a as [|x a]; cbn in H; simplify_eq.
        assert (a' = a /\ b' = b) as [-> ->]; [|done].
        assert (Some (a', b') = Some (a, b)) as [= -> ->]; [|done].
        apply IH. split; [done|set_solver].
    + split; [done|]. intros [H Hd']. destruct a as [|x a]; cbn in H; simplify_eq.
      assert (None = Some (a, b)); [|done]. apply IH. set_solver.
Qed.

Lemma split_once_None d s : split_once d s = None <-> d ∉ s.
Proof.
  induction s as [|c s IH]; cbn; [split; [intros _; set_solver|done]|].
  case_decide; subst; [split; [done|set_solver]|].
  destruct (split_once d s) as [[??]|]; cbn; set_solver.
Qed.

Lemma before_spec d s : s = before d s \/ exists r, s = before d s ++ d :: r.
Proof.
  induction s as [|c s IH]; cbn; [by left|].
  case_decide; subst; [right; by exists s|].
  destruct IH as [IH|[r IH]]; [left|right; exists r]; cbn; by rewrite <-IH.
Qed.

Lemma before_notin d s : d ∉ s -> before d s = s.
Proof.
  induction s as [|c s IH]; cbn; [done|]. intros Hd.
  rewrite decide_False by set_solver. rewrite IH; set_solver.
Qed.

(** *** Decimal round trip *)
Lemma to_digit_digit_char d : 0 <= d < 10 -> to_digit (digit_char d) = Some d.
Proof.
  intros Hd. unfold to_digit, digit_char.
  assert ((48 <=? Z.to_N (d + 48)) && (Z.to_N (d + 48) <=? 57) = true)%N as ->.
  { apply andb_true_iff. rewrite !N.leb_le. lia. }
  f_equal. lia.
Qed.

Lemma parse_digits_cons max acc d s :
  0 <= d < 10 -> acc * 10 + d <= max ->
  parse_digits max acc (digit_char d :: s) = parse_digits max (acc * 10 + d) s.
Proof.
  intros Hd Hmax. cbn [parse_digits]. rewrite to_digit_digit_char by done.
  cbv [mbind option_bind]. by rewrite (proj2 (Z.leb_le _ _)) by done.
Qed.

Lemma parse_digits_dec_digits max fuel n tail :
  0 <= n <= max -> n < 10 * 2 ^ Z.of_nat fuel ->
  parse_digits max 0 (dec_digits fuel n tail) = parse_digits max n tail.
Proof.
  revert n tail. induction fuel as [|fuel IH]; intros n tail Hn Hf; cbn [dec_digits].
  - rewrite (proj2 (Z.ltb_lt n 10)) by (cbn in Hf; lia).
    rewrite parse_digits_cons by (cbn in Hf; lia). done.
  - destruct (Z.ltb_spec n 10); [rewrite parse_digits_cons by lia; done|].
    pose proof (Z.div_mod n 10 ltac:(lia)) as Hdm.
    pose proof (Z.mod_pos_bound n 10 ltac:(lia)) as Hm.
    rewrite Nat2Z.inj_succ, Z.pow_succ_r in Hf by lia.
    rewrite IH; [|split; [apply Z.div_pos|]; lia|apply Z.div_lt_upper_bound; lia].
    rewrite parse_digits_cons by lia. f_equal. lia.
Qed.

Lemma dec_digits_head fuel n tail :
  0 <= n -> n < 10 * 2 ^ Z.of_nat fuel ->
  exists d s, 0 <= d < 10 /\ dec_digits fuel n tail = digit_char d :: s.
Proof.
  revert n tail. induction fuel as [|fuel IH]; intros n tail Hn Hf; cbn [dec_digits].
  - rewrite (proj2 (Z.ltb_lt n 10)) by (cbn in Hf; lia). exists n, tail. split; [cbn in Hf; lia|done].
  - destruct (Z.ltb_spec n 10); [exists n, tail; split; [lia|done]|].
    apply IH; [apply Z.div_pos; lia|].
    apply Z.div_lt_upper_bound; [lia|].
    rewrite Nat2Z.inj_succ, Z.pow_succ_r in Hf by lia. lia.
Qed.

Lemma log2_fuel n : 0 <= n -> n < 10 * 2 ^ Z.of_nat (Z.to_nat (Z.log2 n)).
Proof.
  intros Hn. rewrite Z2Nat.id by apply Z.log2_nonneg.
  destruct (decide (n = 0)) as [->|]; [cbn; lia|].
  pose proof (Z.log2_spec n ltac:(lia)) as [_ H].
  rewrite Z.pow_succ_r in H by apply Z.log2_nonneg. lia.
Qed.

Lemma parse_display_uint max n :
  0 <= n <= max -> parse_uint max (display_uint n) = Some n.
Proof.
  intros Hn. unfold display_uint.
  destruct (dec_digits_head _ n [] ltac:(lia) (log2_fuel n ltac:(lia)))
    as (d & s & Hd & Heq).
  rewrite Heq. cbn. rewrite decide_False.
  2:{ unfold digit_char, ch. cbn. lia. }
  change (parse_digits max 0 (digit_char d :: s) = Some n). rewrite <-Heq.
  rewrite parse_digits_dec_digits by (try apply log2_fuel; lia). done.
Qed.

Lemma to_digit_range c d : to_digit c = Some d -> 0 <= d < 10 /\ c = digit_char d.
Proof.
  unfold to_digit, digit_char. destruct (_ && _)%N eqn:H; [|done].
  apply andb_true_iff in H as [H1%N.leb_le H2%N.leb_le]. intros [= <-]. lia.
Qed.

Lemma parse_digits_bound max acc s v :
  0 <= acc <= max -> parse_digits max acc s = Some v -> 0 <= v <= max.
Proof.
  revert acc. induction s as [|c s IH]; cbn; intros acc Hacc; [naive_solver|].
  destruct (to_digit c) as [d|] eqn:Hd; cbn; [|done].
  apply to_digit_range in Hd as [Hd _]. destruct (Z.leb_spec (acc * 10 + d) max); [|done].
  apply IH. lia.
Qed.

Lemma parse_uint_bound max s v : 0 <= max -> parse_uint max s = Some v -> 0 <= v <= max.
Proof.
  intros Hmax. unfold parse_uint. destruct s as [|c s]; [done|].
  case_decide; [destruct s; [done|]|]; apply parse_digits_bound; lia.
Qed.

(** ** UTF-8 round trip *)

(** [char]: a Unicode scalar value. *)
Definition is_scalar (c : N) : Prop := (c < 0xD800 \/ 0xE000 <= c <= 0x10FFFF)%N.

Lemma decode_lead b bs acc ranges bits :
  0x80 <= b -> sequence b = Some (ranges, bits) ->
  decode_strict [] acc (b :: bs) = decode_strict ranges bits bs.
Proof. intros Hb Hs. cbn [decode_strict]. by rewrite (proj2 (Z.ltb_ge _ _)), Hs. Qed.

Lemma decode_next lo hi wanted acc b bs :
  lo <= b <= hi ->
  decode_strict ((lo, hi) :: wanted) acc (b :: bs) =
    match wanted with
    | [] => cons (Z.to_N (acc * 64 + (b - 0x80))) <$> decode_strict [] 0 bs
    | _ => decode_strict wanted (acc * 64 + (b - 0x80)) bs
    end.
Proof. intros [? ?]. cbn [decode_strict]. by rewrite (proj2 (Z.leb_le lo b)), (proj2 (Z.leb_le b hi)). Qed.

Lemma sequence_2 k : 2 <= k <= 31 -> sequence (0xC0 + k) = Some ([(0x80, 0xBF)], k).
Proof.
  intros Hk. unfold sequence. rewrite (proj2 (Z.leb_le 0xC2 _)), (proj2 (Z.leb_le _ 0xDF)) by lia.
  cbn [andb]. by replace (0xC0 + k - 0xC0) with k by lia.
Qed.

Lemma sequence_3 k r : 0 <= k <= 15 -> 0 <= r < 64 -> (k = 0 -> 32 <= r) -> (k = 13 -> r < 32) ->
  exists lo hi, sequence (0xE0 + k) = Some ([(lo, hi); (0x80, 0xBF)], k) /\ lo <= 0x80 + r <= hi.
Proof.
  intros Hk Hr H0 H13. unfold sequence. replace (0xE0 + k - 0xE0) with k by lia.
  rewrite (proj2 (Z.leb_gt _ 0xDF)), andb_false_r by lia.
  destruct (Z.eqb_spec (0xE0 + k) 0xE0) as [He|]; [exists 0xA0, 0xBF; replace k with 0 by lia; split; [done|lia]|].
  destruct (Z.eqb_spec (0xE0 + k) 0xED); [exists 0x80, 0x9F; split; [done|lia]|].
  rewrite (proj2 (Z.leb_le 0xE1 _)), (proj2 (Z.leb_le _ 0xEF)) by lia. exists 0x80, 0xBF. split; [done|lia].
Qed.

Lemma sequence_4 k r : 0 <= k <= 4 -> 0 <= r < 64 -> (k = 0 -> 16 <= r) -> (k = 4 -> r < 16) ->
  exists lo hi, sequence (0xF0 + k) = Some ([(lo, hi); (0x80, 0xBF); (0x80, 0xBF)], k) /\ lo <= 0x80 + r <= hi.
Proof.
  intros Hk Hr H0 H4. unfold sequence. replace (0xF0 + k - 0xF0) with k by lia.
  rewrite (proj2 (Z.leb_gt _ 0xDF)), andb_false_r by lia.
  rewrite (proj2 (Z.eqb_neq _ 0xE0)), (proj2 (Z.eqb_neq _ 0xED)) by lia.
  rewrite (proj2 (Z.leb_gt _ 0xEF)), andb_false_r by lia.
  destruct (Z.eqb_spec (0xF0 + k) 0xF0); [exists 0x90, 0xBF; replace k with 0 by lia; split; [done|lia]|].
  rewrite (proj2 (Z.leb_le 0xF1 _)) by lia.
  destruct (Z.leb_spec (0xF0 + k) 0xF3); cbn [andb]; [exists 0x80, 0xBF; split; [done|lia]|].
  rewrite (proj2 (Z.eqb_eq _ 0xF4)) by lia. exists 0x80, 0x8F. split; [done|lia].
Qed.

Lemma decode_strict_char c bs :
  is_scalar c -> decode_strict [] 0 (utf8_char c ++ bs) = cons c <$> decode_strict [] 0 bs.
Proof.
  intros Hc. unfold utf8_char.
  assert (0 <= Z.of_N c <= 0x10FFFF /\ (Z.of_N c < 0xD800 \/ 0xE000 <= Z.of_N c)) as [Hz Hs]
    by (unfold is_scalar in Hc; lia).
  assert (forall x, x = Z.of_N c -> Z.to_N x = c) as Hback by (intros x ->; lia).
  revert Hz Hs Hback. generalize (Z.of_N c). intros z Hz Hs Hback. cbv zeta.
  pose proof (Z.div_mod z 64 ltac:(done)). pose proof (Z.mod_pos_bound z 64 ltac:(done)).
  pose proof (Z.div_mod (z / 64) 64 ltac:(done)). pose proof (Z.mod_pos_bound (z / 64) 64 ltac:(done)).
  pose proof (Z.div_mod (z / 4096) 64 ltac:(done)). pose proof (Z.mod_pos_bound (z / 4096) 64 ltac:(done)).
  assert (z / 64 / 64 = z / 4096) by by rewrite Z.div_div.
  assert (z / 4096 / 64 = z / 262144) by by rewrite Z.div_div.
  destruct (Z.ltb_spec z 0x80); [|destruct (Z.ltb_spec z 0x800); [|destruct (Z.ltb_spec z 0x10000)]]; cbn [app].
  - cbn [decode_strict]. rewrite (proj2 (Z.ltb_lt _ _)) by done. by rewrite Hback.
  - rewrite (decode_lead (0xC0 + z / 64) _ _ _ _ ltac:(lia) (sequence_2 (z / 64) ltac:(lia))).
    rewrite decode_next by lia. by rewrite Hback by lia.
  - destruct (sequence_3 (z / 4096) ((z / 64) mod 64)) as (lo & hi & Hseq & Hr); [lia..|].
    rewrite (decode_lead (0xE0 + z / 4096) _ _ _ _ ltac:(lia) Hseq), !decode_next by lia. by rewrite Hback by lia.
  - destruct (sequence_4 (z / 262144) ((z / 4096) mod 64)) as (lo & hi & Hseq & Hr); [lia..|].
    rewrite (decode_lead (0xF0 + z / 262144) _ _ _ _ ltac:(lia) Hseq), !decode_next by lia. by rewrite Hback by lia.
Qed.

Lemma from_utf8_as_bytes s : Forall is_scalar s -> from_utf8 (as_bytes s) = Some s.
Proof.
  unfold from_utf8, as_bytes. induction 1 as [|c s Hc _ IH]; [done|].
  cbn [mbind list_bind] in *. by rewrite decode_strict_char, IH.
Qed.

Lemma as_bytes_inj s s' :
  Forall is_scalar s -> Forall is_scalar s' -> as_bytes s = as_bytes s' -> s = s'.
Proof. intros H1%from_utf8_as_bytes H2%from_utf8_as_bytes Heq. congruence. Qed.
