(* ===== verification/Net.v ===== *)
(** * IPv4 addresses, CIDR networks, tunnelled packets and socket addresses

    Models the address helpers of [src/lib.rs] and the peer comparison of
    [src/server/socket.rs]. An [Ipv4Addr] is its [u32] value; a packet is a list of
    byte values. *)

From S2P Require Import Prelude Text.
From Stdlib Require Import Ascii.

Local Open Scope Z_scope.

(** ** [std::net::Ipv4Addr] *)
Abbreviation Ipv4Addr := Z (only parsing).

Definition is_ipv4 (a : Ipv4Addr) : Prop := 0 <= a <= u32_max.
Definition is_byte (b : Z) : Prop := 0 <= b <= 255.

(** [Ipv4Addr::new] *)
Definition ipv4_new (a b c d : Z) : Ipv4Addr := ((a * 256 + b) * 256 + c) * 256 + d.

(** [Ipv4Addr::octets] *)
Definition octet (i : Z) (a : Ipv4Addr) : Z := (a / 256 ^ (3 - i)) mod 256.
Definition octets (a : Ipv4Addr) : list Z := [octet 0 a; octet 1 a; octet 2 a; octet 3 a].

Definition BROADCAST : Ipv4Addr := u32_max.
Definition UNSPECIFIED : Ipv4Addr := 0.

(** [Ipv4Addr::is_multicast]: 224.0.0.0/4 *)
Definition is_multicast (a : Ipv4Addr) : bool := (224 <=? octet 0 a) && (octet 0 a <=? 239).

(** [Display] of an [Ipv4Addr]. *)
Definition display_ipv4 (a : Ipv4Addr) : rstr :=
  display_uint (octet 0 a) ++ ch "." :: display_uint (octet 1 a)
  ++ ch "." :: display_uint (octet 2 a) ++ ch "." :: display_uint (octet 3 a).

(** [read_number(10, Some(3), false)] of the standard library's address parser: one to
    three digits, no leading zero before another digit, at most 255. *)
Fixpoint read_digits (count : nat) (acc : Z) (s : rstr) : option (nat * Z * rstr) :=
  match s with
  | c :: s' =>
      match to_digit c with
      | Some d =>
          let v := acc * 10 + d in
          if u8_max <? v then None
          else if (3 <? S count)%nat then None
          else read_digits (S count) v s'
      | None => Some (count, acc, s)
      end
  | [] => Some (count, acc, s)
  end.

Definition read_octet (s : rstr) : option (Z * rstr) :=
  '(count, v, rest) ← read_digits 0 0 s;
  if (count =? 0)%nat then None
  else if bool_decide (head s = Some (ch "0")) && (1 <? count)%nat then None
  else Some (v, rest).

Definition read_dot (s : rstr) : option rstr :=
  match s with c :: s' => if decide (c = ch ".") then Some s' else None | [] => None end.

(** [str::parse::<Ipv4Addr>()] *)
Definition parse_ipv4 (s : rstr) : option Ipv4Addr :=
  if 15 <? str_len s then None else
  '(a, s) ← read_octet s; s ← read_dot s;
  '(b, s) ← read_octet s; s ← read_dot s;
  '(c, s) ← read_octet s; s ← read_dot s;
  '(d, s) ← read_octet s;
  match s with [] => Some (ipv4_new a b c d) | _ => None end.

(** ** CIDR networks *)

(** The mask the code computes as [if prefix == 0 { 0 } else { u32::MAX << (32 - prefix) }];
    every prefix that reaches it is at most 32. *)
Definition mask (prefix : Z) : Z :=
  if prefix =? 0 then 0 else Z.land (Z.shiftl u32_max (32 - prefix)) u32_max.

Definition parse_ipv4_cidr (value : rstr) : io (Ipv4Addr * Z) :=
  '(address, prefix) ← ok_or (split_once (ch "/") value)
                         (new_error InvalidInput "network must be CIDR");
  address ← ok_or (parse_ipv4 address) (new_error InvalidInput "invalid IPv4 network");
  prefix ← ok_or (parse_uint u8_max prefix) (new_error InvalidInput "invalid network prefix");
  if 32 <? prefix then Err (new_error InvalidInput "invalid network prefix")
  else if negb (Z.land address (mask prefix) =? address)
  then Err (new_error InvalidInput "CIDR address contains host bits")
  else Ok (address, prefix).

Definition ipv4_in_cidr (address network : Ipv4Addr) (prefix : Z) : bool :=
  Z.land address (mask prefix) =? network.

(** [!mask] on a [u32]. *)
Definition not_u32 (a : Z) : Z := u32_max - a.

Definition ipv4_is_broadcast (address network : Ipv4Addr) (prefix : Z) : bool :=
  if address =? BROADCAST then true
  else if 32 <=? prefix then false
  else address =? Z.lor network (not_u32 (mask prefix)).

(** ** Tunnelled IPv4 packets *)

(** Indexing a packet; every use is guarded by the length. *)
Definition byte_at (p : list Z) (i : nat) : Z := nth i p 0.

Definition u16_from_be_bytes (hi lo : Z) : Z := hi * 256 + lo.

(** The total length, header length and addresses are checked in this order. *)
Definition ipv4_packet_addresses (packet : list Z) : option (Ipv4Addr * Ipv4Addr) :=
  let len := Z.of_nat (length packet) in
  if (len <? 20) || negb (Z.shiftr (byte_at packet 0) 4 =? 4) then None else
  let header_length := Z.land (byte_at packet 0) 0x0f * 4 in
  if (header_length <? 20) || (len <? header_length) then None else
  let total_length := u16_from_be_bytes (byte_at packet 2) (byte_at packet 3) in
  if (total_length <? header_length) || negb (total_length =? len) then None else
  Some (ipv4_new (byte_at packet 12) (byte_at packet 13) (byte_at packet 14) (byte_at packet 15),
        ipv4_new (byte_at packet 16) (byte_at packet 17) (byte_at packet 18) (byte_at packet 19)).

Definition ipv4_destination (packet : list Z) : option Ipv4Addr :=
  snd <$> ipv4_packet_addresses packet.
Definition ipv4_source (packet : list Z) : option Ipv4Addr :=
  fst <$> ipv4_packet_addresses packet.

(** ** Control frames carried beside the packets *)
Definition KEEPALIVE_PACKET : list Z := [0].
Definition AUTH_REQUIRED : list Z := 0xff :: bytes "AVPN_AUTH_REQUIRED".
Definition AUTH_OK : list Z := 0xff :: bytes "AVPN_AUTH_OK".
Definition AUTH_FAILED : list Z := 0xff :: bytes "AVPN_AUTH_FAILED".
Definition AUTH_LOGIN_PREFIX : list Z := 0xff :: bytes "AVPN_AUTH_LOGIN" ++ [0].

Definition is_keepalive_packet (packet : list Z) : bool := bool_decide (packet = KEEPALIVE_PACKET).

Definition validate_datagram_write (written expected : Z) : io unit :=
  if written =? expected then Ok ()
  else Err (Custom WriteZero (str "partial datagram write: " ++ display_uint written
                                ++ str "/" ++ display_uint expected ++ str " bytes")).

(** ** The tunnel MTU and TUN errors *)
Definition MIN_TUN_MTU : Z := 576.
Definition MAX_TUN_MTU : Z := 1500.

Definition validate_mtu (mtu : Z) : io unit :=
  if (MIN_TUN_MTU <=? mtu) && (mtu <=? MAX_TUN_MTU) then Ok ()
  else Err (new_error InvalidInput "MTU must be between 576 and 1500").

Inductive TunErrorAction := Retry | DropPacket | Fatal.

Definition classify_tun_error (error : io_error) : TunErrorAction :=
  if decide (kind error = WouldBlock \/ kind error = Interrupted) then Retry
  else if decide (raw_os_error error = Some ENOBUFS) then DropPacket
  else Fatal.

(** ** Socket addresses: [sockaddr_storage] is its 128 bytes (Linux layout, little
    endian family) *)
Definition AF_INET : Z := 2.

Definition socket_addr_storage_v4 (ip : Ipv4Addr) (port : Z) : list Z :=
  [AF_INET; 0; port / 256; port mod 256] ++ octets ip ++ repeat 0 120.

(** [memcmp] over the whole storage. *)
Definition same_peer (a b : list Z) : bool := bool_decide (a = b).

Definition peer_ipv4 (peer : list Z) : option Ipv4Addr :=
  if negb (byte_at peer 0 + 256 * byte_at peer 1 =? AF_INET) then None
  else Some (ipv4_new (byte_at peer 4) (byte_at peer 5) (byte_at peer 6) (byte_at peer 7)).

Example parse_ipv4_ex : parse_ipv4 (str "10.8.1.2") = Some (ipv4_new 10 8 1 2).
Proof. vm_compute. reflexivity. Qed.
Example parse_ipv4_ex2 : parse_ipv4 (str "10.8.01.2") = None.
Proof. vm_compute. reflexivity. Qed.
Example parse_cidr_ex : parse_ipv4_cidr (str "10.8.1.0/24") = Ok (ipv4_new 10 8 1 0, 24).
Proof. vm_compute. reflexivity. Qed.
Example parse_cidr_ex2 : is_err (parse_ipv4_cidr (str "10.8.1.7/24")) = true.
Proof. vm_compute. reflexivity. Qed.

(** ** Lemmas: octets *)

Lemma octet_byte i a : is_byte (octet i a).
Proof. unfold is_byte, octet. pose proof (Z.mod_pos_bound (a / 256 ^ (3 - i)) 256). lia. Qed.

Lemma octets_new a b c d :
  is_byte a -> is_byte b -> is_byte c -> is_byte d ->
  octets (ipv4_new a b c d) = [a; b; c; d].
Proof.
  unfold is_byte, octets, octet, ipv4_new. intros.
  change (256 ^ (3 - 0)) with 16777216. change (256 ^ (3 - 1)) with 65536.
  change (256 ^ (3 - 2)) with 256. change (256 ^ (3 - 3)) with 1.
  repeat f_equal; Z.div_mod_to_equations; lia.
Qed.

Lemma ipv4_new_octets a :
  is_ipv4 a -> ipv4_new (octet 0 a) (octet 1 a) (octet 2 a) (octet 3 a) = a.
Proof.
  unfold is_ipv4, u32_max, ipv4_new, octet. intros.
  change (256 ^ (3 - 0)) with 16777216. change (256 ^ (3 - 1)) with 65536.
  change (256 ^ (3 - 2)) with 256. change (256 ^ (3 - 3)) with 1.
  Z.div_mod_to_equations. lia.
Qed.

Lemma ipv4_new_is_ipv4 a b c d :
  is_byte a -> is_byte b -> is_byte c -> is_byte d -> is_ipv4 (ipv4_new a b c d).
Proof. unfold is_byte, is_ipv4, ipv4_new, u32_max. lia. Qed.

(** ** Lemmas: reading addresses *)

Definition octet_text (v : Z) : rstr :=
  if v <? 10 then [digit_char v]
  else if v <? 100 then [digit_char (v / 10); digit_char (v mod 10)]
  else [digit_char (v / 100); digit_char (v / 10 mod 10); digit_char (v mod 10)].

Lemma display_octet v : is_byte v -> display_uint v = octet_text v.
Proof.
  intros Hv.
  assert (forallb (fun v => bool_decide (display_uint v = octet_text v)) (seqZ 0 256) = true)
    as H by (vm_compute; reflexivity).
  rewrite forallb_forall in H. specialize (H v).
  rewrite <-list_elem_of_In, elem_of_seqZ in H. unfold is_byte in Hv.
  eapply bool_decide_eq_true_1, H. lia.
Qed.

Definition no_digit (s : rstr) : Prop := from_option to_digit None (head s) = None.

Lemma read_digits_stop n v s : no_digit s -> read_digits n v s = Some (n, v, s).
Proof. destruct s as [|c s]; cbn; [done|]. unfold no_digit. cbn. by intros ->. Qed.

Lemma read_digits_cons n v d s :
  0 <= d < 10 -> v * 10 + d <= u8_max -> (S n <= 3)%nat ->
  read_digits n v (digit_char d :: s) = read_digits (S n) (v * 10 + d) s.
Proof.
  intros Hd Hv Hn. cbn [read_digits]. rewrite to_digit_digit_char by done.
  rewrite (proj2 (Z.ltb_ge _ _)) by done.
  by rewrite (proj2 (Nat.ltb_ge _ _)) by done.
Qed.

Lemma digit_char_nonzero d : 0 < d < 10 -> digit_char d <> ch "0".
Proof. unfold digit_char, ch. cbn. lia. Qed.

Lemma read_octet_display v rest :
  is_byte v -> no_digit rest -> read_octet (display_uint v ++ rest) = Some (v, rest).
Proof.
  intros Hv Hr. rewrite display_octet by done. unfold octet_text, read_octet, is_byte in *.
  pose proof (Z.div_mod v 10 ltac:(lia)). pose proof (Z.mod_pos_bound v 10 ltac:(lia)).
  destruct (Z.ltb_spec v 10); [|destruct (Z.ltb_spec v 100)]; cbn [app].
  - rewrite read_digits_cons, read_digits_stop by (unfold u8_max; auto; lia). cbn.
    by rewrite andb_false_r.
  - rewrite !read_digits_cons, read_digits_stop by (unfold u8_max; auto; lia).
    cbn -[Z.mul Z.add]. rewrite bool_decide_eq_false_2; [repeat f_equal; lia|].
    intros [= Heq]. by apply digit_char_nonzero in Heq; [|lia].
  - pose proof (Z.div_mod (v / 10) 10 ltac:(lia)).
    pose proof (Z.mod_pos_bound (v / 10) 10 ltac:(lia)).
    assert (v / 100 = v / 10 / 10) as H100 by (rewrite Z.div_div by lia; done).
    rewrite !read_digits_cons, read_digits_stop by (unfold u8_max; auto; lia).
    cbn -[Z.mul Z.add Z.div Z.modulo]. rewrite bool_decide_eq_false_2; [repeat f_equal; lia|].
    intros [= Heq]. by apply digit_char_nonzero in Heq; [|lia].
Qed.

Lemma octet_text_length v : (length (octet_text v) <= 3)%nat.
Proof. unfold octet_text. repeat case_match; cbn; lia. Qed.

Lemma octet_text_ascii v : is_byte v -> Forall (fun c => Z.of_N c < 128) (octet_text v).
Proof.
  unfold is_byte, octet_text, digit_char. intros Hv.
  repeat case_match; repeat (constructor; [Z.div_mod_to_equations; lia|]); constructor.
Qed.

Lemma str_len_ascii s : Forall (fun c => Z.of_N c < 128) s -> str_len s = Z.of_nat (length s).
Proof.
  unfold str_len, as_bytes. intros Hs. f_equal.
  induction Hs as [|c s Hc Hs IH]; [done|]. cbn [mbind list_bind].
  rewrite length_app, IH. unfold utf8_char. rewrite (proj2 (Z.ltb_lt _ _)) by done. done.
Qed.

Lemma display_ipv4_len a : str_len (display_ipv4 a) <= 15.
Proof.
  unfold display_ipv4. rewrite !display_octet by apply octet_byte.
  rewrite str_len_ascii.
  - rewrite !length_app. cbn [length]. rewrite !length_app. cbn [length]. rewrite length_app. cbn [length].
    pose proof (octet_text_length (octet 0 a)). pose proof (octet_text_length (octet 1 a)).
    pose proof (octet_text_length (octet 2 a)). pose proof (octet_text_length (octet 3 a)). lia.
  - rewrite !Forall_app, !Forall_cons, !Forall_app, !Forall_cons, Forall_app, Forall_cons.
    split_and!; try (apply octet_text_ascii, octet_byte); vm_compute; done.
Qed.

Lemma read_dot_cons s : read_dot (ch "." :: s) = Some s.
Proof. done. Qed.

(** The address parser inverts the printer. *)
Lemma parse_display_ipv4 a : is_ipv4 a -> parse_ipv4 (display_ipv4 a) = Some a.
Proof.
  intros Ha. unfold parse_ipv4. pose proof (display_ipv4_len a).
  rewrite (proj2 (Z.ltb_ge _ _)) by done. unfold display_ipv4.
  rewrite <-(app_nil_r (display_uint (octet 3 a))).
  do 3 (rewrite read_octet_display by (done || apply octet_byte);
        cbn [mbind option_bind]; rewrite read_dot_cons; cbn [mbind option_bind]).
  rewrite read_octet_display by (done || apply octet_byte). cbn [mbind option_bind].
  by rewrite ipv4_new_octets.
Qed.

(** ** Lemmas: masks as arithmetic *)

(** The number of addresses of a network with the given prefix. *)
Definition block (prefix : Z) : Z := 2 ^ (32 - prefix).

Lemma block_pos p : 0 <= p <= 32 -> 1 <= block p <= 2 ^ 32.
Proof.
  intros Hp. unfold block. split.
  - change 1 with (2 ^ 0). apply Z.pow_le_mono_r; lia.
  - apply Z.pow_le_mono_r; lia.
Qed.

Lemma testbit_u32_high a i : is_ipv4 a -> 32 <= i -> Z.testbit a i = false.
Proof.
  unfold is_ipv4, u32_max. intros Ha Hi.
  rewrite <-(Z.mod_small a (2 ^ 32)) by lia. by apply Z.mod_pow2_bits_high.
Qed.

Lemma testbit_u32_max i : 0 <= i -> Z.testbit u32_max i = bool_decide (i < 32).
Proof.
  intros Hi. change u32_max with (Z.ones 32). case_bool_decide.
  - by apply Z.ones_spec_low.
  - apply Z.ones_spec_high. lia.
Qed.

Lemma land_mask a p :
  is_ipv4 a -> 0 <= p <= 32 -> Z.land a (mask p) = a / block p * block p.
Proof.
  intros Ha Hp. unfold mask, block. destruct (Z.eqb_spec p 0) as [->|Hp0].
  - rewrite Z.land_0_r. unfold is_ipv4, u32_max in Ha.
    change (2 ^ (32 - 0)) with (2 ^ 32). rewrite Z.div_small by lia. done.
  - rewrite <-Z.shiftr_div_pow2, <-Z.shiftl_mul_pow2 by lia.
    apply Z.bits_inj'. intros i Hi.
    rewrite !Z.land_spec, testbit_u32_max, !Z.shiftl_spec by lia.
    destruct (decide (i < 32 - p)).
    + rewrite !(Z.testbit_neg_r _ (i - (32 - p))) by lia. by rewrite andb_false_l, andb_false_r.
    + rewrite Z.shiftr_spec, testbit_u32_max by lia.
      replace (i - (32 - p) + (32 - p)) with i by lia.
      destruct (decide (i < 32)).
      * rewrite !bool_decide_eq_true_2 by lia. by rewrite !andb_true_r.
      * rewrite (testbit_u32_high a i) by (done || lia). done.
Qed.

(** [not_u32 (mask p)] has the low [32 - p] bits set. *)
Lemma not_mask p : 0 < p <= 32 -> not_u32 (mask p) = block p - 1.
Proof.
  intros Hp. unfold not_u32.
  assert (mask p = u32_max - (block p - 1)) as ->; [|lia].
  assert (is_ipv4 u32_max) as Hm by (unfold is_ipv4, u32_max; lia).
  pose proof (land_mask u32_max p Hm ltac:(lia)) as H.
  assert (Z.land u32_max (mask p) = mask p) as Hid.
  { rewrite Z.land_comm. unfold mask. rewrite (proj2 (Z.eqb_neq p 0)) by lia.
    by rewrite <-Z.land_assoc, Z.land_diag. }
  rewrite Hid in H. rewrite H. unfold block.
  assert (2 ^ 32 = 2 ^ p * 2 ^ (32 - p)) as H32 by (rewrite <-Z.pow_add_r by lia; f_equal; lia).
  assert (0 < 2 ^ (32 - p)) by (apply Z.pow_pos_nonneg; lia).
  assert (u32_max / 2 ^ (32 - p) = 2 ^ p - 1) as ->.
  { symmetry. apply Z.div_unique with (2 ^ (32 - p) - 1); [lia|]. unfold u32_max. nia. }
  unfold u32_max. nia.
Qed.

(** A network address as [parse_ipv4_cidr] returns it: no host bits below the prefix. *)
Definition is_network (network : Ipv4Addr) (prefix : Z) : Prop :=
  is_ipv4 network /\ 0 <= prefix <= 32 /\ network mod block prefix = 0.

Lemma land_mask_network n p :
  is_ipv4 n -> 0 <= p <= 32 -> Z.land n (mask p) = n <-> n mod block p = 0.
Proof.
  intros Hn Hp. rewrite land_mask by done. pose proof (block_pos p Hp).
  pose proof (Z.div_mod n (block p) ltac:(lia)). lia.
Qed.

Lemma network_decompose n p :
  is_network n p -> exists q, n = q * block p /\ 0 <= q /\ n + block p <= 2 ^ 32.
Proof.
  intros (Hn & Hp & Hmod). pose proof (block_pos p Hp) as Hb.
  pose proof (Z.div_mod n (block p) ltac:(lia)) as Hdm. unfold is_ipv4, u32_max in Hn.
  exists (n / block p). split; [lia|]. split; [apply Z.div_pos; lia|].
  assert (2 ^ 32 = 2 ^ p * block p) as H32
    by (unfold block; rewrite <-Z.pow_add_r by lia; f_equal; lia).
  assert (n / block p < 2 ^ p) by (apply Z.div_lt_upper_bound; lia). nia.
Qed.

Lemma in_cidr_spec a n p :
  is_ipv4 a -> is_network n p ->
  ipv4_in_cidr a n p = true <-> n <= a < n + block p.
Proof.
  intros Ha Hnet. destruct (network_decompose n p Hnet) as (q & Hq & Hq0 & _).
  destruct Hnet as (Hn & Hp & _). pose proof (block_pos p Hp).
  unfold ipv4_in_cidr. rewrite land_mask by done. rewrite Z.eqb_eq.
  pose proof (Z.div_mod a (block p) ltac:(lia)).
  pose proof (Z.mod_pos_bound a (block p) ltac:(lia)). subst n. split; [intros; nia|].
  intros Hb. f_equal. symmetry. apply Z.div_unique with (a - q * block p); lia.
Qed.

Lemma lor_low_bits n k :
  0 <= k -> 0 <= n -> n mod 2 ^ k = 0 -> Z.lor n (2 ^ k - 1) = n + (2 ^ k - 1).
Proof.
  intros Hk Hn Hmod. assert (Z.land n (2 ^ k - 1) = 0) as Hland.
  { replace (2 ^ k - 1) with (Z.ones k) by (rewrite Z.ones_equiv; lia).
    by rewrite Z.land_ones. }
  rewrite <-Z.lxor_lor by done. symmetry. by apply Z.add_nocarry_lxor.
Qed.

Lemma broadcast_spec a n p :
  is_network n p ->
  ipv4_is_broadcast a n p = true <-> a = u32_max \/ p < 32 /\ a = n + block p - 1.
Proof.
  intros (Hn & Hp & Hmod). unfold ipv4_is_broadcast, BROADCAST.
  destruct (Z.eqb_spec a u32_max) as [->|Ha]; [naive_solver|].
  destruct (Z.leb_spec 32 p); [naive_solver lia|]. rewrite Z.eqb_eq.
  destruct (decide (p = 0)) as [->|Hp0].
  - unfold block in *. change (2 ^ (32 - 0)) with (2 ^ 32) in *.
    unfold is_ipv4, u32_max in *. rewrite Z.mod_small in Hmod by lia. subst n.
    vm_compute mask. vm_compute not_u32. rewrite Z.lor_0_l. lia.
  - rewrite not_mask by lia. unfold block in *. unfold is_ipv4 in Hn.
    rewrite lor_low_bits by lia. lia.
Qed.

Lemma parse_ipv4_range s a : parse_ipv4 s = Some a -> is_ipv4 a.
Proof.
  assert (forall n v s k w r, 0 <= v <= 255 -> read_digits n v s = Some (k, w, r) -> 0 <= w <= 255) as Hd.
  { intros n v t. revert n v. induction t as [|c t IH]; cbn; intros n v k w r Hv; [naive_solver|].
    destruct (to_digit c) as [d|] eqn:Hc; [|naive_solver].
    apply to_digit_range in Hc as [Hc _]. destruct (Z.ltb_spec u8_max (v * 10 + d)); [done|].
    unfold u8_max in *. destruct n as [|[|[|n]]]; cbn; [..|done]; apply IH; lia. }
  assert (forall s v r, read_octet s = Some (v, r) -> is_byte v) as Ho.
  { intros t v r. unfold read_octet. destruct (read_digits 0 0 t) as [[[k w] q]|] eqn:Hr; cbn; [|done].
    apply Hd in Hr; [|lia]. unfold is_byte. repeat case_match; naive_solver lia. }
  unfold parse_ipv4. case_match; [done|].
  destruct (read_octet s) as [[? s1]|] eqn:H1; cbn; [|done]. destruct (read_dot s1); cbn; [|done].
  destruct (read_octet l) as [[? s2]|] eqn:H2; cbn; [|done]. destruct (read_dot s2); cbn; [|done].
  destruct (read_octet l0) as [[? s3]|] eqn:H3; cbn; [|done]. destruct (read_dot s3); cbn; [|done].
  destruct (read_octet l1) as [[? s4]|] eqn:H4; cbn; [|done]. destruct s4; [|done].
  intros [= <-]. apply ipv4_new_is_ipv4; eauto.
Qed.

(** ** Properties: CIDR networks *)

(** The text of a network. *)
Definition cidr_text (network prefix : Z) : rstr :=
  display_ipv4 network ++ ch "/" :: display_uint prefix.

Lemma digit_char_not_slash d : 0 <= d -> ch "/" <> digit_char d.
Proof.
  change (ch "/") with 47%N. unfold digit_char. intros Hd H%(f_equal Z.of_N).
  rewrite Z2N.id in H; lia.
Qed.

Lemma dec_digits_not_slash fuel n tail :
  0 <= n -> ch "/" ∉ tail -> ch "/" ∉ dec_digits fuel n tail.
Proof.
  revert n tail. induction fuel as [|fuel IH]; intros n tail Hn Ht; cbn [dec_digits].
  - case_match; [|done]. apply not_elem_of_cons. split; [by apply digit_char_not_slash|done].
  - pose proof (Z.mod_pos_bound n 10 ltac:(lia)).
    case_match; [|apply IH; [apply Z.div_pos; lia|]];
      apply not_elem_of_cons; (split; [apply digit_char_not_slash; lia|done]).
Qed.

Lemma display_ipv4_not_slash a : ch "/" ∉ display_ipv4 a.
Proof.
  unfold display_ipv4, display_uint.
  assert (forall i, ch "/" ∉ dec_digits (Z.to_nat (Z.log2 (octet i a))) (octet i a) []) as H.
  { intros i. apply dec_digits_not_slash; [apply octet_byte|set_solver]. }
  rewrite !not_elem_of_app, !not_elem_of_cons, !not_elem_of_app, !not_elem_of_cons,
    not_elem_of_app, not_elem_of_cons.
  split_and!; try apply H; vm_compute; done.
Qed.

(** [parse_ipv4_cidr] accepts the text of an address and prefix exactly when it is a
    network (prefix at most 32, no host bits), and then returns that network. *)
Theorem parse_ipv4_cidr_roundtrip (network prefix : Z) :
  is_ipv4 network -> 0 <= prefix <= 255 ->
  parse_ipv4_cidr (cidr_text network prefix) = Ok (network, prefix) <-> is_network network prefix.
Proof.
  intros Hn Hp. unfold parse_ipv4_cidr, cidr_text.
  rewrite (proj2 (split_once_Some (ch "/") _ (display_ipv4 network) (display_uint prefix)))
    by (split; [done|apply display_ipv4_not_slash]).
  cbn [ok_or mbind result_bind]. rewrite parse_display_ipv4 by done. cbn [ok_or mbind result_bind].
  rewrite parse_display_uint by (unfold u8_max; lia). cbn [ok_or mbind result_bind].
  unfold is_network. destruct (Z.ltb_spec 32 prefix) as [|Hle]; [naive_solver lia|].
  rewrite <-(land_mask_network network prefix) by (done || lia).
  destruct (Z.eqb_spec (Z.land network (mask prefix)) network); cbn; naive_solver lia.
Qed.
Lemma parse_ipv4_cidr_roundtrip_witness :
  parse_ipv4_cidr (cidr_text (ipv4_new 10 8 1 0) 24) = Ok (ipv4_new 10 8 1 0, 24).
Proof.
  apply (parse_ipv4_cidr_roundtrip (ipv4_new 10 8 1 0) 24).
  - unfold is_ipv4; vm_compute; split; discriminate.
  - lia.
  - unfold is_network, is_ipv4. vm_compute. split_and!; (discriminate || reflexivity).
Defined.

Lemma parse_ipv4_cidr_network s n p : parse_ipv4_cidr s = Ok (n, p) -> is_network n p.
Proof.
  unfold parse_ipv4_cidr. destruct (split_once (ch "/") s) as [[a b]|]; cbn; [|done].
  destruct (parse_ipv4 a) as [n'|] eqn:Ha; cbn; [|done].
  destruct (parse_uint u8_max b) as [p'|] eqn:Hb; cbn; [|done].
  destruct (Z.ltb_spec 32 p'); [done|].
  destruct (Z.eqb_spec (Z.land n' (mask p')) n') as [Hm|]; cbn; [|done]. intros [= <- <-].
  apply parse_ipv4_range in Ha. apply parse_uint_bound in Hb; [|done].
  split; [done|]. split; [lia|]. apply land_mask_network; [done|lia|done].
Qed.

(** For every network that [parse_ipv4_cidr] returns, [ipv4_in_cidr] holds of exactly the
    addresses of the block [network .. network + 2^(32 - prefix) - 1]. *)
Theorem ipv4_in_cidr_block (s : rstr) (network prefix address : Z) :
  parse_ipv4_cidr s = Ok (network, prefix) -> is_ipv4 address ->
  ipv4_in_cidr address network prefix = true <->
  network <= address < network + 2 ^ (32 - prefix).
Proof. intros Hs%parse_ipv4_cidr_network Ha. by apply in_cidr_spec. Qed.
Lemma ipv4_in_cidr_block_witness :
  ipv4_in_cidr (ipv4_new 10 8 1 2) (ipv4_new 10 8 1 0) 24 = true.
Proof.
  apply (ipv4_in_cidr_block (str "10.8.1.0/24")).
  - vm_compute. reflexivity.
  - unfold is_ipv4. vm_compute. split; discriminate.
  - vm_compute. split; [discriminate|reflexivity].
Defined.

(** On a parsed network, [ipv4_is_broadcast] holds of exactly 255.255.255.255 and, below
    prefix 32, the last address of the block. *)
Theorem ipv4_is_broadcast_last (s : rstr) (network prefix address : Z) :
  parse_ipv4_cidr s = Ok (network, prefix) ->
  ipv4_is_broadcast address network prefix = true <->
  address = 2 ^ 32 - 1 \/ prefix < 32 /\ address = network + 2 ^ (32 - prefix) - 1.
Proof. intros Hs%parse_ipv4_cidr_network. by apply broadcast_spec. Qed.
Lemma ipv4_is_broadcast_last_witness :
  ipv4_is_broadcast (ipv4_new 10 8 1 255) (ipv4_new 10 8 1 0) 24 = true.
Proof.
  apply (ipv4_is_broadcast_last (str "10.8.1.0/24")).
  - vm_compute. reflexivity.
  - right. vm_compute. split; reflexivity.
Defined.

(** ** Properties: tunnelled packets *)

(** An IPv4 packet laid out field by field: [ihl] 32-bit header words, the second byte, the
    eight bytes from identification to checksum, the addresses, and everything after them
    (options and payload). *)
Definition ipv4_frame (ihl tos : Z) (middle : list Z) (source destination : Ipv4Addr)
    (rest : list Z) : list Z :=
  let len := 20 + Z.of_nat (length rest) in
  [64 + ihl; tos; len / 256; len mod 256] ++ middle ++ octets source ++ octets destination ++ rest.

Lemma Z_land_15 b : Z.land b 15 = b mod 16.
Proof. change 15 with (Z.ones 4). by rewrite Z.land_ones. Qed.

Lemma Z_shiftr_4 b : Z.shiftr b 4 = b / 16.
Proof. by rewrite Z.shiftr_div_pow2. Qed.

Lemma packet_split_20 (p : list Z) :
  (20 <= length p)%nat ->
  exists b0 b1 b2 b3 mid s0 s1 s2 s3 d0 d1 d2 d3 rest,
    p = [b0; b1; b2; b3] ++ mid ++ [s0; s1; s2; s3] ++ [d0; d1; d2; d3] ++ rest /\ length mid = 8%nat.
Proof.
  intros H. do 20 (destruct p as [|? p]; [cbn in H; lia|]).
  do 4 eexists. eexists [_; _; _; _; _; _; _; _]. repeat eexists.
Qed.

Lemma ipv4_packet_addresses_frame ihl tos middle s d rest :
  5 <= ihl <= 15 -> length middle = 8%nat -> is_ipv4 s -> is_ipv4 d ->
  4 * ihl <= 20 + Z.of_nat (length rest) <= 65535 ->
  ipv4_packet_addresses (ipv4_frame ihl tos middle s d rest) = Some (s, d).
Proof.
  intros Hihl Hmid Hs Hd Hlen. do 8 (destruct middle as [|? middle]; [done|]).
  destruct middle; [|done]. unfold ipv4_packet_addresses, ipv4_frame, u16_from_be_bytes, byte_at.
  cbn [app length nth octets]. set (len := 20 + Z.of_nat (length rest)) in *.
  replace (Z.of_nat (S _)) with len by (unfold len; lia).
  rewrite Z_land_15, Z_shiftr_4.
  rewrite (proj2 (Z.ltb_ge len 20)) by lia.
  rewrite (proj2 (Z.eqb_eq ((64 + ihl) / 16) 4)) by (Z.div_mod_to_equations; lia).
  cbn [orb negb].
  replace ((64 + ihl) mod 16) with ihl by (Z.div_mod_to_equations; lia).
  rewrite (proj2 (Z.ltb_ge (ihl * 4) 20)) by lia. rewrite (proj2 (Z.ltb_ge len (ihl * 4))) by lia.
  cbn [orb]. replace (len / 256 * 256 + len mod 256) with len by (Z.div_mod_to_equations; lia).
  rewrite (proj2 (Z.ltb_ge len (ihl * 4))) by lia. rewrite Z.eqb_refl. cbn [orb negb].
  by rewrite !ipv4_new_octets.
Qed.

(** [ipv4_packet_addresses] accepts exactly the byte strings laid out as an IPv4 packet
    whose total-length field is the length of the whole string and whose header fits in it, and
    returns the source and destination fields. *)
Theorem ipv4_packet_addresses_exact (p : list Z) (s d : Z) :
  Forall is_byte p ->
  ipv4_packet_addresses p = Some (s, d) <->
  exists ihl tos middle rest,
    p = ipv4_frame ihl tos middle s d rest /\ length middle = 8%nat /\
    5 <= ihl <= 15 /\ 4 * ihl <= Z.of_nat (length p) <= 65535 /\ is_ipv4 s /\ is_ipv4 d.
Proof.
  intros Hp. split.
  - intros H. destruct (decide (20 <= length p)%nat) as [Hl|Hl].
    2:{ unfold ipv4_packet_addresses in H. rewrite (proj2 (Z.ltb_lt _ _)) in H by lia. done. }
    destruct (packet_split_20 p Hl)
      as (b0 & b1 & b2 & b3 & mid & s0 & s1 & s2 & s3 & d0 & d1 & d2 & d3 & rest & -> & Hmid).
    do 8 (destruct mid as [|? mid]; [done|]). destruct mid; [|done].
    cbn [app] in Hp. rewrite !Forall_cons in Hp. unfold ipv4_packet_addresses, byte_at, u16_from_be_bytes in H.
    cbn [app length nth] in H. rewrite Z_land_15, Z_shiftr_4 in H.
    set (len := Z.of_nat _) in H.
    assert (len = 20 + Z.of_nat (length rest)) as Hlen' by (unfold len; lia). clearbody len.
    destruct (Z.ltb_spec len 20); [done|]. destruct (Z.eqb_spec (b0 / 16) 4); [|done].
    cbn [orb negb] in H.
    destruct (Z.ltb_spec (b0 mod 16 * 4) 20); [done|].
    destruct (Z.ltb_spec len (b0 mod 16 * 4)); [done|]. cbn [orb] in H.
    destruct (Z.ltb_spec (b2 * 256 + b3) (b0 mod 16 * 4)); [done|].
    destruct (Z.eqb_spec (b2 * 256 + b3) len) as [Hlen|]; [|done]. cbn [orb negb] in H.
    injection H as <- <-. exists (b0 mod 16), b1, [z; z0; z1; z2; z3; z4; z5; z6], rest.
    unfold is_byte in Hp. destruct_and!. unfold ipv4_frame. rewrite <-Hlen'.
    rewrite !octets_new by done. cbn [app length]. split_and!; try done; try (by apply ipv4_new_is_ipv4).
    + rewrite <-Hlen. repeat f_equal; Z.div_mod_to_equations; lia.
    + Z.div_mod_to_equations; lia.
    + Z.div_mod_to_equations; lia.
    + lia.
    + lia.
  - intros (ihl & tos & middle & rest & -> & Hmid & Hihl & Hlen & Hs & Hd).
    apply ipv4_packet_addresses_frame; try done.
    unfold ipv4_frame in Hlen. cbn [app length] in Hlen. rewrite !length_app, Hmid in Hlen.
    cbn [length octets] in Hlen. lia.
Qed.

Lemma ipv4_packet_addresses_exact_witness :
  ipv4_packet_addresses (ipv4_frame 5 0 (replicate 8 0) (ipv4_new 10 8 1 2) (ipv4_new 10 8 1 1) [])
    = Some (ipv4_new 10 8 1 2, ipv4_new 10 8 1 1).
Proof.
  apply (ipv4_packet_addresses_exact _ (ipv4_new 10 8 1 2) (ipv4_new 10 8 1 1)).
  - vm_compute. repeat constructor; discriminate.
  - exists 5, 0, (replicate 8 0), []. split_and!; try reflexivity; vm_compute; repeat split; discriminate.
Defined.

(** No control frame is a tunnelled packet: the keepalive marker, the authentication
    answers and every login frame are refused by [ipv4_packet_addresses], so the TUN device can
    never carry one of them. *)
Theorem control_frames_are_not_packets (frame body : list Z) :
  is_keepalive_packet frame = true \/
  frame ∈ [AUTH_REQUIRED; AUTH_OK; AUTH_FAILED] \/
  strip_prefix AUTH_LOGIN_PREFIX frame = Some body ->
  ipv4_packet_addresses frame = None.
Proof.
  intros [Hk|[Ha|Hl]].
  - apply bool_decide_eq_true in Hk as ->. done.
  - rewrite !elem_of_cons in Ha. destruct Ha as [->|[->|[->|[]%not_elem_of_nil]]]; done.
  - apply strip_prefix_Some in Hl as ->. unfold ipv4_packet_addresses.
    cbn [AUTH_LOGIN_PREFIX app byte_at nth]. by rewrite orb_true_r.
Qed.
Lemma control_frames_are_not_packets_witness :
  ipv4_packet_addresses (AUTH_LOGIN_PREFIX ++ bytes "alice" ++ [0] ++ bytes "secret") = None.
Proof.
  apply (control_frames_are_not_packets _ (bytes "alice" ++ [0] ++ bytes "secret")).
  right. right. vm_compute. reflexivity.
Defined.

(** ** Properties: socket addresses *)

(** The stored form of an IPv4 endpoint gives the address back, and two stored endpoints
    compare equal exactly when both address and port agree: sessions are keyed by the pair. *)
Theorem same_peer_endpoint (ip1 port1 ip2 port2 : Z) :
  is_ipv4 ip1 -> is_ipv4 ip2 -> 0 <= port1 <= u16_max -> 0 <= port2 <= u16_max ->
  peer_ipv4 (socket_addr_storage_v4 ip1 port1) = Some ip1 /\
  (same_peer (socket_addr_storage_v4 ip1 port1) (socket_addr_storage_v4 ip2 port2) = true <->
   ip1 = ip2 /\ port1 = port2).
Proof.
  intros H1 H2 Hp1 Hp2. split.
  { unfold peer_ipv4, socket_addr_storage_v4, byte_at. cbn [app nth octets].
    cbn [Z.add Z.mul Z.eqb AF_INET Pos.eqb negb]. by rewrite ipv4_new_octets. }
  unfold same_peer. rewrite bool_decide_eq_true. split; [|by intros [-> ->]].
  unfold socket_addr_storage_v4, octets. cbn [app]. intros [= Hh Hl H0 H3 H4 H5]. split.
  - rewrite <-(ipv4_new_octets ip1), <-(ipv4_new_octets ip2) by done. by rewrite H0, H3, H4, H5.
  - rewrite (Z.div_mod port1 256), (Z.div_mod port2 256) by lia. by rewrite Hh, Hl.
Qed.
Lemma same_peer_endpoint_witness :
  same_peer (socket_addr_storage_v4 (ipv4_new 192 0 2 24) 4433)
            (socket_addr_storage_v4 (ipv4_new 192 0 2 24) 4433) = true.
Proof.
  apply (same_peer_endpoint (ipv4_new 192 0 2 24) 4433 (ipv4_new 192 0 2 24) 4433);
    try (split; reflexivity); vm_compute; split; discriminate.
Defined.
