(* ===== verification/System.v ===== *)
(** * The operating system

    Programs that call the operating system: a small state-and-error monad over the history of
    the calls made so far. The system is a parameter: a function that answers a call from
    the history before it, so nothing is assumed of it unless a theorem says so. *)

From S2P Require Import Prelude Text.

Local Open Scope Z_scope.

Create HintDb grows.

(** ** Effects *)

(** A computation that changes a [W] and may fail; [?] in the code is the bind. *)
Definition eff (W A : Type) : Type := W -> io A * W.

#[export] Instance eff_ret W : MRet (eff W) := fun A a w => (Ok a, w).
#[export] Instance eff_bind W : MBind (eff W) := fun A B f m w =>
  match m w with
  | (Ok a, w) => f a w
  | (Err error, w) => (Err error, w)
  end.

Section eff.
Context {W : Type}.

(** A result as a computation. *)
Definition of_io {A} (r : io A) : eff W A := fun w => (r, w).
Definition fail_with {A} (error : io_error) : eff W A := of_io (Err error).

(** [let _ = m;] and a result that is looked at. *)
Definition ignore {A} (m : eff W A) : eff W unit := fun w => (Ok tt, (m w).2).
Definition outcome_of {A} (m : eff W A) : eff W (io A) := fun w => let '(r, w) := m w in (Ok r, w).

(** [m] while a value is alive whose [Drop] is [drop]: it runs when [m] returns early. *)
Definition guarded {A} (drop : eff W unit) (m : eff W A) : eff W A := fun w =>
  match m w with
  | (Ok a, w) => (Ok a, w)
  | (Err error, w) => (Err error, (drop w).2)
  end.

Lemma eff_bind_run {A B} (m : eff W A) (f : A -> eff W B) w :
  (m ≫= f) w = match m w with (Ok a, w) => f a w | (Err error, w) => (Err error, w) end.
Proof. done. Qed.

Lemma eff_of_ok {A B} (a : A) (f : A -> eff W B) : (of_io (Ok a) ≫= f) = f a.
Proof. done. Qed.

Lemma eff_ret_run {A} (a : A) w : (mret a : eff W A) w = (Ok a, w).
Proof. done. Qed.

Lemma eff_ret_bind {A B} (a : A) (f : A -> eff W B) : (mret a ≫= f) = f a.
Proof. done. Qed.

Lemma eff_bind_inv {A B} (m : eff W A) (f : A -> eff W B) w r w' :
  (m ≫= f) w = (r, w') ->
  (exists a w1, m w = (Ok a, w1) /\ f a w1 = (r, w')) \/ (exists error, m w = (Err error, w') /\ r = Err error).
Proof. rewrite eff_bind_run. destruct (m w) as [[a|error] w1]; naive_solver. Qed.

Lemma eff_bind_Ok {A B} (m : eff W A) (f : A -> eff W B) w b w' :
  (m ≫= f) w = (Ok b, w') <-> exists a w1, m w = (Ok a, w1) /\ f a w1 = (Ok b, w').
Proof. rewrite eff_bind_run. destruct (m w) as [[a|error] w1]; naive_solver. Qed.
End eff.

(** [H] is that a computation succeeded whose first part gave [x]. *)
Ltac next_effect H x w Hx := apply eff_bind_Ok in H as (x & w & Hx & H).

(** ** Calls *)

(** What the program asks of the system. A path or a text that crosses the boundary is its
    bytes. *)
Inductive call :=
(* descriptors *)
| sys_open (path : list Z) (flags : Z)
| sys_socket (domain type protocol : Z)
| sys_close (fd : Z)
| sys_read (fd size : Z)
| sys_write (fd : Z) (data : list Z)
| sys_recvfrom (fd size : Z)
| sys_peek (fd size : Z)
| sys_readv (fd : Z) (sizes : list Z)
| sys_writev (fd : Z) (chunks : list (list Z))
| sys_getfl (fd : Z)
| sys_setfl (fd flags : Z)
| sys_poll (descriptors : list (Z * Z)) (timeout_ms : Z)
| sys_tunsetiff (fd : Z) (name : list Z) (flags : Z)
| sys_ctl_info (fd : Z) (name : list Z)
| sys_connect_ctl (fd id unit : Z)
| sys_utun_name (fd size : Z)
(* programs *)
| run_status (program : rstr) (arguments : list rstr)
| run_output (program : rstr) (arguments : list rstr)
(* files and local sockets *)
| fs_connect (path : rstr)
| fs_exists (path : rstr)
| fs_remove_file (path : rstr)
| fs_bind (path : rstr)
| fs_getgrnam (group : rstr)
| fs_chown (path : rstr) (group : Z)
| fs_set_permissions (path : rstr) (mode : Z)
| fs_read (path : rstr)
| fs_create_dir (path : rstr)
| fs_create_new (path : rstr) (mode : option Z)
| fs_write_all (path : rstr) (data : list Z)
| fs_remove_dir_all (path : rstr)
| fs_listener_nonblocking
| fs_socket_pair
| fs_wake_nonblocking (writer : bool)
(* the dynamic loader *)
| env_library
| current_exe
| dl_open (path : list Z)
| dl_error
| dl_sym (handle : Z) (name : list Z)
| dl_call (symbol : Z) (config : list Z) (login : option (list Z * list Z))
| dl_close (handle : Z)
(* the terminal *)
| stderr_write (text : rstr)
| stderr_flush
| term_getattr
| term_setattr (attributes : list Z)
| stdin_line
(* wolfSSL objects, by address, and the boxes of the program they point to *)
| wolf_ctx (server : bool)
| wolf_ctx_free (ctx : Z)
| wolf_new (ctx : Z)
| wolf_free (ssl : Z)
| wolf_set_fd (ssl fd : Z)
| wolf_set_nonblock (ssl : Z) (nonblocking : bool)
| wolf_set_peer (ssl : Z) (peer : list Z) (peer_size : Z)
| wolf_set_callbacks (ssl : Z)
| wolf_set_read_ctx (ssl io : Z)
| wolf_set_write_ctx (ssl io : Z)
| wolf_set_cookie (ssl : Z) (secret : list Z)
| wolf_io (ssl : Z)
| box_new
| box_free (io : Z)
(* what a thread shares with the others: flags, the clock, a queue, a counter, a signal *)
| load_running
| load_active
| clock_now
| thread_sleep (duration : Z)
| push_datagram (peer : list Z) (peer_size : Z) (packet : list Z)
| count_drop
| notify_worker.

#[export] Instance call_eq_dec : EqDecision call.
Proof. solve_decision. Defined.

(** The answer: the returned value, the error number when that is negative, what was put into
    the caller's buffer, the address a datagram came from, and how a program's exit status is
    displayed. A loaded flag is one or zero; a push returns one when it dropped an older
    datagram, zero when it did not, and a negative value when the queue is closed. *)
Record answer := { ret : Z; errno : Z; out : list Z; from : list Z; from_len : Z; shown : rstr }.

(** An answer that has only a value and a buffer. *)
Definition answering (value : Z) (printed : list Z) : answer :=
  {| ret := value; errno := 0; out := printed; from := []; from_len := 0; shown := str "exit status: 1" |}.

Abbreviation history := (list (call * answer)) (only parsing).

Section system.
(** The system answers a call as it likes, knowing all calls before. *)
Context (system : history -> call -> answer).

Definition perform (c : call) : eff history answer := fun h =>
  let a := system h c in (Ok a, h ++ [(c, a)]).

(** A call that reports an error by a negative value, read before anything else is called. *)
Definition checked (c : call) : eff history answer :=
  a ← perform c;
  if ret a <? 0 then fail_with (Os (errno a)) else mret a.

(** [Command::new(program).args(arguments).status()] and [..output()] *)
Definition status (program : rstr) (arguments : list rstr) : eff history answer :=
  checked (run_status program arguments).
Definition output (program : rstr) (arguments : list rstr) : eff history answer :=
  checked (run_output program arguments).

(** [ExitStatus::success] *)
Definition success (a : answer) : bool := ret a =? 0.

Definition run_command (program : rstr) (arguments : list rstr) : eff history unit :=
  a ← status program arguments;
  if success a then mret tt
  else fail_with (Custom Other (program ++ str " failed with status " ++ shown a)).

(** ** Lemmas *)
Lemma perform_run c h : perform c h = (Ok (system h c), h ++ [(c, system h c)]).
Proof. done. Qed.

Lemma checked_run c h :
  checked c h = (if ret (system h c) <? 0 then Err (Os (errno (system h c))) else Ok (system h c),
                 h ++ [(c, system h c)]).
Proof.
  unfold checked, perform. rewrite eff_bind_run. by destruct (_ <? _).
Qed.

Lemma checked_Ok c h a h' :
  checked c h = (Ok a, h') <-> a = system h c /\ 0 <= ret a /\ h' = h ++ [(c, a)].
Proof.
  rewrite checked_run. destruct (Z.ltb_spec (ret (system h c)) 0); split; [done| |naive_solver|naive_solver].
  intros (-> & ? & _). lia.
Qed.

Lemma run_command_run program arguments h :
  let a := system h (run_status program arguments) in
  run_command program arguments h =
    (if ret a <? 0 then Err (Os (errno a)) else if ret a =? 0 then Ok tt
     else Err (Custom Other (program ++ str " failed with status " ++ shown a)),
     h ++ [(run_status program arguments, a)]).
Proof.
  unfold run_command, status. rewrite eff_bind_run, checked_run. unfold success.
  destruct (_ <? _); [done|]. by destruct (_ =? _).
Qed.

(** The error of a command that did not succeed. *)
Definition command_error (program : rstr) (a : answer) : io_error :=
  if ret a <? 0 then Os (errno a) else Custom Other (program ++ str " failed with status " ++ shown a).

Lemma run_command_outcome program arguments h :
  let a := system h (run_status program arguments) in
  run_command program arguments h =
    (if success a then Ok tt else Err (command_error program a), h ++ [(run_status program arguments, a)]).
Proof.
  rewrite run_command_run. unfold success, command_error.
  destruct (Z.ltb_spec (ret (system h (run_status program arguments))) 0), (Z.eqb_spec (ret (system h (run_status program arguments))) 0); done || lia.
Qed.
End system.

(** ** Protocols *)

(** A protocol is an automaton over the calls and their answers: what may be called in which
    state. It makes statements about whole sequences of calls compositional. *)
Section protocol.
Context {S : Type} (step : S -> call -> answer -> option S).

Fixpoint follow (st : S) (h : history) : option S :=
  match h with
  | [] => Some st
  | (c, a) :: h => st ← step st c a; follow st h
  end.

Lemma follow_app st h1 h2 : follow st (h1 ++ h2) = follow st h1 ≫= (fun st => follow st h2).
Proof.
  revert st. induction h1 as [|[c a] h1 IH]; intros st; [done|]. cbn. destruct (step st c a); [apply IH|done].
Qed.

(** [m] only adds calls; from [st] they follow the protocol into a state that fits the result. *)
Definition keeps {A} (st : S) (m : eff history A) (post : io A -> S -> Prop) : Prop :=
  forall h r h', m h = (r, h') ->
    exists calls st', h' = h ++ calls /\ follow st calls = Some st' /\ post r st'.

Lemma keeps_of_io {A} st (r : io A) (post : _ -> _ -> Prop) : post r st -> keeps st (of_io r) post.
Proof. intros Hp h r' h' [= <- <-]. exists [], st. by rewrite app_nil_r. Qed.

Lemma keeps_ret {A} st (a : A) (post : _ -> _ -> Prop) : post (Ok a) st -> keeps st (mret a) post.
Proof. apply (keeps_of_io st (Ok a)). Qed.

Lemma keeps_weaken {A} st (m : eff history A) (mid post : _ -> _ -> Prop) :
  keeps st m mid -> (forall r st', mid r st' -> post r st') -> keeps st m post.
Proof. intros Hm Hp h r h' E. apply Hm in E as (calls & st' & ? & ? & ?). exists calls, st'. auto. Qed.

Lemma keeps_bind {A B} st (m : eff history A) (f : A -> eff history B) (mid post : _ -> _ -> Prop) :
  keeps st m mid -> (forall error st', mid (Err error) st' -> post (Err error) st') ->
  (forall a st', mid (Ok a) st' -> keeps st' (f a) post) -> keeps st (m ≫= f) post.
Proof.
  intros Hm He Hf h r h' [(a & h1 & H1 & H2)|(error & H1 & ->)]%eff_bind_inv.
  - apply Hm in H1 as (c1 & st1 & -> & D1 & P1). apply (Hf _ _ P1) in H2 as (c2 & st2 & -> & D2 & P2).
    exists (c1 ++ c2), st2. split; [by rewrite app_assoc|]. by rewrite follow_app, D1.
  - apply Hm in H1 as (c1 & st1 & -> & D1 & P1). exists c1, st1. auto.
Qed.

Lemma keeps_ignore {A} st (m : eff history A) (mid post : _ -> _ -> Prop) :
  keeps st m mid -> (forall r st', mid r st' -> post (Ok tt) st') -> keeps st (ignore m) post.
Proof.
  intros Hm Hp h r h' [= <- <-]. destruct (m h) as [r' h'] eqn:E.
  apply Hm in E as (c & st' & -> & D & P). exists c, st'. eauto.
Qed.

Lemma keeps_outcome {A} st (m : eff history A) (mid post : _ -> _ -> Prop) :
  keeps st m mid -> (forall r st', mid r st' -> post (Ok r) st') -> keeps st (outcome_of m) post.
Proof.
  intros Hm Hp h r h'. unfold outcome_of. destruct (m h) as [r' h1] eqn:E. intros [= <- <-].
  apply Hm in E as (c & st' & -> & D & P). exists c, st'. eauto.
Qed.

Lemma keeps_guarded {A} st (drop : eff history unit) (m : eff history A) (mid post : _ -> _ -> Prop) :
  keeps st m mid -> (forall a st', mid (Ok a) st' -> post (Ok a) st') ->
  (forall error st', mid (Err error) st' -> keeps st' drop (fun _ => post (Err error))) ->
  keeps st (guarded drop m) post.
Proof.
  intros Hm Ho Hd h r h'. unfold guarded. destruct (m h) as [[a|error] h1] eqn:E;
    apply Hm in E as (c & st' & -> & D & P); intros [= <- <-].
  - exists c, st'. auto.
  - destruct (drop (h ++ c)) as [r' h'] eqn:E. apply (Hd error _ P) in E as (c' & st2 & -> & D' & P').
    exists (c ++ c'), st2. split; [by rewrite app_assoc|]. by rewrite follow_app, D.
Qed.

Context (system : history -> call -> answer).

Lemma keeps_perform st c (post : _ -> _ -> Prop) :
  (forall a, exists st', step st c a = Some st' /\ post (Ok a) st') -> keeps st (perform system c) post.
Proof.
  intros Hs h r h' [= <- <-]. destruct (Hs (system h c)) as (st' & E & P).
  exists [(c, system h c)], st'. split; [done|]. cbn. by rewrite E.
Qed.

Lemma keeps_checked st c (post : _ -> _ -> Prop) :
  (forall a, exists st', step st c a = Some st' /\ post (if ret a <? 0 then Err (Os (errno a)) else Ok a) st') ->
  keeps st (checked system c) post.
Proof.
  intros Hs h r h'. rewrite checked_run. intros [= <- <-]. destruct (Hs (system h c)) as (st' & E & P).
  exists [(c, system h c)], st'. split; [done|]. cbn. by rewrite E.
Qed.

(** A call, and what follows in the state the answer leads to. *)
Lemma keeps_perform_bind {B} st c (f : answer -> eff history B) (post : _ -> _ -> Prop) :
  (forall a, exists st', step st c a = Some st' /\ keeps st' (f a) post) -> keeps st (a ← perform system c; f a) post.
Proof.
  intros Hs. eapply (keeps_bind _ _ _ (fun r st' => exists a, r = Ok a /\ step st c a = Some st')).
  - apply keeps_perform. intros a. destruct (Hs a) as (st' & E & _). eauto.
  - by intros error st' (? & ? & _).
  - intros a st' (a' & [= <-] & E). destruct (Hs a) as (st2 & E2 & Hk). by simplify_eq.
Qed.

Lemma keeps_ignore_bind {B} st c st' (f : unit -> eff history B) (post : _ -> _ -> Prop) :
  (forall a, step st c a = Some st') -> keeps st' (f tt) post -> keeps st (u ← ignore (perform system c); f u) post.
Proof.
  intros Hs Hf. eapply (keeps_bind _ _ _ (fun r st2 => r = Ok tt /\ st2 = st')).
  - eapply (keeps_ignore _ _ (fun _ st2 => st2 = st')); [|by intros]. apply keeps_perform. intros a. eauto.
  - by intros error st2 [? _].
  - by intros [] st2 [_ ->].
Qed.
End protocol.

(** *** Programs that only add calls *)
Definition grows {A} (m : eff history A) : Prop := forall h, exists calls, (m h).2 = h ++ calls.

Section grows.
Context (system : history -> call -> answer).

Lemma grows_of_io {A} (r : io A) : grows (of_io r).
Proof. intros h. exists []. by rewrite app_nil_r. Qed.

Lemma grows_ret {A} (a : A) : grows (mret a).
Proof. apply (grows_of_io (Ok a)). Qed.

Lemma grows_fail {A} error : grows (fail_with error : eff history A).
Proof. apply grows_of_io. Qed.

Lemma grows_bind {A B} (m : eff history A) (f : A -> eff history B) :
  grows m -> (forall a, grows (f a)) -> grows (m ≫= f).
Proof.
  intros Hm Hf h. rewrite eff_bind_run. destruct (Hm h) as [c1 E1].
  destruct (m h) as [[a|error] h1]; cbn in E1; subst h1; [|eauto].
  destruct (Hf a (h ++ c1)) as [c2 E2]. exists (c1 ++ c2). by rewrite E2, app_assoc.
Qed.

Lemma grows_ignore {A} (m : eff history A) : grows m -> grows (ignore m).
Proof. intros Hm h. apply Hm. Qed.

Lemma grows_outcome {A} (m : eff history A) : grows m -> grows (outcome_of m).
Proof. intros Hm h. destruct (Hm h) as [c E]. exists c. unfold outcome_of. by destruct (m h). Qed.

Lemma grows_guarded {A} (drop : eff history unit) (m : eff history A) : grows drop -> grows m -> grows (guarded drop m).
Proof.
  intros Hd Hm h. unfold guarded. destruct (Hm h) as [c1 E1].
  destruct (m h) as [[a|error] h1]; cbn in *; subst h1; [eauto|].
  destruct (Hd (h ++ c1)) as [c2 E2]. exists (c1 ++ c2). by rewrite E2, app_assoc.
Qed.

Lemma grows_perform c : grows (perform system c).
Proof. intros h. by eexists. Qed.

Lemma grows_checked c : grows (checked system c).
Proof. intros h. rewrite checked_run. by eexists. Qed.
End grows.

#[export] Hint Resolve grows_of_io grows_ret grows_fail grows_bind grows_ignore grows_outcome grows_guarded
  grows_perform grows_checked : grows.

(** ** Descriptors *)

(** The descriptor a call works on, and the one it opens. *)
Definition call_fd (c : call) : option Z :=
  match c with
  | sys_close fd | sys_read fd _ | sys_write fd _ | sys_recvfrom fd _ | sys_peek fd _ | sys_readv fd _
  | sys_writev fd _ | sys_getfl fd | sys_setfl fd _ | sys_tunsetiff fd _ _
  | sys_ctl_info fd _ | sys_connect_ctl fd _ _ | sys_utun_name fd _ => Some fd
  | _ => None
  end.

Definition opens (c : call) (a : answer) : option Z :=
  match c with
  | sys_open _ _ | sys_socket _ _ _ => if 0 <=? ret a then Some (ret a) else None
  | _ => None
  end.

(** The protocol of descriptors: [fds] are open, and no call may use another one. *)
Definition fd_step (fds : list Z) (c : call) (a : answer) : option (list Z) :=
  match call_fd c with
  | Some fd =>
      if decide (fd ∈ fds) then
        Some (if c is sys_close _ then filter (fun other => other <> fd) fds else fds)
      else None
  | None => Some (match opens c a with Some fd => fd :: fds | None => fds end)
  end.
Definition descriptors : list Z -> history -> option (list Z) := follow fd_step.
