(* ===== verification/Tun.v ===== *)
(** * The TUN device

    Models [Tun] and [run_command] of [src/lib.rs]: opening the device on Linux, macOS and
    Windows, its configuration, and its packets, with the four-byte header that macOS puts
    before each of them. *)

From Stdlib Require Import Ascii.
From S2P Require Import Prelude Text Net System.

Local Open Scope Z_scope.

Inductive platform := Linux | Macos | Windows.

#[export] Instance platform_eq_dec : EqDecision platform.
Proof. solve_decision. Defined.

(** [Tun]; on Windows the descriptor is zero and the packets go through a Wintun session. *)
Record Tun := { tun_fd : Z; macos_header : bool; tun_name : rstr }.

(** ** Opening *)
Definition O_RDWR : Z := 2.
Definition IFF_TUN : Z := 0x0001.
Definition IFF_NO_PI : Z := 0x1000.
Definition SOCK_DGRAM : Z := 2.
Definition IFNAMSIZ : nat := 16.
Definition UTUN_CONTROL : list Z := bytes "com.apple.net.utun_control" ++ [0].

(** The name field of [IfReq]: the bytes of the requested name as far as they fit, the
    rest zero. *)
Definition ifreq_name (requested_name : rstr) : list Z :=
  let name := take IFNAMSIZ (as_bytes requested_name) in
  name ++ repeat 0 (IFNAMSIZ - length name).

Definition trim_end_nul (s : rstr) : rstr := trim_end_by (N.eqb 0) s.

(** [CStr::from_bytes_until_nul(&name).unwrap_or("utun").to_string_lossy()] *)
Definition utun_text (name : list Z) : rstr :=
  match position (Z.eqb 0) name with
  | Some n => from_utf8_lossy (take n name)
  | None => str "utun"
  end.

Section tun.
Context (system : history -> call -> answer).

(** [if call(..) < 0 { let error = last_os_error(); close(fd); return Err(error) }] *)
Definition or_close (fd : Z) (c : call) : eff history answer :=
  guarded (ignore (perform system (sys_close fd))) (checked system c).

Definition open_linux (requested_name : rstr) : eff history Tun :=
  device ← checked system (sys_open (bytes "/dev/net/tun" ++ [0]) O_RDWR);
  let fd := ret device in
  request ← or_close fd (sys_tunsetiff fd (ifreq_name requested_name) (Z.lor IFF_TUN IFF_NO_PI));
  mret {| tun_fd := fd; macos_header := false;
          tun_name := trim_end_nul (from_utf8_lossy (out request)) |}.

(** [PF_SYSTEM], [SYSPROTO_CONTROL]; the identifier the kernel gives for the control name is
    the value of [sys_ctl_info]. *)
Definition open_utun : eff history Tun :=
  socket ← checked system (sys_socket 32 SOCK_DGRAM 2);
  let fd := ret socket in
  info ← or_close fd (sys_ctl_info fd UTUN_CONTROL);
  _ ← or_close fd (sys_connect_ctl fd (ret info) 0);
  name ← or_close fd (sys_utun_name fd 16);
  mret {| tun_fd := fd; macos_header := true; tun_name := utun_text (out name) |}.

(** The calls of the Wintun library, by how each ends; an error is its text. *)
Record Wintun := {
  load_from_path : result rstr unit;
  adapter_open : result rstr unit;
  adapter_create : result rstr unit;
  start_session : result rstr unit;
}.

Definition open_windows (wintun : Wintun) (requested_name : rstr) : io Tun :=
  _ ← map_err (fun error => Custom Other (str "loading Wintun: " ++ error)) (load_from_path wintun);
  _ ← map_err (fun error => Custom Other (str "opening Wintun adapter: " ++ error))
        (match adapter_open wintun with Ok u => Ok u | Err _ => adapter_create wintun end);
  _ ← map_err (fun error => Custom Other (str "starting Wintun session: " ++ error)) (start_session wintun);
  Ok {| tun_fd := 0; macos_header := false; tun_name := requested_name |}.

Definition tun_open (os : platform) (wintun : Wintun) (requested_name : rstr) : eff history Tun :=
  match os with
  | Macos => open_utun
  | Linux => open_linux requested_name
  | Windows => of_io (open_windows wintun requested_name)
  end.

(** [Drop for Tun] on Unix. *)
Definition tun_drop (t : Tun) : eff history unit := ignore (perform system (sys_close (tun_fd t))).

(** ** Configuration *)
Definition configure_mtu (os : platform) (t : Tun) (mtu : Z) : eff history unit :=
  _ ← of_io (validate_mtu mtu);
  match os with
  | Macos => run_command system (str "ifconfig") [tun_name t; str "mtu"; display_uint mtu]
  | Linux => run_command system (str "ip") [str "link"; str "set"; str "dev"; tun_name t; str "mtu"; display_uint mtu]
  | Windows => run_command system (str "netsh")
      [str "interface"; str "ipv4"; str "set"; str "subinterface"; tun_name t;
       str "mtu=" ++ display_uint mtu; str "store=active"]
  end.

(** The checks of [configure_ipv4]: the network's two parts. *)
Definition check_tun_ipv4 (address peer network : rstr) : io (rstr * Z) :=
  parts ← ok_or (split_once (ch "/"%char) network) (new_error InvalidInput "network must be CIDR");
  let '(network_address, prefix) := parts in
  prefix ← ok_or (parse_uint u8_max prefix) (new_error InvalidInput "invalid network prefix");
  if (32 <? prefix) || bool_decide (parse_ipv4 address = None) || bool_decide (parse_ipv4 peer = None)
     || bool_decide (parse_ipv4 network_address = None)
  then Err (new_error InvalidInput "invalid IPv4 TUN configuration")
  else Ok (network_address, prefix).

Definition configure_ipv4 (os : platform) (t : Tun) (address peer network : rstr) : eff history unit :=
  parts ← of_io (check_tun_ipv4 address peer network);
  let '(network_address, prefix) := parts in
  let netmask := display_ipv4 (mask prefix) in
  match os with
  | Macos =>
      _ ← run_command system (str "ifconfig")
            [tun_name t; address; peer; str "netmask"; netmask; str "up"];
      run_command system (str "route")
        [str "-n"; str "add"; str "-net"; network_address; str "-netmask"; netmask;
         str "-interface"; tun_name t]
  | Linux =>
      _ ← run_command system (str "ip")
            [str "addr"; str "replace"; address ++ str "/" ++ display_uint prefix; str "dev"; tun_name t];
      _ ← run_command system (str "ip") [str "link"; str "set"; str "dev"; tun_name t; str "up"];
      run_command system (str "ip") [str "route"; str "replace"; network; str "dev"; tun_name t]
  | Windows =>
      run_command system (str "netsh")
        [str "interface"; str "ip"; str "set"; str "address"; str "name=" ++ tun_name t; str "static";
         address; netmask; str "none"; str "store=active"]
  end.

(** ** Packets *)
Definition INTERNAL_BUFFER : nat := 2048.

(** [read_packet] on Unix into a buffer of [size] bytes: the packet it leaves there. *)
Definition read_packet (t : Tun) (size : nat) : eff history (list Z) :=
  let target_len := if macos_header t then INTERNAL_BUFFER else size in
  a ← checked system (sys_read (tun_fd t) (Z.of_nat target_len));
  let packet := take (Z.to_nat (ret a)) (out a) in
  if macos_header t then
    if (ret a <=? 4) || (Z.of_nat size <? ret a - 4) then fail_with (other "TUN packet too large")
    else mret (drop 4 packet)
  else mret packet.

(** The bytes [write_packet] gives to the kernel. *)
Definition packet_frame (t : Tun) (buffer : list Z) : io (list Z) :=
  if macos_header t then
    if decide (INTERNAL_BUFFER - 4 < length buffer)%nat
    then Err (new_error InvalidData "TUN packet exceeds internal buffer")
    else
      let family := if from_option (fun byte => Z.shiftr byte 4 =? 6) false (head buffer) then 30 else 2 in
      Ok ([0; 0; 0; family] ++ buffer)
  else Ok buffer.

Definition write_packet (t : Tun) (buffer : list Z) : eff history Z :=
  frame ← of_io (packet_frame t buffer);
  a ← checked system (sys_write (tun_fd t) frame);
  mret (if macos_header t then Z.max 0 (ret a - 4) else ret a).

(** The same on Windows, where the packets are [session.try_receive()]'s and
    [session.allocate_send_packet()]'s; a length passes through [u16]. *)
Definition windows_read_packet (received : result rstr (option (list Z))) (size : nat) : io (list Z) :=
  match received with
  | Err error => Err (Custom Other error)
  | Ok None => Err (Simple WouldBlock)
  | Ok (Some packet) =>
      if decide (length packet <= size)%nat then Ok packet else Err (other "TUN packet too large")
  end.

(** [allocate] gives the size of the packet Wintun allocates; copying into one of another size
    panics: [None]. *)
Definition windows_write_packet (allocate : Z -> result rstr nat) (buffer : list Z) : option (io Z) :=
  match allocate (Z.of_nat (length buffer) mod 2 ^ 16) with
  | Err error => Some (Err (Custom Other error))
  | Ok size => if decide (size = length buffer) then Some (Ok (Z.of_nat (length buffer))) else None
  end.

(** What a command session does with the device between opening and closing it. *)
Inductive tun_use := Uses_read (size : nat) | Uses_write (packet : list Z).

Definition use_tun (t : Tun) (u : tun_use) : eff history unit :=
  match u with
  | Uses_read size => ignore (read_packet t size)
  | Uses_write packet => ignore (write_packet t packet)
  end.

Definition use_all (t : Tun) (us : list tun_use) : eff history unit :=
  foldr (fun u m => _ ← use_tun t u; m) (mret tt) us.
End tun.

(** ** Lemmas *)
Section lemmas.
Context (system : history -> call -> answer).

(** A checked call on the open descriptor, and closing it. *)
Lemma keeps_use_fd fd c :
  call_fd c = Some fd -> (forall fd', c <> sys_close fd') ->
  keeps fd_step [fd] (checked system c) (fun _ fds => fds = [fd]).
Proof.
  intros Hc Hn. apply keeps_checked. intros a. exists [fd]. split; [|done].
  unfold fd_step. rewrite Hc, decide_True by (by left). destruct c; try done. by destruct (Hn fd0).
Qed.

Lemma keeps_close fd :
  keeps fd_step [fd] (ignore (perform system (sys_close fd))) (fun _ fds => fds = []).
Proof.
  eapply (keeps_ignore _ _ _ (fun _ fds => fds = [])); [|done]. apply keeps_perform. intros a. exists [].
  split; [|done]. unfold fd_step. cbn [call_fd]. rewrite decide_True by (by left).
  by rewrite filter_cons_False by naive_solver.
Qed.

(** A call on a fresh descriptor that is closed when the call fails. *)
Lemma keeps_or_close fd c :
  call_fd c = Some fd -> (forall fd', c <> sys_close fd') ->
  keeps fd_step [fd] (or_close system fd c) (fun r fds => fds = if r is Ok _ then [fd] else []).
Proof.
  intros Hc Hn. eapply keeps_guarded; [by apply keeps_use_fd|done|]. intros error fds ->. apply keeps_close.
Qed.

Definition tun_fds (r : io Tun) : list Z := match r with Ok t => [tun_fd t] | Err _ => [] end.

Lemma keeps_open_fd c :
  call_fd c = None -> (forall a, opens c a = if 0 <=? ret a then Some (ret a) else None) ->
  keeps fd_step [] (checked system c) (fun r fds => fds = match r with Ok a => [ret a] | Err _ => [] end).
Proof.
  intros Hc Ho. apply keeps_checked. intros a. unfold fd_step. rewrite Hc, Ho.
  eexists. split; [done|]. destruct (Z.ltb_spec (ret a) 0), (Z.leb_spec 0 (ret a)); done || lia.
Qed.

Lemma keeps_open_linux name : keeps fd_step [] (open_linux system name) (fun r fds => fds = tun_fds r).
Proof.
  eapply keeps_bind; [by apply keeps_open_fd|done|]. intros a fds ->.
  eapply keeps_bind; [by apply keeps_or_close|done|]. intros b fds ->. by apply keeps_ret.
Qed.

Lemma keeps_open_utun : keeps fd_step [] (open_utun system) (fun r fds => fds = tun_fds r).
Proof.
  eapply keeps_bind; [by apply keeps_open_fd|done|]. intros a fds ->.
  do 3 (eapply keeps_bind; [by apply keeps_or_close|done|]; intros ? ? ->). by apply keeps_ret.
Qed.

Lemma keeps_use t u : keeps fd_step [tun_fd t] (use_tun system t u) (fun _ fds => fds = [tun_fd t]).
Proof.
  destruct u as [size|packet]; eapply (keeps_ignore _ _ _ (fun _ fds => fds = [tun_fd t])); try done.
  - eapply keeps_bind; [by apply keeps_use_fd|done|]. intros a fds ->. cbv beta.
    destruct (macos_header t); [destruct (_ || _)|]; by (apply keeps_ret || apply keeps_of_io).
  - eapply keeps_bind; [by apply (keeps_of_io _ _ _ (fun _ fds => fds = [tun_fd t]))|done|]. intros frame fds ->.
    eapply keeps_bind; [by apply keeps_use_fd|done|]. intros a fds ->. by apply keeps_ret.
Qed.

Lemma keeps_use_all t us : keeps fd_step [tun_fd t] (use_all system t us) (fun _ fds => fds = [tun_fd t]).
Proof.
  induction us as [|u us IH]; [by apply keeps_ret|]. cbn. eapply keeps_bind; [apply keeps_use|done|].
  intros [] fds ->. exact IH.
Qed.
End lemmas.

(** ** Properties *)

(** C31: The device's descriptor has one owner: on Linux and macOS, opening the device either fails
    and leaves no descriptor open, or leaves exactly the device's; while it is used no other
    descriptor is touched; and dropping it closes it. No call is ever made on a descriptor
    that is not open, so none is closed twice or used after it was closed. *)
Theorem tun_descriptor_lifecycle system os wintun name us h :
  os <> Windows ->
  exists r calls, tun_open system os wintun name h = (r, h ++ calls) /\
    descriptors [] calls = Some (tun_fds r) /\
    forall t, r = Ok t ->
      exists r' used, (_ ← ignore (use_all system t us); tun_drop system t) (h ++ calls) = (r', h ++ calls ++ used) /\
        descriptors [] (calls ++ used) = Some [].
Proof.
  intros Hos. destruct (tun_open system os wintun name h) as [r h1] eqn:E.
  assert (keeps fd_step [] (tun_open system os wintun name) (fun r fds => fds = tun_fds r)) as Hk
    by (destruct os; [apply keeps_open_linux|apply keeps_open_utun|done]).
  destruct (Hk _ _ _ E) as (calls & fds & -> & D & ->). exists r, calls. split_and!; [done..|]. intros t ->.
  destruct ((_ ← ignore (use_all system t us); tun_drop system t) (h ++ calls)) as [r' h2] eqn:E2.
  assert (keeps fd_step [tun_fd t] (_ ← ignore (use_all system t us); tun_drop system t) (fun _ fds => fds = [])) as Hu.
  { eapply (keeps_bind _ _ _ _ (fun r fds => r = Ok tt /\ fds = [tun_fd t])); [|by intros ? ? [? _]|].
    - eapply (keeps_ignore _ _ _ (fun _ fds => fds = [tun_fd t])); [apply keeps_use_all|done].
    - intros [] fds [_ ->]. apply keeps_close. }
  destruct (Hu _ _ _ E2) as (used & fds & -> & D2 & ->). exists r', used. rewrite <-app_assoc. split; [done|].
  unfold descriptors. by rewrite follow_app, D.
Qed.

(** A version of Internet Protocol other than 6 is announced as IPv4. *)
Definition is_ipv6 (packet : list Z) : bool := from_option (fun byte => Z.shiftr byte 4 =? 6) false (head packet).

Definition read_size (t : Tun) (size : nat) : nat := if macos_header t then INTERNAL_BUFFER else size.

(** C32: Packets survive the device: what [write_packet] hands to the kernel is one frame, with
    the protocol family in front where the device wants it; the write is reported complete
    exactly when the kernel took the whole frame; and a reader that the kernel gives the same
    bytes gets the packet back, if its buffer is large enough. *)
Theorem tun_packet_roundtrip system t packet size h h' written :
  packet <> [] -> (length packet <= size)%nat ->
  write_packet system t packet h = (Ok written, h') ->
  exists frame a, h' = h ++ [(sys_write (tun_fd t) frame, a)] /\
    frame = (if macos_header t then [0; 0; 0; if is_ipv6 packet then 30 else 2] else []) ++ packet /\
    (written = Z.of_nat (length packet) <-> ret a = Z.of_nat (length frame)) /\
    forall system2 h2, let a2 := system2 h2 (sys_read (tun_fd t) (Z.of_nat (read_size t size))) in
      ret a2 = Z.of_nat (length frame) -> out a2 = frame -> (read_packet system2 t size h2).1 = Ok packet.
Proof.
  intros Hne Hsize Hw. unfold write_packet in Hw. next_effect Hw frame h1 Hf.
  assert (packet_frame t packet = Ok frame /\ h1 = h) as [Hf' ->] by (by injection Hf). clear Hf.
  assert (0 < length packet)%nat as Hpos by (destruct packet; [done|cbn; lia]).
  next_effect Hw a h2 Ha. apply checked_Ok in Ha as (-> & Hret & ->). injection Hw as <- <-.
  exists frame, (system h (sys_write (tun_fd t) frame)). split; [done|].
  assert (frame = (if macos_header t then [0; 0; 0; if is_ipv6 packet then 30 else 2] else []) ++ packet) as Hframe.
  { unfold packet_frame in Hf'. destruct (macos_header t); [case_decide; [done|]|]; by injection Hf'. }
  split; [done|]. split.
  { rewrite Hframe, length_app. destruct (macos_header t); cbn [length]; lia. }
  intros system2 h2 a2 Hr Ho. unfold read_packet. rewrite eff_bind_run, checked_run.
  fold (read_size t size). subst a2. rewrite Hr. destruct (Z.ltb_spec (Z.of_nat (length frame)) 0); [lia|].
  cbv beta iota zeta. rewrite Hr, Ho, Nat2Z.id, take_ge by done. rewrite Hframe, length_app.
  destruct (macos_header t); [|done]. cbn [length app drop].
  destruct (_ || _) eqn:Hb; [|done]. apply orb_true_iff in Hb as [Hb%Z.leb_le|Hb%Z.ltb_lt]; lia.
Qed.

(** C34: Reading never overruns a buffer: of a kernel that fills in as many bytes as it reports, at
    most those it was asked for, one read is asked for at most what the buffer behind it holds;
    the packet is what was read less the header, fits the caller's buffer, and is not empty
    where the device has a header. *)
Theorem read_packet_fits system t size h packet h' :
  (forall n, let a := system h (sys_read (tun_fd t) n) in ret a <= n /\ length (out a) = Z.to_nat (ret a)) ->
  read_packet system t size h = (Ok packet, h') ->
  exists a, h' = h ++ [(sys_read (tun_fd t) (Z.of_nat (read_size t size)), a)] /\
    0 <= ret a <= Z.of_nat (read_size t size) /\
    Z.of_nat (length packet) = ret a - (if macos_header t then 4 else 0) /\
    (length packet <= size)%nat /\
    (macos_header t = true -> packet <> []).
Proof.
  intros Hk Hr. unfold read_packet in Hr. next_effect Hr a h1 Ha. apply checked_Ok in Ha as (Ha & Hpos & ->).
  fold (read_size t size) in *. destruct (Hk (Z.of_nat (read_size t size))) as [Hle Hlen]. rewrite <-Ha in Hle, Hlen.
  exists a. rewrite take_ge in Hr by lia. unfold read_size in *. destruct (macos_header t).
  - destruct (_ || _) eqn:Hb; [done|]. apply orb_false_iff in Hb as [H4 Hs].
    apply Z.leb_gt in H4. apply Z.ltb_ge in Hs. injection Hr as <- <-.
    rewrite length_drop. split_and!; [done|lia..|]. intros _ E%(f_equal length). rewrite length_drop in E. cbn in E. lia.
  - injection Hr as <- <-. split_and!; [done|lia..|done].
Qed.

(** ** Witnesses *)

(** A kernel for the witnesses: descriptor 7, and one IPv4 packet with the macOS header. *)
Definition echo_kernel (h : history) (c : call) : answer :=
  match c with
  | sys_open _ _ | sys_socket _ _ _ => answering 7 []
  | sys_read _ n => answering (Z.min n 6) (take (Z.to_nat n) [0; 0; 0; 2; 69; 0])
  | sys_write _ data => answering (Z.of_nat (length data)) []
  | sys_connect_ctl _ _ _ => answering (-1) []
  | _ => answering 0 []
  end.

Definition no_wintun : Wintun :=
  {| load_from_path := Err []; adapter_open := Err []; adapter_create := Err []; start_session := Err [] |}.
Definition utun : Tun := {| tun_fd := 7; macos_header := true; tun_name := str "utun4" |}.

Lemma tun_descriptor_lifecycle_witness :
  exists r calls, tun_open echo_kernel Linux no_wintun (str "vpn0") [] = (r, [] ++ calls) /\
    descriptors [] calls = Some (tun_fds r) /\
    forall t, r = Ok t ->
      exists r' used, (_ ← ignore (use_all echo_kernel t [Uses_read 1500; Uses_write [69]]); tun_drop echo_kernel t) ([] ++ calls)
                        = (r', [] ++ calls ++ used) /\
        descriptors [] (calls ++ used) = Some [].
Proof.
  apply (tun_descriptor_lifecycle echo_kernel Linux no_wintun (str "vpn0") [Uses_read 1500; Uses_write [69]] []).
  discriminate.
Defined.

Lemma tun_packet_roundtrip_witness :
  exists frame a, [(sys_write 7 [0; 0; 0; 2; 69; 0], echo_kernel [] (sys_write 7 [0; 0; 0; 2; 69; 0]))]
                  = [] ++ [(sys_write 7 frame, a)] /\
    frame = [0; 0; 0; 2] ++ [69; 0] /\
    (2 = 2 <-> ret a = Z.of_nat (length frame)) /\
    forall system2 h2, let a2 := system2 h2 (sys_read 7 2048) in
      ret a2 = Z.of_nat (length frame) -> out a2 = frame -> (read_packet system2 utun 1500 h2).1 = Ok [69; 0].
Proof.
  apply (tun_packet_roundtrip echo_kernel utun [69; 0] 1500 []); [discriminate|cbn; lia|].
  vm_compute. reflexivity.
Defined.

Lemma read_packet_fits_witness :
  exists a, [(sys_read 7 2048, echo_kernel [] (sys_read 7 2048))] = [] ++ [(sys_read 7 2048, a)] /\
    0 <= ret a <= 2048 /\ 2 = ret a - 4 /\ (2 <= 1500)%nat /\ (true = true -> [69; 0] <> []).
Proof.
  apply (read_packet_fits echo_kernel utun 1500 [] [69; 0]); [|vm_compute; reflexivity].
  intros n. cbn. rewrite length_take. cbn. lia.
Defined.
