(* ===== verification/Guards.v ===== *)
(** * Forwarding and DNS guards

    Models [ForwardingGuard] and [DnsGuard] of [src/lib.rs]: changes of the host's
    configuration that last as long as a value, and are undone by its [Drop]; the two settings of the
    kernel that forwarding needs are not. *)

From Stdlib Require Import Ascii.
From S2P Require Import Prelude Text Net System Tun.

Local Open Scope Z_scope.

(** ** Forwarding between clients *)
Record ForwardingGuard := { fg_interface : rstr; fg_network : rstr }.

Definition FORWARD_COMMENT : rstr := str "autobricks-vpn-client-forward".

(** What identifies the rule, and the three commands on it. *)
Definition rule_match (g : ForwardingGuard) : list rstr :=
  [str "-i"; fg_interface g; str "-o"; fg_interface g; str "-s"; fg_network g; str "-d"; fg_network g;
   str "-m"; str "comment"; str "--comment"; FORWARD_COMMENT; str "-j"; str "ACCEPT"].
Definition check_rule (g : ForwardingGuard) : call := run_status (str "iptables") ([str "-C"; str "FORWARD"] ++ rule_match g).
Definition delete_rule (g : ForwardingGuard) : call := run_status (str "iptables") ([str "-D"; str "FORWARD"] ++ rule_match g).
Definition insert_arguments (g : ForwardingGuard) : list rstr := [str "-I"; str "FORWARD"; str "1"] ++ rule_match g.
Definition insert_rule (g : ForwardingGuard) : call := run_status (str "iptables") (insert_arguments g).

Section forwarding.
Context (system : history -> call -> answer).

(** [.status().is_ok_and(|status| status.success())] *)
Definition succeeds (c : call) : history -> bool * history := fun h =>
  let a := system h c in (success a, h ++ [(c, a)]).

(** The loop of [remove_rule]; [None] when the fuel does not suffice. *)
Fixpoint remove_rule (fuel : nat) (g : ForwardingGuard) (h : history) : option history :=
  match fuel with
  | O => None
  | S fuel =>
      let '(rule_exists, h) := succeeds (check_rule g) h in
      if rule_exists then
        let '(removed, h) := succeeds (delete_rule g) h in
        if removed then remove_rule fuel g h else Some h
      else Some h
  end.

(** [ForwardingGuard::enable] on Linux: the guard is dropped when the insertion fails. *)
Definition forwarding_enable (fuel : nat) (interface network : rstr) (h : history)
    : option (io ForwardingGuard * history) :=
  match (_ ← run_command system (str "sysctl") [str "-w"; str "net.ipv4.ip_forward=1"];
         run_command system (str "sysctl")
           [str "-w"; str "net.ipv4.conf." ++ interface ++ str ".send_redirects=0"]) h with
  | (Err error, h) => Some (Err error, h)
  | (Ok _, h) =>
      let guard := {| fg_interface := interface; fg_network := network |} in
      h ← remove_rule fuel guard h;
      match run_command system (str "iptables") (insert_arguments guard) h with
      | (Ok _, h) => Some (Ok guard, h)
      | (Err error, h) => h ← remove_rule fuel guard h; Some (Err error, h)
      end
  end.

Definition forwarding_drop (fuel : nat) (g : ForwardingGuard) (h : history) : option history :=
  remove_rule fuel g h.
End forwarding.

(** ** Name servers *)

(** [DnsGuard]; the fields that exist on the platform. *)
Inductive DnsGuard :=
| LinuxDns (interface : rstr)
| MacosDns (services : list (rstr * list rstr))
| WindowsDns (interface nrpt_comment : rstr).

Definition ok_lines (a : answer) : list rstr := lines (from_utf8_lossy (out a)).

(** The services [networksetup -listallnetworkservices] lists as enabled. *)
Definition enabled_services (a : answer) : list rstr :=
  filter (fun service => service <> [] /\ starts_with (str "*") service = false) (drop 1 (ok_lines a)).

(** The servers [networksetup -getdnsservers] reports. *)
Definition reported_servers (a : answer) : list rstr :=
  if contains (str "aren't any DNS Servers") (from_utf8_lossy (out a)) then [] else ok_lines a.

Definition set_servers (service : rstr) (servers : list rstr) : call :=
  run_status (str "networksetup")
    ([str "-setdnsservers"; service] ++ match servers with [] => [str "Empty"] | _ => servers end).

Section dns.
Context (system : history -> call -> answer).

(** [Drop for DnsGuard]; the settings of macOS are put back in reverse order. *)
Definition dns_drop (g : DnsGuard) : eff history unit :=
  match g with
  | LinuxDns interface => ignore (perform system (run_status (str "resolvectl") [str "revert"; interface]))
  | MacosDns services =>
      foldr (fun '(service, servers) rest => _ ← ignore (perform system (set_servers service servers)); rest)
        (mret tt) (reverse services)
  | WindowsDns _ nrpt_comment =>
      ignore (perform system (run_status (str "powershell.exe")
        [str "-NoProfile"; str "-NonInteractive"; str "-Command";
         str "Get-DnsClientNrptRule | Where-Object Comment -EQ '" ++ nrpt_comment
           ++ str "' | Remove-DnsClientNrptRule -Force"]))
  end.

(** The body of the loop over the services; the result is what was pushed, and the error
    that leaves the loop. *)
Fixpoint apply_services (server : rstr) (services : list rstr) (saved : list (rstr * list rstr))
    (h : history) : list (rstr * list rstr) * (io unit * history) :=
  match services with
  | [] => (saved, (Ok tt, h))
  | service :: services =>
      match output system (str "networksetup") [str "-getdnsservers"; service] h with
      | (Err error, h) => (saved, (Err error, h))
      | (Ok old, h) =>
          if success old then
            let saved := saved ++ [(service, reported_servers old)] in
            match run_command system (str "networksetup") [str "-setdnsservers"; service; server] h with
            | (Err error, h) => (saved, (Err error, h))
            | (Ok _, h) => apply_services server services saved h
            end
          else (saved, (Err (Custom Other (str "unable to read DNS settings for " ++ service)), h))
      end
  end.

(** The rest of [apply] on macOS, after the services were listed: the guard, with what was
    saved so far, is dropped on the early returns of the loop. *)
Definition apply_listed (server : rstr) (listed : answer) : eff history DnsGuard :=
  if success listed then fun h =>
    let '(saved, (r, h)) := apply_services server (enabled_services listed) [] h in
    match r with
    | Ok _ => (Ok (MacosDns saved), h)
    | Err error => (Err error, (dns_drop (MacosDns saved) h).2)
    end
  else fail_with (other "unable to list macOS network services").

(** [DnsGuard::apply]; [process] is [std::process::id()]. *)
Definition dns_apply (os : platform) (process : Z) (interface : rstr) (server : Z) : eff history DnsGuard :=
  let server := display_ipv4 server in
  match os with
  | Linux =>
      _ ← run_command system (str "resolvectl") [str "dns"; interface; server];
      _ ← guarded (ignore (perform system (run_status (str "resolvectl") [str "revert"; interface])))
            (run_command system (str "resolvectl") [str "domain"; interface; str "~."]);
      mret (LinuxDns interface)
  | Macos =>
      listed ← output system (str "networksetup") [str "-listallnetworkservices"];
      apply_listed server listed
  | Windows =>
      let nrpt_comment := str "autobricks-vpn-" ++ display_uint process in
      _ ← run_command system (str "powershell.exe")
            [str "-NoProfile"; str "-NonInteractive"; str "-Command";
             str "Add-DnsClientNrptRule -Namespace '.' -NameServers '" ++ server ++ str "' -Comment '"
               ++ nrpt_comment ++ str "'"];
      mret (WindowsDns interface nrpt_comment)
  end.
End dns.

(** ** The firewall as the commands leave it *)
Section firewall.
Context (g : ForwardingGuard) (n0 : nat).

(** How many copies of the rule there are after the calls [h], when there were [n0]. *)
Definition rule_effect (n : nat) (c : call) (a : answer) : nat :=
  if success a then
    if decide (c = insert_rule g) then S n else if decide (c = delete_rule g) then pred n else n
  else n.
Definition rules (h : history) : nat := foldl (fun n '(c, a) => rule_effect n c a) n0 h.

Lemma rules_snoc h c a : rules (h ++ [(c, a)]) = rule_effect (rules h) c a.
Proof. unfold rules. by rewrite foldl_app. Qed.

Lemma rules_check h a : rules (h ++ [(check_rule g, a)]) = rules h.
Proof. rewrite rules_snoc. unfold rule_effect. destruct (success a); [|done]. by do 2 (case_decide; [done|]). Qed.

Lemma rules_delete h a : rules (h ++ [(delete_rule g, a)]) = if success a then pred (rules h) else rules h.
Proof. rewrite rules_snoc. unfold rule_effect. destruct (success a); [|done]. case_decide; [done|]. by case_decide. Qed.

Lemma rules_insert h a : rules (h ++ [(insert_rule g, a)]) = if success a then S (rules h) else rules h.
Proof. rewrite rules_snoc. unfold rule_effect. destruct (success a); [|done]. by case_decide. Qed.

Lemma rules_other h c a : c <> insert_rule g -> c <> delete_rule g -> rules (h ++ [(c, a)]) = rules h.
Proof. intros Hi Hd. rewrite rules_snoc. unfold rule_effect. destruct (success a); [|done]. by do 2 (case_decide; [done|]). Qed.

Context (system : history -> call -> answer).

(** [iptables] finds and deletes only a rule that is there; when it works, it always does. *)
Definition iptables_sound : Prop :=
  forall h c, c ∈ [check_rule g; delete_rule g] -> success (system h c) = true -> (0 < rules h)%nat.
Definition iptables_works : Prop :=
  forall h c, c ∈ [check_rule g; delete_rule g] -> (0 < rules h)%nat -> success (system h c) = true.

(** The loop ends within as many rounds as there are rules, and makes no other calls. *)
Lemma remove_rule_ends fuel h :
  iptables_sound -> (rules h < fuel)%nat ->
  exists calls, remove_rule system fuel g h = Some (h ++ calls) /\
    Forall (fun '(c, _) => c ∈ [check_rule g; delete_rule g]) calls /\
    (rules (h ++ calls) <= rules h)%nat /\ (iptables_works -> rules (h ++ calls) = 0%nat).
Proof.
  intros Hsound. revert h. induction fuel as [|fuel IH]; intros h Hlt; [lia|].
  cbn [remove_rule succeeds]. set (a := system h (check_rule g)). destruct (success a) eqn:Ha.
  2:{ exists [(check_rule g, a)]. split_and!; [done|constructor; [by left|done]| |]; rewrite rules_check; [lia|].
      intros Hworks. destruct (decide (rules h = 0%nat)) as [|Hn]; [done|].
      assert (success a = true) by (apply Hworks; [by left|lia]). congruence. }
  set (h1 := h ++ [(check_rule g, a)]). assert (rules h1 = rules h) as E1 by apply rules_check.
  set (b := system h1 (delete_rule g)). destruct (success b) eqn:Hb.
  - assert (0 < rules h1)%nat as Hpos by (eapply (Hsound h1 (delete_rule g)); [by right; left|done]).
    assert (rules (h1 ++ [(delete_rule g, b)]) = pred (rules h)) as E2 by (by rewrite rules_delete, Hb, E1).
    destruct (IH (h1 ++ [(delete_rule g, b)])) as (calls & -> & Hc & Hle & Hz); [lia|].
    exists ((check_rule g, a) :: (delete_rule g, b) :: calls).
    replace (h ++ _ :: _ :: calls) with ((h1 ++ [(delete_rule g, b)]) ++ calls) by (unfold h1; by rewrite <-!app_assoc).
    split_and!; [done| |lia|done]. constructor; [by left|]. constructor; [by right; left|done].
  - exists [(check_rule g, a); (delete_rule g, b)].
    replace (h ++ [_; _]) with (h1 ++ [(delete_rule g, b)]) by (unfold h1; by rewrite <-!app_assoc).
    split_and!; [done|constructor; [by left|]; constructor; [by right; left|done]| |];
      rewrite rules_delete, Hb, E1; [lia|].
    intros Hworks. destruct (decide (rules h = 0%nat)) as [|Hn]; [done|].
    assert (success b = true) by (apply Hworks; [by right; left|lia]). congruence.
Qed.
End firewall.

(** ** The kernel's settings *)

(** The settings that [sysctl] has written, in order. *)
Definition kernel_write (c : call) (a : answer) : option rstr :=
  match c with
  | run_status program [flag; setting] =>
      if decide (program = str "sysctl" /\ flag = str "-w" /\ success a = true) then Some setting else None
  | _ => None
  end.
Definition kernel_settings (h : history) : list rstr := omap (fun '(c, a) => kernel_write c a) h.

Definition forwarding_on : rstr := str "net.ipv4.ip_forward=1".
Definition redirects_off (interface : rstr) : rstr := str "net.ipv4.conf." ++ interface ++ str ".send_redirects=0".

Lemma kernel_settings_app h calls : kernel_settings (h ++ calls) = kernel_settings h ++ kernel_settings calls.
Proof. apply omap_app. Qed.

Lemma kernel_settings_snoc h c a :
  kernel_settings (h ++ [(c, a)]) = kernel_settings h ++ option_list (kernel_write c a).
Proof. rewrite kernel_settings_app. unfold kernel_settings. cbn. by destruct (kernel_write c a). Qed.

Lemma kernel_settings_other h c a : kernel_write c a = None -> kernel_settings (h ++ [(c, a)]) = kernel_settings h.
Proof. intros Hw. rewrite kernel_settings_snoc, Hw. apply (right_id_L [] (++)). Qed.

(** The rule is no setting of the kernel. *)
Lemma remove_rule_kernel system fuel g h h' :
  remove_rule system fuel g h = Some h' -> kernel_settings h' = kernel_settings h.
Proof.
  revert h. induction fuel as [|fuel IH]; intros h; [done|]. cbn [remove_rule succeeds].
  destruct (success _).
  - destruct (success _); [intros H%IH|intros [= <-]]; rewrite ?H; by rewrite !kernel_settings_other.
  - intros [= <-]. by rewrite kernel_settings_other.
Qed.

(** Enabling forwarding writes two settings, in this order, and nothing puts them back. *)
Lemma enable_kernel system fuel interface network h r h' :
  forwarding_enable system fuel interface network h = Some (r, h') ->
  exists written, kernel_settings h' = kernel_settings h ++ written /\
    written `prefix_of` [forwarding_on; redirects_off interface] /\
    (is_ok r = true -> written = [forwarding_on; redirects_off interface]).
Proof.
  unfold forwarding_enable. rewrite eff_bind_run, run_command_outcome.
  set (a := system h _). destruct (success a) eqn:Ha.
  2:{ intros [= <- <-]. exists []. rewrite kernel_settings_other by (unfold kernel_write; rewrite decide_False; [done|rewrite Ha; naive_solver]).
      rewrite (right_id_L [] (++)). split_and!; [done|apply prefix_nil|done]. }
  cbn iota. rewrite run_command_outcome. set (h1 := h ++ [_]). set (b := system h1 _).
  assert (kernel_settings h1 = kernel_settings h ++ [forwarding_on]) as E1.
  { unfold h1. rewrite kernel_settings_snoc. unfold kernel_write. by rewrite decide_True. }
  destruct (success b) eqn:Hb.
  2:{ intros [= <- <-]. exists [forwarding_on]. rewrite kernel_settings_other, E1 by (unfold kernel_write; rewrite decide_False; [done|rewrite Hb; naive_solver]).
      split_and!; [done|by eexists|done]. }
  set (h2 := h1 ++ [_]).
  assert (kernel_settings h2 = kernel_settings h ++ [forwarding_on; redirects_off interface]) as E2.
  { unfold h2. rewrite kernel_settings_snoc, E1. unfold kernel_write. rewrite decide_True by done. by rewrite <-(assoc_L (++)). }
  destruct (remove_rule _ _ _ h2) as [h3|] eqn:E3; [|done]. apply remove_rule_kernel in E3. cbn [mbind option_bind].
  rewrite run_command_outcome. set (c := system h3 _).
  assert (forall a, kernel_settings (h3 ++ [(run_status (str "iptables") (insert_arguments {| fg_interface := interface; fg_network := network |}), a)])
            = kernel_settings h ++ [forwarding_on; redirects_off interface]) as E4.
  { intros a'. by rewrite kernel_settings_other, E3, E2. }
  intros Hend. exists [forwarding_on; redirects_off interface]. destruct (success c); [injection Hend as <- <-; split_and!; [apply E4|done|done]|].
  destruct (remove_rule _ _ _ _) as [h5|] eqn:E5; [|done]. apply remove_rule_kernel in E5. injection Hend as <- <-.
  split_and!; [by rewrite E5, E4|done|done].
Qed.

(** The two [sysctl] settings do not concern the rule. *)
Lemma sysctl_rules g n0 system settings h r h' :
  run_command system (str "sysctl") settings h = (r, h') ->
  exists a, h' = h ++ [(run_status (str "sysctl") settings, a)] /\ rules g n0 h' = rules g n0 h /\
    (r = Ok tt -> success a = true).
Proof.
  rewrite run_command_run. intros [= Hr <-]. eexists. split; [done|]. split; [by apply rules_other|].
  intros ->. unfold success. by destruct (_ <? _), (_ =? _).
Qed.

(** While the guard lives there is exactly one rule that lets the clients reach each other
    through the device, whatever stale copies a crashed server left; a start that fails and
    the guard's [Drop] leave none; and only this rule is ever deleted. Both loops end even
    when [iptables] fails at will, as long as it does not find rules that do not exist. *)
Theorem forwarding_rule_lifecycle system n0 interface network fuel h :
  let g := {| fg_interface := interface; fg_network := network |} in
  iptables_sound g n0 system -> (rules g n0 h < fuel)%nat ->
  exists r calls, forwarding_enable system fuel interface network h = Some (r, h ++ calls) /\
    Forall (fun '(c, _) => forall arguments, c = run_status (str "iptables") (str "-D" :: arguments) -> c = delete_rule g) calls /\
    (iptables_works g n0 system ->
       match r with
       | Ok g' => g' = g /\ rules g n0 (h ++ calls) = 1%nat
       | Err _ => rules g n0 (h ++ calls) = 0%nat \/
                  Forall (fun '(c, _) => exists settings, c = run_status (str "sysctl") settings) calls
       end) /\
    forall between fuel', (rules g n0 ((h ++ calls) ++ between) < fuel')%nat ->
      exists h', forwarding_drop system fuel' g ((h ++ calls) ++ between) = Some h' /\
        (iptables_works g n0 system -> rules g n0 h' = 0%nat).
Proof.
  intros g Hsound Hfuel. set (deletes := fun '(c, _) => forall arguments : list rstr, _).
  assert (forall calls, Forall (fun '(c, _) => c ∈ [check_rule g; delete_rule g]) calls -> Forall deletes calls) as Hdel.
  { intros calls Hc. eapply Forall_impl; [exact Hc|]. intros [c a] Hin arguments ->. set_solver. }
  assert (forall h2 fuel', (rules g n0 h2 < fuel')%nat -> exists h', forwarding_drop system fuel' g h2 = Some h' /\
            (iptables_works g n0 system -> rules g n0 h' = 0%nat)) as Hdrop.
  { intros h2 fuel' Hf. destruct (remove_rule_ends g n0 system fuel' h2 Hsound Hf) as (calls & E & _ & _ & Hz). eauto. }
  unfold forwarding_enable. rewrite eff_bind_run.
  destruct (run_command system _ _ h) as [r1 h1] eqn:E1. apply (sysctl_rules g n0) in E1 as (a1 & -> & Hr1 & _).
  destruct r1 as [[]|error].
  2:{ eexists _, [_]. split_and!; [done|by constructor|intros _; right; constructor; eauto|by eauto]. }
  destruct (run_command system _ _ (h ++ _)) as [r2 h2] eqn:E2. apply (sysctl_rules g n0) in E2 as (a2 & -> & Hr2 & _).
  rewrite <-app_assoc in *. cbn [app] in *. destruct r2 as [[]|error].
  2:{ eexists _, [_; _]. split_and!; [done|by repeat constructor|intros _; right; repeat constructor; eauto|by eauto]. }
  rewrite Hr1 in Hr2. match type of Hr2 with rules _ _ (h ++ ?p) = _ => set (pre := p) in * end.
  destruct (remove_rule_ends g n0 system fuel (h ++ pre) Hsound) as (c1 & R1 & Hc1 & Hle1 & Hz1); [lia|].
  fold g. rewrite R1. cbn [mbind option_bind].
  rewrite run_command_run. fold (insert_rule g). set (a := system _ (insert_rule g)).
  destruct (success a) eqn:Ha; unfold success in Ha.
  - apply Z.eqb_eq in Ha as Ha'. rewrite Ha'. cbn [Z.ltb Z.compare Z.eqb].
    exists (Ok g), (pre ++ c1 ++ [(insert_rule g, a)]). rewrite !app_assoc. split_and!; [done| | |by eauto].
    + apply Forall_app; split; [apply Forall_app; split; [by repeat constructor|by apply Hdel]|]. by repeat constructor.
    + intros Hw. split; [done|]. rewrite rules_insert. unfold success. by rewrite Ha, Hz1.
  - assert (exists error, (if ret a <? 0 then Err (Os (errno a)) else if ret a =? 0 then Ok tt
       else Err (Custom Other (str "iptables" ++ str " failed with status " ++ shown a))) = Err error) as [error ->]
      by (rewrite Ha; destruct (_ <? _); eauto).
    set (h3 := ((h ++ pre) ++ c1) ++ [_]).
    assert (rules g n0 h3 = rules g n0 ((h ++ pre) ++ c1)) as E3 by (unfold h3; rewrite rules_insert; unfold success; by rewrite Ha).
    destruct (remove_rule_ends g n0 system fuel h3 Hsound) as (c2 & -> & Hc2 & Hle2 & Hz2); [lia|].
    exists (Err error), (pre ++ c1 ++ [(insert_rule g, a)] ++ c2).
    replace (h ++ pre ++ c1 ++ [_] ++ c2) with (h3 ++ c2) by (unfold h3; by rewrite <-!app_assoc).
    split_and!; [done| |by eauto|by eauto].
    apply Forall_app; split; [by repeat constructor|]. apply Forall_app; split; [by apply Hdel|].
    constructor; [done|]. by apply Hdel.
Qed.

(** ** The name servers as the commands leave them *)
Section resolver.
Context (before : rstr -> list rstr).

(** The servers of each network service of macOS after the calls [h]. *)
Definition dns_effect (st : rstr -> list rstr) (c : call) (a : answer) : rstr -> list rstr :=
  match c with
  | run_status program (flag :: service :: servers) =>
      if decide (program = str "networksetup" /\ flag = str "-setdnsservers" /\ success a = true) then
        fun s => if decide (s = service) then (if decide (servers = [str "Empty"]) then [] else servers) else st s
      else st
  | _ => st
  end.
Definition settings (h : history) : rstr -> list rstr := foldl (fun st '(c, a) => dns_effect st c a) before h.

Lemma settings_snoc h c a : settings (h ++ [(c, a)]) = dns_effect (settings h) c a.
Proof. unfold settings. by rewrite foldl_app. Qed.

Lemma settings_output h program arguments a s : settings (h ++ [(run_output program arguments, a)]) s = settings h s.
Proof. by rewrite settings_snoc. Qed.

Lemma settings_set h service servers a s :
  settings (h ++ [(set_servers service servers, a)]) s =
    if decide (s = service /\ success a = true) then (if decide (servers = [str "Empty"]) then [] else servers)
    else settings h s.
Proof.
  rewrite settings_snoc. unfold dns_effect, set_servers. cbn [app].
  destruct (success a) eqn:Ha; [|by rewrite !decide_False by naive_solver].
  rewrite decide_True by done. destruct (decide (s = service)) as [->|Hd].
  - destruct (decide (service = service /\ true = true)) as [_|[]]; [|done]. destruct servers; [by repeat case_decide|done].
  - by destruct (decide (s = service /\ true = true)) as [[]|].
Qed.

Context (system : history -> call -> answer).

(** What is documented of [networksetup]: a successful query reports the servers in use, one
    on a line, or says that there are none. *)
Definition networksetup_reports : Prop :=
  forall h service, let a := system h (run_output (str "networksetup") [str "-getdnsservers"; service]) in
    success a = true -> reported_servers a = settings h service.

(** A service has the servers it is to have, or the command that gives them to it has failed. *)
Definition restored (servers : list rstr) (service : rstr) (h : history) (calls : history) : Prop :=
  settings (h ++ calls) service = servers \/
  exists a, (set_servers service servers, a) ∈ calls /\ success a = false.

Lemma restored_app servers service h c1 c2 :
  restored servers service (h ++ c1) c2 -> restored servers service h (c1 ++ c2).
Proof.
  intros [Hs|(a & Hin & Ha)]; [left; by rewrite app_assoc|]. right. exists a. split; [|done]. apply elem_of_app. by right.
Qed.

(** [saved] holds what the services had when the calls began. *)
Definition saved_settings (target : rstr -> list rstr) (saved : list (rstr * list rstr)) (h : history) (s : rstr) : Prop :=
  match (list_to_map saved : gmap rstr (list rstr)) !! s with
  | Some servers => servers = target s
  | None => settings h s = target s
  end.

(** Putting the settings back in reverse order lets the oldest of a service win. *)
Lemma drop_restores target saved h s :
  target s <> [str "Empty"] -> saved_settings target saved h s ->
  exists calls, (dns_drop system (MacosDns saved) h).2 = h ++ calls /\ restored (target s) s h calls.
Proof.
  intros Hne. unfold dns_drop. generalize (eq_refl (reverse saved)).
  set (run := foldr _ _). intros _.
  assert (forall l1 l2 h1, (run (l1 ++ l2) h1).2 = (run l2 (run l1 h1).2).2) as Happ.
  { intros l1 l2. induction l1 as [|[service servers] l1 IH]; intros h1; [done|]. apply IH. }
  assert (forall l h1, exists calls, (run l h1).2 = h1 ++ calls) as Hgrow.
  { intros l. induction l as [|[service servers] l IH]; intros h1; [exists []; by rewrite app_nil_r|].
    destruct (IH (h1 ++ [(set_servers service servers, system h1 (set_servers service servers))])) as [calls E].
    eexists (_ :: calls). rewrite cons_middle, app_assoc. exact E. }
  revert h. induction saved as [|[service servers] saved IH]; intros h.
  { intros Hs. exists []. rewrite app_nil_r. split; [done|]. left. by rewrite app_nil_r. }
  unfold saved_settings. cbn [list_to_map foldr]. intros Hs. rewrite reverse_cons, Happ.
  destruct (Hgrow (reverse saved) h) as [calls E]. set (a := system (h ++ calls) (set_servers service servers)).
  exists (calls ++ [(set_servers service servers, a)]). rewrite E, app_assoc. split; [done|].
  cbn in Hs. destruct (decide (s = service)) as [->|Hd].
  - rewrite lookup_insert_eq in Hs. subst servers. apply restored_app. destruct (success a) eqn:Ha.
    + left. rewrite settings_set, decide_True by done. by rewrite decide_False.
    + right. exists a. split; [set_solver|done].
  - rewrite lookup_insert_ne in Hs by done. destruct (IH h Hs) as (calls' & E' & Hr). rewrite E in E'. apply app_inv_head in E' as <-.
    destruct Hr as [Hr|(b & Hin & Hb)].
    + left. rewrite app_assoc, settings_set, decide_False; [done|]. by intros [? _].
    + right. exists b. split; [set_solver|done].
Qed.

(** One round of the loop keeps the old settings, the error exits included. *)
Lemma apply_services_saves target server services saved h saved' r h' :
  networksetup_reports -> (forall s, saved_settings target saved h s) ->
  apply_services system server services saved h = (saved', (r, h')) ->
  (exists calls, h' = h ++ calls) /\ (forall s, saved_settings target saved' h' s) /\
  (r = Ok tt -> forall s, (s ∈ services \/ settings h s = [server]) -> server <> str "Empty" -> settings h' s = [server]).
Proof.
  intros Hn. revert saved h. induction services as [|service services IH]; intros saved h Hinv; cbn [apply_services].
  { intros [= <- <- <-]. split_and!; [by exists []; rewrite app_nil_r|done|]. intros _ s [?%elem_of_nil|?]; done. }
  unfold output. rewrite checked_run. set (a := system h _). set (h1 := h ++ [_]).
  assert (forall s, saved_settings target saved h1 s) as Hinv1.
  { intros s. specialize (Hinv s). unfold saved_settings in *. unfold h1. by rewrite settings_output. }
  destruct (ret a <? 0).
  { intros [= <- <- <-]. split_and!; [by eexists [_]|done|done]. }
  destruct (success a) eqn:Ha.
  2:{ intros [= <- <- <-]. split_and!; [by eexists|done|done]. }
  rewrite run_command_run. change (run_status _ _) with (set_servers service [server]).
  set (b := system h1 _). set (h2 := h1 ++ [_]).
  assert (reported_servers a = settings h service) as Hrep by (by apply Hn).
  assert (forall s, saved_settings target (saved ++ [(service, reported_servers a)]) h2 s) as Hinv2.
  { intros s. specialize (Hinv s). unfold saved_settings in *. rewrite list_to_map_app, lookup_union.
    destruct (list_to_map saved !! s) as [old|] eqn:El; [by rewrite union_Some_l|].
    rewrite (left_id_L None _). cbn. destruct (decide (s = service)) as [->|Hd].
    - rewrite lookup_insert_eq. by rewrite Hrep.
    - rewrite lookup_insert_ne, lookup_empty by done. unfold h2. rewrite settings_set, decide_False by naive_solver.
      unfold h1. by rewrite settings_output. }
  assert (exists calls, h2 = h ++ calls) as [c12 E12] by (unfold h2, h1; rewrite <-app_assoc; eauto).
  destruct (success b) eqn:Hb; unfold success in Hb.
  - apply Z.eqb_eq in Hb as Hb'. rewrite Hb'. cbn [Z.ltb Z.compare Z.eqb]. intros E.
    apply IH in E as ((calls & ->) & Hs & Hok); [|done]. split_and!; [exists (c12 ++ calls); by rewrite app_assoc, <-E12|done|].
    intros Hr s Hin Hserver. apply Hok; [done| |done]. unfold h2. rewrite settings_set. unfold success. rewrite Hb.
    destruct (decide (s = service)) as [->|Hd].
    + right. rewrite decide_True by done. rewrite decide_False; [done|congruence].
    + rewrite decide_False by naive_solver. unfold h1. rewrite settings_output. set_solver.
  - destruct (ret b <? 0); [|rewrite Hb]; intros [= <- <- <-]; (split_and!; [by exists c12|done|done]).
Qed.
End resolver.

Lemma display_ipv4_not_empty a : display_ipv4 a <> str "Empty".
Proof.
  intros E. assert (ch "."%char ∈ display_ipv4 a) as Hin by (unfold display_ipv4; set_solver).
  rewrite E in Hin. by repeat (apply elem_of_cons in Hin as [Hin|Hin]; [done|]); apply elem_of_nil in Hin.
Qed.

Lemma dns_drop_calls system g h : exists calls, (dns_drop system g h).2 = h ++ calls.
Proof.
  destruct g as [i|services|i c]; [by eexists [_]| |by eexists [_]]. unfold dns_drop.
  generalize (reverse services) as l. intros l. revert h.
  induction l as [|[service servers] l IH]; intros h; [exists []; by rewrite app_nil_r|].
  destruct (IH (h ++ [(set_servers service servers, system h (set_servers service servers))])) as [calls E].
  eexists (_ :: calls). rewrite cons_middle, app_assoc. exact E.
Qed.

(** On macOS, while the guard lives every enabled network service uses the VPN's name server;
    dropping the guard, and every failure of [apply] at whatever service, gives each service
    of the host the servers it had before, also one that is listed twice, unless just the
    command that is to do so fails. *)
Theorem macos_dns_restored before system process interface server h :
  networksetup_reports before system ->
  exists r calls, dns_apply system Macos process interface server h = (r, h ++ calls) /\
    match r with
    | Err _ => forall s, settings before h s <> [str "Empty"] -> restored before (settings before h s) s h calls
    | Ok g =>
        (forall s, s ∈ enabled_services (system h (run_output (str "networksetup") [str "-listallnetworkservices"])) ->
           settings before (h ++ calls) s = [display_ipv4 server]) /\
        forall between, (forall s, settings before ((h ++ calls) ++ between) s = settings before (h ++ calls) s) ->
          exists dropped, (dns_drop system g ((h ++ calls) ++ between)).2 = ((h ++ calls) ++ between) ++ dropped /\
            forall s, settings before h s <> [str "Empty"] ->
              restored before (settings before h s) s ((h ++ calls) ++ between) dropped
    end.
Proof.
  intros Hrep. unfold dns_apply. rewrite eff_bind_run. unfold output. rewrite checked_run.
  set (a := system h _). set (h1 := h ++ [_]).
  assert (forall s, settings before h1 s = settings before h s) as Hs1 by (intros s; apply settings_output).
  assert (forall s, restored before (settings before h s) s h [(run_output (str "networksetup") [str "-listallnetworkservices"], a)])
    as Hunchanged by (intros s; left; apply Hs1).
  destruct (ret a <? 0); [eexists _, [_]; split; [done|intros s _; apply Hunchanged]|].
  unfold apply_listed. destruct (success a); [|eexists _, [_]; split; [done|intros s _; apply Hunchanged]].
  destruct (apply_services system _ _ [] h1) as [saved [r h']] eqn:E.
  apply (apply_services_saves before system (settings before h)) in E as ((calls & ->) & Hs & Hok); [|done|].
  2:{ intros s. exact (Hs1 s). }
  clear Hunchanged. unfold h1 in *. rewrite <-app_assoc in *. destruct r as [[]|error'].
  - eexists _, _. split; [done|]. split.
    + intros s Hin. apply Hok; [done|by left|apply display_ipv4_not_empty].
    + intros between Hb. match goal with |- context [dns_drop _ _ ?h2] =>
        destruct (dns_drop_calls system (MacosDns saved) h2) as [dropped Ed]; exists dropped; split; [done|] end.
      intros s Hne. edestruct (drop_restores before system (settings before h) saved) as (c & Ec & Hr); [exact Hne| |].
      2:{ rewrite Ec in Ed. apply app_inv_head in Ed as ->. exact Hr. }
      specialize (Hs s). unfold saved_settings in *. destruct (_ !! s); [done|]. by rewrite Hb.
  - match goal with |- context [dns_drop system _ (h ++ ?l)] =>
      destruct (dns_drop_calls system (MacosDns saved) (h ++ l)) as [dropped Ed]; exists (Err error'), (l ++ dropped);
      rewrite (app_assoc h l dropped)
    end.
    rewrite <-Ed. split; [done|]. intros s Hne.
    destruct (drop_restores before system (settings before h) saved _ s Hne (Hs s)) as (c & Ec & Hr).
    rewrite Ed in Ec. apply app_inv_head in Ec as ->. by apply restored_app.
Qed.

(** *** Linux and Windows *)

(** The commands that put the VPN's name server in force and that undo it: the link's servers
    on Linux, a rule with the process's comment on Windows. *)
Definition nrpt (script : rstr) : call :=
  run_status (str "powershell.exe") [str "-NoProfile"; str "-NonInteractive"; str "-Command"; script].
Definition nrpt_comment_of (process : Z) : rstr := str "autobricks-vpn-" ++ display_uint process.
Definition override_call (os : platform) (process : Z) (interface : rstr) (server : Z) : call :=
  if decide (os = Windows) then
    nrpt (str "Add-DnsClientNrptRule -Namespace '.' -NameServers '" ++ display_ipv4 server ++ str "' -Comment '"
            ++ nrpt_comment_of process ++ str "'")
  else run_status (str "resolvectl") [str "dns"; interface; display_ipv4 server].
Definition revert_call (os : platform) (process : Z) (interface : rstr) : call :=
  if decide (os = Windows) then
    nrpt (str "Get-DnsClientNrptRule | Where-Object Comment -EQ '" ++ nrpt_comment_of process
            ++ str "' | Remove-DnsClientNrptRule -Force")
  else run_status (str "resolvectl") [str "revert"; interface].

(** Whether the name server is in force after the calls [h]. *)
Definition override_effect (set clear : call) (st : bool) (c : call) (a : answer) : bool :=
  if success a then if decide (c = set) then true else if decide (c = clear) then false else st else st.
Definition overridden (set clear : call) (st : bool) (h : history) : bool :=
  foldl (fun st '(c, a) => override_effect set clear st c a) st h.

Lemma override_revert_differ os process interface server :
  override_call os process interface server <> revert_call os process interface.
Proof. unfold override_call, revert_call. by case_decide. Qed.

Lemma overridden_snoc set clear st h c a :
  overridden set clear st (h ++ [(c, a)]) = override_effect set clear (overridden set clear st h) c a.
Proof. unfold overridden. by rewrite foldl_app. Qed.

(** On Linux and Windows: while the guard lives the name server is in force; [Drop] gives the
    command that ends that, as does an [apply] that fails half way; unless that command fails, the
    name server is afterwards as it was before: not in force. *)
Theorem dns_override_reverts os process interface server system h :
  os <> Macos ->
  let set := override_call os process interface server in
  let clear := revert_call os process interface in
  overridden set clear false h = false ->
  exists r calls, dns_apply system os process interface server h = (r, h ++ calls) /\
    match r with
    | Ok g => overridden set clear false (h ++ calls) = true /\
        forall h1, exists a, (dns_drop system g h1).2 = h1 ++ [(clear, a)] /\
          (success a = true -> overridden set clear false (h1 ++ [(clear, a)]) = false)
    | Err _ => overridden set clear false (h ++ calls) = false \/ exists a, (clear, a) ∈ calls /\ success a = false
    end.
Proof.
  intros Hos set clear Hinit.
  assert (forall h a, success a = true -> overridden set clear false (h ++ [(clear, a)]) = false) as Hcleared.
  { intros h1 a Ha. rewrite overridden_snoc. unfold override_effect. rewrite Ha.
    rewrite decide_False by (intros E; symmetry in E; by apply override_revert_differ in E). by rewrite decide_True. }
  assert (forall h1 a, success a = true -> overridden set clear false (h1 ++ [(set, a)]) = true) as Hset.
  { intros h1 a Ha. rewrite overridden_snoc. unfold override_effect. by rewrite Ha, decide_True. }
  assert (forall h1 c a, (c = set -> success a = false) -> c <> clear ->
            overridden set clear false (h1 ++ [(c, a)]) = overridden set clear false h1) as Hother.
  { intros h1 c a Hc Hn. rewrite overridden_snoc. unfold override_effect. destruct (success a); [|done].
    rewrite !decide_False; [done|done|]. intros E. by apply Hc in E. }
  destruct os; [|done|]; unfold dns_apply; rewrite eff_bind_run, run_command_outcome.
  - change (run_status (str "resolvectl") [str "dns"; interface; display_ipv4 server]) with set. set (a := system h set). destruct (success a) eqn:Ha.
    + set (h1 := h ++ [(set, a)]). cbn iota. rewrite eff_bind_run. unfold guarded. rewrite run_command_outcome.
      set (c := run_status _ _). set (b := system h1 c). destruct (success b).
      * eexists _, [(set, a); (c, b)]. replace (h ++ [(set, a); (c, b)]) with (h1 ++ [(c, b)]) by (unfold h1; by rewrite <-app_assoc).
        split; [done|]. split; [|intros h2; eexists; split; [done|apply Hcleared]]. rewrite Hother by done. by apply Hset.
      * eexists _, ([(set, a); (c, b)] ++ [(clear, system (h1 ++ [(c, b)]) clear)]).
        rewrite app_assoc. replace (h ++ [(set, a); (c, b)]) with (h1 ++ [(c, b)]) by (unfold h1; by rewrite <-app_assoc).
        split; [done|]. set (d := system _ clear). destruct (success d) eqn:Hd; [left; by apply Hcleared|].
        right. exists d. split; [set_solver|done].
    + eexists _, [_]. split; [done|]. left. by rewrite Hother.
  - fold (nrpt_comment_of process).
    match goal with |- context [run_status ?p ?l] => change (run_status p l) with set end.
    set (a := system h set). destruct (success a) eqn:Ha.
    + eexists _, [_]. split; [done|]. split; [by apply Hset|]. intros h1. eexists. split; [done|]. apply Hcleared.
    + eexists _, [_]. split; [done|]. left. by rewrite Hother.
Qed.

(** ** Witnesses *)
(** An [iptables] with three stale copies of the rule. *)
Definition vpn_rule : ForwardingGuard := {| fg_interface := str "vpn0"; fg_network := str "10.8.0.0/24" |}.
Definition stale_iptables (h : history) (c : call) : answer :=
  if decide (c ∈ [check_rule vpn_rule; delete_rule vpn_rule])
  then answering (if decide (0 < rules vpn_rule 3 h)%nat then 0 else 1) []
  else answering 0 [].

Lemma stale_iptables_sound : iptables_sound vpn_rule 3 stale_iptables.
Proof. intros h c Hc. unfold stale_iptables. rewrite decide_True by done. by case_decide. Qed.

Lemma stale_iptables_works : iptables_works vpn_rule 3 stale_iptables.
Proof. intros h c Hc Hpos. unfold stale_iptables. rewrite decide_True by done. by rewrite decide_True. Qed.

Lemma forwarding_rule_lifecycle_witness :
  iptables_works vpn_rule 3 stale_iptables /\
  exists r calls, forwarding_enable stale_iptables 4 (str "vpn0") (str "10.8.0.0/24") [] = Some (r, [] ++ calls) /\
    Forall (fun '(c, _) => forall arguments, c = run_status (str "iptables") (str "-D" :: arguments) -> c = delete_rule vpn_rule) calls /\
    (iptables_works vpn_rule 3 stale_iptables ->
       match r with
       | Ok g' => g' = vpn_rule /\ rules vpn_rule 3 ([] ++ calls) = 1%nat
       | Err _ => rules vpn_rule 3 ([] ++ calls) = 0%nat \/
                  Forall (fun '(c, _) => exists settings, c = run_status (str "sysctl") settings) calls
       end) /\
    forall between fuel', (rules vpn_rule 3 (([] ++ calls) ++ between) < fuel')%nat ->
      exists h', forwarding_drop stale_iptables fuel' vpn_rule (([] ++ calls) ++ between) = Some h' /\
        (iptables_works vpn_rule 3 stale_iptables -> rules vpn_rule 3 h' = 0%nat).
Proof.
  split; [exact stale_iptables_works|].
  apply (forwarding_rule_lifecycle stale_iptables 3 (str "vpn0") (str "10.8.0.0/24") 4 [] stale_iptables_sound).
  cbn. lia.
Defined.

(** A [networksetup] of two services, one of them with a server of its own. *)
Definition home_servers (service : rstr) : list rstr :=
  if decide (service = str "Wi-Fi") then [str "192.168.1.1"] else [].
Definition printed_servers (servers : list rstr) : list Z :=
  match servers with
  | [] => bytes "There aren't any DNS Servers set on this service."
  | _ => as_bytes (join_lines servers)
  end.
Definition home_networksetup (h : history) (c : call) : answer :=
  match c with
  | run_output _ [flag] => answering 0 (as_bytes (join_lines [str "An asterisk (*) denotes that a network service is disabled."; str "Wi-Fi"; str "*Bluetooth PAN"; str "USB"]))
  | run_output _ [flag; service] =>
      let servers := settings home_servers h service in
      let a := answering 0 (printed_servers servers) in
      if decide (reported_servers a = servers) then a else answering 1 []
  | _ => answering 0 []
  end.

Lemma home_networksetup_reports : networksetup_reports home_servers home_networksetup.
Proof. intros h service. cbn. by case_decide. Qed.

Lemma macos_dns_restored_witness :
  enabled_services (home_networksetup [] (run_output (str "networksetup") [str "-listallnetworkservices"]))
    = [str "Wi-Fi"; str "USB"] /\
  exists r calls, dns_apply home_networksetup Macos 1 (str "utun4") 0x0A080001 [] = (r, [] ++ calls) /\
    if r is Ok g then
      (forall s, s ∈ enabled_services (home_networksetup [] (run_output (str "networksetup") [str "-listallnetworkservices"])) ->
         settings home_servers ([] ++ calls) s = [display_ipv4 0x0A080001]) /\
      exists dropped, (dns_drop home_networksetup g (([] ++ calls) ++ [])).2 = (([] ++ calls) ++ []) ++ dropped
    else True.
Proof.
  split; [vm_compute; reflexivity|].
  destruct (macos_dns_restored home_servers home_networksetup 1 (str "utun4") 0x0A080001 []) as (r & calls & E & Hr).
  - exact home_networksetup_reports.
  - exists r, calls. split; [exact E|]. destruct r as [g|error]; [|exact I]. destruct Hr as [Hserver Hdrop].
    split; [exact Hserver|]. destruct (Hdrop []) as (dropped & Ed & _); [intros s; by rewrite app_nil_r|].
    exists dropped. exact Ed.
Defined.

Lemma dns_override_reverts_witness :
  exists r calls, dns_apply (fun _ _ => answering 0 []) Linux 1 (str "vpn0") 0x0A080001 [] = (r, [] ++ calls) /\
    match r with
    | Ok g => overridden (override_call Linux 1 (str "vpn0") 0x0A080001) (revert_call Linux 1 (str "vpn0")) false ([] ++ calls) = true /\
        forall h1, exists a, (dns_drop (fun _ _ => answering 0 []) g h1).2 = h1 ++ [(revert_call Linux 1 (str "vpn0"), a)] /\
          (success a = true ->
           overridden (override_call Linux 1 (str "vpn0") 0x0A080001) (revert_call Linux 1 (str "vpn0")) false
             (h1 ++ [(revert_call Linux 1 (str "vpn0"), a)]) = false)
    | Err _ => overridden (override_call Linux 1 (str "vpn0") 0x0A080001) (revert_call Linux 1 (str "vpn0")) false ([] ++ calls) = false \/
        exists a, (revert_call Linux 1 (str "vpn0"), a) ∈ calls /\ success a = false
    end.
Proof.
  apply (dns_override_reverts Linux 1 (str "vpn0") 0x0A080001 (fun _ _ => answering 0 []) []);
    [discriminate|reflexivity].
Defined.
