(* ===== verification/Config.v ===== *)
(** * Configuration: INI files, client bindings, logins and certificate policies

    Models [parse_ini_entries], [parse_ini_section], [normalize_sha256_fingerprint],
    [validate_client_bindings] and [certificate_source_policy_allows] of [src/lib.rs], the
    value readers and [client_logins] of [src/server.rs], and the embedded credential reader of
    [src/client/mod.rs]. A file is the result of reading it to a string. *)

From S2P Require Import Prelude Text Net.
From Stdlib Require Import Ascii.

Local Open Scope Z_scope.

(** ** INI files *)

(** [line.starts_with('[') && line.ends_with(']')] *)
Definition is_header (line : rstr) : bool := starts_with [ch "["] line && ends_with (ch "]") line.

(** [&line[1..line.len() - 1]] of a header line. *)
Definition header_name (line : rstr) : rstr := take (length line - 2)%nat (drop 1 line).

(** The loop over the lines: [active] tells whether the current section is the wanted one. *)
Fixpoint ini_loop (section : rstr) (active : bool) (ls : list rstr) : list (rstr * rstr) :=
  match ls with
  | [] => []
  | raw_line :: ls' =>
      let line := trim (before (ch "#") raw_line) in
      if bool_decide (line = []) then ini_loop section active ls'
      else if is_header line then ini_loop section (bool_decide (header_name line = section)) ls'
      else if active then
        match split_once (ch "=") line with
        | Some (key, value) => (trim key, trim value) :: ini_loop section active ls'
        | None => ini_loop section active ls'
        end
      else ini_loop section active ls'
  end.

Definition parse_ini_entries (file : io rstr) (section : rstr) : io (list (rstr * rstr)) :=
  text ← file; Ok (ini_loop section false (lines text)).

(** [HashMap::from_iter]: a later entry for the same key replaces an earlier one. *)
Definition collect_map `{Countable K} {V} (entries : list (K * V)) : gmap K V :=
  foldl (fun m e => <[e.1 := e.2]> m) ∅ entries.

Definition parse_ini_section (file : io rstr) (section : rstr) : io (gmap rstr rstr) :=
  collect_map <$> parse_ini_entries file section.

(** ** Typed values (the same code in [src/server.rs] and [src/client/mod.rs]) *)
Definition value (values : gmap rstr rstr) (key default : rstr) : rstr :=
  from_option id default (values !! key).

Definition required_value (values : gmap rstr rstr) (key : rstr) : io rstr :=
  ok_or (v ← values !! key; if bool_decide (trim v = []) then None else Some v)
    (Custom InvalidInput (key ++ str " is required and must not be empty")).

Definition boolean_value (values : gmap rstr rstr) (key : rstr) (default : bool) : io bool :=
  match values !! key with
  | None => Ok default
  | Some v =>
      let v := to_ascii_lowercase (trim v) in
      if decide (v ∈ [str "true"; str "1"; str "yes"; str "on"]) then Ok true
      else if decide (v ∈ [str "false"; str "0"; str "no"; str "off"]) then Ok false
      else Err (Custom InvalidInput (key ++ str " must be true or false"))
  end.

Definition duration_value (values : gmap rstr rstr) (key : rstr) (default minimum maximum : Z)
    : io Duration :=
  seconds ← ok_or (parse_uint u64_max (value values key (display_uint default)))
              (Custom InvalidInput (str "invalid " ++ key));
  if (minimum <=? seconds) && (seconds <=? maximum) then Ok (from_secs seconds)
  else Err (Custom InvalidInput
              (key ++ str " must be between " ++ display_uint minimum ++ str " and "
                   ++ display_uint maximum ++ str " seconds")).

(** ** Client logins *)
Fixpoint client_logins_loop (logins : gmap Ipv4Addr (rstr * rstr)) (entries : list (rstr * rstr))
    : io (gmap Ipv4Addr (rstr * rstr)) :=
  match entries with
  | [] => Ok logins
  | (address, v) :: entries' =>
      match split_whitespace v with
      | [_] => client_logins_loop logins entries'
      | [_; id; password] =>
          if negb (bool_decide (id = [])) && negb (bool_decide (password = [])) then
            a ← ok_or (parse_ipv4 address) (other "invalid client address");
            client_logins_loop (<[a := (id, password)]> logins) entries'
          else Err (Custom InvalidInput (str "invalid login fields for " ++ address))
      | _ => Err (Custom InvalidInput (str "invalid login fields for " ++ address))
      end
  end.
Definition client_logins (entries : list (rstr * rstr)) : io (gmap Ipv4Addr (rstr * rstr)) :=
  client_logins_loop ∅ entries.

(** ** Fingerprints and client bindings *)
Definition normalize_sha256_fingerprint (v : rstr) : io rstr :=
  let normalized := to_ascii_lowercase (remove_char (ch ":") v) in
  if negb (str_len normalized =? 64) || negb (forallb is_ascii_hexdigit (as_bytes normalized))
  then Err (new_error InvalidInput
              "fingerprint must contain exactly 64 hexadecimal SHA-256 digits")
  else Ok normalized.

(** [Display] of an error made by [io::Error::new] with a message, the only kind that is
    printed inside another message here. *)
Definition display_custom (e : io_error) : rstr :=
  match e with Custom _ msg => msg | _ => [] end.

(** One entry: the address and fingerprint it binds. *)
Definition check_binding (network : rstr) (net : Ipv4Addr * Z) (server_address : Ipv4Addr)
    (bindings : gmap Ipv4Addr rstr) (fingerprints : gset rstr) (entry : rstr * rstr)
    : io (Ipv4Addr * rstr) :=
  address ← ok_or (parse_ipv4 entry.1)
              (Custom InvalidInput (str "invalid client VPN address: " ++ entry.1));
  if negb (ipv4_in_cidr address net.1 net.2) then
    Err (Custom InvalidInput (str "client address " ++ display_ipv4 address ++ str " is outside "
                                ++ network))
  else if address =? server_address then
    Err (Custom InvalidInput (str "client address " ++ display_ipv4 address
                                ++ str " conflicts with the server"))
  else if bool_decide (is_Some (bindings !! address)) then
    Err (Custom InvalidInput (str "duplicate client address: " ++ display_ipv4 address))
  else
    let fingerprint := from_option id [] (head (split_whitespace entry.2)) in
    fingerprint ← map_err
      (fun error => Custom InvalidInput (str "invalid fingerprint for " ++ display_ipv4 address
                                           ++ str ": " ++ display_custom error))
      (normalize_sha256_fingerprint fingerprint);
    if bool_decide (fingerprint ∈ fingerprints) then
      Err (Custom InvalidInput (str "duplicate client fingerprint for " ++ display_ipv4 address))
    else Ok (address, fingerprint).

Fixpoint bindings_loop (network : rstr) (net : Ipv4Addr * Z) (server_address : Ipv4Addr)
    (bindings : gmap Ipv4Addr rstr) (fingerprints : gset rstr) (entries : list (rstr * rstr))
    : io (gmap Ipv4Addr rstr) :=
  match entries with
  | [] => Ok bindings
  | entry :: entries' =>
      '(address, fingerprint) ←
        check_binding network net server_address bindings fingerprints entry;
      bindings_loop network net server_address (<[address := fingerprint]> bindings)
        ({[fingerprint]} ∪ fingerprints) entries'
  end.

Definition validate_client_bindings (entries : list (rstr * rstr)) (server_address : Ipv4Addr)
    (network : rstr) : io (gmap Ipv4Addr rstr) :=
  net ← parse_ipv4_cidr network;
  bindings_loop network net server_address ∅ ∅ entries.

(** ** Source policies carried by client certificates *)
Definition ALLOWED_SOURCE_CIDR_URI_PREFIX : rstr := str "urn:autobricks:allowed-source-cidr:".

Fixpoint policy_loop (policy : option (Ipv4Addr * Z)) (alt_names : list rstr)
    : io (option (Ipv4Addr * Z)) :=
  match alt_names with
  | [] => Ok policy
  | name :: names =>
      if negb (starts_with (str "urn:autobricks:") name) then policy_loop policy names
      else
        match strip_prefix ALLOWED_SOURCE_CIDR_URI_PREFIX name with
        | None => Err (Custom InvalidData (str "unknown client certificate policy URI: " ++ name))
        | Some cidr =>
            if bool_decide (is_Some policy) then
              Err (new_error InvalidData
                     "client certificate contains multiple allowed source CIDR policies")
            else p ← parse_ipv4_cidr cidr; policy_loop (Some p) names
        end
  end.

Definition certificate_source_policy_allows (alt_names : list rstr) (source : Ipv4Addr) : io bool :=
  policy ← policy_loop None alt_names;
  Ok (from_option (fun '(network, prefix) => ipv4_in_cidr source network prefix) true policy).

(** ** Embedded credentials *)
Definition trimmed_header (line : rstr) : bool := is_header (trim line).

(** The first line at or after [start] that is a section header, or the number of lines. *)
Definition section_end (ls : list rstr) (start : nat) : nat :=
  match position trimmed_header (drop start ls) with
  | Some i => (start + i)%nat
  | None => length ls
  end.

Definition embedded_section (text section : rstr) : io rstr :=
  let header := [ch "["] ++ section ++ [ch "]"] in
  let ls := lines text in
  start ← ok_or (position (fun line => bool_decide (trim line = header)) ls)
            (Custom InvalidInput (str "missing [" ++ section ++ str "]"));
  let stop := section_end ls (S start) in
  let pem := join_lines (take (stop - S start)%nat (drop (S start) ls)) in
  if negb (contains (str "-----BEGIN ") pem) || negb (contains (str "-----END ") pem)
  then Err (Custom InvalidInput (str "invalid [" ++ section ++ str "] PEM"))
  else Ok (trim pem ++ [10%N]).

Example ini_ex :
  parse_ini_entries (Ok (str "[server]
port = 4433
[client]
# comment
10.8.1.2 = aa bb cc # x
")) (str "client") = Ok [(str "10.8.1.2", str "aa bb cc")].
Proof. vm_compute. reflexivity. Qed.

(** ** Lemmas: bindings *)
Definition first_word (v : rstr) : rstr := from_option id [] (head (split_whitespace v)).

Lemma normalize_Ok v f :
  normalize_sha256_fingerprint v = Ok f <->
  f = to_ascii_lowercase (remove_char (ch ":") v) /\ str_len f = 64 /\
  forallb is_ascii_hexdigit (as_bytes f) = true.
Proof.
  unfold normalize_sha256_fingerprint. set (n := to_ascii_lowercase _).
  destruct (Z.eqb_spec (str_len n) 64) as [Hl|Hl]; cbn [negb orb];
    [destruct (forallb is_ascii_hexdigit (as_bytes n)) eqn:Hh; cbn [negb]|].
  - split; [by intros [= <-]|by intros (-> & _)].
  - split; [done|]. intros (-> & _ & ?). congruence.
  - split; [done|]. by intros (-> & ? & _).
Qed.

Lemma check_binding_Ok network net server_address m s e a f :
  check_binding network net server_address m s e = Ok (a, f) <->
  parse_ipv4 e.1 = Some a /\ ipv4_in_cidr a net.1 net.2 = true /\ a <> server_address /\
  m !! a = None /\ normalize_sha256_fingerprint (first_word e.2) = Ok f /\ f ∉ s.
Proof.
  unfold check_binding, first_word.
  destruct (parse_ipv4 e.1) as [a'|]; cbn [ok_or mbind result_bind];
    [|by split; [|intros (? & _)]].
  destruct (ipv4_in_cidr a' net.1 net.2) eqn:Hc; cbn [negb];
    [|by split; [|intros (? & ? & _); simplify_eq; congruence]].
  destruct (Z.eqb_spec a' server_address) as [Hs|Hs];
    [by split; [|intros (? & ? & ? & _); simplify_eq]|].
  case_bool_decide as Hm;
    [by destruct Hm as [? Hm]; split; [|intros (? & ? & ? & ? & _); simplify_eq; congruence]|].
  rewrite <-eq_None_not_Some in Hm.
  destruct (normalize_sha256_fingerprint _) as [f'|]; cbn [map_err mbind result_bind];
    [|naive_solver].
  case_bool_decide as Hf.
  - split; [done|]. intros (? & ? & ? & ? & ? & ?). by simplify_eq.
  - split; [intros [= <- <-]; done|]. intros (? & ? & ? & ? & ? & ?). by simplify_eq.
Qed.

(** What an entry binds, and when it is acceptable. *)
Definition entry_binds (e : rstr * rstr) (kv : Ipv4Addr * rstr) : Prop :=
  parse_ipv4 e.1 = Some kv.1 /\ normalize_sha256_fingerprint (first_word e.2) = Ok kv.2.

Lemma bindings_loop_Ok network net server_address entries m s b :
  bindings_loop network net server_address m s entries = Ok b <->
  exists pairs,
    Forall2 entry_binds entries pairs /\
    Forall (fun kv => ipv4_in_cidr kv.1 net.1 net.2 = true /\ kv.1 <> server_address) pairs /\
    NoDup pairs.*1 /\ NoDup pairs.*2 /\
    Forall (fun kv => m !! kv.1 = None /\ kv.2 ∉ s) pairs /\
    b = list_to_map pairs ∪ m.
Proof.
  revert m s. induction entries as [|e entries IH]; intros m s; cbn [bindings_loop].
  - split.
    + intros [= <-]. exists []. split_and!; try constructor. cbn. by rewrite (left_id_L ∅ (∪)).
    + intros (pairs & H%Forall2_nil_inv_l & _ & _ & _ & _ & ->). subst. cbn.
      by rewrite (left_id_L ∅ (∪)).
  - rewrite result_bind_Ok. split.
    + intros ([a f] & Hc & Hl). apply check_binding_Ok in Hc as (Ha & Hcidr & Hs & Hm & Hf & Hfs).
      apply IH in Hl as (pairs & HF & Hok & Hd1 & Hd2 & Hfresh & ->).
      exists ((a, f) :: pairs). rewrite Forall_forall in Hfresh.
      split_and!.
      * constructor; [done|done].
      * by constructor.
      * cbn. constructor; [|done]. intros ([a' f'] & -> & Hin)%list_elem_of_fmap.
        apply Hfresh in Hin as [Hin _]. cbn in Hin. by rewrite lookup_insert_eq in Hin.
      * cbn. constructor; [|done]. intros ([a' f'] & -> & Hin)%list_elem_of_fmap.
        apply Hfresh in Hin as [_ Hin]. set_solver.
      * constructor; [done|]. apply Forall_forall. intros [a' f'] Hin.
        apply Hfresh in Hin as [Hin1 Hin2]. cbn in *.
        apply lookup_insert_None in Hin1 as [? _]. set_solver.
      * cbn. rewrite <-insert_union_r; [by rewrite insert_union_l|].
        apply not_elem_of_list_to_map_1. intros ([a' f'] & -> & Hin)%list_elem_of_fmap.
        apply Hfresh in Hin as [Hin _]. cbn in Hin. by rewrite lookup_insert_eq in Hin.
    + intros (pairs & HF & Hok & Hd1 & Hd2 & Hfresh & ->).
      apply Forall2_cons_inv_l in HF as ([a f] & pairs' & [Ha Hf] & HF & ->).
      cbn in Hd1, Hd2. apply NoDup_cons in Hd1 as [Hd1 Hd1'], Hd2 as [Hd2 Hd2'].
      apply Forall_cons in Hok as [[Hc Hs] Hok], Hfresh as [[Hm Hfs] Hfresh].
      exists (a, f). split; [by apply check_binding_Ok|].
      apply IH. exists pairs'. rewrite Forall_forall in Hfresh. split_and!; try done.
      * apply Forall_forall. intros [a' f'] Hin. apply Hfresh in Hin as Hin'.
        destruct Hin' as [Hm' Hf']. cbn in *. split.
        -- rewrite lookup_insert_ne; [done|]. intros ->. apply Hd1. by apply (list_elem_of_fmap_2 fst) in Hin.
        -- apply (list_elem_of_fmap_2 snd) in Hin. cbn in Hin. set_solver.
      * cbn. rewrite <-insert_union_r; [by rewrite insert_union_l|].
        by apply not_elem_of_list_to_map_1.
Qed.

(** ** Lemmas: rendering and reading back *)

(** Text that survives the reader's comment stripping and trimming. *)
Definition clean (s : rstr) : Prop :=
  s <> [] /\ ch "#" ∉ s /\ 10%N ∉ s /\ trim s = s.

Definition ini_line (e : rstr * rstr) : rstr := e.1 ++ str " = " ++ e.2.
Definition ini_header (section : rstr) : rstr := [ch "["] ++ section ++ [ch "]"].
Definition ini_text (sections : list (rstr * list (rstr * rstr))) : rstr :=
  sections ≫= (fun s => (ini_header s.1 ++ [10%N]) ++ (s.2 ≫= (fun e => ini_line e ++ [10%N]))).

Definition ini_section_ok (s : rstr * list (rstr * rstr)) : Prop :=
  ch "#" ∉ s.1 /\ 10%N ∉ s.1 /\
  Forall (fun e => clean e.1 /\ clean e.2 /\ ch "=" ∉ e.1 /\ head e.1 <> Some (ch "[")) s.2.

Lemma trim_ends s a b : is_whitespace a = false -> is_whitespace b = false ->
  head s = Some a -> last s = Some b -> trim s = s.
Proof.
  intros Ha Hb Hh Hl. unfold trim, trim_end_by.
  assert (trim_start_by is_whitespace s = s) as ->.
  { destruct s; [done|]. cbn in Hh. simplify_eq. cbn [trim_start_by]. by rewrite Ha. }
  assert (trim_start_by is_whitespace (reverse s) = reverse s) as ->; [|apply reverse_involutive].
  rewrite <-head_reverse in Hl. destruct (reverse s); [done|]. cbn in Hl. simplify_eq.
  cbn [trim_start_by]. by rewrite Hb.
Qed.

Lemma trim_start_head P s c : head (trim_start_by P s) = Some c -> P c = false.
Proof.
  induction s as [|x s IH]; cbn [trim_start_by]; [done|].
  destruct (P x) eqn:HP; [done|]. cbn. by intros [= <-].
Qed.

Lemma clean_ends s : clean s ->
  exists a b, head s = Some a /\ last s = Some b /\ is_whitespace a = false /\ is_whitespace b = false.
Proof.
  intros (Hne & _ & _ & Ht). destruct s as [|a s]; [done|].
  unfold trim, trim_end_by in Ht.
  destruct (last (a :: s)) as [b|] eqn:Hl; [|by apply last_None in Hl].
  exists a, b. split_and!; [done..| |].
  - set (u := trim_start_by is_whitespace (a :: s)) in *.
    assert (u `suffix_of` a :: s) as [k Hk].
    { subst u. generalize (a :: s). induction l as [|x l IH]; [done|].
      cbn [trim_start_by]. destruct (is_whitespace x); [by apply suffix_cons_r|done]. }
    destruct k as [|k0 k].
    + apply (trim_start_head is_whitespace (a :: s)). fold u. cbn [app] in Hk. by rewrite <-Hk.
    + exfalso. apply (f_equal length) in Hk, Ht. rewrite length_app in Hk.
      rewrite length_reverse in Ht.
      assert (length (trim_start_by is_whitespace (reverse u)) <= length u)%nat; [|cbn in *; lia].
      rewrite <-(length_reverse u). generalize (reverse u). induction l as [|x l IH]; [done|].
      cbn [trim_start_by]. destruct (is_whitespace x); cbn; lia.
  - apply (trim_start_head is_whitespace (reverse (trim_start_by is_whitespace (a :: s)))).
    by rewrite <-Ht, last_reverse in Hl.
Qed.

Lemma lines_from_app cur l s : 10%N ∉ l -> lines_from cur (l ++ 10%N :: s) = strip_cr (cur ++ l) :: lines s.
Proof.
  revert cur. induction l as [|c l IH]; intros cur Hl; cbn [app lines_from].
  { rewrite decide_True by done. by rewrite (right_id_L [] (++)). }
  rewrite decide_False by set_solver. rewrite IH by set_solver. by rewrite <-(assoc_L (++)).
Qed.

Lemma lines_cons l c s : 10%N ∉ l -> last l = Some c -> is_whitespace c = false ->
  lines (l ++ 10%N :: s) = l :: lines s.
Proof.
  intros Hl Hc Hw. unfold lines at 1. rewrite lines_from_app by done. f_equal. cbn.
  unfold strip_cr. rewrite decide_False; [done|]. rewrite Hc. intros [= ->]. done.
Qed.

Lemma ini_line_facts e : clean e.1 -> clean e.2 -> 
  10%N ∉ ini_line e /\ before (ch "#") (ini_line e) = ini_line e /\ trim (ini_line e) = ini_line e /\
  head (ini_line e) = head e.1 /\ exists c, last (ini_line e) = Some c /\ is_whitespace c = false.
Proof.
  intros H1 H2. destruct (clean_ends _ H1) as (a & _ & Ha & _ & Hwa & _).
  destruct (clean_ends _ H2) as (_ & b & _ & Hb & _ & Hwb).
  destruct H1 as (_ & H1 & H1' & _), H2 as (_ & H2 & H2' & _).
  assert (head (ini_line e) = Some a) as Hhead.
  { unfold ini_line. destruct e.1; [done|]. done. }
  assert (last (ini_line e) = Some b) as Hlast.
  { unfold ini_line. by rewrite (assoc_L (++)), last_app, Hb. }
  split_and!.
  - unfold ini_line. rewrite !not_elem_of_app. split_and!; [done| |done].
    by apply (bool_decide_unpack _).
  - apply before_notin. unfold ini_line. rewrite !not_elem_of_app. split_and!; [done| |done].
    by apply (bool_decide_unpack _).
  - by apply (trim_ends _ a b).
  - by rewrite Hhead, Ha.
  - eauto.
Qed.

Lemma ini_loop_line section active e ls :
  clean e.1 -> clean e.2 -> ch "=" ∉ e.1 -> head e.1 <> Some (ch "[") ->
  ini_loop section active (ini_line e :: ls) =
    (if active then [e] else []) ++ ini_loop section active ls.
Proof.
  intros H1 H2 Heq Hh. destruct (ini_line_facts e H1 H2) as (_ & Hb & Ht & Hhd & _).
  cbn [ini_loop]. rewrite Hb, Ht.
  rewrite bool_decide_eq_false_2.
  2:{ intros Hnil. rewrite Hnil in Hhd. destruct H1 as [H1 _]. by destruct e.1. }
  assert (is_header (ini_line e) = false) as ->.
  { unfold is_header. destruct (starts_with _ _) eqn:Hs; [|done].
    apply starts_with_spec in Hs as [r Hr]. rewrite Hr in Hhd. by rewrite <-Hhd in Hh. }
  destruct active; [|done].
  assert (split_once (ch "=") (ini_line e) = Some (e.1 ++ str " ", str " " ++ e.2)) as ->.
  { apply split_once_Some. split; [by rewrite <-(assoc_L (++))|].
    rewrite not_elem_of_app. split; [done|by apply (bool_decide_unpack _)]. }
  destruct (clean_ends _ H1) as (a & b & Ha & Hb1 & Hwa & Hwb).
  destruct (clean_ends _ H2) as (a' & b' & Ha' & Hb' & Hwa' & Hwb').
  cbn [app]. f_equal. destruct e as [k v]; cbn [fst snd] in *. f_equal.
  - unfold trim, trim_end_by.
    destruct k as [|k0 k]; [done|]. cbn in Ha. simplify_eq.
    cbn [app trim_start_by]. rewrite Hwa. 
    change (a :: k ++ str " ") with ((a :: k) ++ str " "). rewrite reverse_app. cbn [app].
    change (reverse (str " ")) with [32%N]. cbn [app trim_start_by].
    change (is_whitespace 32) with true. cbn match.
    destruct H1 as (_ & _ & _ & Ht1). unfold trim, trim_end_by in Ht1. cbn [trim_start_by] in Ht1.
    by rewrite Hwa in Ht1.
  - destruct H2 as (_ & _ & _ & Ht1). unfold trim in *. cbn [app].
    change (trim_start_by is_whitespace (str " " ++ v)) with (trim_start_by is_whitespace v). done.
Qed.

Lemma ini_loop_header section active s ls :
  ch "#" ∉ s -> ini_loop section active (ini_header s :: ls) = ini_loop section (bool_decide (s = section)) ls.
Proof.
  intros Hs. cbn [ini_loop].
  assert (before (ch "#") (ini_header s) = ini_header s) as ->.
  { apply before_notin. unfold ini_header. rewrite !not_elem_of_app, !not_elem_of_cons.
    split_and!; try done; apply not_elem_of_nil. }
  assert (last (ini_header s) = Some (ch "]")) as Hl.
  { unfold ini_header. by rewrite (assoc_L (++)), last_snoc. }
  assert (trim (ini_header s) = ini_header s) as ->.
  { by apply (trim_ends _ (ch "[") (ch "]")). }
  rewrite bool_decide_eq_false_2 by done.
  assert (is_header (ini_header s) = true) as ->.
  { unfold is_header, ends_with. rewrite Hl. apply andb_true_iff. split; [|done].
    apply starts_with_spec. by eexists. }
  assert (header_name (ini_header s) = s) as ->; [|done].
  unfold header_name, ini_header. rewrite !length_app.
  change (drop 1 ([ch "["] ++ s ++ [ch "]"])) with (s ++ [ch "]"]). cbn [length].
  rewrite take_app_length'; [done|lia].
Qed.

Lemma ini_loop_text section active sections :
  Forall ini_section_ok sections ->
  ini_loop section active (lines (ini_text sections)) =
    sections ≫= (fun s => if bool_decide (s.1 = section) then s.2 else []).
Proof.
  revert active. induction sections as [|[s es] sections IH]; intros active; [done|].
  intros [(Hs & Hs' & Hes) Hok]%Forall_cons.
  change (ini_text ((s, es) :: sections))
    with (((ini_header s ++ [10%N]) ++ (es ≫= (fun e => ini_line e ++ [10%N]))) ++ ini_text sections).
  rewrite <-!(assoc_L (++)). cbn [app].
  rewrite (lines_cons _ (ch "]")); [|..|done].
  2:{ unfold ini_header. rewrite !not_elem_of_app, !not_elem_of_cons.
      split_and!; try done; apply not_elem_of_nil. }
  2:{ unfold ini_header. by rewrite (assoc_L (++)), last_snoc. }
  rewrite ini_loop_header by done. cbn [mbind list_bind fst snd]. cbn [fst snd] in Hes.
  rewrite <-(IH (bool_decide (s = section)) Hok).
  generalize (bool_decide (s = section)) as act. intros act.
  induction es as [|e es IHes]; cbn [mbind list_bind].
  { by destruct act. }
  apply Forall_cons in Hes as [(H1 & H2 & H3 & H4) Hes].
  destruct (ini_line_facts e H1 H2) as (Hn & _ & _ & _ & c & Hc & Hw).
  rewrite <-!(assoc_L (++)). cbn [app].
  rewrite (lines_cons _ c) by done. rewrite ini_loop_line by done.
  rewrite IHes by done. by destruct act.
Qed.

(** *** Hexadecimal fingerprints *)

(** [format!("{byte:02x}")]: the form [Dtls::fingerprint] prints a digest in. *)
Definition hex_char (d : Z) : N := Z.to_N (if d <? 10 then d + 48 else d + 87).
Definition hex_byte (b : Z) : rstr := [hex_char (b / 16); hex_char (b mod 16)].
Definition fingerprint_text (digest : list Z) : rstr := digest ≫= hex_byte.

(** The colon-separated upper-case form certificate tools print. *)
Definition to_ascii_upper_char (c : N) : N :=
  if ((97 <=? c) && (c <=? 122))%N then (c - 32)%N else c.
Fixpoint colon_text (digest : list Z) : rstr :=
  match digest with
  | [] => []
  | [b] => to_ascii_upper_char <$> hex_byte b
  | b :: digest' => (to_ascii_upper_char <$> hex_byte b) ++ ch ":" :: colon_text digest'
  end.

Definition hex_digits : list Z := Z.of_nat <$> seq 0 16.

Lemma hex_char_facts d : 0 <= d < 16 ->
  hex_char d <> ch ":" /\ to_ascii_upper_char (hex_char d) <> ch ":" /\
  to_ascii_lower_char (hex_char d) = hex_char d /\
  to_ascii_lower_char (to_ascii_upper_char (hex_char d)) = hex_char d /\
  utf8_char (hex_char d) = [Z.of_N (hex_char d)] /\
  is_ascii_hexdigit (Z.of_N (hex_char d)) = true.
Proof.
  intros Hd.
  assert (d ∈ hex_digits) as Hin.
  { apply list_elem_of_fmap. exists (Z.to_nat d). split; [lia|].
    apply elem_of_seq. lia. }
  clear Hd. change hex_digits with [0; 1; 2; 3; 4; 5; 6; 7; 8; 9; 10; 11; 12; 13; 14; 15] in Hin.
  do 16 (apply elem_of_cons in Hin as [->|Hin];
    [split_and!; first [reflexivity|intros [=]]|]).
  by apply not_elem_of_nil in Hin.
Qed.

Lemma nibbles b : is_byte b -> 0 <= b / 16 < 16 /\ 0 <= b mod 16 < 16.
Proof.
  unfold is_byte. intros Hb. split; [|apply Z.mod_pos_bound; lia].
  split; [apply Z.div_pos; lia|apply Z.div_lt_upper_bound; lia].
Qed.

Lemma fingerprint_text_facts digest :
  Forall is_byte digest ->
  to_ascii_lowercase (remove_char (ch ":") (fingerprint_text digest)) = fingerprint_text digest /\
  to_ascii_lowercase (remove_char (ch ":") (colon_text digest)) = fingerprint_text digest /\
  length (as_bytes (fingerprint_text digest)) = (2 * length digest)%nat /\
  forallb is_ascii_hexdigit (as_bytes (fingerprint_text digest)) = true.
Proof.
  unfold remove_char, to_ascii_lowercase, as_bytes.
  induction digest as [|b digest IH]; [by intros _; split_and!|].
  intros [[(A1 & A2 & A3 & A4 & A5 & A6)%hex_char_facts
    (B1 & B2 & B3 & B4 & B5 & B6)%hex_char_facts]%nibbles Hd]%Forall_cons.
  destruct (IH Hd) as (I1 & I2 & I3 & I4).
  assert (forall c s, c <> ch ":" -> filter (fun c => c <> ch ":") (c :: s) = c :: filter (fun c => c <> ch ":") s) as Hf.
  { intros c s Hc. by rewrite filter_cons_True. }
  change (fingerprint_text (b :: digest)) with (hex_byte b ++ fingerprint_text digest).
  unfold hex_byte. cbn [app]. split_and!.
  - rewrite !Hf by done. cbn [fmap list_fmap]. by rewrite A3, B3, I1.
  - destruct digest as [|b' digest].
    + cbn [colon_text hex_byte fmap list_fmap]. rewrite !Hf by done. cbn [fmap list_fmap]. by rewrite A4, B4.
    + change (colon_text (b :: b' :: digest))
        with (to_ascii_upper_char (hex_char (b / 16)) :: to_ascii_upper_char (hex_char (b mod 16))
                :: ch ":" :: colon_text (b' :: digest)).
      rewrite !Hf by done. rewrite (filter_cons_False _ (ch ":")) by (intros H; by apply H).
      cbn [fmap list_fmap]. by rewrite A4, B4, I2.
  - cbn [mbind list_bind]. rewrite A5, B5. cbn [app length]. rewrite I3. lia.
  - cbn [mbind list_bind]. rewrite A5, B5. cbn [app forallb]. by rewrite A6, B6, I4.
Qed.

(** ** Properties *)

(** C40: Reading back a configuration file gives exactly the written entries: for a file
    of sections whose keys and values are trimmed and free of comment and structure
    characters, [parse_ini_entries] returns the entries of every section of the wanted
    name, in order and with duplicates. *)
Theorem parse_ini_entries_roundtrip sections section :
  Forall ini_section_ok sections ->
  parse_ini_entries (Ok (ini_text sections)) section =
    Ok (sections ≫= (fun s => if bool_decide (s.1 = section) then s.2 else [])).
Proof. intros Hok. cbn. by rewrite ini_loop_text. Qed.

Lemma parse_ini_entries_roundtrip_witness :
  parse_ini_entries (Ok (ini_text [(str "server", [(str "port", str "4433")]);
                                   (str "client", [(str "10.8.1.2", str "ab cd")])])) (str "client")
    = Ok [(str "10.8.1.2", str "ab cd")].
Proof.
  apply (parse_ini_entries_roundtrip [(str "server", [(str "port", str "4433")]);
                                      (str "client", [(str "10.8.1.2", str "ab cd")])]).
  assert (forall s, bool_decide (s <> [] /\ ch "#" ∉ s /\ 10%N ∉ s /\ trim s = s) = true -> clean s) as Hc.
  { intros s Hs. by apply bool_decide_eq_true in Hs. }
  repeat (apply Forall_cons; split); try apply Forall_nil_2; cbn;
    (split_and!; try (by apply (bool_decide_unpack _)); repeat (apply Forall_cons; split);
     try apply Forall_nil_2; split_and!; try (by apply Hc); by apply (bool_decide_unpack _)).
Defined.

(** A SHA-256 fingerprint is normalised to the text [Dtls::fingerprint] prints, from
    that text itself and from the colon-separated upper-case form, so a configured
    fingerprint compares equal to the certificate it denotes in either form. *)
Theorem normalize_sha256_fingerprint_digest digest :
  Forall is_byte digest -> length digest = 32%nat ->
  normalize_sha256_fingerprint (fingerprint_text digest) = Ok (fingerprint_text digest) /\
  normalize_sha256_fingerprint (colon_text digest) = Ok (fingerprint_text digest).
Proof.
  intros Hb Hlen. destruct (fingerprint_text_facts digest Hb) as (H1 & H2 & H3 & H4).
  split; apply normalize_Ok; split_and!; try done; unfold str_len; rewrite H3, Hlen; done.
Qed.

Lemma normalize_sha256_fingerprint_digest_witness :
  normalize_sha256_fingerprint (colon_text (replicate 32 171)) =
    Ok (fingerprint_text (replicate 32 171)).
Proof.
  apply (normalize_sha256_fingerprint_digest (replicate 32 171)); [|reflexivity].
  apply Forall_replicate. split; discriminate.
Defined.

(** C39: [validate_client_bindings] accepts a client section exactly when every entry is an
    address inside the VPN network other than the server's with a valid fingerprint, and no
    address and no fingerprint occurs twice; the result then binds each address to its
    normalised fingerprint. *)
Theorem validate_client_bindings_exact entries server_address network b :
  validate_client_bindings entries server_address network = Ok b <->
  exists net pairs,
    parse_ipv4_cidr network = Ok net /\ Forall2 entry_binds entries pairs /\
    Forall (fun kv => ipv4_in_cidr kv.1 net.1 net.2 = true /\ kv.1 <> server_address) pairs /\
    NoDup pairs.*1 /\ NoDup pairs.*2 /\ b = list_to_map pairs.
Proof.
  unfold validate_client_bindings. rewrite result_bind_Ok. split.
  - intros (net & Hnet & (pairs & ? & ? & ? & ? & _ & ->)%bindings_loop_Ok).
    exists net, pairs. by rewrite (right_id_L ∅ (∪)).
  - intros (net & pairs & Hnet & ? & ? & ? & ? & ->). exists net. split; [done|].
    apply bindings_loop_Ok. exists pairs. rewrite (right_id_L ∅ (∪)).
    split_and!; try done. apply Forall_forall. intros kv _. split; [apply lookup_empty|set_solver].
Qed.

(** The accepted bindings are one-to-one and safe: two addresses never share a
    fingerprint, every bound address lies in the VPN network and is not the server's, and
    every bound fingerprint is 64 bytes long, so a certificate authenticates one VPN
    address at most. *)
Theorem validate_client_bindings_injective entries server_address network b :
  validate_client_bindings entries server_address network = Ok b ->
  (forall a1 a2 f, b !! a1 = Some f -> b !! a2 = Some f -> a1 = a2) /\
  b !! server_address = None /\
  (forall a f, b !! a = Some f ->
    str_len f = 64 /\
    exists net, parse_ipv4_cidr network = Ok net /\ ipv4_in_cidr a net.1 net.2 = true).
Proof.
  unfold validate_client_bindings. rewrite result_bind_Ok.
  intros (net & Hnet & (pairs & HF & Hok & Hd1 & Hd2 & _ & ->)%bindings_loop_Ok).
  rewrite (right_id_L ∅ (∪)). rewrite Forall_forall in Hok.
  assert (forall a f, list_to_map (M := gmap Ipv4Addr rstr) pairs !! a = Some f <-> (a, f) ∈ pairs) as Hl.
  { intros a f. symmetry. by apply elem_of_list_to_map. }
  split_and!.
  - intros a1 a2 f H1%Hl H2%Hl.
    apply list_elem_of_lookup in H1 as [i Hi], H2 as [j Hj].
    assert (i = j) as ->; [|by simplify_eq].
    apply (NoDup_lookup pairs.*2 i j f Hd2); rewrite list_lookup_fmap; by rewrite ?Hi, ?Hj.
  - apply not_elem_of_list_to_map_1. intros ([a f] & -> & Hin)%list_elem_of_fmap.
    apply Hok in Hin as [_ Hin]. done.
  - intros a f Hin%Hl. split; [|exists net; split; [done|]; by apply Hok in Hin as [? _]].
    apply list_elem_of_lookup in Hin as [i Hi].
    destruct (Forall2_lookup_r _ _ _ _ _ HF Hi) as (e & _ & _ & Hf).
    by apply normalize_Ok in Hf as (_ & ? & _).
Qed.

Definition example_entries : list (rstr * rstr) :=
  [(str "10.8.1.2", colon_text (replicate 32 171) ++ str " alice secret");
   (str "10.8.1.3", fingerprint_text (replicate 32 172))].
Definition example_bindings : gmap Ipv4Addr rstr :=
  list_to_map [(ipv4_new 10 8 1 2, fingerprint_text (replicate 32 171));
               (ipv4_new 10 8 1 3, fingerprint_text (replicate 32 172))].

Lemma example_bindings_ok :
  validate_client_bindings example_entries (ipv4_new 10 8 1 1) (str "10.8.1.0/24") =
    Ok example_bindings.
Proof. vm_compute. reflexivity. Qed.

Lemma validate_client_bindings_injective_witness :
  example_bindings !! ipv4_new 10 8 1 1 = None.
Proof.
  apply (validate_client_bindings_injective _ _ _ _ example_bindings_ok).
Defined.

Lemma policy_loop_Ok policy alt_names r :
  policy_loop policy alt_names = Ok r <->
  let uris := filter (fun name => starts_with (str "urn:autobricks:") name) alt_names in
  (uris = [] /\ r = policy) \/
  (policy = None /\ exists cidr net, uris = [ALLOWED_SOURCE_CIDR_URI_PREFIX ++ cidr] /\
     parse_ipv4_cidr cidr = Ok net /\ r = Some net).
Proof.
  revert policy. induction alt_names as [|name names IH]; intros policy; cbn zeta.
  { cbn. naive_solver. }
  cbn [policy_loop]. rewrite filter_cons.
  destruct (starts_with (str "urn:autobricks:") name); cbn [negb].
  2:{ rewrite decide_False by auto. apply IH. }
  rewrite decide_True by done.
  destruct (strip_prefix ALLOWED_SOURCE_CIDR_URI_PREFIX name) as [cidr|] eqn:Hp.
  - apply strip_prefix_Some in Hp as ->. case_bool_decide as Hpol.
    { destruct Hpol as [? ->]. naive_solver. }
    rewrite <-eq_None_not_Some in Hpol. subst policy.
    rewrite result_bind_Ok. setoid_rewrite IH. cbn zeta. split.
    + intros (p & Hp & [[Hu ->]|[? _]]); [|done]. right. split; [done|].
      exists cidr, p. by rewrite Hu.
    + intros [[? _]|(_ & cidr' & net & Hu & Hnet & ->)]; [done|].
      apply (f_equal head) in Hu as Hh. cbn [head] in Hh.
      injection Hh as <-.
      exists net. split; [done|]. left. split; [|done]. by injection Hu.
  - split; [done|]. intros [[? _]|(_ & cidr & net & Hu & _)]; [done|].
    assert (name = ALLOWED_SOURCE_CIDR_URI_PREFIX ++ cidr) as -> by congruence.
    assert (strip_prefix ALLOWED_SOURCE_CIDR_URI_PREFIX
      (ALLOWED_SOURCE_CIDR_URI_PREFIX ++ cidr) = Some cidr) as Hs; [by apply strip_prefix_Some|].
    congruence.
Qed.

(** A client certificate is allowed from a source address exactly when it carries no
    [urn:autobricks:] name at all, or exactly one and that one is an allowed-source-CIDR
    policy with a well-formed block that contains the address; an unknown or a second policy
    name is an error, never an acceptance. *)
Theorem certificate_source_policy_exact alt_names source b :
  certificate_source_policy_allows alt_names source = Ok b <->
  let uris := filter (fun name => starts_with (str "urn:autobricks:") name) alt_names in
  (uris = [] /\ b = true) \/
  (exists cidr net, uris = [ALLOWED_SOURCE_CIDR_URI_PREFIX ++ cidr] /\
     parse_ipv4_cidr cidr = Ok net /\ b = ipv4_in_cidr source net.1 net.2).
Proof.
  unfold certificate_source_policy_allows. rewrite result_bind_Ok. cbn zeta. split.
  - intros (policy & [[Hu ->]|(_ & cidr & net & Hu & Hnet & ->)]%policy_loop_Ok & Hb);
      destruct_and?; injection Hb as <-.
    + by left.
    + right. exists cidr, net. by destruct net.
  - intros [[Hu ->]|(cidr & net & Hu & Hnet & ->)].
    + exists None. split; [|done]. apply policy_loop_Ok. by left.
    + exists (Some net). split; [|by destruct net]. apply policy_loop_Ok. right.
      split; [done|]. by exists cidr, net.
Qed.

(** A login the reader keeps: the entry it comes from has exactly three fields. *)
Lemma client_logins_loop_lookup entries logins m a id password :
  client_logins_loop logins entries = Ok m -> m !! a = Some (id, password) ->
  logins !! a = Some (id, password) \/
  exists e fingerprint, e ∈ entries /\ parse_ipv4 e.1 = Some a /\
    split_whitespace e.2 = [fingerprint; id; password] /\ id <> [] /\ password <> [].
Proof.
  revert logins. induction entries as [|[address v] entries IH]; intros logins; cbn [client_logins_loop].
  { intros [= ->]. by left. }
  destruct (split_whitespace v) as [|w1 [|w2 [|w3 [|w4 ws]]]] eqn:Hw; try done.
  - intros Hl Hm. destruct (IH _ Hl Hm) as [?|(e & f & ? & ?)]; [by left|].
    right. exists e, f. split; [by right|done].
  - case_bool_decide as H2; [done|]. case_bool_decide as H3; [done|]. cbn [negb andb].
    rewrite result_bind_Ok. intros (a' & Ha%ok_or_Ok & Hl) Hm.
    destruct (IH _ Hl Hm) as [Hi|(e & f & ? & ?)].
    + destruct (decide (a' = a)) as [->|Hne].
      * rewrite lookup_insert_eq in Hi. simplify_eq. right.
        exists (address, v), w1. split_and!; [by left|done..].
      * rewrite lookup_insert_ne in Hi by done. by left.
    + right. exists e, f. split; [by right|done].
Qed.

(** A configured login belongs to the certificate of its own line: when both readers
    accept the client section, an address with a login is a bound address, its line reads
    [fingerprint id password] with non-empty login fields, and the fingerprint bound to the
    address is the one of that line. *)
Theorem client_logins_bound entries server_address network b logins a id password :
  validate_client_bindings entries server_address network = Ok b ->
  client_logins entries = Ok logins ->
  logins !! a = Some (id, password) ->
  exists key v fingerprint f,
    (key, v) ∈ entries /\ parse_ipv4 key = Some a /\
    split_whitespace v = [fingerprint; id; password] /\ id <> [] /\ password <> [] /\
    normalize_sha256_fingerprint fingerprint = Ok f /\ b !! a = Some f.
Proof.
  unfold validate_client_bindings. rewrite result_bind_Ok.
  intros (net & Hnet & (pairs & HF & _ & Hd & _ & _ & ->)%bindings_loop_Ok) Hl Hm.
  rewrite (right_id_L ∅ (∪)).
  destruct (client_logins_loop_lookup _ _ _ _ _ _ Hl Hm) as [He|([key v] & f & Hin & Ha & Hw & ? & ?)].
  { by rewrite lookup_empty in He. }
  apply list_elem_of_lookup in Hin as [i Hi].
  destruct (Forall2_lookup_l _ _ _ _ _ HF Hi) as ([a' f'] & Hp & Ha' & Hf').
  cbn [fst snd] in *. unfold first_word in Hf'. rewrite Hw in Hf'. cbn in Hf'.
  simplify_eq. exists key, v, f, f'. split_and!; try done.
  - by eapply list_elem_of_lookup_2.
  - apply elem_of_list_to_map_1; [done|]. by eapply list_elem_of_lookup_2.
Qed.

Lemma client_logins_bound_witness :
  exists key v fingerprint f,
    (key, v) ∈ example_entries /\ parse_ipv4 key = Some (ipv4_new 10 8 1 2) /\
    split_whitespace v = [fingerprint; str "alice"; str "secret"] /\
    str "alice" <> [] /\ str "secret" <> [] /\
    normalize_sha256_fingerprint fingerprint = Ok f /\
    example_bindings !! ipv4_new 10 8 1 2 = Some f.
Proof.
  apply (client_logins_bound example_entries (ipv4_new 10 8 1 1) (str "10.8.1.0/24") example_bindings
           {[ipv4_new 10 8 1 2 := (str "alice", str "secret")]}).
  - apply example_bindings_ok.
  - vm_compute. reflexivity.
  - vm_compute. reflexivity.
Defined.

(** A duration option is read within its bounds: a value is accepted exactly when the
    text (or the default, when the key is absent) is a [u64] between the minimum and the
    maximum, and then gives that many seconds without overflow. *)
Theorem duration_value_exact values key default minimum maximum d :
  0 <= default <= u64_max ->
  duration_value values key default minimum maximum = Ok d <->
  exists seconds,
    match values !! key with
    | Some text => parse_uint u64_max text = Some seconds
    | None => seconds = default
    end /\ minimum <= seconds <= maximum /\ d = from_secs seconds.
Proof.
  intros Hd. unfold duration_value. rewrite result_bind_Ok. setoid_rewrite ok_or_Ok.
  unfold value. destruct (values !! key) as [text|]; cbn [from_option id].
  - split.
    + intros (s & Hs & H). exists s. destruct (_ && _) eqn:Hc; [|done].
      apply andb_true_iff in Hc as [?%Z.leb_le ?%Z.leb_le]. naive_solver lia.
    + intros (s & Hs & Hb & ->). exists s. split; [done|].
      rewrite (proj2 (andb_true_iff _ _)); [done|]. rewrite !Z.leb_le. lia.
  - rewrite parse_display_uint by done. split.
    + intros (s & [= <-] & H). exists default. destruct (_ && _) eqn:Hc; [|done].
      apply andb_true_iff in Hc as [?%Z.leb_le ?%Z.leb_le]. naive_solver lia.
    + intros (s & -> & Hb & ->). exists default. split; [done|].
      rewrite (proj2 (andb_true_iff _ _)); [done|]. rewrite !Z.leb_le. lia.
Qed.

Lemma duration_value_exact_witness :
  duration_value {[str "ban_seconds" := str "300"]} (str "ban_seconds") 600 1 86400 = Ok (from_secs 300).
Proof.
  apply (duration_value_exact {[str "ban_seconds" := str "300"]} (str "ban_seconds") 600 1 86400).
  - vm_compute. split; discriminate.
  - exists 300. split_and!; vm_compute; (discriminate || reflexivity).
Defined.
