(* ===== verification/RateLimit.v ===== *)
(** * The per-address attempt limiter

    Models [IpRateLimiter] of [src/lib.rs]: a sliding window of attempts per source address
    and a ban once the window is full. The specification keeps the whole history of attempts
    and counts the recent ones; the theorems show that the lazily pruned queues, and [purge],
    decide the same. *)

From S2P Require Import Prelude Net.

Inductive RateLimitDecision := Allowed | BannedNow | Banned.

#[export] Instance RateLimitDecision_eq_dec : EqDecision RateLimitDecision.
Proof. solve_decision. Defined.

Record IpAttemptState := {
  attempts : list Instant;
  banned_until : option Instant;
}.

#[export] Instance eta_IpAttemptState : Eta IpAttemptState :=
  fun s => {| attempts := attempts s; banned_until := banned_until s |}.

Record IpRateLimiter := {
  states : gmap Ipv4Addr IpAttemptState;
  limit : nat;
  window : Duration;
  ban_duration : Duration;
}.

#[export] Instance eta_IpRateLimiter : Eta IpRateLimiter :=
  fun l => {| states := states l; limit := limit l; window := window l;
              ban_duration := ban_duration l |}.

(** [IpRateLimiter::new] *)
Definition limiter_new (limit : nat) (window ban_duration : Duration) : IpRateLimiter :=
  {| states := ∅; limit := Nat.max limit 1; window := window; ban_duration := ban_duration |}.

Definition expired (window : Duration) (now attempt : Instant) : bool :=
  (window <=? saturating_duration_since now attempt)%Z.

(** The [while let Some(..) = front() { pop_front() }] loop. *)
Fixpoint pop_expired (window : Duration) (now : Instant) (attempts : list Instant)
    : list Instant :=
  match attempts with
  | attempt :: rest => if expired window now attempt then pop_expired window now rest else attempts
  | [] => []
  end.

Definition ban_active (until : option Instant) (now : Instant) : bool :=
  from_option (fun deadline => (now <? deadline)%Z) false until.

Definition check_ban (address : Ipv4Addr) (now : Instant) (l : IpRateLimiter)
    : bool * IpRateLimiter :=
  match states l !! address with
  | None => (false, l)
  | Some state =>
      if ban_active (banned_until state) now then (true, l)
      else
        let state := state <| banned_until := None |>
                           <| attempts ::= pop_expired (window l) now |> in
        (false, l <| states ::= insert address state |>)
  end.

Definition record_attempt (address : Ipv4Addr) (now : Instant) (l : IpRateLimiter)
    : RateLimitDecision * IpRateLimiter :=
  let '(banned, l) := check_ban address now l in
  if banned then (Banned, l)
  else
    let state := from_option id {| attempts := []; banned_until := None |} (states l !! address) in
    let state := state <| attempts ::= fun q => q ++ [now] |> in
    if decide (limit l <= length (attempts state)) then
      let state := state <| attempts := [] |> <| banned_until := Some (now + ban_duration l)%Z |> in
      (BannedNow, l <| states ::= insert address state |>)
    else (Allowed, l <| states ::= insert address state |>).

Definition purge_state (window : Duration) (now : Instant) (state : IpAttemptState)
    : option IpAttemptState :=
  let state := state <| attempts ::= pop_expired window now |> in
  if ban_active (banned_until state) now || negb (bool_decide (attempts state = []))
  then Some state else None.

Definition purge (now : Instant) (l : IpRateLimiter) : IpRateLimiter :=
  l <| states ::= omap (purge_state (window l) now) |>.

(** ** The sliding-window specification *)

(** One address: every attempt since the last ban, and that ban's deadline. *)
Record History := { attempted : list Instant; deadline : option Instant }.

Definition no_history : History := {| attempted := []; deadline := None |}.

(** Requests, with the time they are made at. *)
Inductive request := CheckBan (a : Ipv4Addr) | Record_ (a : Ipv4Addr) | Purge.

Section spec.
Context (lim : nat) (win ban : Duration).

Definition recent (now : Instant) (h : History) : nat :=
  count (fun t => negb (expired win now t)) (attempted h).

Definition spec_record (now : Instant) (h : History) : RateLimitDecision * History :=
  if ban_active (deadline h) now then (Banned, h)
  else if decide (lim <= S (recent now h)) then
    (BannedNow, {| attempted := []; deadline := Some (now + ban)%Z |})
  else (Allowed, {| attempted := attempted h ++ [now]; deadline := deadline h |}).

Definition spec_step (now : Instant) (r : request) (s : gmap Ipv4Addr History)
    : option RateLimitDecision * gmap Ipv4Addr History :=
  let get a := from_option id no_history (s !! a) in
  match r with
  | CheckBan a => (if ban_active (deadline (get a)) now then Some Banned else None, s)
  | Record_ a => let '(d, h) := spec_record now (get a) in (Some d, <[a := h]> s)
  | Purge => (None, s)
  end.
End spec.

Definition limiter_step (now : Instant) (r : request) (l : IpRateLimiter)
    : option RateLimitDecision * IpRateLimiter :=
  match r with
  | CheckBan a => let '(b, l) := check_ban a now l in ((if b then Some Banned else None), l)
  | Record_ a => let '(d, l) := record_attempt a now l in (Some d, l)
  | Purge => (None, purge now l)
  end.

(** The answers to a timed sequence of requests. *)
Fixpoint run_requests {S R} (step : Instant -> request -> S -> R * S)
    (rs : list (Instant * request)) (s : S) : list R :=
  match rs with
  | [] => []
  | (now, r) :: rs => let '(d, s) := step now r s in d :: run_requests step rs s
  end.

(** ** Lemmas *)
Lemma expired_mono win now now' t t' :
  (now <= now')%Z -> (t' <= t)%Z -> expired win now t = true -> expired win now' t' = true.
Proof.
  unfold expired, saturating_duration_since. rewrite !Z.leb_le. lia.
Qed.

Lemma pop_expired_spec win now q :
  Sorted Z.le q ->
  exists d, q = d ++ pop_expired win now q /\ Forall (fun t => expired win now t = true) d /\
    Forall (fun t => expired win now t = false) (pop_expired win now q).
Proof.
  induction q as [|t q IH]; intros Hs; cbn; [by exists []|].
  destruct (expired win now t) eqn:He.
  - apply Sorted_inv in Hs as [Hs _]. destruct (IH Hs) as (d & Hq & Hd & Hr).
    exists (t :: d). split_and!; [cbn; by rewrite <-Hq|by constructor|done].
  - exists []. split_and!; [done|constructor|]. apply Forall_forall. intros t' Ht'.
    destruct (expired win now t') eqn:He'; [|done].
    assert (t <= t')%Z as Hle.
    { apply Sorted_StronglySorted in Hs; [|intros ???; lia].
      apply StronglySorted_inv in Hs as [_ Hs]. rewrite Forall_forall in Hs.
      apply elem_of_cons in Ht' as [->|Ht']; [lia|by apply Hs]. }
    rewrite (expired_mono win now now t' t) in He; [done|lia|done|done].
Qed.

Lemma ban_active_mono u now now' :
  (now <= now')%Z -> ban_active u now = false -> ban_active u now' = false.
Proof. destruct u; cbn; [|done]. rewrite !Z.ltb_ge. lia. Qed.

Lemma count_none {A} (P : A -> bool) l : Forall (fun x => P x = false) l -> count P l = 0.
Proof. induction 1 as [|x l Hx _ IH]; [done|]. by rewrite count_cons, Hx, IH. Qed.

Lemma count_all {A} (P : A -> bool) l : Forall (fun x => P x = true) l -> count P l = length l.
Proof. induction 1 as [|x l Hx _ IH]; [done|]. rewrite count_cons, Hx, IH. done. Qed.

(** The state of one address at time [now] implements the history [h]. *)
Definition implements (win : Duration) (now : Instant) (st : option IpAttemptState) (h : History) : Prop :=
  Sorted Z.le (attempted h) /\ Forall (fun t => t <= now)%Z (attempted h) /\
  (forall now', (now <= now')%Z ->
     ban_active (st ≫= banned_until) now' = ban_active (deadline h) now') /\
  exists d, attempted h = d ++ from_option attempts [] st /\
            Forall (fun t => expired win now t = true) d.

Lemma implements_later win now now' st h :
  (now <= now')%Z -> implements win now st h -> implements win now' st h.
Proof.
  intros Hle (Hs & Hn & Hb & d & Hd & He). split_and!; [done| | |exists d; split; [done|]].
  - eapply Forall_impl; [done|]. cbn. lia.
  - intros. apply Hb. lia.
  - eapply Forall_impl; [done|]. intros t Ht. by eapply expired_mono; [| |exact Ht].
Qed.

Lemma Sorted_app_r {A} (R : A -> A -> Prop) l k : Sorted R (l ++ k) -> Sorted R k.
Proof. induction l as [|x l IH]; [done|]. intros Hs. apply Sorted_inv in Hs as [Hs _]. auto. Qed.

(** Pruning the attempts keeps the history implemented and leaves the recent ones. *)
Lemma implements_pop win now st h :
  implements win now (Some st) h ->
  implements win now (Some (st <| attempts ::= pop_expired win now |>)) h /\
  length (pop_expired win now (attempts st)) = recent win now h.
Proof.
  intros (Hs & Hn & Hb & d & Hd & He). cbn in Hd. rewrite Hd in Hs.
  destruct (pop_expired_spec win now (attempts st) (Sorted_app_r _ _ _ Hs)) as (d' & Hd' & He' & Hr).
  split.
  - split_and!; [by rewrite Hd|done|done|]. exists (d ++ d'). cbn.
    split; [by rewrite <-(assoc_L (++)), <-Hd'|by apply Forall_app].
  - unfold recent. rewrite Hd, Hd', !count_app, <-Hd'.
    rewrite !count_none by (eapply Forall_impl; [eassumption|]; intros t Ht; cbn in *; by rewrite Ht).
    rewrite count_all; [done|]. eapply Forall_impl; [eassumption|]. intros t Ht. cbn in *. by rewrite Ht.
Qed.

(** The limiters differ only at [a]. *)
Definition same_but (a : Ipv4Addr) (l l' : IpRateLimiter) : Prop :=
  limit l' = limit l /\ window l' = window l /\ ban_duration l' = ban_duration l /\
  forall a', a' <> a -> states l' !! a' = states l !! a'.

Lemma check_ban_implements a now l h b l' :
  check_ban a now l = (b, l') -> implements (window l) now (states l !! a) h ->
  b = ban_active (deadline h) now /\ same_but a l l' /\
  implements (window l) now (states l' !! a) h /\
  (b = false -> length (from_option attempts [] (states l' !! a)) = recent (window l) now h).
Proof.
  unfold check_ban. intros Hc Hi. pose proof Hi as (Hs & Hn & Hb & d & Hd & He).
  rewrite <-Hb by lia. destruct (states l !! a) as [st|] eqn:Hst.
  - cbn [mbind option_bind]. destruct (ban_active (banned_until st) now) eqn:Hba; injection Hc as <- <-.
    + split_and!; [done..|by rewrite Hst|done].
    + assert (implements (window l) now (Some (st <| banned_until := None |>)) h) as Hi'.
      { split_and!; [done..| |by exists d]. intros now' Hle. rewrite <-Hb by done. cbn.
        symmetry. by eapply ban_active_mono. }
      apply implements_pop in Hi' as [Hi' Hlen]. cbn. rewrite lookup_insert_eq.
      split; [done|split; [|by split]]. split_and!; try done.
      intros a' Ha'. cbn. by rewrite lookup_insert_ne.
  - injection Hc as <- <-. rewrite Hst. split_and!; try done.
    intros _. cbn. unfold recent. rewrite Hd. cbn. rewrite (right_id_L [] (++)).
    symmetry. apply count_none. eapply Forall_impl; [done|]. intros t Ht. cbn. by rewrite Ht.
Qed.

Lemma implements_push win now st h t :
  implements win now st h -> (now <= t)%Z ->
  implements win t (Some {| attempts := from_option attempts [] st ++ [t];
                            banned_until := st ≫= banned_until |})
    {| attempted := attempted h ++ [t]; deadline := deadline h |}.
Proof.
  intros (Hs & Hn & Hb & d & Hd & He) Ht. split_and!; cbn.
  - apply StronglySorted_Sorted, StronglySorted_app_2; [intros x y Hx Hy| |by repeat constructor].
    + apply list_elem_of_singleton in Hy as ->. rewrite Forall_forall in Hn. apply Hn in Hx. lia.
    + apply Sorted_StronglySorted; [intros ???; lia|done].
  - apply Forall_app. split; [|by repeat constructor]. eapply Forall_impl; [done|]. cbn. lia.
  - intros. apply Hb. lia.
  - exists d. split; [by rewrite Hd, <-(assoc_L (++))|].
    eapply Forall_impl; [done|]. intros t' Ht'. by eapply expired_mono; [| |exact Ht'].
Qed.

Lemma record_attempt_implements a now l h dec l' :
  record_attempt a now l = (dec, l') -> implements (window l) now (states l !! a) h ->
  exists h', spec_record (limit l) (window l) (ban_duration l) now h = (dec, h') /\
    same_but a l l' /\ implements (window l) now (states l' !! a) h'.
Proof.
  unfold record_attempt. destruct (check_ban a now l) as [b l1] eqn:Hc. intros Hr Hi.
  destruct (check_ban_implements _ _ _ _ _ _ Hc Hi) as (-> & Hsame & Hi1 & Hlen).
  unfold spec_record. destruct (ban_active (deadline h) now) eqn:Hba.
  { injection Hr as <- <-. eauto. }
  destruct Hsame as (Hl & Hw & Hd & Hoth).
  set (st := from_option id _ (states l1 !! a)) in *.
  assert (attempts st = from_option attempts [] (states l1 !! a) /\
          banned_until st = (states l1 !! a) ≫= banned_until) as [Hat Hbu].
  { unfold st. by destruct (states l1 !! a). }
  cbn [set_field attempts banned_until] in Hr. 
  rewrite length_app, Hat, Hlen, Hl, Hd in Hr by done. cbn [length] in Hr.
  rewrite Nat.add_1_r in Hr. case_decide; injection Hr as <- <-.
  - eexists. split; [done|]. split.
    + split_and!; try done. intros a' Ha'. cbn. rewrite lookup_insert_ne by done. by apply Hoth.
    + cbn. rewrite lookup_insert_eq. split_and!; cbn; [constructor|constructor|done|by exists []].
  - eexists. split; [done|]. split.
    + split_and!; try done. intros a' Ha'. cbn. rewrite lookup_insert_ne by done. by apply Hoth.
    + cbn. rewrite lookup_insert_eq. rewrite Hbu. by apply (implements_push _ now).
Qed.

Lemma purge_state_implements win now st h :
  implements win now st h -> implements win now (st ≫= purge_state win now) h.
Proof.
  intros Hi. destruct st as [st|]; [|done]. cbn [mbind option_bind]. unfold purge_state.
  apply implements_pop in Hi as [Hi _]. set (st' := st <| attempts ::= _ |>) in *.
  destruct (ban_active (banned_until st') now) eqn:Hba; [done|].
  case_bool_decide as Hn; [|done]. cbn [orb negb].
  destruct Hi as (Hs & Hnow & Hb & d & Hd & He). split_and!; try done.
  - intros now' Hle. rewrite <-Hb by done. cbn. symmetry. by eapply ban_active_mono.
  - exists d. split; [|done]. rewrite Hd. cbn [from_option]. by rewrite Hn.
Qed.

Definition limiter_implements (now : Instant) (l : IpRateLimiter) (s : gmap Ipv4Addr History) : Prop :=
  forall a, implements (window l) now (states l !! a) (from_option id no_history (s !! a)).

Lemma limiter_step_implements now r l s :
  limiter_implements now l s ->
  exists d l' s', limiter_step now r l = (d, l') /\
    spec_step (limit l) (window l) (ban_duration l) now r s = (d, s') /\
    limiter_implements now l' s' /\
    limit l' = limit l /\ window l' = window l /\ ban_duration l' = ban_duration l.
Proof.
  intros Hi. destruct r as [a|a|]; cbn [limiter_step spec_step].
  - destruct (check_ban a now l) as [b l'] eqn:Hc.
    destruct (check_ban_implements _ _ _ _ _ _ Hc (Hi a)) as (-> & (Hl & Hw & Hd & Ho) & Hi' & _).
    do 3 eexists. do 2 (split; [done|]). split; [|done]. intros a'. rewrite Hw.
    destruct (decide (a' = a)) as [->|]; [done|]. rewrite Ho by done. apply Hi.
  - destruct (record_attempt a now l) as [dec l'] eqn:Hr.
    destruct (record_attempt_implements _ _ _ _ _ _ Hr (Hi a)) as (h' & -> & (Hl & Hw & Hd & Ho) & Hi').
    do 3 eexists. do 2 (split; [done|]). split; [|done]. intros a'. rewrite Hw.
    destruct (decide (a' = a)) as [->|]; [by rewrite lookup_insert_eq|].
    rewrite Ho, lookup_insert_ne by done. apply Hi.
  - do 3 eexists. do 2 (split; [done|]). split; [|done]. intros a. cbn. rewrite lookup_omap.
    apply purge_state_implements, Hi.
Qed.

Lemma run_requests_implements now rs l s :
  limiter_implements now l s -> Sorted Z.le (now :: rs.*1) ->
  run_requests limiter_step rs l =
    run_requests (spec_step (limit l) (window l) (ban_duration l)) rs s.
Proof.
  revert now l s. induction rs as [|[t r] rs IH]; intros now l s Hi Hs; [done|].
  apply Sorted_inv in Hs as [Hs Hhd]. apply HdRel_inv in Hhd.
  assert (limiter_implements t l s) as Hi'.
  { intros a. by eapply implements_later, Hi. }
  destruct (limiter_step_implements t r l s Hi') as (d & l' & s' & Hl & Hsp & Hi'' & E1 & E2 & E3).
  cbn [run_requests]. rewrite Hl, Hsp. f_equal.
  rewrite <-E1, <-E2, <-E3. by apply (IH t).
Qed.

(** ** Properties *)

(** C30: The limiter is a sliding-window limiter with bans: for every sequence of requests at
    non-decreasing times, a limiter made by [new] gives the same decisions as the
    specification that remembers every attempt since the last ban, bans an address when the
    attempts of the last [window] reach the limit, and forgets nothing on [purge]; so pruning
    and purging are unobservable, and addresses do not influence one another. *)
Theorem limiter_sliding_window limit window ban_duration rs :
  Sorted Z.le rs.*1 ->
  run_requests limiter_step rs (limiter_new limit window ban_duration) =
    run_requests (spec_step (Nat.max limit 1) window ban_duration) rs ∅.
Proof.
  intros Hs. destruct rs as [|[t r] rs]; [done|].
  apply (run_requests_implements t _ (limiter_new limit window ban_duration)).
  - intros a. cbn. rewrite !lookup_empty. split_and!; [constructor|constructor|done|by exists []].
  - cbn in *. constructor; [done|]. constructor. lia.
Qed.

Lemma limiter_sliding_window_witness :
  run_requests limiter_step
    [(0%Z, Record_ 1%Z); (1%Z, Record_ 1%Z); (2%Z, Record_ 2%Z); (3%Z, Purge); (4%Z, CheckBan 1%Z);
     (11%Z, Record_ 1%Z)]
    (limiter_new 2 5 10)
  = [Some Allowed; Some BannedNow; Some Allowed; None; Some Banned; Some Allowed].
Proof.
  assert (Sorted Z.le [0; 1; 2; 3; 4; 11]%Z) as Hs by (repeat constructor; lia).
  rewrite (limiter_sliding_window 2 5 10
    [(0%Z, Record_ 1%Z); (1%Z, Record_ 1%Z); (2%Z, Record_ 2%Z); (3%Z, Purge); (4%Z, CheckBan 1%Z);
     (11%Z, Record_ 1%Z)] Hs).
  vm_compute. reflexivity.
Defined.

(** A ban lasts exactly the ban duration: after the attempt that answers [BannedNow] at
    time [t], and until [t + ban_duration], every check and every attempt of the address is
    refused and leaves the limiter unchanged; from that instant on the address is free again
    and its attempts count from zero. *)
Theorem ban_lasts_ban_duration a t l l' now :
  record_attempt a t l = (BannedNow, l') ->
  (now < t + ban_duration l ->
     check_ban a now l' = (true, l') /\ record_attempt a now l' = (Banned, l'))%Z /\
  (t + ban_duration l <= now ->
     (check_ban a now l').1 = false /\
     (record_attempt a now l').1 = if decide (limit l <= 1)%nat then BannedNow else Allowed)%Z.
Proof.
  unfold record_attempt at 1. destruct (check_ban a t l) as [b l1] eqn:Hc.
  destruct b; [done|]. 
  assert (same_but a l l1) as (Hl & Hw & Hd & _).
  { revert Hc. unfold check_ban. destruct (states l !! a) as [st|]; [destruct (ban_active _ _); [done|]|];
      intros [= <-]; split_and!; try done. intros. cbn. by rewrite lookup_insert_ne. }
  case_decide as Hlim; intros [= <-]. cbn [states set_field].
  unfold record_attempt, check_ban. cbn. rewrite !lookup_insert_eq. cbn. rewrite Hd. split.
  - intros Hn. rewrite (proj2 (Z.ltb_lt _ _)) by done. done.
  - intros Hn. rewrite (proj2 (Z.ltb_ge _ _)) by done. split; [done|]. cbn.
    rewrite lookup_insert_eq. cbn. rewrite Hl. by case_decide.
Qed.

Lemma ban_lasts_ban_duration_witness :
  (check_ban 7%Z 9%Z (record_attempt 7%Z 3%Z (limiter_new 1 60 10)).2).1 = true.
Proof.
  destruct (record_attempt 7%Z 3%Z (limiter_new 1 60 10)) as [d l'] eqn:H.
  assert (d = BannedNow) as -> by (vm_compute in H; congruence).
  destruct (ban_lasts_ban_duration 7%Z 3%Z (limiter_new 1 60 10) l' 9%Z H) as [Hb _].
  destruct Hb as [Hb _]; [|cbn [snd]; by rewrite Hb].
  vm_compute in H. injection H as <-. reflexivity.
Defined.
