(* ===== verification/Queue.v ===== *)
(** * The bounded queue between threads

    Models [src/base/queue.rs]. Every operation runs under the queue's mutex, so each is one
    atomic function of the queue; an operation that waits on the condition variable is [None]
    while its wait condition holds. The last part runs a producer side and one consumer
    thread as a step relation, with the consumer loop the program uses: observe the
    generation, drain, wait for a change. *)

From S2P Require Import Prelude.

Record State (T : Type) := {
  items : list T;
  closed : bool;
  generation : Z;
}.
Arguments items {T} _.
Arguments closed {T} _.
Arguments generation {T} _.

#[export] Instance eta_State T : Eta (State T) :=
  fun s => {| items := items s; closed := closed s; generation := generation s |}.

Record Queue (T : Type) := {
  capacity : nat;
  state : State T;
}.
Arguments capacity {T} _.
Arguments state {T} _.

#[export] Instance eta_Queue T : Eta (Queue T) :=
  fun q => {| capacity := capacity q; state := state q |}.

Inductive InvalidCapacity := InvalidCapacity_.
Inductive PushError (T : Type) := PushError_ (item : T).
Arguments PushError_ {T} _.
Inductive TryPopError := Empty | Closed.

(** [QueueFront]: the reserved item; the queue it belongs to is the one it came from. *)
Record QueueFront (T : Type) := { item : T }.
Arguments item {T} _.

Section queue.
Context {T : Type}.
Implicit Types (q : Queue T) (x : T) (front : QueueFront T).

(** [Queue::new] *)
Definition queue_new (capacity : nat) : result InvalidCapacity (Queue T) :=
  if decide (capacity = 0) then Err InvalidCapacity_
  else Ok {| capacity := capacity;
             state := {| items := []; closed := false; generation := 0 |} |}.

Definition queue_len q : nat := length (items (state q)).
Definition queue_is_empty q : bool := bool_decide (queue_len q = 0).
Definition is_closed q : bool := closed (state q).
Definition queue_generation q : Z := generation (state q).

Definition bump (s : State T) : State T :=
  s <| generation ::= fun g => wrapping_add_u64 g 1 |>.

Definition notify_change q : Queue T := q <| state ::= bump |>.

(** [wait_for_change]: [None] while the thread waits. *)
Definition wait_for_change (observed : Z) q : option bool :=
  if bool_decide (queue_generation q = observed) && negb (is_closed q) then None
  else Some (negb (is_closed q)).

Definition push x q : result (PushError T) (option T) * Queue T :=
  if is_closed q then (Err (PushError_ x), q)
  else
    let '(dropped, rest) :=
      if decide (queue_len q = capacity q) then
        match items (state q) with y :: l => (Some y, l) | [] => (None, []) end
      else (None, items (state q)) in
    (Ok dropped, q <| state ::= fun s => bump (s <| items := rest ++ [x] |>) |>).

(** [VecDeque::pop_front] on the queue's items. *)
Definition pop_front q : option T * Queue T :=
  match items (state q) with
  | [] => (None, q)
  | x :: l => (Some x, q <| state ::= fun s => s <| items := l |> |>)
  end.

(** The wait condition of [pop] and [peek]. *)
Definition waits q : bool := queue_is_empty q && negb (is_closed q).

(** [pop]: [None] while the thread waits. *)
Definition pop q : option (option T * Queue T) :=
  if waits q then None else Some (if is_closed q then (None, q) else pop_front q).

(** [peek]: [None] while the thread waits. *)
Definition peek q : option (option (QueueFront T) * Queue T) :=
  if waits q then None
  else Some (if is_closed q then (None, q)
             else let '(o, q) := pop_front q in
                  ((fun x => {| item := x |}) <$> o, q)).

Definition try_pop q : result TryPopError T * Queue T :=
  match pop_front q with
  | (Some x, q) => (Ok x, q)
  | (None, q) => (Err (if is_closed q then Closed else Empty), q)
  end.

Definition try_peek q : result TryPopError (QueueFront T) * Queue T :=
  match pop_front q with
  | (Some x, q) => (Ok {| item := x |}, q)
  | (None, q) => (Err (if is_closed q then Closed else Empty), q)
  end.

(** [pop_timeout] waits once when the queue is empty and open, and may be woken early;
    [q] is the queue when it goes on. *)
Definition pop_timeout_resume q : option T * Queue T :=
  if is_closed q then (None, q) else pop_front q.

(** [QueueFront::value], [QueueFront::pop]: the item leaves with the reservation. *)
Definition front_value front : T := item front.
Definition front_pop front : T := item front.

(** [Drop for QueueFront] without [pop]. *)
Definition front_drop front q : Queue T :=
  if is_closed q then q
  else
    let rest := if decide (queue_len q = capacity q)
                then take (queue_len q - 1) (items (state q))  (* pop_back *)
                else items (state q) in
    q <| state ::= fun s => s <| items := item front :: rest |> |>.

Definition close q : Queue T :=
  if is_closed q then q
  else q <| state ::= fun s => bump (s <| closed := true |> <| items := [] |>) |>.
End queue.

(** ** Sequential lemmas *)
Section lemmas.
Context {T : Type}.
Implicit Types (q : Queue T) (x : T).

(** What every queue the operations produce satisfies. *)
Definition queue_ok q : Prop :=
  0 < capacity q /\ queue_len q <= capacity q /\
  (is_closed q = true -> items (state q) = []).

Lemma queue_new_ok c q : queue_new c = Ok q -> queue_ok q /\ items (state q) = [] /\ is_closed q = false.
Proof.
  unfold queue_new. case_decide; [done|]. intros [= <-]. split; [|done].
  split_and!; cbn; [lia|lia|done].
Qed.

Lemma push_open q x : is_closed q = false -> queue_ok q ->
  exists dropped, push x q = (Ok (head dropped), (push x q).2) /\
    items (state q) ++ [x] = dropped ++ items (state (push x q).2) /\
    (dropped = [] /\ queue_len q < capacity q \/
     exists y, dropped = [y] /\ queue_len q = capacity q) /\
    queue_generation (push x q).2 = wrapping_add_u64 (queue_generation q) 1 /\
    is_closed (push x q).2 = false /\ capacity (push x q).2 = capacity q.
Proof.
  intros Hc (Hcap & Hlen & _). unfold push. rewrite Hc. case_decide as Hd.
  - unfold queue_len in Hd. destruct (items (state q)) as [|y l] eqn:Hi; [cbn in Hd; lia|].
    exists [y]. cbn. split_and!; try done. right. exists y. split; [done|]. unfold queue_len. by rewrite Hi.
  - exists []. cbn. split_and!; try done. left. split; [done|lia].
Qed.

Lemma push_closed q x : is_closed q = true -> push x q = (Err (PushError_ x), q).
Proof. intros Hc. unfold push. by rewrite Hc. Qed.

Lemma pop_front_Some q x q' : pop_front q = (Some x, q') ->
  items (state q) = x :: items (state q') /\ is_closed q' = is_closed q /\
  capacity q' = capacity q /\ queue_generation q' = queue_generation q.
Proof.
  unfold pop_front. destruct (items (state q)) as [|y l] eqn:Hi; [done|].
  intros [= <- <-]. by cbn.
Qed.

Lemma try_pop_Ok q x q' : try_pop q = (Ok x, q') <-> pop_front q = (Some x, q').
Proof. unfold try_pop. destruct (pop_front q) as [[?|] ?]; naive_solver. Qed.

Lemma try_peek_Ok q f q' : try_peek q = (Ok f, q') <-> pop_front q = (Some (item f), q').
Proof. unfold try_peek. destruct f, (pop_front q) as [[?|] ?]; naive_solver. Qed.

Lemma try_pop_Err q e q' : try_pop q = (Err e, q') ->
  q' = q /\ items (state q) = [] /\ e = (if is_closed q then Closed else Empty).
Proof.
  unfold try_pop, pop_front. destruct (items (state q)) as [|y l] eqn:Hi; [|done].
  by intros [= <- <-].
Qed.

Lemma try_peek_Err q e q' : try_peek q = (Err e, q') ->
  q' = q /\ items (state q) = [] /\ e = (if is_closed q then Closed else Empty).
Proof.
  unfold try_peek, pop_front. destruct (items (state q)) as [|y l] eqn:Hi; [|done].
  by intros [= <- <-].
Qed.

Lemma front_drop_open q f : is_closed q = false -> queue_ok q ->
  exists lost, item f :: items (state q) = items (state (front_drop f q)) ++ lost /\
    (lost = [] /\ queue_len q < capacity q \/ (exists y, lost = [y]) /\ queue_len q = capacity q) /\
    queue_generation (front_drop f q) = queue_generation q /\
    is_closed (front_drop f q) = false /\ capacity (front_drop f q) = capacity q.
Proof.
  intros Hc (Hcap & Hlen & _). unfold front_drop. rewrite Hc. case_decide as Hd; cbn.
  - unfold queue_len in *. destruct (items (state q)) as [|y l _] eqn:Hi using rev_ind; [cbn in Hd; lia|].
    exists [y]. rewrite length_app. cbn [length].
    replace (length l + 1 - 1) with (length l) by lia. rewrite take_app_length.
    split_and!; try done. right. split; [by exists y|].
    rewrite length_app in Hd. cbn in Hd. lia.
  - exists []. rewrite (right_id_L [] (++)). split_and!; try done. left. split; [done|].
    unfold queue_len in *. lia.
Qed.

Lemma close_spec q :
  is_closed (close q) = true /\ capacity (close q) = capacity q /\
  (is_closed q = true /\ close q = q \/
   is_closed q = false /\ items (state (close q)) = [] /\
   queue_generation (close q) = wrapping_add_u64 (queue_generation q) 1).
Proof. unfold close. destruct (is_closed q) eqn:Hc; [|naive_solver]. split_and!; [done..|]. by left. Qed.
End lemmas.

(** ** One consumer thread and any number of producers

    The consumer is where its loop is: about to observe the generation, draining, holding a
    reservation, or waiting for a change of the generation it observed. The lists are ghost
    state: what was accepted by [push], what the consumer took, what was dropped. *)
Inductive consumer (T : Type) :=
| Running
| Draining (observed : Z)
| Holding (observed : Z) (front : QueueFront T)
| Waiting (observed : Z).
Arguments Running {T}.
Arguments Draining {T} _.
Arguments Holding {T} _ _.
Arguments Waiting {T} _.

Record Sys (T : Type) := {
  queue : Queue T;
  thread : consumer T;
  pushed : list T;
  consumed : list T;
  lost : list T;
  changes : Z;  (* generation steps since the consumer last observed it *)
}.
Arguments queue {T} _.
Arguments thread {T} _.
Arguments pushed {T} _.
Arguments consumed {T} _.
Arguments lost {T} _.
Arguments changes {T} _.

#[export] Instance eta_Sys T : Eta (Sys T) :=
  fun s => {| queue := queue s; thread := thread s; pushed := pushed s;
              consumed := consumed s; lost := lost s; changes := changes s |}.

Section sys.
Context {T : Type}.
Implicit Types (s : Sys T) (q : Queue T) (x : T).

Definition held s : list T := match thread s with Holding _ f => [item f] | _ => [] end.

Inductive step : Sys T -> Sys T -> Prop :=
| step_push s x d q :
    push x (queue s) = (Ok d, q) ->
    step s (s <| queue := q |> <| pushed ::= fun l => l ++ [x] |>
              <| lost ::= fun l => l ++ option_list d |> <| changes ::= Z.succ |>)
| step_push_refused s x e q :
    push x (queue s) = (Err e, q) -> step s (s <| queue := q |>)
| step_notify s : step s (s <| queue ::= notify_change |> <| changes ::= Z.succ |>)
| step_close s :
    step s (s <| queue ::= close |> <| lost ::= fun l => l ++ items (state (queue s)) |>
              <| changes ::= Z.succ |>)
| step_observe s :
    thread s = Running ->
    step s (s <| thread := Draining (queue_generation (queue s)) |> <| changes := 0%Z |>)
| step_try_pop s observed x q :
    thread s = Draining observed -> try_pop (queue s) = (Ok x, q) ->
    step s (s <| queue := q |> <| consumed ::= fun l => l ++ [x] |>)
| step_try_peek s observed f q :
    thread s = Draining observed -> try_peek (queue s) = (Ok f, q) ->
    step s (s <| queue := q |> <| thread := Holding observed f |>)
| step_front_pop s observed f :
    thread s = Holding observed f ->
    step s (s <| thread := Draining observed |> <| consumed ::= fun l => l ++ [front_pop f] |>)
| step_front_drop s observed f :
    thread s = Holding observed f ->
    step s (s <| thread := Draining observed |> <| queue ::= front_drop f |>
              <| lost ::= fun l => l ++
                   (if is_closed (queue s) then [item f]
                    else drop (length (items (state (front_drop f (queue s)))))
                           (item f :: items (state (queue s)))) |>)
| step_empty s observed q :
    thread s = Draining observed -> try_pop (queue s) = (Err Empty, q) ->
    step s (s <| thread := Waiting observed |>)
| step_wake s observed open :
    thread s = Waiting observed -> wait_for_change observed (queue s) = Some open ->
    step s (if open then s <| thread := Running |> else s).

(** The system right after [Queue::new]. *)
Definition initial (c : nat) s : Prop :=
  queue_new c = Ok (queue s) /\ thread s = Running /\ pushed s = [] /\ consumed s = [] /\
  lost s = [] /\ changes s = 0%Z.

Definition reachable (c : nat) s : Prop := exists s0, initial c s0 /\ rtc step s0 s.

Record sys_inv (c : nat) s : Prop := {
  inv_queue : queue_ok (queue s);
  inv_capacity : capacity (queue s) = c;
  inv_order : consumed s ++ held s ++ items (state (queue s)) `sublist_of` pushed s;
  inv_all : pushed s ≡ₚ consumed s ++ held s ++ items (state (queue s)) ++ lost s;
  inv_lost : is_closed (queue s) = false -> length (pushed s) <= c -> lost s = [];
}.

Lemma initial_inv c s : initial c s -> sys_inv c s.
Proof.
  intros (Hq & Ht & Hp & Hc & Hl & _). destruct (queue_new_ok _ _ Hq) as (Hok & Hi & _).
  unfold queue_new in Hq. case_decide; [done|]. injection Hq as Hq.
  split; unfold held; rewrite ?Ht, ?Hp, ?Hc, ?Hl, ?Hi; try done. by rewrite <-Hq.
Qed.
Lemma keep_r (k l : list T) : l `sublist_of` k ++ l.
Proof. apply sublist_inserts_l. done. Qed.

Lemma inv_push c s x d q :
  sys_inv c s -> push x (queue s) = (Ok d, q) ->
  sys_inv c (s <| queue := q |> <| pushed ::= fun l => l ++ [x] |>
               <| lost ::= fun l => l ++ option_list d |> <| changes ::= Z.succ |>).
Proof.
  intros [Hok Hcap Hord Hall Hlost] Hp.
  destruct (is_closed (queue s)) eqn:Hc; [by rewrite push_closed in Hp|].
  destruct (push_open _ x Hc Hok) as (dr & Hp' & Hi & Hd & _ & Hc' & Hcap').
  rewrite Hp in Hp', Hi, Hc', Hcap'. cbn [snd] in *. injection Hp' as ->.
  destruct Hok as (H0 & Hle & _).
  assert (option_list (head dr) = dr) as Hdr by (by destruct Hd as [[-> _]|(? & -> & _)]).
  apply (f_equal length) in Hi as Hlen. rewrite !length_app in Hlen. cbn in Hlen.
  split; unfold held in *; cbn; rewrite ?Hdr.
  - unfold queue_ok, queue_len in *. rewrite Hcap', Hc'. split_and!; [done| |done].
    destruct Hd as [[-> ?]|(y & -> & ?)]; cbn in Hlen; lia.
  - by rewrite Hcap'.
  - trans ((consumed s ++ held s ++ items (state (queue s))) ++ [x]);
      [unfold held|by apply sublist_app].
    rewrite <-!(assoc_L (++)), Hi. do 2 (apply sublist_app; [done|]). apply keep_r.
  - rewrite Hall. rewrite <-!(assoc_L (++)).
    assert (items (state (queue s)) ++ lost s ++ [x] ≡ₚ items (state q) ++ lost s ++ dr) as ->; [|done].
    trans ((items (state (queue s)) ++ [x]) ++ lost s); [solve_Permutation|].
    rewrite Hi. solve_Permutation.
  - intros _ Hle'. rewrite length_app in Hle'. cbn in Hle'. rewrite Hlost by (done || lia).
    destruct Hd as [[-> _]|(y & -> & Hfull)]; [done|]. exfalso.
    apply Permutation_length in Hall. rewrite !length_app in Hall. unfold queue_len in Hfull. lia.
Qed.

Lemma inv_front_drop c s observed f :
  sys_inv c s -> thread s = Holding observed f ->
  sys_inv c (s <| thread := Draining observed |> <| queue ::= front_drop f |>
              <| lost ::= fun l => l ++
                   (if is_closed (queue s) then [item f]
                    else drop (length (items (state (front_drop f (queue s)))))
                           (item f :: items (state (queue s)))) |>).
Proof.
  intros [Hok Hcap Hord Hall Hlost] Ht. unfold held in *. rewrite Ht in *.
  destruct (is_closed (queue s)) eqn:Hc.
  - destruct Hok as (H0 & Hle & Hcl). assert (front_drop f (queue s) = queue s) as Hfd.
    { unfold front_drop. by rewrite Hc. }
    split; unfold held; cbn; rewrite ?Hfd, ?Hc; try done.
    + etrans; [|exact Hord]. apply sublist_app; [done|apply keep_r].
    + rewrite Hall. solve_Permutation.
  - destruct (front_drop_open _ f Hc Hok) as (lo & Hi & Hd & _ & Hc' & Hcap').
    destruct Hok as (H0 & Hle & _).
    apply (f_equal length) in Hi as Hlen. rewrite length_app in Hlen. cbn in Hlen.
    split; unfold held; cbn; rewrite ?Hc'.
    + unfold queue_ok, queue_len in *. rewrite Hcap', Hc'. split_and!; [done| |done].
      destruct Hd as [[-> ?]|[[y ->] ?]]; cbn in Hlen; lia.
    + by rewrite Hcap'.
    + etrans; [|exact Hord]. apply sublist_app; [done|]. cbn. rewrite Hi.
      by apply sublist_inserts_r.
    + rewrite Hi, drop_app_length, Hall. cbn. 
      trans (consumed s ++ (item f :: items (state (queue s))) ++ lost s); [solve_Permutation|].
      rewrite Hi. solve_Permutation.
    + intros _ Hle'. rewrite Hi, drop_app_length, Hlost by done.
      destruct Hd as [[-> _]|[[y ->] Hfull]]; [done|]. exfalso.
      apply Permutation_length in Hall. rewrite !length_app in Hall.
      unfold queue_len in Hfull. cbn in Hall. lia.
Qed.

(** Taking the front item into the thread or out of the system. *)
Lemma inv_take c s x q (s' : Sys T) :
  sys_inv c s -> pop_front (queue s) = (Some x, q) -> held s = [] ->
  queue s' = q -> pushed s' = pushed s -> lost s' = lost s ->
  consumed s' ++ held s' = consumed s ++ [x] ->
  sys_inv c s'.
Proof.
  intros [Hok Hcap Hord Hall Hlost] Hp Hh Eq Ep El Ec.
  apply pop_front_Some in Hp as (Hi & Hc & Hcap' & _). rewrite Hh, Hi in *. cbn in Hord, Hall.
  destruct Hok as (H0 & Hle & Hcl).
  split; rewrite ?Eq, ?Ep, ?El, ?Hcap', ?Hc; try done.
  - unfold queue_ok. rewrite Hcap', Hc. unfold queue_len in *. rewrite Hi in *. cbn in Hle.
    split_and!; [done|lia|]. intros H%Hcl. done.
  - rewrite (assoc_L (++)), Ec, <-(assoc_L (++)). exact Hord.
  - rewrite (assoc_L (++)), Ec, Hall, <-(assoc_L (++)). done.
Qed.

Lemma step_inv c s s' : sys_inv c s -> step s s' -> sys_inv c s'.
Proof.
  intros Hinv Hstep. pose proof Hinv as [Hok Hcap Hord Hall Hlost].
  destruct Hstep as [s x d q Hp|s x e q Hp|s|s|s Ht|s obs x q Ht Hp|s obs f q Ht Hp|s obs f Ht
                    |s obs f Ht|s obs q Ht Hp|s obs open Ht Hw].
  - by apply inv_push.
  - unfold push in Hp. destruct (is_closed (queue s)); [|by destruct (decide _), (items _)].
    injection Hp as _ <-. by destruct Hinv; split.
  - by split.
  - destruct (close_spec (queue s)) as (Hc' & Hcap' & Hcl). destruct Hok as (H0 & Hle & Hnil).
    assert (items (state (close (queue s))) = []) as Hi.
    { destruct Hcl as [[Hc ->]|(_ & Hi & _)]; [by apply Hnil|done]. }
    split; unfold held in *; cbn; rewrite ?Hcap', ?Hi, ?Hc'; try done.
    + unfold queue_ok, queue_len. rewrite Hi, Hcap', Hc'. cbn. split_and!; [done|lia|done].
    + etrans; [|exact Hord]. do 2 (apply sublist_app; [done|]). apply sublist_nil_l.
    + rewrite Hall. solve_Permutation.
  - split; unfold held in *; cbn; rewrite ?Ht in *; done.
  - eapply (inv_take c s x q); [done|by apply try_pop_Ok| | | | |]; unfold held; cbn; rewrite ?Ht; try done.
    by rewrite (right_id_L [] (++)).
  - eapply (inv_take c s (item f) q); [done|by apply try_peek_Ok| | | | |]; unfold held; cbn; by rewrite ?Ht.
  - split; unfold held in *; cbn; rewrite ?Ht in *; try done.
    + by rewrite <-(assoc_L (++)).
    + rewrite <-(assoc_L (++)). done.
  - by apply inv_front_drop.
  - split; unfold held in *; cbn; rewrite ?Ht in *; done.
  - destruct open; [|done]. split; unfold held in *; cbn; rewrite ?Ht in *; done.
Qed.

Lemma reachable_inv c s : reachable c s -> sys_inv c s.
Proof.
  intros (s0 & H0 & Hr). apply initial_inv in H0. induction Hr as [|s0 s1 s2 Hs _ IH]; [done|].
  eauto using step_inv.
Qed.
End sys.

(** ** No lost wake-up *)
Section wakeup.
Context {T : Type}.
Implicit Types (s : Sys T) (q : Queue T).

Definition observes s : option Z :=
  match thread s with
  | Running => None
  | Draining o | Holding o _ | Waiting o => Some o
  end.

Definition u64 (z : Z) : Prop := (0 <= z < 2 ^ 64)%Z.

(** While the queue is open its generation counts the changes since the observation, and
    a waiting consumer's queue is empty unless there was one. *)
Record wake_inv s : Prop := {
  wake_changes : (0 <= changes s)%Z;
  wake_u64 : u64 (queue_generation (queue s));
  wake_count : forall o, observes s = Some o -> is_closed (queue s) = false ->
    u64 o /\ queue_generation (queue s) = ((o + changes s) mod 2 ^ 64)%Z;
  wake_empty : forall o, thread s = Waiting o -> changes s = 0%Z -> items (state (queue s)) = [];
}.

Lemma wrapping_add_u64_u64 g : u64 (wrapping_add_u64 g 1).
Proof. apply Z.mod_pos_bound. lia. Qed.

Lemma bump_count g o n :
  g = ((o + n) mod 2 ^ 64)%Z -> wrapping_add_u64 g 1 = ((o + Z.succ n) mod 2 ^ 64)%Z.
Proof. intros ->. unfold wrapping_add_u64. rewrite Zplus_mod_idemp_l. f_equal. lia. Qed.

Lemma push_generation q (x : T) r q' : push x q = (Ok r, q') ->
  is_closed q = false /\ is_closed q' = false /\
  queue_generation q' = wrapping_add_u64 (queue_generation q) 1.
Proof.
  unfold push. destruct (is_closed q) eqn:Hc; [done|].
  destruct (decide _), (items (state q)); intros [= <- <-]; by cbn.
Qed.

Lemma front_drop_generation q (f : QueueFront T) :
  queue_generation (front_drop f q) = queue_generation q /\ is_closed (front_drop f q) = is_closed q.
Proof.
  unfold front_drop. by destruct (is_closed q) eqn:Hc.
Qed.

(** A thread that only changes its own place keeps the invariant. *)
Lemma wake_inv_same s s' :
  wake_inv s -> changes s' = changes s ->
  queue_generation (queue s') = queue_generation (queue s) ->
  is_closed (queue s') = is_closed (queue s) ->
  (forall o, observes s' = Some o -> observes s = Some o) ->
  (forall o, thread s' = Waiting o -> items (state (queue s')) = []) ->
  wake_inv s'.
Proof.
  intros [H1 H2 H3 H4] Ec Eg Ecl Ho Hw. split; rewrite ?Ec, ?Eg, ?Ecl; auto.
  intros o Ht _. eauto.
Qed.

(** A change made by another thread. *)
Lemma wake_inv_bump s s' :
  wake_inv s -> changes s' = Z.succ (changes s) -> thread s' = thread s ->
  u64 (queue_generation (queue s')) ->
  (is_closed (queue s') = false -> is_closed (queue s) = false /\
     queue_generation (queue s') = wrapping_add_u64 (queue_generation (queue s)) 1) ->
  wake_inv s'.
Proof.
  intros [H1 H2 H3 H4] Ec Et Hu Hg. split; rewrite ?Ec; unfold observes in *; rewrite ?Et; [lia|done| |lia].
  intros o Ho Hc. destruct (Hg Hc) as [Hc' ->]. destruct (H3 o Ho Hc') as [? Hgen].
  split; [done|]. by apply bump_count.
Qed.

Lemma step_wake_inv s s' : wake_inv s -> step s s' -> wake_inv s'.
Proof.
  intros Hinv Hstep. pose proof Hinv as [H1 H2 H3 H4].
  destruct Hstep as [s x d q Hp|s x e q Hp|s|s|s Ht|s obs x q Ht Hp|s obs f q Ht Hp|s obs f Ht
                    |s obs f Ht|s obs q Ht Hp|s obs open Ht Hw].
  - apply push_generation in Hp as (Hc & Hc' & Hg).
    apply (wake_inv_bump s); try done. cbn. rewrite Hg. apply wrapping_add_u64_u64.
  - assert (q = queue s) as ->; [|by destruct s].
    unfold push in Hp. destruct (is_closed (queue s)); [by injection Hp|by destruct (decide _), (items _)].
  - apply (wake_inv_bump s); try done. apply wrapping_add_u64_u64.
  - destruct (close_spec (queue s)) as (Hc & _ & Hg).
    apply (wake_inv_bump s); try done; cbn; [|by rewrite Hc].
    destruct Hg as [[_ ->]|(_ & _ & ->)]; [done|apply wrapping_add_u64_u64].
  - split; cbn; [lia|done| |done]. intros o [= <-] _. split; [done|].
    rewrite Z.add_0_r. symmetry. by apply Z.mod_small.
  - apply try_pop_Ok, pop_front_Some in Hp as (_ & Hc & _ & Hg).
    apply (wake_inv_same s); try done. cbn. by rewrite Ht.
  - apply try_peek_Ok, pop_front_Some in Hp as (_ & Hc & _ & Hg).
    apply (wake_inv_same s); try done. unfold observes. cbn. by rewrite Ht.
  - apply (wake_inv_same s); try done. unfold observes. cbn. by rewrite Ht.
  - destruct (front_drop_generation (queue s) f) as [Hg Hc].
    apply (wake_inv_same s); try done. unfold observes. cbn. by rewrite Ht.
  - apply try_pop_Err in Hp as (_ & Hi & _).
    apply (wake_inv_same s); try done. unfold observes. cbn. by rewrite Ht.
  - destruct open; [|done]. apply (wake_inv_same s); try done.
Qed.

Lemma reachable_wake_inv c s : reachable c s -> wake_inv s.
Proof.
  intros (s0 & (Hq & Ht & _ & _ & _ & Hch) & Hr).
  assert (wake_inv s0) as H0.
  { unfold queue_new in Hq. case_decide; [done|]. injection Hq as Hq.
    split; unfold observes; rewrite ?Hch, ?Ht, <-?Hq; cbn; try done. }
  clear -H0 Hr. induction Hr as [|s0 s1 s2 Hs _ IH]; [done|]. eauto using step_wake_inv.
Qed.
End wakeup.

(** ** Properties *)

(** C27: The queue is a bounded FIFO that accounts for every item: whatever producers,
    notifications, closing and the consumer's reservations do in any interleaving, the queue
    never holds more than its capacity, the consumer receives items in the order they were
    pushed, every accepted item is consumed, reserved, queued or dropped exactly once, and
    nothing is dropped from an open queue that was never offered more than its capacity. *)
Theorem queue_fifo {T} (c : nat) (s : Sys T) :
  reachable c s ->
  queue_len (queue s) <= c /\
  consumed s ++ held s ++ items (state (queue s)) `sublist_of` pushed s /\
  pushed s ≡ₚ consumed s ++ held s ++ items (state (queue s)) ++ lost s /\
  (is_closed (queue s) = false -> length (pushed s) <= c -> lost s = []).
Proof.
  intros [(_ & Hlen & _) Hcap Hord Hall Hlost]%reachable_inv. rewrite Hcap in Hlen.
  by split_and!.
Qed.

Definition sys_new (c : nat) : Sys Z :=
  {| queue := {| capacity := c; state := {| items := []; closed := false; generation := 0 |} |};
     thread := Running; pushed := []; consumed := []; lost := []; changes := 0 |}.

Lemma queue_fifo_witness :
  exists s : Sys Z, consumed s = [2%Z] /\ lost s = [1%Z] /\ queue_len (queue s) <= 1.
Proof.
  assert (exists s : Sys Z, reachable 1 s /\ consumed s = [2%Z] /\ lost s = [1%Z])
    as (s & Hs & Hc & Hl).
  { eexists. split; [exists (sys_new 1); split; [by split_and!|]|].
    - eapply rtc_l; [apply (step_push _ 1%Z); reflexivity|].
      eapply rtc_l; [apply (step_push _ 2%Z); reflexivity|].
      eapply rtc_l; [apply step_observe; reflexivity|].
      eapply rtc_l; [eapply step_try_peek; reflexivity|].
      eapply rtc_l; [eapply step_front_pop; reflexivity|]. apply rtc_refl.
    - done. }
  exists s. split_and!; [done..|]. apply (queue_fifo 1 s Hs).
Defined.

(** C28: No wake-up is lost: a consumer that observed the generation, drained the queue and
    now waits for a change is blocked only while the queue is empty, as long as fewer than
    2^64 changes happened since it looked (the generation is a wrapping 64-bit counter). *)
Theorem queue_no_lost_wakeup {T} (c : nat) (s : Sys T) observed :
  reachable c s -> thread s = Waiting observed ->
  (changes s < 2 ^ 64)%Z ->
  wait_for_change observed (queue s) = None ->
  items (state (queue s)) = [].
Proof.
  intros [H1 H2 H3 H4]%reachable_wake_inv Ht Hch Hw. unfold wait_for_change in Hw.
  case_bool_decide as Hg; [|done]. destruct (is_closed (queue s)) eqn:Hc; [done|].
  apply (H4 _ Ht). destruct (H3 observed) as [Ho Hgen]; [unfold observes; by rewrite Ht|done|].
  rewrite Hg in Hgen. unfold u64 in *.
  pose proof (Z.div_mod (observed + changes s) (2 ^ 64) ltac:(lia)) as Hdm.
  rewrite <-Hgen in Hdm. assert (changes s = 2 ^ 64 * ((observed + changes s) / 2 ^ 64))%Z as He by lia.
  set (k := (_ / _)%Z) in *. assert (k = 0 \/ 1 <= k \/ k <= -1)%Z as [->|[?|?]] by lia; nia.
Qed.

Lemma queue_no_lost_wakeup_witness :
  items (state (queue ((sys_new 4) <| thread := Waiting 0%Z |>))) = [].
Proof.
  apply (queue_no_lost_wakeup 4 ((sys_new 4) <| thread := Waiting 0%Z |>) 0%Z).
  - exists (sys_new 4). split; [by split_and!|].
    eapply rtc_l; [apply step_observe; reflexivity|].
    eapply rtc_l; [eapply step_empty; reflexivity|]. apply rtc_refl.
  - reflexivity.
  - reflexivity.
  - reflexivity.
Defined.
