(* ===== verification/Worker.v ===== *)
(** * Queue workers

    Models [src/base/worker.rs]: the loops of [QueueWorker::spawn], [spawn_peek] and
    [spawn_scan_peek], the [WorkerSignal] that resumes a worker, and [request_stop]. The
    worker thread is a step function over its program counter; other threads may act between
    any two of its steps. *)

From S2P Require Import Prelude Queue.

Local Open Scope Z_scope.

(** The three loops. *)
Inductive mode := Pop | Peek (retry_timeout : Duration) | ScanPeek.

(** Where the thread is: before the first look at the stop bit, waiting in [pop] or [peek],
    holding what that returned, in [process] (with the signal's generation read before it),
    or waiting for the signal until [wake]. *)
Inductive point (T : Type) :=
| Top
| Waiting
| Holding (front : option (QueueFront T))
| Processing (front : QueueFront T) (observed : Z)
| Retrying (observed : Z) (wake : Instant)
| Exited.
Arguments Top {T}.
Arguments Waiting {T}.
Arguments Holding {T} _.
Arguments Processing {T} _ _.
Arguments Retrying {T} _ _.
Arguments Exited {T}.

(** The worker's shared objects, its local variable [retry_started], and the items given to
    [process] so far. *)
Record QueueWorker (T : Type) := {
  queue : Queue T;
  stop : bool;
  signal : Z;
  at_point : point T;
  retry_started : option Instant;
  handed : list T;
}.
Arguments queue {T} _.
Arguments stop {T} _.
Arguments signal {T} _.
Arguments at_point {T} _.
Arguments retry_started {T} _.
Arguments handed {T} _.

#[export] Instance eta_QueueWorker T : Eta (QueueWorker T) := fun w =>
  {| queue := queue w; stop := stop w; signal := signal w; at_point := at_point w;
     retry_started := retry_started w; handed := handed w |}.

Section worker.
Context {T : Type}.
Implicit Types (w : QueueWorker T).

(** *** [WorkerSignal] *)
Definition notify w : QueueWorker T := w <| signal ::= fun g => wrapping_add_u64 g 1 |>.

(** [wait] and [wait_for_change]: whether the wait ends. *)
Definition wait_ends (observed : Z) w : bool := negb (signal w =? observed).
Definition wait_for_change_ends (observed : Z) (wake now : Instant) w : bool :=
  wait_ends observed w || (wake <=? now).

(** *** [request_stop]: its three steps. *)
Definition set_stop w : QueueWorker T := w <| stop := true |>.
Definition close_queue w : QueueWorker T := w <| queue ::= close |>.
Definition request_stop (m : mode) w : QueueWorker T :=
  let w := close_queue (set_stop w) in
  match m with Peek _ => notify w | _ => w end.

(** What [process] returning [answer] leads to; [spawn]'s closure returns nothing. *)
Definition processed (m : mode) (now : Instant) (answer : bool) (front : QueueFront T) (observed : Z) w
    : QueueWorker T :=
  match m with
  | Pop => w <| at_point := Top |>
  | ScanPeek => if answer then w <| at_point := Top |>
                else w <| queue ::= front_drop front |> <| at_point := Top |>
  | Peek retry_timeout =>
      if answer then w <| at_point := Top |> <| retry_started := None |>
      else
        let started := default now (retry_started w) in
        let waited := elapsed now started in
        if retry_timeout <=? waited then w <| at_point := Top |> <| retry_started := None |>
        else w <| retry_started := Some started |> <| queue ::= front_drop front |>
               <| at_point := Retrying observed (now + (retry_timeout - waited)) |>
  end.

(** One step of the thread at [now]; [answer] is what [process] returns. [None]: the thread
    waits, or is over. *)
Definition worker_step (m : mode) (now : Instant) (answer : bool) w : option (QueueWorker T) :=
  match at_point w with
  | Top => Some (w <| at_point := if stop w then Exited else Waiting |>)
  | Waiting =>
      match m with
      | Pop =>
          '(item, q) ← pop (queue w);
          Some (w <| queue := q |> <| at_point := Holding ((fun x => {| item := x |}) <$> item) |>)
      | _ =>
          '(front, q) ← peek (queue w);
          Some (w <| queue := q |> <| at_point := if front is None then Exited else Holding front |>)
      end
  | Holding front =>
      Some (if stop w then
              match m, front with
              | Pop, _ | _, None => w <| at_point := Exited |>
              | _, Some front => w <| queue ::= front_drop front |> <| at_point := Exited |>
              end
            else match front with
                 | None => w <| at_point := Exited |>
                 | Some front => w <| at_point := Processing front (signal w) |>
                                   <| handed ::= fun l => l ++ [item front] |>
                 end)
  | Processing front observed => Some (processed m now answer front observed w)
  | Retrying observed wake =>
      if wait_for_change_ends observed wake now w then Some (w <| at_point := Top |>) else None
  | Exited => None
  end.

(** What other threads do: producers push, and anybody notifies. *)
Inductive elsewhere : QueueWorker T -> QueueWorker T -> Prop :=
| pushed w x : elsewhere w (w <| queue ::= fun q => (push x q).2 |>)
| queue_changed w : elsewhere w (w <| queue ::= notify_change |>)
| notified w : elsewhere w (notify w).

(** A run with [n] steps of the worker. *)
Inductive worker_run (m : mode) : nat -> QueueWorker T -> QueueWorker T -> Prop :=
| run_nil w : worker_run m 0 w w
| run_own n w now answer w1 w2 :
    worker_step m now answer w = Some w1 -> worker_run m n w1 w2 -> worker_run m (S n) w w2
| run_other n w w1 w2 : elsewhere w w1 -> worker_run m n w1 w2 -> worker_run m n w w2.

(** ** Lemmas *)

(** How many steps a stopped worker still makes. *)
Definition rank w : nat :=
  match at_point w with
  | Exited => 0
  | Top | Holding _ => 1
  | Waiting | Retrying _ _ => 2
  | Processing _ _ => 3
  end.

Definition stopped w : Prop := stop w = true /\ is_closed (queue w) = true.

Lemma front_drop_closed (front : QueueFront T) q : is_closed q = true -> front_drop front q = q.
Proof. unfold front_drop. by intros ->. Qed.

Lemma worker_step_stopped m now answer w w' :
  stopped w -> worker_step m now answer w = Some w' ->
  stopped w' /\ handed w' = handed w /\ (rank w' < rank w)%nat.
Proof.
  intros [Hs Hc]. unfold worker_step, rank, stopped. destruct (at_point w) as [| |f|f g|g t|]; [..|done].
  - rewrite Hs. intros [= <-]. cbn. split_and!; (done || lia).
  - assert (waits (queue w) = false) as Hw by (unfold waits; by rewrite Hc, andb_false_r).
    assert (pop (queue w) = Some (None, queue w)) as Hpop by
      (unfold pop; by rewrite Hw, Hc).
    assert (peek (queue w) = Some (None, queue w)) as Hpeek by
      (unfold peek; by rewrite Hw, Hc).
    destruct m; rewrite ?Hpop, ?Hpeek; intros [= <-]; cbn; split_and!; (done || lia).
  - rewrite Hs. intros [= <-]. destruct m, f; cbn; rewrite ?front_drop_closed by done; split_and!; (done || lia).
  - unfold processed. intros [= <-]. destruct m, answer; cbn; rewrite ?front_drop_closed by done;
      repeat case_match; cbn; rewrite ?front_drop_closed by done; split_and!; (done || lia).
  - destruct (wait_for_change_ends _ _ _ _); [|done]. intros [= <-]. cbn. split_and!; (done || lia).
Qed.

Lemma elsewhere_stopped w w' :
  stopped w -> elsewhere w w' -> stopped w' /\ handed w' = handed w /\ rank w' = rank w.
Proof.
  intros [Hs Hc] He. unfold stopped, rank. destruct He; cbn.
  - rewrite push_closed by done. done.
  - unfold notify_change. cbn. done.
  - done.
Qed.

Lemma worker_run_stopped m n w w' :
  worker_run m n w w' -> stopped w ->
  stopped w' /\ handed w' = handed w /\ (n + rank w' <= rank w)%nat.
Proof.
  induction 1 as [w|n w now answer w1 w2 Hstep _ IH|n w w1 w2 He _ IH]; intros Hs; [split_and!; done|..].
  - destruct (worker_step_stopped _ _ _ _ _ Hs Hstep) as (Hs1 & Hh & Hr).
    destruct (IH Hs1) as (? & ? & ?). split_and!; [done|congruence|lia].
  - destruct (elsewhere_stopped _ _ Hs He) as (Hs1 & Hh & Hr).
    destruct (IH Hs1) as (? & ? & ?). split_and!; [done|congruence|lia].
Qed.
End worker.

(** ** Properties *)

(** C29: A worker stops. Once the stop bit is set and the queue closed, as [request_stop] does,
    then whatever other threads do, the worker is given no further item, makes at most three
    more steps, and as long as it has not exited it can make the next one: at once, or, while
    it waits to retry, at the end of that wait at the latest. *)
Theorem worker_stops {T} (m : mode) n (w w' : QueueWorker T) :
  stop w = true -> is_closed (queue w) = true ->
  worker_run m n w w' ->
  handed w' = handed w /\ (n <= 3)%nat /\
  (at_point w' = Exited \/
   exists t, forall now answer, t <= now -> is_Some (worker_step m now answer w')).
Proof.
  intros Hs Hc Hrun. destruct (worker_run_stopped m n w w' Hrun) as ((Hs' & Hc') & Hh & Hr); [done|].
  split; [done|]. split.
  { assert (rank w <= 3)%nat by (unfold rank; destruct (at_point w); lia). lia. }
  unfold worker_step. destruct (at_point w') as [| |f|f g|g t|]; 
    [right; exists 0|right; exists 0|right; exists 0|right; exists 0|right; exists t|by left].
  - intros. by eexists.
  - intros now answer _. unfold pop, peek, waits. rewrite Hc', andb_false_r. destruct m; by eexists.
  - intros. by eexists.
  - intros. by eexists.
  - intros now answer Ht. unfold wait_for_change_ends.
    rewrite (proj2 (Z.leb_le t now)), orb_true_r by done. by eexists.
Qed.

Definition example_worker : QueueWorker Z :=
  {| queue := {| capacity := 4; state := {| items := [5; 6]; closed := false; generation := 0 |} |};
     stop := false; signal := 0; at_point := Processing {| item := 4 |} 0; retry_started := None;
     handed := [4] |}.

Lemma worker_stops_witness :
  let w := request_stop (Peek (from_secs 2)) example_worker in
  handed w = [4] /\ worker_run (Peek (from_secs 2)) 1 w (processed (Peek (from_secs 2)) 7 false {| item := 4 |} 0 w) /\
  handed (processed (Peek (from_secs 2)) 7 false {| item := 4 |} 0 w) = handed w.
Proof.
  cbv zeta. split; [reflexivity|].
  assert (worker_run (Peek (from_secs 2)) 1 (request_stop (Peek (from_secs 2)) example_worker)
    (processed (Peek (from_secs 2)) 7 false {| item := 4 |} 0 (request_stop (Peek (from_secs 2)) example_worker))) as Hrun.
  { apply (run_own _ 0 _ 7 false (processed (Peek (from_secs 2)) 7 false {| item := 4 |} 0
      (request_stop (Peek (from_secs 2)) example_worker))); [reflexivity|apply run_nil]. }
  split; [exact Hrun|].
  apply (worker_stops (Peek (from_secs 2)) 1 _ _); [reflexivity|reflexivity|exact Hrun].
Defined.
