(* ===== verification/DtlsApi.v ===== *)
(** * The DTLS session interface

    What the server threads use of [Dtls] ([src/lib.rs]): the operations of a session, its
    outgoing side (the session's bounded queue of encrypted datagrams and the writer's
    signal, which the send callback feeds), and the one law they rely on. [Dtls.v]
    implements the interface. *)

From S2P Require Import Prelude Net Queue.

(** [DtlsIoResult]; [Complete] of a read carries the bytes that are in the caller's buffer. *)
Inductive DtlsIoResult (A : Type) := Complete (a : A) | WantRead | WantWrite.
Arguments Complete {A} _.
Arguments WantRead {A}.
Arguments WantWrite {A}.

Record EncryptedDatagram := { dg_bytes : list Z; enqueued_at : Instant }.

(** What a session sends through: its queue and the generation of the writer's
    [WorkerSignal]. *)
Record Outgoing := { tx : Queue EncryptedDatagram; signal : Z }.

#[export] Instance eta_Outgoing : Eta Outgoing := fun o => {| tx := tx o; signal := signal o |}.

(** ** Panics *)

(** How a guarded operation ends: it returns, or it unwinds with a payload that is a text
    or something else. *)
Inductive outcome (T : Type) := Returned (r : T) | Panicked (payload : option rstr).
Arguments Returned {T} _.
Arguments Panicked {T} _.

Definition panic_gate {T} (label : rstr) (operation : outcome (io T)) : io T :=
  match operation with
  | Returned result => result
  | Panicked payload =>
      Err (Custom Other (label ++ str " panicked: " ++ from_option id (str "unknown panic") payload))
  end.

(** ** The interface *)

(** An operation reads the clock, may send, and changes the session. *)
Abbreviation dtls_op D A := (Instant -> D -> Outgoing -> A * D * Outgoing).

(** The queue changed by pushes only. *)
Inductive pushes {T} : Queue T -> Queue T -> Prop :=
| pushes_refl q : pushes q q
| pushes_step q x q' : pushes (push x q).2 q' -> pushes q q'.

Class DtlsSession (D : Type) := {
  (** [read_status] into a buffer of [size] bytes. *)
  read_status : Z -> dtls_op D (outcome (io (DtlsIoResult (list Z))));
  write_status : list Z -> dtls_op D (outcome (io (DtlsIoResult Z)));
  inject : list Z -> dtls_op D (io bool);
  handshake : dtls_op D (outcome (io bool));
  handle_timeout : dtls_op D (io unit);
  current_timeout : D -> Duration;
  fingerprint : D -> outcome (io rstr) * D;
  peer_certificate_has_san_ip : Ipv4Addr -> D -> outcome (io bool) * D;
  peer_certificate_allows_source_ip : Ipv4Addr -> D -> outcome (io bool) * D;
  disable_callback_receive : D -> D;
  (** The stateless acceptor: it sends from the shared socket, not through a queue. *)
  set_incoming_peer : list Z -> Z -> list Z -> D -> io unit * D;
  accept_stateless : D -> outcome (io bool) * D;
  use_queued_send : D -> io unit * D;
}.

(** Every operation sends by pushing to the session's queue. *)
Definition sends_only {D A} (op : dtls_op D A) : Prop :=
  forall now d o, pushes (tx o) (tx (op now d o).2).

Class DtlsLaws (D : Type) `{DtlsSession D} := {
  read_status_sends size : sends_only (read_status size);
  write_status_sends packet : sends_only (write_status packet);
  inject_sends packet : sends_only (inject packet);
  handshake_sends : sends_only handshake;
  handle_timeout_sends : sends_only handle_timeout;
}.

Section pushes.
Context {T : Type}.
Implicit Types q : Queue T.

Lemma push_ok q x : queue_ok q -> queue_ok (push x q).2.
Proof.
  intros Hok. destruct (is_closed q) eqn:Hc; [by rewrite push_closed|].
  destruct (push_open q x Hc Hok) as (d & _ & Hi & Hd & _ & Hc' & Hcap).
  destruct Hok as (H0 & Hl & _). unfold queue_ok. rewrite Hcap, Hc'. split_and!; [done| |done].
  apply (f_equal length) in Hi. rewrite !length_app in Hi. unfold queue_len in *.
  destruct Hd as [[-> ?]|(y & -> & ?)]; cbn in Hi; lia.
Qed.

Lemma push_frame q x :
  is_closed (push x q).2 = is_closed q /\ capacity (push x q).2 = capacity q.
Proof.
  unfold push. destruct (is_closed q) eqn:Hc; [done|].
  by destruct (decide _), (items (state q)).
Qed.

Lemma pushes_ok q q' : pushes q q' -> queue_ok q -> queue_ok q'.
Proof. induction 1; auto using push_ok. Qed.

Lemma pushes_frame q q' : pushes q q' -> is_closed q' = is_closed q /\ capacity q' = capacity q.
Proof.
  induction 1 as [|q x q' _ [IH1 IH2]]; [done|]. destruct (push_frame q x). split; congruence.
Qed.

Lemma pushes_trans q1 q2 q3 : pushes q1 q2 -> pushes q2 q3 -> pushes q1 q3.
Proof. induction 1; eauto using pushes. Qed.

Lemma push_elem q x y : y ∈ items (state (push x q).2) -> y = x \/ y ∈ items (state q).
Proof.
  unfold push. destruct (is_closed q); [by right|].
  destruct (decide _); [destruct (items (state q)) eqn:Hi|]; cbn; set_solver.
Qed.
End pushes.

#[export] Hint Constructors pushes : vpn.
#[export] Hint Resolve push_ok pushes_ok : vpn.
