(* ===== verification/Session.v ===== *)
(** * Server sessions and what the server threads share

    Models [src/server/session.rs], the constants of [src/server.rs] and the shared objects
    the threads signal each other through. A handler is a function from the session (or
    the session list) and the [World] to their new values; the clock, and what the kernel
    answers to TUN writes, are inputs in the [World]. *)

From S2P Require Import Prelude Text Net Queue DtlsApi.

Local Open Scope Z_scope.

Abbreviation Packet := (list Z) (only parsing).

Definition SESSION_IDLE_TIMEOUT : Duration := from_secs 300.
Definition HANDSHAKE_TIMEOUT : Duration := from_secs 10.
Definition MAX_PENDING_PER_IP : nat := 2.
Definition SERVER_QUEUE_CAPACITY : nat := 4096.
Definition SESSION_TX_QUEUE_CAPACITY : nat := 512.
Definition SESSION_PACKET_TTL : Duration := from_secs 2.

Record UdpDatagram := { dg_peer : list Z; dg_peer_size : Z; dg_packet : Packet }.

(** One turn of the TUN write loop as the environment decides it: whether the server still
    runs, what the write returns, and what the poll after a [WouldBlock] returns. *)
Record TunAttempt := { tun_running : bool; tun_write : io Z; tun_poll : io unit }.

(** What has passed the server so far, for the statements of theorems; no code reads it. *)
Record Past := {
  plain_read : list (Ipv4Addr * bool * Packet);  (** decrypted from a session: its address, and
                                                     whether it was authenticated *)
  plain_sent : list (Ipv4Addr * Packet);         (** written whole into a session of this address *)
  tun_routed : list Packet;                      (** taken by the encrypt worker *)
  tun_results : list (Packet * bool);            (** given to [write_tun_packet], and whether the TUN
                                                     device took it whole *)
}.

#[export] Instance eta_Past : Eta Past := fun p =>
  {| plain_read := plain_read p; plain_sent := plain_sent p; tun_routed := tun_routed p;
     tun_results := tun_results p |}.

Definition nothing_past : Past :=
  {| plain_read := []; plain_sent := []; tun_routed := []; tun_results := [] |}.

(** The objects the server threads share besides the session list, and the environment. *)
Record World := {
  now : Instant;                      (** what [Instant::now] reads in this step *)
  progress : Z;                       (** generation of [dtls_progress] *)
  retry_requested : bool;
  tun_read_queue : Queue Packet;
  control_wakes : nat;                (** wake-ups sent to the control thread *)
  tun_attempts : list TunAttempt;     (** the answers to the coming TUN writes *)
  tun_written : list Packet;          (** packets given to [Tun::write_packet] *)
  syslog : list rstr;                 (** messages given to [syslog_connection_event] *)
  reload_acks : nat;                  (** reloads acknowledged to the control thread *)
  past : Past;
}.

#[export] Instance eta_World : Eta World := fun w =>
  {| now := now w; progress := progress w; retry_requested := retry_requested w;
     tun_read_queue := tun_read_queue w; control_wakes := control_wakes w;
     tun_attempts := tun_attempts w; tun_written := tun_written w; syslog := syslog w;
     reload_acks := reload_acks w; past := past w |}.

(** [WorkerSignal::notify], [ControlWake::notify], [Queue::notify_change], and the atomic
    store. *)
Definition notify_progress (w : World) : World := w <| progress ::= fun g => wrapping_add_u64 g 1 |>.
Definition notify_control (w : World) : World := w <| control_wakes ::= S |>.
Definition notify_tun_queue (w : World) : World := w <| tun_read_queue ::= notify_change |>.
Definition request_retry (w : World) : World := w <| retry_requested := true |>.
Definition syslog_connection_event (msg : rstr) (w : World) : World :=
  w <| syslog ::= fun l => l ++ [msg] |>.

(** History: what a thread has just done. *)
Definition note_read (a : Ipv4Addr) (by_client : bool) (packet : Packet) (w : World) : World :=
  w <| past ::= fun p => p <| plain_read ::= fun l => l ++ [(a, by_client, packet)] |> |>.
Definition note_sent (a : Ipv4Addr) (packet : Packet) (w : World) : World :=
  w <| past ::= fun p => p <| plain_sent ::= fun l => l ++ [(a, packet)] |> |>.
Definition note_routed (packet : Packet) (w : World) : World :=
  w <| past ::= fun p => p <| tun_routed ::= fun l => l ++ [packet] |> |>.
Definition note_tun_write (packet : Packet) (whole : bool) (w : World) : World :=
  w <| past ::= fun p => p <| tun_results ::= fun l => l ++ [(packet, whole)] |> |>.

Record Session (D : Type) := {
  dtls : D;
  peer : list Z;
  peer_size : Z;
  address : Ipv4Addr;
  session_fingerprint : option rstr;
  established : bool;
  authenticated : bool;
  login_attempted : bool;
  established_at : option Instant;
  last_activity : Instant;
  dtls_deadline : option Instant;
  drain_pending : bool;
  pending_inject : list Packet;
  bytes_tx : Z;
  bytes_rx : Z;
  packets_tx : Z;
  packets_rx : Z;
  disconnect_reason : rstr;
  enc_tx_queue : Queue EncryptedDatagram;
  raw_tx_queue : Queue (Packet * Instant);
}.
Arguments dtls {D} _.
Arguments peer {D} _.
Arguments peer_size {D} _.
Arguments address {D} _.
Arguments session_fingerprint {D} _.
Arguments established {D} _.
Arguments authenticated {D} _.
Arguments login_attempted {D} _.
Arguments established_at {D} _.
Arguments last_activity {D} _.
Arguments dtls_deadline {D} _.
Arguments drain_pending {D} _.
Arguments pending_inject {D} _.
Arguments bytes_tx {D} _.
Arguments bytes_rx {D} _.
Arguments packets_tx {D} _.
Arguments packets_rx {D} _.
Arguments disconnect_reason {D} _.
Arguments enc_tx_queue {D} _.
Arguments raw_tx_queue {D} _.

#[export] Instance eta_Session D : Eta (Session D) := fun s =>
  {| dtls := dtls s; peer := peer s; peer_size := peer_size s; address := address s;
     session_fingerprint := session_fingerprint s; established := established s;
     authenticated := authenticated s; login_attempted := login_attempted s;
     established_at := established_at s; last_activity := last_activity s;
     dtls_deadline := dtls_deadline s; drain_pending := drain_pending s;
     pending_inject := pending_inject s; bytes_tx := bytes_tx s; bytes_rx := bytes_rx s;
     packets_tx := packets_tx s; packets_rx := packets_rx s;
     disconnect_reason := disconnect_reason s; enc_tx_queue := enc_tx_queue s;
     raw_tx_queue := raw_tx_queue s |}.

Section session.
Context {D : Type}.
Implicit Types (s : Session D) (w : World).

(** [session.dtls.with(..)]: the operation sends through the session's queue, which the
    send callback shares, and signals [dtls_progress]. *)
Definition with_dtls {A} (op : dtls_op D A) s w : A * Session D * World :=
  let '(a, d, o) := op (now w) (dtls s) {| tx := enc_tx_queue s; signal := progress w |} in
  (a, s <| dtls := d |> <| enc_tx_queue := tx o |>, w <| progress := signal o |>).

(** [session.dtls.with(..)] for an operation that does not send. *)
Definition with_dtls_local {A} (op : D -> A * D) s : A * Session D :=
  let '(a, d) := op (dtls s) in (a, s <| dtls := d |>).

Definition disconnect_message s w : rstr :=
  str "client disconnected vpn_ip=" ++ display_ipv4 (address s)
  ++ str " fingerprint=" ++ from_option id (str "unknown") (session_fingerprint s)
  ++ str " duration_seconds="
  ++ display_uint (from_option (fun started => as_secs (elapsed (now w) started)) 0 (established_at s))
  ++ str " bytes_tx=" ++ display_uint (bytes_tx s) ++ str " bytes_rx=" ++ display_uint (bytes_rx s)
  ++ str " packets_tx=" ++ display_uint (packets_tx s)
  ++ str " packets_rx=" ++ display_uint (packets_rx s)
  ++ str " reason=" ++ disconnect_reason s.

(** [Drop for Session]: the queues another thread may still hold are closed. *)
Definition session_drop s w : Session D * World :=
  let s := s <| enc_tx_queue ::= close |> <| raw_tx_queue ::= close |> in
  let w := notify_control w in
  (s, if authenticated s then syslog_connection_event (disconnect_message s w) w else w).

(** [list.retain_mut(f)] with a closure that keeps state [st] between calls: [f] may
    change a session and tells whether it stays; the others are dropped. *)
Fixpoint retain_mut {St} (f : St -> Session D -> St * Session D * bool) (st : St)
    (l : list (Session D)) w : list (Session D) * World :=
  match l with
  | [] => ([], w)
  | s :: l =>
      let '(st, s, keep) := f st s in
      if keep then let '(l, w) := retain_mut f st l w in (s :: l, w)
      else retain_mut f st l (session_drop s w).2
  end.

(** [sessions.swap_remove(index)], the removed session being dropped. *)
Definition remove_session (index : nat) (l : list (Session D)) w : list (Session D) * World :=
  (swap_remove index l,
   match l !! index with Some s => (session_drop s w).2 | None => w end).

(** [queue_session_plain] ([src/server/encrypt.rs]) *)
Definition queue_session_plain s (packet : Packet) w : Session D :=
  s <| raw_tx_queue ::= fun q => (push (packet, now w) q).2 |>.
End session.

(** ** A plaintext session

    An instance of the interface for evaluating the model on concrete inputs: datagrams are
    the application data, the handshake succeeds at once and the peer's certificate has a
    given fingerprint. *)
Record PlainDtls := { inbox : list Packet; plain_fingerprint : rstr; plain_source_ok : bool }.

#[export] Instance eta_PlainDtls : Eta PlainDtls := fun d =>
  {| inbox := inbox d; plain_fingerprint := plain_fingerprint d; plain_source_ok := plain_source_ok d |}.

Definition plain_send (packet : Packet) (now : Instant) (o : Outgoing) : Outgoing :=
  {| tx := (push {| dg_bytes := packet; enqueued_at := now |} (tx o)).2;
     signal := wrapping_add_u64 (signal o) 1 |}.

#[export] Instance plain_session : DtlsSession PlainDtls := {
  read_status size := fun now d o =>
    match inbox d with
    | [] => (Returned (Ok WantRead), d, o)
    | p :: rest => (Returned (Ok (Complete (take (Z.to_nat size) p))), d <| inbox := rest |>, o)
    end;
  write_status packet := fun now d o =>
    (Returned (Ok (Complete (Z.of_nat (length packet)))), d, plain_send packet now o);
  inject packet := fun now d o => (Ok true, d <| inbox ::= fun l => l ++ [packet] |>, o);
  handshake := fun now d o => (Returned (Ok true), d, o);
  handle_timeout := fun now d o => (Ok tt, d, o);
  current_timeout := fun _ => from_secs 1;
  fingerprint := fun d => (Returned (Ok (plain_fingerprint d)), d);
  peer_certificate_has_san_ip := fun _ d => (Returned (Ok true), d);
  peer_certificate_allows_source_ip := fun _ d => (Returned (Ok (plain_source_ok d)), d);
  disable_callback_receive := fun d => d;
  set_incoming_peer := fun _ _ packet d => (Ok tt, d <| inbox := [packet] |>);
  accept_stateless := fun d => (Returned (Ok true), d);
  use_queued_send := fun d => (Ok tt, d);
}.

#[export] Instance plain_laws : DtlsLaws PlainDtls.
Proof.
  split; intros; intros now d o; cbn; auto with vpn.
  - destruct (inbox d); auto with vpn.
  - eapply pushes_step, pushes_refl.
Qed.

Definition queue_of {T} (capacity : nat) (l : list T) : Queue T :=
  {| capacity := capacity; state := {| items := l; closed := false; generation := 0 |} |}.

(** A session as [server::decrypt] creates it, for the peer at [ip]:[port]. *)
Definition example_session (ip port : Z) (fp : rstr) : Session PlainDtls := {|
  dtls := {| inbox := []; plain_fingerprint := fp; plain_source_ok := true |};
  peer := socket_addr_storage_v4 ip port; peer_size := 16; address := UNSPECIFIED;
  session_fingerprint := None; established := false; authenticated := false;
  login_attempted := false; established_at := None; last_activity := 0; dtls_deadline := None;
  drain_pending := false; pending_inject := []; bytes_tx := 0; bytes_rx := 0; packets_tx := 0;
  packets_rx := 0; disconnect_reason := str "server_shutdown";
  enc_tx_queue := queue_of SESSION_TX_QUEUE_CAPACITY [];
  raw_tx_queue := queue_of SESSION_TX_QUEUE_CAPACITY [] |}.

Definition example_world : World := {|
  now := from_secs 1000; progress := 0; retry_requested := false;
  tun_read_queue := queue_of SERVER_QUEUE_CAPACITY []; control_wakes := 0;
  tun_attempts := []; tun_written := []; syslog := []; reload_acks := 0; past := nothing_past |}.

(** The same session with its client connected at [a]. *)
Definition connected (a : Ipv4Addr) (s : Session PlainDtls) : Session PlainDtls :=
  s <| address := a |> <| session_fingerprint := Some (plain_fingerprint (dtls s)) |>
    <| established := true |> <| authenticated := true |> <| established_at := Some 0 |>.

(** ** Lemmas *)
Section lemmas.
Context {D : Type} `{DtlsLaws D}.
Implicit Types (s : Session D) (w : World).

(** A DTLS operation changes the session's DTLS object and pushes to its queue, and
    advances the writer's signal; nothing else. *)
Lemma with_dtls_frame {A} (op : dtls_op D A) s w a s' w' :
  with_dtls op s w = (a, s', w') -> sends_only op ->
  exists d q g, s' = s <| dtls := d |> <| enc_tx_queue := q |> /\
    pushes (enc_tx_queue s) q /\ w' = w <| progress := g |> /\
    a = (op (now w) (dtls s) {| tx := enc_tx_queue s; signal := progress w |}).1.1.
Proof.
  unfold with_dtls. intros Hw Hs. specialize (Hs (now w) (dtls s) {| tx := enc_tx_queue s; signal := progress w |}).
  destruct (op _ _ _) as [[a0 d] o]. injection Hw as <- <- <-. by exists d, (tx o), (signal o).
Qed.

Lemma with_dtls_local_frame {A} (op : D -> A * D) s a s' :
  with_dtls_local op s = (a, s') -> a = (op (dtls s)).1 /\ s' = s <| dtls := (op (dtls s)).2 |>.
Proof. unfold with_dtls_local. destruct (op (dtls s)). by intros [= <- <-]. Qed.

Lemma panic_gate_Ok {T} label (o : outcome (io T)) v :
  panic_gate label o = Ok v <-> o = Returned (Ok v).
Proof. destruct o as [[?|?]|]; cbn; naive_solver. Qed.

(** [retain_mut] keeps, in order, the sessions its closure answers for. *)
Lemma retain_mut_elem {St} (f : St -> Session D -> St * Session D * bool) st l w s' :
  s' ∈ (retain_mut f st l w).1 ->
  exists st0 s st1, s ∈ l /\ f st0 s = (st1, s', true).
Proof.
  revert st w. induction l as [|s l IH]; intros st w; cbn; [by intros ?%elem_of_nil|].
  destruct (f st s) as [[st1 s1] keep] eqn:Hf. destruct keep.
  - specialize (IH st1 w). destruct (retain_mut f st1 l w). cbn in *.
    intros [->|Hin]%elem_of_cons; [exists st, s, st1; split; [left|done]|].
    destruct (IH Hin) as (st0 & s0 & st2 & ? & ?). exists st0, s0, st2. split; [by right|done].
  - intros Hin. destruct (IH st1 _ Hin) as (st0 & s0 & st2 & ? & ?).
    exists st0, s0, st2. split; [by right|done].
Qed.

(** A closure that keeps the sessions it keeps as they are. *)
Lemma retain_mut_sublist {St} (f : St -> Session D -> St * Session D * bool) st l w :
  (forall st0 s st1 s', f st0 s = (st1, s', true) -> s' = s) ->
  (retain_mut f st l w).1 `sublist_of` l.
Proof.
  intros Hf. revert st w. induction l as [|s l IH]; intros st w; cbn; [done|].
  destruct (f st s) as [[st1 s1] keep] eqn:Hs. destruct keep.
  - specialize (IH st1 w). destruct (retain_mut f st1 l w). cbn in *.
    rewrite (Hf _ _ _ _ Hs). by constructor.
  - by constructor.
Qed.

(** A closure without state that keeps the sessions it keeps as they are. *)
Lemma retain_mut_stateless (f : unit -> Session D -> unit * Session D * bool)
    (keep : Session D -> bool) l w :
  (forall s, exists s', f tt s = (tt, s', keep s) /\ (keep s = true -> s' = s)) ->
  (retain_mut f tt l w).1 = retain keep l.
Proof.
  intros Hf. unfold retain. revert w. induction l as [|s l IH]; intros w; [done|].
  cbn [retain_mut]. rewrite filter_cons. destruct (Hf s) as (s' & -> & Hs).
  destruct (keep s).
  - rewrite decide_True by done. specialize (IH w). destruct (retain_mut _ _ l w). cbn in *.
    by rewrite Hs, IH.
  - rewrite decide_False by auto. apply IH.
Qed.

Lemma session_drop_now s w : now (session_drop s w).2 = now w /\
  tun_written (session_drop s w).2 = tun_written w.
Proof. unfold session_drop. cbn. by destruct (authenticated s). Qed.

Lemma retain_mut_now {St} (f : St -> Session D -> St * Session D * bool) st l w :
  now (retain_mut f st l w).2 = now w /\ tun_written (retain_mut f st l w).2 = tun_written w.
Proof.
  revert st w. induction l as [|s l IH]; intros st w; [done|]. cbn [retain_mut].
  destruct (f st s) as [[st1 s1] keep]. destruct keep.
  - specialize (IH st1 w). by destruct (retain_mut f st1 l w).
  - destruct (IH st1 (session_drop s1 w).2) as [-> ->]. apply session_drop_now.
Qed.

Lemma remove_session_now i (l : list (Session D)) w :
  now (remove_session i l w).2 = now w /\ tun_written (remove_session i l w).2 = tun_written w.
Proof. unfold remove_session. cbn. destruct (l !! i); [apply session_drop_now|done]. Qed.
End lemmas.
