(* ===== verification/TunRead.v ===== *)
(** * The server's TUN reader

    Models [src/server/tun_read.rs]: one turn of the reader thread, and the echo reply it
    gives on macOS, where the kernel does not answer for the server's own address. *)

From S2P Require Import Prelude Net Queue DtlsApi Session.

Local Open Scope Z_scope.

(** ** The Internet checksum *)

(** A chunk as a big-endian word; a missing second byte counts as 0. *)
Definition chunk_word (hi lo : Z) : Z := Z.lor (Z.shiftl hi 8) lo.

(** The sum over [data.chunks(2)], an overflowing [u32]. *)
Fixpoint chunk_sum (sum : Z) (data : list Z) : Z :=
  match data with
  | [] => sum
  | [b] => (sum + chunk_word b 0) mod 2 ^ 32
  | b :: c :: data => chunk_sum ((sum + chunk_word b c) mod 2 ^ 32) data
  end.

(** The carry loop: [None] is a loop that has not ended. *)
Fixpoint fold_carries (fuel : nat) (sum : Z) : option Z :=
  if Z.shiftr sum 16 =? 0 then Some sum
  else match fuel with
       | O => None
       | S fuel => fold_carries fuel (Z.land sum 0xffff + Z.shiftr sum 16)
       end.

(** [!(sum as u16)]; two turns of the loop are enough for any [u32]. *)
Definition internet_checksum (data : list Z) : option Z :=
  (fun sum => Z.land (Z.lnot (sum mod 2 ^ 16)) 0xffff) <$> fold_carries 2 (chunk_sum 0 data).

(** [reply[i..i + 2].copy_from_slice(&value.to_be_bytes())] *)
Definition put_u16 (i : nat) (value : Z) (packet : list Z) : list Z :=
  <[i := value / 256]> (<[S i := value mod 256]> packet).

(** The result is [None] for a packet that is none of the server's own echo requests. *)
Definition local_echo_reply (packet : list Z) (address : Ipv4Addr) : option (list Z) :=
  if (Z.of_nat (length packet) <? 28) || negb (Z.shiftr (byte_at packet 0) 4 =? 4)
     || negb (byte_at packet 9 =? 1) then None
  else
    let header_len := Z.to_nat (Z.land (byte_at packet 0) 0x0f * 4) in
    let total_len := Z.to_nat (u16_from_be_bytes (byte_at packet 2) (byte_at packet 3)) in
    if bool_decide (header_len < 20 \/ total_len < header_len + 8 \/ length packet < total_len)%nat
    then None
    else if negb (Z.land (u16_from_be_bytes (byte_at packet 6) (byte_at packet 7)) 0x3fff =? 0)
    then None
    else
      let self_address := octets address in
      if negb (bool_decide (take 4 (drop 12 packet) = self_address))
         || negb (bool_decide (take 4 (drop 16 packet) = self_address))
         || negb (byte_at packet header_len =? 8) || negb (byte_at packet (S header_len) =? 0)
      then None
      else
        let reply := take total_len packet in
        let reply := <[header_len := 0]> reply in
        let reply := put_u16 (header_len + 2) 0 reply in
        checksum ← internet_checksum (drop header_len reply);
        Some (put_u16 (header_len + 2) checksum reply).

(** ** The reader's loop *)

Definition POLLIN : Z := 1.
Definition POLLERR : Z := 8.
Definition POLLHUP : Z := 16.
Definition POLLNVAL : Z := 32.

(** What the thread shares with the others: the queue of the encrypt thread, the flag that
    keeps the server running, the drop counter, and what it sent on the error channel. On
    macOS it also writes replies to the device. *)
Record TunReader := {
  tun_reader_queue : Queue Packet;
  tun_reader_active : bool;
  tun_reader_drops : Z;
  tun_reader_errors : list io_error;
  tun_reader_replies : list Packet;
}.

#[export] Instance eta_TunReader : Eta TunReader := fun r =>
  {| tun_reader_queue := tun_reader_queue r; tun_reader_active := tun_reader_active r;
     tun_reader_drops := tun_reader_drops r; tun_reader_errors := tun_reader_errors r;
     tun_reader_replies := tun_reader_replies r |}.

(** The end of the thread with an error. *)
Definition reader_fails (error : io_error) (r : TunReader) : TunReader :=
  r <| tun_reader_active := false |> <| tun_reader_errors ::= fun l => l ++ [error] |>
    <| tun_reader_queue ::= close |>.

(** One turn of the loop: whether it goes on, and the new state. [polled] is the answer of
    [poll], [read] of [read_packet]; [macos] is the server's address on that system. *)
Definition tun_read_turn (macos : option Ipv4Addr) (polled : io Z) (read : io Packet) (r : TunReader)
    : bool * TunReader :=
  match polled with
  | Err error => (false, reader_fails error r)
  | Ok revents =>
      if negb (Z.land revents POLLNVAL =? 0) || negb (Z.land revents (Z.lor POLLERR POLLHUP) =? 0)
      then (false, reader_fails (new_error BrokenPipe "TUN device reported a permanent poll error") r)
      else if Z.land revents POLLIN =? 0 then (true, r)
      else
        match read with
        | Ok [] => (true, r)
        | Ok packet =>
            match macos ≫= local_echo_reply packet with
            | Some reply => (true, r <| tun_reader_replies ::= fun l => l ++ [reply] |>)
            | None =>
                match push packet (tun_reader_queue r) with
                | (Ok dropped, queue) =>
                    let r := r <| tun_reader_queue := queue |> in
                    (true, if dropped is Some _ then r <| tun_reader_drops ::= fun n => wrapping_add_u64 n 1 |> else r)
                | (Err _, queue) => (false, r <| tun_reader_queue := queue |>)
                end
            end
        | Err error =>
            match classify_tun_error error with
            | Retry | DropPacket => (true, r)
            | Fatal => (false, reader_fails error r)
            end
        end
  end.

(** The loop over the environment's answers; [StopOnDrop] clears the flag when it ends. *)
Fixpoint tun_reader_run (macos : option Ipv4Addr) (answers : list (io Z * io Packet)) (r : TunReader)
    : bool * TunReader :=
  match answers with
  | [] => (true, r)
  | (polled, read) :: answers =>
      if negb (tun_reader_active r) then (false, r)
      else match tun_read_turn macos polled read r with
           | (true, r) => tun_reader_run macos answers r
           | (false, r) => (false, r <| tun_reader_active := false |>)
           end
  end.

(** ** Lemmas *)

(** The sum of the 16-bit words. *)
Fixpoint words (data : list Z) : Z :=
  match data with
  | [] => 0
  | [b] => b * 256
  | b :: c :: data => b * 256 + c + words data
  end.

Lemma chunk_word_add hi lo : is_byte lo -> chunk_word hi lo = hi * 256 + lo.
Proof.
  unfold is_byte, chunk_word. intros Hl. rewrite Z.shiftl_mul_pow2 by done.
  symmetry. apply Z.add_nocarry_lor.
  rewrite <-(Z.mod_small lo (2 ^ 8)), <-Z.land_ones, Z.land_comm, <-Z.land_assoc,
    (Z.land_comm (Z.ones 8)), Z.land_ones, Z.mod_mul, Z.land_0_r by lia. done.
Qed.

Lemma two_step_list_ind (P : list Z -> Prop) :
  P [] -> (forall b, P [b]) -> (forall b c l, P l -> P (b :: c :: l)) -> forall l, P l.
Proof. intros H0 H1 H2. fix IH 1. intros [|b [|c l]]; [done|apply H1|apply H2, IH]. Qed.

Lemma words_bound data : Forall is_byte data -> 0 <= words data <= 32768 * (Z.of_nat (length data) + 1).
Proof.
  induction data as [|b|b c data IH] using two_step_list_ind; intros Hb; cbn [words length].
  - lia.
  - apply Forall_cons in Hb as [Hb _]. unfold is_byte in Hb. lia.
  - apply Forall_cons in Hb as [Hb [Hc Hd]%Forall_cons]. specialize (IH Hd). unfold is_byte in *. lia.
Qed.

(** No sum over a packet of at most 65535 bytes overflows. *)
Lemma chunk_sum_words sum data :
  Forall is_byte data -> 0 <= sum -> sum + words data < 2 ^ 32 ->
  chunk_sum sum data = sum + words data.
Proof.
  revert sum. induction data as [|b|b c data IH] using two_step_list_ind; intros sum Hb Hs Hl;
    cbn [words chunk_sum] in *; [lia| |].
  - apply Forall_cons in Hb as [Hb _]. rewrite chunk_word_add by done.
    rewrite Z.add_0_r, Z.mod_small; unfold is_byte in Hb; lia.
  - apply Forall_cons in Hb as [Hb [Hc Hd]%Forall_cons]. rewrite chunk_word_add by done.
    pose proof (words_bound data Hd). unfold is_byte in Hb, Hc.
    rewrite Z.mod_small by lia. rewrite IH by (done || lia). lia.
Qed.

(** Two turns of the carry loop are enough, and keep the sum modulo 65535. *)
Lemma fold_carries_spec sum :
  0 <= sum < 2 ^ 32 ->
  exists r, fold_carries 2 sum = Some r /\ 0 <= r <= 65535 /\ r mod 65535 = sum mod 65535 /\
    (0 < sum <-> 0 < r).
Proof.
  assert (forall n, 0 <= n -> Z.shiftr n 16 = n / 65536 /\ Z.land n 0xffff = n mod 65536) as Hn.
  { intros n ?. split; [by rewrite Z.shiftr_div_pow2|]. by apply (Z.land_ones n 16). }
  assert (forall n, 0 <= n -> Z.land n 0xffff + Z.shiftr n 16 = n - 65535 * (n / 65536)) as Hstep.
  { intros n Hn0. destruct (Hn n Hn0) as [-> ->]. pose proof (Z.div_mod n 65536). lia. }
  assert (forall n, 0 <= n -> (Z.shiftr n 16 =? 0) = bool_decide (n <= 65535)) as Hdone.
  { intros n Hn0. rewrite (proj1 (Hn n Hn0)). apply Bool.eq_true_iff_eq. rewrite bool_decide_eq_true, Z.eqb_eq.
    split; intros; Z.div_mod_to_equations; lia. }
  intros [H0 H32]. unfold fold_carries.
  rewrite Hdone by done. case_bool_decide; [exists sum; split_and!; (done || lia)|].
  rewrite Hstep by done. set (n := sum - _).
  assert (0 < n <= 131070 /\ n mod 65535 = sum mod 65535) as [Hb Hm].
  { unfold n. split; [Z.div_mod_to_equations; lia|].
    replace (sum - 65535 * (sum / 65536)) with (sum + (- (sum / 65536)) * 65535) by lia.
    by rewrite Z.mod_add. }
  rewrite Hdone by lia. case_bool_decide; [exists n; split_and!; (done || lia)|].
  rewrite Hstep by lia. set (n2 := n - _).
  assert (0 < n2 <= 65535 /\ n2 mod 65535 = n mod 65535) as [Hb2 Hm2].
  { unfold n2. split; [Z.div_mod_to_equations; lia|].
    replace (n - 65535 * (n / 65536)) with (n + (- (n / 65536)) * 65535) by lia.
    by rewrite Z.mod_add. }
  rewrite Hdone by lia. rewrite bool_decide_eq_true_2 by lia. exists n2. split_and!; (congruence || lia).
Qed.

Lemma internet_checksum_spec data :
  Forall is_byte data -> words data < 2 ^ 32 ->
  exists r, internet_checksum data = Some (65535 - r) /\ 0 <= r <= 65535 /\
    r mod 65535 = words data mod 65535 /\ (0 < words data <-> 0 < r).
Proof.
  intros Hb Hw. pose proof (words_bound data Hb).
  destruct (fold_carries_spec (words data)) as (r & Hf & Hr & Hm & Hp); [lia|].
  exists r. split; [|split_and!; (lia || done || exact Hp)].
  unfold internet_checksum. rewrite chunk_sum_words, Z.add_0_l, Hf by (done || lia). cbn [fmap option_fmap option_map].
  rewrite (Z.mod_small r) by lia. f_equal. change 0xffff with (Z.ones 16). rewrite Z.land_ones by done.
  unfold Z.lnot, Z.pred. replace (- r + -1) with (65535 - r + (-1) * 2 ^ 16) by lia.
  rewrite Z.mod_add, Z.mod_small by lia. done.
Qed.

(** A message whose checksum field, its second word, holds the checksum it has with the
    field cleared: its own checksum is zero, which is what a receiver verifies. *)
Lemma checksum_verifies a b rest :
  is_byte a -> is_byte b -> Forall is_byte rest -> Z.of_nat (length rest) <= 65535 ->
  exists ck, internet_checksum (a :: b :: 0 :: 0 :: rest) = Some ck /\ 0 <= ck <= 65535 /\
    internet_checksum (a :: b :: ck / 256 :: ck mod 256 :: rest) = Some 0.
Proof.
  intros Ha Hb Hr Hl. pose proof (words_bound rest Hr) as Hw.
  assert (is_byte 0) as H0 by done. assert (0 <= a <= 255 /\ 0 <= b <= 255) as [? ?] by done.
  destruct (internet_checksum_spec (a :: b :: 0 :: 0 :: rest)) as (r & Hc & Hr1 & Hm & Hp);
    [by repeat apply Forall_cons_2|cbn [words]; lia|].
  exists (65535 - r). split; [done|]. split; [lia|]. set (ck := 65535 - r).
  assert (is_byte (ck / 256) /\ is_byte (ck mod 256) /\ ck / 256 * 256 + ck mod 256 = ck) as (Hk1 & Hk2 & Hk).
  { unfold is_byte, ck. split_and!; try (Z.div_mod_to_equations; lia). }
  destruct (internet_checksum_spec (a :: b :: ck / 256 :: ck mod 256 :: rest)) as (r2 & Hc2 & Hr2 & Hm2 & Hp2);
    [by repeat apply Forall_cons_2|cbn [words]; lia|].
  rewrite Hc2. f_equal. cbn [words] in *.
  assert ((a * 256 + b + (ck / 256 * 256 + ck mod 256 + words rest)) mod 65535 = 0) as Hz.
  { rewrite Hk. unfold ck.
    replace (a * 256 + b + (65535 - r + words rest)) with
      ((a * 256 + b + (0 * 256 + 0 + words rest)) - r + 1 * 65535) by lia.
    rewrite Z.mod_add, Zminus_mod, <-Hm, Z.sub_diag by done. done. }
  rewrite Hz in Hm2. Z.div_mod_to_equations. lia.
Qed.

Lemma put_u16_app hd x y a b rest v :
  put_u16 (length hd + 2) v (hd ++ x :: y :: a :: b :: rest) = hd ++ x :: y :: v / 256 :: v mod 256 :: rest.
Proof.
  unfold put_u16. replace (S (length hd + 2)) with (length hd + 3)%nat by lia.
  by rewrite !insert_app_r.
Qed.

Lemma insert_app_here (hd : list Z) x l v : <[length hd := v]> (hd ++ x :: l) = hd ++ v :: l.
Proof. induction hd as [|y hd IH]; [done|]. cbn. f_equal. exact IH. Qed.

(** ** Properties *)

Definition header_len (packet : list Z) : nat := Z.to_nat (Z.land (byte_at packet 0) 0x0f * 4).
Definition total_len (packet : list Z) : nat :=
  Z.to_nat (u16_from_be_bytes (byte_at packet 2) (byte_at packet 3)).

(** An unfragmented IPv4 packet that holds an ICMP echo request from [address] to itself. *)
Definition echo_request (packet : list Z) (address : Ipv4Addr) : Prop :=
  (28 <= length packet /\ 20 <= header_len packet /\
   header_len packet + 8 <= total_len packet <= length packet)%nat /\
  Z.shiftr (byte_at packet 0) 4 = 4 /\ byte_at packet 9 = 1 /\
  Z.land (u16_from_be_bytes (byte_at packet 6) (byte_at packet 7)) 0x3fff = 0 /\
  take 4 (drop 12 packet) = octets address /\ take 4 (drop 16 packet) = octets address /\
  byte_at packet (header_len packet) = 8 /\ byte_at packet (S (header_len packet)) = 0.

#[export] Instance echo_request_dec packet address : Decision (echo_request packet address).
Proof. unfold echo_request. apply _. Defined.

Lemma local_echo_reply_guards packet address :
  local_echo_reply packet address =
    if decide (echo_request packet address) then
      let reply := put_u16 (header_len packet + 2) 0 (<[header_len packet := 0]> (take (total_len packet) packet)) in
      checksum ← internet_checksum (drop (header_len packet) reply);
      Some (put_u16 (header_len packet + 2) checksum reply)
    else None.
Proof.
  unfold local_echo_reply, echo_request. cbv zeta. fold (header_len packet) (total_len packet).
  destruct (decide _) as [(Hl & H1 & H2 & H3 & H4 & H5 & H6 & H7)|Hn].
  - rewrite H1, H2, H3, H4, H5, H6, H7. rewrite (bool_decide_eq_true_2 (octets address = _)) by done.
    rewrite bool_decide_eq_false_2 by lia.
    destruct (Z.ltb_spec (Z.of_nat (length packet)) 28); [lia|]. done.
  - repeat (case_match; [done|]). exfalso. apply Hn. clear Hn.
    rewrite !orb_false_iff, !negb_false_iff, ?bool_decide_eq_true, ?bool_decide_eq_false, ?Z.eqb_eq, ?Z.ltb_ge in *.
    naive_solver lia.
Qed.

Lemma byte_at_drop packet h : byte_at packet h = byte_at (drop h packet) 0.
Proof. unfold byte_at. rewrite !nth_lookup, lookup_drop. by rewrite Nat.add_0_r. Qed.

(** The parts of a request. *)
Lemma echo_request_parts packet address :
  echo_request packet address ->
  exists header a b rest tail,
    packet = (header ++ 8 :: 0 :: a :: b :: rest) ++ tail /\
    take (total_len packet) packet = header ++ 8 :: 0 :: a :: b :: rest /\
    length header = header_len packet /\ (length rest <= total_len packet)%nat.
Proof.
  intros ((_ & _ & Hle & Ht) & _ & _ & _ & _ & _ & H8 & H0).
  set (t := total_len packet) in *. set (h := header_len packet) in *.
  assert (length (drop h (take t packet)) = (t - h)%nat) as Hlen by (rewrite length_drop, length_take; lia).
  assert (forall i, (h + i < t)%nat -> drop h (take t packet) !! i = packet !! (h + i)%nat) as Hat.
  { intros i Hi. by rewrite lookup_drop, lookup_take_lt. }
  destruct (drop h (take t packet)) as [|x [|y [|a [|b rest]]]] eqn:Hd; cbn in Hlen; try lia.
  assert (x = 8 /\ y = 0) as [-> ->].
  { unfold byte_at in H8, H0. rewrite nth_lookup in H8, H0. split.
    - specialize (Hat 0%nat ltac:(lia)). rewrite Nat.add_0_r in Hat. rewrite <-Hat in H8. done.
    - specialize (Hat 1%nat ltac:(lia)). rewrite Nat.add_1_r in Hat. rewrite <-Hat in H0. done. }
  exists (take h (take t packet)), a, b, rest, (drop t packet). rewrite <-Hd, take_drop, take_drop.
  split_and!; [done|done| |lia]. rewrite !length_take. lia.
Qed.

(** The echo reply. The server answers exactly the unfragmented echo requests it sends to
    its own address; the reply is the request's datagram with the type changed to "echo
    reply" and a new checksum, which a receiver verifies as zero; identifier, sequence number
    and payload are untouched, and bytes after the datagram are cut off. *)
Theorem local_echo_reply_valid packet address :
  Forall is_byte packet ->
  (is_Some (local_echo_reply packet address) <-> echo_request packet address) /\
  forall reply, local_echo_reply packet address = Some reply ->
  exists header a b rest tail ck,
    packet = (header ++ 8 :: 0 :: a :: b :: rest) ++ tail /\
    reply = header ++ 0 :: 0 :: ck / 256 :: ck mod 256 :: rest /\ 0 <= ck <= 65535 /\
    length header = header_len packet /\ length reply = total_len packet /\
    internet_checksum (drop (header_len packet) reply) = Some 0.
Proof.
  intros Hb. rewrite local_echo_reply_guards. destruct (decide _) as [Hr|Hr].
  2:{ split; [|done]. split; [by intros [? ?]|done]. }
  destruct (echo_request_parts _ _ Hr) as (header & a & b & rest & tail & Hp & Ht & Hlen & Hle).
  rewrite Ht, <-Hlen. cbn zeta.
  rewrite insert_app_here, put_u16_app, (drop_app_length header).
  assert (Forall is_byte rest) as Hrest.
  { rewrite Hp in Hb. apply Forall_app in Hb as [Hb _]. apply Forall_app in Hb as [_ Hb].
    by repeat apply Forall_cons in Hb as [_ Hb]. }
  assert (Z.of_nat (total_len packet) <= 65535) as Htot.
  { unfold total_len, u16_from_be_bytes, byte_at. rewrite !nth_lookup.
    assert (forall i, 0 <= default 0 (packet !! i) <= 255) as Hd.
    { intros i. destruct (packet !! i) eqn:Hi; cbn; [|lia]. by eapply Forall_lookup_1 in Hb. }
    pose proof (Hd 2%nat). pose proof (Hd 3%nat). lia. }
  destruct (checksum_verifies 0 0 rest) as (ck & Hck & Hck' & Hv); [done..|lia|].
  change (0 / 256) with 0. change (0 mod 256) with 0. rewrite Hck. cbn [mbind option_bind].
  rewrite put_u16_app. split; [split; [done|eauto]|].
  intros reply [= <-]. exists header, a, b, rest, tail, ck. split_and!; try done; try lia.
  - assert (length (header ++ 8 :: 0 :: a :: b :: rest) = total_len packet) as <-.
    { rewrite <-Ht, length_take. destruct Hr as ((? & ? & ?) & _). lia. }
    by rewrite !length_app.
  - by rewrite drop_app_length.
Qed.

Definition echo_example : list Z :=
  [69; 0; 0; 32; 0; 1; 0; 0; 64; 1; 0; 0; 10; 8; 1; 1; 10; 8; 1; 1;
   8; 0; 229; 2; 18; 52; 0; 1; 1; 2; 3; 4] ++ [9].

Lemma local_echo_reply_valid_witness :
  is_Some (local_echo_reply echo_example (ipv4_new 10 8 1 1)) /\
  exists header a b rest tail ck,
    echo_example = (header ++ 8 :: 0 :: a :: b :: rest) ++ tail /\
    local_echo_reply echo_example (ipv4_new 10 8 1 1) =
      Some (header ++ 0 :: 0 :: ck / 256 :: ck mod 256 :: rest).
Proof.
  destruct (local_echo_reply_valid echo_example (ipv4_new 10 8 1 1)) as [Hr Hv].
  - repeat (apply Forall_cons_2; [split; discriminate|]). apply Forall_nil_2.
  - assert (is_Some (local_echo_reply echo_example (ipv4_new 10 8 1 1))) as Hs
      by (apply Hr; apply (bool_decide_unpack _); vm_compute; exact I).
    split; [exact Hs|]. destruct Hs as [reply Hs].
    destruct (Hv reply Hs) as (header & a & b & rest & tail & ck & H1 & H2 & _).
    exists header, a, b, rest, tail, ck. split; [exact H1|]. rewrite Hs, H2. reflexivity.
Defined.

(** A packet the reader takes from the device. *)
Definition packet_read (answer : io Z * io Packet) : bool :=
  match answer with
  | (Ok revents, Ok (_ :: _)) => negb (Z.land revents POLLIN =? 0)
  | _ => false
  end.

Definition reader_ok (r : TunReader) : Prop :=
  queue_ok (tun_reader_queue r) /\ is_closed (tun_reader_queue r) = false /\
  tun_reader_active r = true /\ 0 <= tun_reader_drops r < 2 ^ 64.

(** Where the packets read went between two states: the queue, the drops, the replies. *)
Definition accounts (n : Z) (r r' : TunReader) : Prop :=
  exists dropped,
    n = Z.of_nat (queue_len (tun_reader_queue r')) - Z.of_nat (queue_len (tun_reader_queue r)) + dropped
        + (Z.of_nat (length (tun_reader_replies r')) - Z.of_nat (length (tun_reader_replies r))) /\
    tun_reader_drops r' = (tun_reader_drops r + dropped) mod 2 ^ 64.

Lemma no_drop x : 0 <= x < 2 ^ 64 -> x = (x + 0) mod 2 ^ 64.
Proof. intros Hx. by rewrite Z.add_0_r, Z.mod_small. Qed.

Lemma accounts_refl r : reader_ok r -> accounts 0 r r.
Proof. intros (_ & _ & _ & Hd). exists 0. split; [lia|by apply no_drop]. Qed.

Lemma accounts_trans n1 n2 r1 r2 r3 : accounts n1 r1 r2 -> accounts n2 r2 r3 -> accounts (n1 + n2) r1 r3.
Proof.
  intros (d1 & -> & E1) (d2 & -> & E2). exists (d1 + d2). split; [lia|].
  rewrite E2, E1, Z.add_mod_idemp_l, Z.add_assoc by done. done.
Qed.

Definition reader_failed (r r' : TunReader) : Prop :=
  exists error, tun_reader_errors r' = tun_reader_errors r ++ [error] /\
    is_closed (tun_reader_queue r') = true /\ tun_reader_active r' = false.

Lemma reader_fails_failed e r : reader_failed r (reader_fails e r).
Proof. exists e. unfold reader_fails. cbn. split_and!; [done| |done]. by destruct (close_spec (tun_reader_queue r)). Qed.

Lemma tun_read_turn_spec macos polled read r alive r' :
  reader_ok r -> tun_read_turn macos polled read r = (alive, r') ->
  if alive then
    reader_ok r' /\ tun_reader_errors r' = tun_reader_errors r /\
    accounts (if packet_read (polled, read) then 1 else 0) r r'
  else reader_failed r r'.
Proof.
  intros Hok. unfold tun_read_turn, packet_read.
  destruct polled as [revents|e]; [|intros [= <- <-]; apply reader_fails_failed].
  destruct (_ || _); [intros [= <- <-]; apply reader_fails_failed|].
  destruct (_ =? 0).
  { intros [= <- <-]. destruct read as [[|]|]; by eauto using accounts_refl. }
  destruct read as [[|b packet]|e].
  - intros [= <- <-]. eauto using accounts_refl.
  - set (p := b :: packet). cbn [negb].
    destruct (macos ≫= local_echo_reply p) as [reply|].
    + intros [= <- <-]. split; [exact Hok|]. split; [done|]. exists 0.
      destruct Hok as (_ & _ & _ & Hd). cbn. rewrite length_app. cbn. split; [lia|by apply no_drop].
    + destruct Hok as (Hq & Hc & Ha & Hd).
      pose proof (push_ok (tun_reader_queue r) p Hq) as Hq'.
      destruct (push_open _ p Hc Hq) as (d & Hp & Hi & Hd' & _ & Hc' & _).
      rewrite Hp. apply (f_equal length) in Hi. rewrite !length_app in Hi.
      destruct Hd' as [[-> Hlt]|(y & -> & Heq)]; cbn [head option_map length] in *; intros [= <- <-].
      * split; [done|]. split; [done|]. exists 0. cbn.
        unfold queue_len in *. split; [lia|by apply no_drop].
      * split; [|split; [done|]].
        { split; [done|]. split; [done|]. split; [done|]. by apply Z.mod_pos_bound. }
        exists 1. cbn. unfold queue_len in *. split; [lia|done].
  - destruct (classify_tun_error e); intros [= <- <-]; [by eauto using accounts_refl..|apply reader_fails_failed].
Qed.

(** The reader accounts for every packet. While it runs, each packet it takes from the
    device is in the encrypt queue, was answered locally, or pushed an older one out of a full
    queue and is counted as a drop; it never waits for room. When it ends, it has reported one
    error, closed the queue its consumer waits on, and stopped the server. *)
Theorem tun_reader_accounts macos answers r alive r' :
  reader_ok r -> tun_reader_run macos answers r = (alive, r') ->
  if alive then
    tun_reader_errors r' = tun_reader_errors r /\
    accounts (Z.of_nat (count packet_read answers)) r r'
  else reader_failed r r'.
Proof.
  revert r. induction answers as [|[polled read] answers IH]; intros r Hok; cbn [tun_reader_run].
  - intros [= <- <-]. split; [done|]. by apply accounts_refl.
  - destruct Hok as (Hq & Hc & Ha & Hd) eqn:E. rewrite Ha. cbn [negb]. clear E.
    destruct (tun_read_turn macos polled read r) as [alive1 r1] eqn:Ht.
    pose proof (tun_read_turn_spec _ _ _ _ _ _ (conj Hq (conj Hc (conj Ha Hd))) Ht) as Hs.
    destruct alive1.
    + destruct Hs as (Hok1 & He & Hacc). intros Hrun. specialize (IH r1 Hok1 Hrun).
      destruct alive.
      * destruct IH as [He' Hacc']. split; [congruence|].
        unfold count in *. rewrite filter_cons.
        pose proof (accounts_trans _ _ _ _ _ Hacc Hacc') as Hall.
        destruct (packet_read (polled, read)).
        -- rewrite decide_True by done. cbn [length]. by rewrite Nat2Z.inj_succ, Z.add_comm in *.
        -- rewrite decide_False by auto. done.
      * destruct IH as (e & H1 & H2 & H3). exists e. split_and!; [|done..]. congruence.
    + intros [= <- <-]. destruct Hs as (e & H1 & H2 & H3). by exists e.
Qed.

Definition reader_example : TunReader :=
  {| tun_reader_queue := queue_of 2 []; tun_reader_active := true; tun_reader_drops := 0;
     tun_reader_errors := []; tun_reader_replies := [] |}.

Lemma tun_reader_accounts_witness :
  accounts 3 reader_example
    (tun_reader_run None [(Ok 1, Ok [1]); (Ok 0, Ok [9]); (Ok 1, Ok [2]); (Ok 1, Ok [3])] reader_example).2.
Proof.
  apply (tun_reader_accounts None [(Ok 1, Ok [1]); (Ok 0, Ok [9]); (Ok 1, Ok [2]); (Ok 1, Ok [3])]
    reader_example true).
  - unfold reader_ok. split; [|split; [reflexivity|split; [reflexivity|split; [discriminate|reflexivity]]]].
    split; [cbn; lia|]. split; [cbn; lia|discriminate].
  - reflexivity.
Defined.
