(* ===== verification/UdpRead.v ===== *)
(** * The UDP readers

    Models [src/server/udp_read.rs] with [receive_peer] and [poll] of [src/server/socket.rs],
    and the readiness tests [wait_for_udp] of [src/client/udp_read.rs] with [poll] of
    [src/windows/socket.rs]. Other threads change the flags and the queue between any two
    calls, so loads of the flags and pushes are calls that the system answers. *)

From S2P Require Import Prelude Text System Session.

Local Open Scope Z_scope.

Definition POLLIN : Z := 1.
Definition WINDOWS_POLLIN : Z := 0x0300.

Section reader.
Context (system : history -> call -> answer).

(** ** Sockets *)
Definition receive_peer (fd : Z) : eff history UdpDatagram :=
  a ← checked system (sys_recvfrom fd 2048);
  mret {| dg_peer := from a; dg_peer_size := from_len a; dg_packet := take (Z.to_nat (ret a)) (out a) |}.

(** [poll]: the returned events of each descriptor; they stay zero when a signal interrupts. *)
Definition poll (fds : list (Z * Z)) (timeout : Duration) : eff history (list Z) :=
  r ← outcome_of (checked system (sys_poll fds (Z.min (as_millis timeout) i32_max)));
  match r with
  | Ok a => mret (out a)
  | Err error => if decide (kind error = Interrupted) then mret (repeat 0 (length fds)) else fail_with error
  end.

Definition readable (mask : Z) (revents : list Z) : bool :=
  from_option (fun events => negb (Z.land events mask =? 0)) false (head revents).

(** ** The server's reader *)
Definition load (c : call) : eff history bool :=
  a ← perform system c; mret (negb (ret a =? 0)).

(** [queue.push(datagram)]: whether an older datagram was dropped, or nothing when the queue
    is closed. *)
Definition push_rx (dg : UdpDatagram) : eff history (option bool) :=
  a ← perform system (push_datagram (dg_peer dg) (dg_peer_size dg) (dg_packet dg));
  mret (if ret a <? 0 then None else Some (negb (ret a =? 0))).

(** How the inner loop ends: [break], [return Ok(())], or the fuel is used up. *)
Inductive receive_end := Drained | QueueClosed | Receiving.

Fixpoint receive_loop (fuel : nat) (fd : Z) : eff history receive_end :=
  match fuel with
  | O => mret Receiving
  | S fuel =>
      r ← outcome_of (receive_peer fd);
      match r with
      | Ok dg =>
          pushed ← push_rx dg;
          match pushed with
          | Some dropped =>
              _ ← (if dropped : bool then ignore (perform system count_drop) else mret tt);
              _ ← ignore (perform system notify_worker);
              receive_loop fuel fd
          | None => mret QueueClosed
          end
      | Err error =>
          if decide (kind error = WouldBlock \/ kind error = Interrupted) then mret Drained
          else fail_with error
      end
  end.

(** The condition of the outer loop. *)
Definition keep_reading : eff history bool :=
  running ← load load_running;
  if running : bool then load load_active else mret false.

(** [run]; [false] when the fuel is used up. *)
Fixpoint udp_read_run (fuel : nat) (fd : Z) : eff history bool :=
  match fuel with
  | O => mret false
  | S fuel' =>
      continue ← keep_reading;
      if continue : bool then
        revents ← poll [(fd, POLLIN)] (from_millis 100);
        if readable POLLIN revents then
          read ← receive_loop fuel fd;
          match read with
          | Drained => udp_read_run fuel' fd
          | QueueClosed => mret true
          | Receiving => mret false
          end
        else udp_read_run fuel' fd
      else mret true
  end.

(** ** The client's readiness test *)
Definition wait_for_udp (fd : Z) (timeout : Duration) : eff history bool :=
  r ← outcome_of (checked system (sys_poll [(fd, POLLIN)] (Z.min (as_millis timeout) i32_max)));
  match r with
  | Err error => if decide (kind error = Interrupted) then mret true else fail_with error
  | Ok a => mret (readable POLLIN (out a))
  end.

(** [poll] of [windows/socket.rs] on one descriptor: error events fail it. *)
Definition windows_poll (fds : list (Z * Z)) (timeout : Duration) : eff history (list Z) :=
  a ← checked system (sys_poll fds (Z.min (as_millis timeout) i32_max));
  if existsb (fun revents => negb (Z.land revents 7 =? 0)) (out a)
  then fail_with (new_error BrokenPipe "UDP socket reported a poll error")
  else mret (out a).

Definition instant_now : eff history Instant := a ← perform system clock_now; mret (ret a).

(** The loop of [wait_for_udp] on Windows; [None] when the fuel is used up. *)
Fixpoint windows_wait_loop (fuel : nat) (fd : Z) (deadline : Instant) : eff history (option bool) :=
  match fuel with
  | O => mret None
  | S fuel =>
      running ← load load_running;
      if running : bool then
        t ← instant_now;
        revents ← windows_poll [(fd, WINDOWS_POLLIN)]
                    (Z.min (saturating_duration_since deadline t) (from_millis 100));
        if readable WINDOWS_POLLIN revents then mret (Some true)
        else
          t ← instant_now;
          if deadline <=? t then mret (Some false) else windows_wait_loop fuel fd deadline
      else mret (Some false)
  end.

Definition windows_wait_for_udp (fuel : nat) (fd : Z) (timeout : Duration) : eff history (option bool) :=
  t ← instant_now;
  windows_wait_loop fuel fd (t + timeout).
End reader.

(** ** What the reader promises *)

(** Where the reader is between two calls. *)
Inductive reader_state :=
| Idle | Pushing (dg : UdpDatagram) | Counting | Notifying
| Stopped | Closed | Failed (error : io_error).

(** Each received datagram is pushed next, unchanged; a push that dropped an older datagram is
    counted, and one that was accepted is announced, before anything else happens; a cleared
    flag, a closed queue and an unexpected error are each the end. *)
Definition reader_step (fd : Z) (st : reader_state) (c : call) (a : answer) : option reader_state :=
  match st, c with
  | Idle, (load_running | load_active) => Some (if ret a =? 0 then Stopped else Idle)
  | Idle, sys_poll _ _ =>
      Some (if (ret a <? 0) && bool_decide (kind (Os (errno a)) <> Interrupted) then Failed (Os (errno a)) else Idle)
  | Idle, sys_recvfrom fd' _ =>
      if decide (fd' = fd) then
        Some (if ret a <? 0 then
                (if decide (kind (Os (errno a)) = WouldBlock \/ kind (Os (errno a)) = Interrupted) then Idle
                 else Failed (Os (errno a)))
              else Pushing {| dg_peer := from a; dg_peer_size := from_len a; dg_packet := take (Z.to_nat (ret a)) (out a) |})
      else None
  | Pushing dg, push_datagram p n packet =>
      if decide (p = dg_peer dg /\ n = dg_peer_size dg /\ packet = dg_packet dg) then
        Some (if ret a <? 0 then Closed else if ret a =? 0 then Notifying else Counting)
      else None
  | Counting, count_drop => Some Notifying
  | Notifying, notify_worker => Some Idle
  | _, _ => None
  end.

(** The datagrams the socket gave, and those given to the queue. *)
Definition received_of (ca : call * answer) : option UdpDatagram :=
  match ca with
  | (sys_recvfrom _ _, a) =>
      if ret a <? 0 then None
      else Some {| dg_peer := from a; dg_peer_size := from_len a; dg_packet := take (Z.to_nat (ret a)) (out a) |}
  | _ => None
  end.
Definition pushed_of (ca : call * answer) : option UdpDatagram :=
  match ca with
  | (push_datagram p n packet, _) => Some {| dg_peer := p; dg_peer_size := n; dg_packet := packet |}
  | _ => None
  end.
Definition in_hand (st : reader_state) : list UdpDatagram := match st with Pushing dg => [dg] | _ => [] end.

Lemma reader_step_in_hand fd st c a st' :
  reader_step fd st c a = Some st' ->
  in_hand st ++ option_list (received_of (c, a)) = option_list (pushed_of (c, a)) ++ in_hand st'.
Proof.
  destruct st, c; cbn; try discriminate; try case_decide; intros [= <-]; cbn; try done;
    repeat case_match; try done; destruct dg; naive_solver.
Qed.

(** Nothing is lost, repeated or reordered on the way to the queue. *)
Lemma reader_in_order fd st calls st' :
  follow (reader_step fd) st calls = Some st' ->
  in_hand st ++ omap received_of calls = omap pushed_of calls ++ in_hand st'.
Proof.
  revert st. induction calls as [|[c a] calls IH]; intros st; cbn [follow].
  { intros [= <-]. by rewrite app_nil_r. }
  intros (st1 & E1 & E2)%bind_Some. apply IH in E2. apply reader_step_in_hand in E1.
  assert (forall (f : call * answer -> option UdpDatagram) x l, omap f (x :: l) = option_list (f x) ++ omap f l) as Ho
    by (intros f x l; cbn; by destruct (f x)).
  rewrite !Ho, app_assoc, E1, <-app_assoc, E2. by rewrite app_assoc.
Qed.

Section reader_proofs.
Context (system : history -> call -> answer) (fd : Z).
Abbreviation keeps := (keeps (reader_step fd)).

Lemma load_keeps c :
  c ∈ [load_running; load_active] ->
  keeps Idle (load system c) (fun r st => exists b, r = Ok b /\ st = if b : bool then Idle else Stopped).
Proof.
  intros Hc. eapply keeps_bind; [apply (keeps_perform _ _ _ _ (fun r st => exists a, r = Ok a /\ st = if ret a =? 0 then Stopped else Idle))| |].
  - intros a. eexists. split; [|eauto]. by set_unfold in Hc; destruct Hc as [->|[->|[]]].
  - by intros error st (a & ? & _).
  - intros a st (a' & [= <-] & ->). apply keeps_ret. eexists. split; [done|]. by destruct (ret a =? 0).
Qed.

Lemma poll_keeps fds timeout :
  keeps Idle (poll system fds timeout) (fun r st => st = match r with Ok _ => Idle | Err error => Failed error end).
Proof.
  eapply (keeps_bind _ _ _ _ (fun r st => exists r', r = Ok r' /\ st = match r' with
    Err error => if decide (kind error = Interrupted) then Idle else Failed error | Ok _ => Idle end)).
  - eapply (keeps_outcome _ _ _ (fun r' st => st = match r' with
      Err error => if decide (kind error = Interrupted) then Idle else Failed error | Ok _ => Idle end)); [|eauto].
    apply keeps_checked. intros a. eexists. split; [done|]. destruct (ret a <? 0); [|done]. cbn [andb].
    case_bool_decide; case_decide; done.
  - by intros error st (? & ? & _).
  - intros r st (r' & [= <-] & ->). destruct r as [a|error]; [by apply keeps_ret|].
    case_decide; [by apply keeps_ret|by apply keeps_of_io].
Qed.

Lemma receive_keeps :
  keeps Idle (outcome_of (receive_peer system fd)) (fun r st => exists r', r = Ok r' /\ st = match r' with
    | Ok dg => Pushing dg
    | Err error => if decide (kind error = WouldBlock \/ kind error = Interrupted) then Idle else Failed error
    end).
Proof.
  eapply (keeps_outcome _ _ _ (fun r' st => st = match r' with
    | Ok dg => Pushing dg
    | Err error => if decide (kind error = WouldBlock \/ kind error = Interrupted) then Idle else Failed error
    end)); [|eauto].
  eapply (keeps_bind _ _ _ _ (fun r st => st = match r with
    | Ok a => Pushing {| dg_peer := from a; dg_peer_size := from_len a; dg_packet := take (Z.to_nat (ret a)) (out a) |}
    | Err error => if decide (kind error = WouldBlock \/ kind error = Interrupted) then Idle else Failed error
    end)); [|done|by intros a st ->; apply keeps_ret].
  apply keeps_checked. intros a. cbn [reader_step]. rewrite decide_True by done. eexists. split; [done|].
  by destruct (ret a <? 0).
Qed.

Lemma push_keeps dg :
  keeps (Pushing dg) (push_rx system dg) (fun r st => exists o, r = Ok o /\
    st = match o with None => Closed | Some dropped => if dropped : bool then Counting else Notifying end).
Proof.
  eapply keeps_bind; [apply (keeps_perform _ _ _ _ (fun r st => exists a, r = Ok a /\
    st = if ret a <? 0 then Closed else if ret a =? 0 then Notifying else Counting))| |].
  - intros a. eexists. split; [|eauto]. cbn. by rewrite decide_True.
  - by intros error st (a & ? & _).
  - intros a st (a' & [= <-] & ->). apply keeps_ret. eexists. split; [done|].
    destruct (ret a <? 0); [done|]. by destruct (ret a =? 0).
Qed.

Definition after_receive (r : io receive_end) (st : reader_state) : Prop :=
  match r with
  | Ok QueueClosed => st = Closed
  | Ok _ => st = Idle
  | Err error => st = Failed error
  end.

Lemma count_keeps (dropped : bool) :
  keeps (if dropped then Counting else Notifying)
    (if dropped then ignore (perform system count_drop) else mret tt) (fun r st => r = Ok tt /\ st = Notifying).
Proof.
  destruct dropped; [|by apply keeps_ret]. eapply (keeps_ignore _ _ _ (fun _ st => st = Notifying)); [|done].
  apply keeps_perform. intros a. by eexists.
Qed.

Lemma notify_keeps : keeps Notifying (ignore (perform system notify_worker)) (fun r st => r = Ok tt /\ st = Idle).
Proof.
  eapply (keeps_ignore _ _ _ (fun _ st => st = Idle)); [|done]. apply keeps_perform. intros a. by eexists.
Qed.

Lemma receive_loop_keeps fuel : keeps Idle (receive_loop system fuel fd) after_receive.
Proof.
  induction fuel as [|fuel IH]; [by apply keeps_ret|]. cbn [receive_loop].
  eapply keeps_bind; [apply receive_keeps|by intros error st (? & ? & _)|].
  intros r st (r' & [= <-] & ->). destruct r as [dg|error].
  - eapply keeps_bind; [apply push_keeps|by intros error st (? & ? & _)|].
    intros o st (o' & [= <-] & ->). destruct o as [dropped|]; [|by apply keeps_ret].
    eapply keeps_bind; [apply count_keeps|by intros ? ? [? _]|]. intros [] st [_ ->].
    eapply keeps_bind; [apply notify_keeps|by intros ? ? [? _]|]. intros [] st [_ ->]. apply IH.
  - case_decide; [by apply keeps_ret|by apply keeps_of_io].
Qed.

Definition after_run (r : io bool) (st : reader_state) : Prop :=
  match r with
  | Ok true => st = Stopped \/ st = Closed
  | Ok false => st = Idle
  | Err error => st = Failed error
  end.

Lemma udp_read_run_keeps fuel : keeps Idle (udp_read_run system fuel fd) after_run.
Proof.
  induction fuel as [|fuel IH]; [by apply keeps_ret|]. cbn [udp_read_run].
  eapply (keeps_bind _ _ _ _ (fun r st => exists b : bool, r = Ok b /\ st = if b then Idle else Stopped)).
  { eapply keeps_bind; [apply load_keeps; by left|by intros error st (? & ? & _)|].
    intros [] st (b & [= <-] & ->); [apply load_keeps; by right; left|]. apply keeps_ret. by exists false. }
  { by intros error st (? & ? & _). }
  intros [] st (b & [= <-] & ->); [|by apply keeps_ret; left].
  eapply keeps_bind; [apply poll_keeps|done|]. intros revents st ->.
  destruct (readable POLLIN revents); [|apply IH].
  eapply keeps_bind; [apply receive_loop_keeps|done|].
  intros [| |] st Hst; cbn in Hst; subst st; [apply IH|by apply keeps_ret; right|by apply keeps_ret].
Qed.
End reader_proofs.

(** C23: The reader loses nothing on its own: every datagram the socket gave is pushed, once, whole
    and in the order of arrival, each replaced datagram is counted and each accepted one
    announced to the worker; the thread ends without an error exactly when it saw a flag
    cleared or the queue closed, and with the error of the failed call otherwise. *)
Theorem udp_reader_accounts system fd fuel h :
  exists r calls st, udp_read_run system fuel fd h = (r, h ++ calls) /\
    follow (reader_step fd) Idle calls = Some st /\
    match r with
    | Ok true => st = Stopped \/ st = Closed
    | Ok false => st = Idle
    | Err error => st = Failed error
    end /\
    omap received_of calls = omap pushed_of calls.
Proof.
  destruct (udp_read_run system fuel fd h) as [r h'] eqn:E.
  destruct (udp_read_run_keeps _ _ _ _ _ _ E) as (calls & st & -> & Hf & Hr). exists r, calls, st.
  split_and!; [done..|]. apply reader_in_order in Hf. cbn in Hf. rewrite Hf.
  destruct r as [[|]|error]; cbn in Hr; [destruct Hr as [->| ->]|subst st|subst st]; by rewrite app_nil_r.
Qed.

(** How many datagrams were read since the last poll. *)
Definition streak_step (n : nat) (ca : call * answer) : nat :=
  match ca.1 with
  | sys_poll _ _ => 0
  | sys_recvfrom _ _ => if ret ca.2 <? 0 then n else S n
  | _ => n
  end.
Definition streak (h : history) : nat := foldl streak_step 0%nat h.

Lemma streak_snoc h ca : streak (h ++ [ca]) = streak_step (streak h) ca.
Proof. unfold streak. by rewrite foldl_app. Qed.

Section reader_ends.
Context (system : history -> call -> answer) (fd : Z) (burst : nat).

(** The socket is empty once [burst] datagrams were read in a row. *)
Definition bursts_bounded : Prop :=
  forall h size, (burst <= streak h)%nat -> ret (system h (sys_recvfrom fd size)) < 0.

Lemma receive_peer_run h :
  let a := system h (sys_recvfrom fd 2048) in
  outcome_of (receive_peer system fd) h =
    (Ok (if ret a <? 0 then Err (Os (errno a))
         else Ok {| dg_peer := from a; dg_peer_size := from_len a; dg_packet := take (Z.to_nat (ret a)) (out a) |}),
     h ++ [(sys_recvfrom fd 2048, a)]).
Proof. unfold outcome_of, receive_peer. rewrite eff_bind_run, checked_run. by destruct (_ <? _). Qed.

(** Accepting a datagram leaves the number of reads as it is. *)
Lemma receive_loop_step fuel h :
  receive_loop system (S fuel) fd h =
    let a := system h (sys_recvfrom fd 2048) in
    let h1 := h ++ [(sys_recvfrom fd 2048, a)] in
    if ret a <? 0 then
      (if decide (kind (Os (errno a)) = WouldBlock \/ kind (Os (errno a)) = Interrupted) then Ok Drained
       else Err (Os (errno a)), h1)
    else
      let c := push_datagram (from a) (from_len a) (take (Z.to_nat (ret a)) (out a)) in
      let b := system h1 c in
      let h2 := h1 ++ [(c, b)] in
      if ret b <? 0 then (Ok QueueClosed, h2)
      else
        let h3 := if ret b =? 0 then h2 else h2 ++ [(count_drop, system h2 count_drop)] in
        receive_loop system fuel fd (h3 ++ [(notify_worker, system h3 notify_worker)]).
Proof.
  cbn [receive_loop]. rewrite eff_bind_run, receive_peer_run. cbv zeta. destruct (_ <? _); [by case_decide|].
  unfold push_rx. rewrite !eff_bind_run. cbn. destruct (_ <? _); [done|]. by destruct (_ =? _).
Qed.

Lemma receive_loop_ends fuel h :
  bursts_bounded -> (streak h <= burst)%nat -> (burst < fuel + streak h)%nat ->
  (receive_loop system fuel fd h).1 <> Ok Receiving.
Proof.
  intros Hb. revert h. induction fuel as [|fuel IH]; intros h Hle Hlt; [lia|].
  rewrite receive_loop_step. cbv zeta. set (a := system h _). destruct (Z.ltb_spec (ret a) 0) as [|Ha].
  { by case_decide. }
  assert (streak h < burst)%nat as Hs.
  { destruct (decide (burst <= streak h)%nat) as [H|]; [|lia]. apply (Hb h 2048) in H. fold a in H. lia. }
  destruct (_ <? _); [done|].
  assert (streak (h ++ [(sys_recvfrom fd 2048, a)]) = S (streak h)) as E.
  { rewrite streak_snoc. unfold streak_step. cbn. by destruct (Z.ltb_spec (ret a) 0); [lia|]. }
  assert (forall h c a, (c = count_drop \/ c = notify_worker \/ exists p n d, c = push_datagram p n d) ->
            streak (h ++ [(c, a)]) = streak h) as Hother.
  { intros h1 c b [->|[->|(? & ? & ? & ->)]]; by rewrite streak_snoc. }
  apply IH; rewrite Hother by eauto; case_match; rewrite ?Hother by eauto 10; rewrite ?Hother by eauto 10; rewrite E; lia.
Qed.

Lemma receive_loop_grows fuel h : exists calls, (receive_loop system fuel fd h).2 = h ++ calls.
Proof.
  destruct (receive_loop system fuel fd h) as [r h'] eqn:E.
  apply receive_loop_keeps in E as (calls & ? & -> & _). by exists calls.
Qed.
End reader_ends.

Lemma load_run system c h :
  load system c h = (Ok (negb (ret (system h c) =? 0)), h ++ [(c, system h c)]).
Proof. done. Qed.

(** The rest of a turn once the flags were found set. *)
Lemma udp_read_run_step system fd fuel h :
  udp_read_run system (S fuel) fd h =
    let h1 := h ++ [(load_running, system h load_running)] in
    let h2 := h1 ++ [(load_active, system h1 load_active)] in
    let '(polled, h3) := poll system [(fd, POLLIN)] (from_millis 100) h2 in
    if ret (system h load_running) =? 0 then (Ok true, h1)
    else if ret (system h1 load_active) =? 0 then (Ok true, h2)
    else match polled with
         | Err error => (Err error, h3)
         | Ok revents =>
             if readable POLLIN revents then
               let '(read, h4) := receive_loop system (S fuel) fd h3 in
               match read with
               | Ok Drained => udp_read_run system fuel fd h4
               | Ok QueueClosed => (Ok true, h4)
               | Ok Receiving => (Ok false, h4)
               | Err error => (Err error, h4)
               end
             else udp_read_run system fuel fd h3
         end.
Proof.
  cbv zeta. destruct (poll _ _ _ _) as [polled h3] eqn:Ep. cbn [udp_read_run]. rewrite eff_bind_run.
  unfold keep_reading. rewrite eff_bind_run, load_run. destruct (_ =? _); [done|]. cbn [negb]. rewrite load_run.
  destruct (_ =? _); [done|]. cbn [negb]. rewrite eff_bind_run, Ep. destruct polled as [revents|error]; [|done].
  destruct (readable _ _); [|done]. rewrite eff_bind_run.
  by destruct (receive_loop system (S fuel) fd h3) as [[[| |]|error] h4].
Qed.

(** A stop is noticed: if from the [n]-th call on a flag reads as cleared, and at most [burst]
    datagrams arrive between two polls, the thread ends, and [n + burst + 1] turns are enough. *)
Theorem udp_reader_stops system fd burst n h :
  (forall h, (n <= length h)%nat -> ret (system h load_running) = 0) -> bursts_bounded system fd burst ->
  (udp_read_run system (n + burst + 1) fd h).1 <> Ok false.
Proof.
  intros Hstop Hb. assert (forall fuel h, (n - length h + burst < fuel)%nat -> (udp_read_run system fuel fd h).1 <> Ok false) as Hall.
  2:{ apply Hall. lia. }
  clear h. induction fuel as [|fuel IH]; intros h Hf; [lia|]. rewrite udp_read_run_step. cbv zeta.
  destruct (poll _ _ _ _) as [polled h3] eqn:Ep. destruct (Z.eqb_spec (ret (system h load_running)) 0) as [|Hrun]; [done|].
  assert (length h < n)%nat as Hl by (destruct (decide (n <= length h)%nat) as [?%Hstop|]; [done|lia]).
  destruct (_ =? _); [done|].
  assert (exists calls, h3 = h ++ calls /\ (0 < length calls)%nat /\ streak h3 = 0%nat) as (calls & -> & Hc & Hs3).
  { unfold poll in Ep. rewrite eff_bind_run in Ep. unfold outcome_of in Ep. rewrite checked_run in Ep.
    assert (exists a, h3 = (((h ++ [(load_running, system h load_running)]) ++ [(load_active, system (h ++ [(load_running, system h load_running)]) load_active)])
      ++ [(sys_poll [(fd, POLLIN)] (Z.min (as_millis (from_millis 100)) i32_max), a)])) as [a ->].
    { eexists. destruct (_ <? _); [|by injection Ep]. case_decide; by injection Ep. }
    rewrite streak_snoc. rewrite <-!app_assoc. eexists. split; [done|]. split; [cbn; lia|done]. }
  destruct polled as [revents|]; [|done]. destruct (readable _ _); [|apply IH; rewrite length_app; lia].
  destruct (receive_loop _ _ _ _) as [read h4] eqn:Er.
  pose proof (receive_loop_ends system fd burst (S fuel) (h ++ calls) Hb) as Hends. rewrite Er, Hs3 in Hends.
  destruct (receive_loop_grows system fd (S fuel) (h ++ calls)) as [more Hmore]. rewrite Er in Hmore. cbn in Hmore. subst h4.
  destruct read as [[| |]|]; try done; [|exfalso; apply Hends; [lia|lia|done]].
  apply IH. rewrite !length_app. lia.
Qed.

(** Without that bound it may not be: a socket that always has a datagram keeps the reader in
    its inner loop, which does not look at the flags. *)
Definition flood (h : history) (c : call) : answer :=
  match c with
  | load_running | load_active => answering (if decide (length h < 2)%nat then 1 else 0) []
  | sys_poll _ _ => answering 1 [POLLIN]
  | sys_recvfrom _ _ => answering 1 [0]
  | _ => answering 0 []
  end.

Theorem flooded_reader_misses_stop fuel fd :
  (udp_read_run flood fuel fd []).1 = Ok false.
Proof.
  assert (forall fuel h, (receive_loop flood fuel fd h).1 = Ok Receiving) as Hloop.
  { clear fuel. induction fuel as [|fuel IH]; intros h; [done|]. rewrite receive_loop_step. apply IH. }
  destruct fuel as [|fuel]; [done|]. rewrite udp_read_run_step. cbv zeta.
  destruct (poll _ _ _ _) as [polled h3] eqn:Ep. injection Ep as <- <-. cbn [length app].
  match goal with |- context [if ?b then (Ok true, [_]) else _] => change b with false end.
  match goal with |- context [if ?b then (Ok true, _) else _] => change b with false end.
  change (readable POLLIN _) with true. cbv iota.
  pose proof (Hloop (S fuel)) as Hl. match goal with |- context [receive_loop _ _ _ ?h] => specialize (Hl h) end.
  destruct (receive_loop _ _ _ _) as [read h4]. cbn in Hl. by subst read.
Qed.

(** ** The client's readiness tests *)

(** Why the Windows test answers as it does, by its last call. *)
Definition wait_reason (deadline : Instant) (r : io (option bool)) (last_call : option (call * answer)) : Prop :=
  match r with
  | Ok (Some true) => exists fds t a, last_call = Some (sys_poll fds t, a) /\ readable WINDOWS_POLLIN (out a) = true
  | Ok (Some false) => exists c a, last_call = Some (c, a) /\
      (c = load_running /\ ret a = 0 \/ c = clock_now /\ deadline <= ret a)
  | Ok None => False
  | Err error => exists fds t a, last_call = Some (sys_poll fds t, a) /\
      (ret a < 0 /\ error = Os (errno a) \/ kind error = BrokenPipe)
  end.

Lemma windows_poll_run system fds timeout h :
  let c := sys_poll fds (Z.min (as_millis timeout) i32_max) in
  let a := system h c in
  windows_poll system fds timeout h =
    (if ret a <? 0 then Err (Os (errno a))
     else if existsb (fun revents => negb (Z.land revents 7 =? 0)) (out a)
     then Err (new_error BrokenPipe "UDP socket reported a poll error") else Ok (out a), h ++ [(c, a)]).
Proof.
  unfold windows_poll. rewrite eff_bind_run, checked_run. cbv zeta. destruct (_ <? _); [done|]. by destruct (existsb _ _).
Qed.

Lemma instant_now_run system h :
  instant_now system h = (Ok (ret (system h clock_now)), h ++ [(clock_now, system h clock_now)]).
Proof. done. Qed.

Lemma windows_wait_loop_ends system n fd deadline fuel h :
  (forall h', (n <= length h')%nat -> deadline <= ret (system h' clock_now)) ->
  (n - length h < fuel)%nat ->
  exists r h', windows_wait_loop system fuel fd deadline h = (r, h') /\ wait_reason deadline r (last h').
Proof.
  intros Hclock. revert h. induction fuel as [|fuel IH]; intros h Hf; [lia|]. cbn [windows_wait_loop].
  rewrite eff_bind_run, load_run. destruct (Z.eqb_spec (ret (system h load_running)) 0) as [E|]; cbn [negb].
  { eexists _, _. split; [done|]. rewrite last_snoc. eexists _, _. split; [done|]. by left. }
  set (h1 := h ++ _). rewrite eff_bind_run, instant_now_run. set (h2 := h1 ++ _).
  rewrite eff_bind_run, windows_poll_run. cbv zeta.
  set (c := sys_poll _ _). set (a := system h2 c). set (h3 := h2 ++ _).
  assert (last h3 = Some (c, a)) as Hl by apply last_snoc.
  destruct (Z.ltb_spec (ret a) 0); [eexists _, h3; split; [done|]; rewrite Hl; eexists _, _, _; by eauto|].
  destruct (existsb _ _); [eexists _, h3; split; [done|]; rewrite Hl; eexists _, _, _; by eauto|].
  destruct (readable _ _) eqn:Hr; [eexists _, h3; split; [done|]; rewrite Hl; eexists _, _, _; by eauto|].
  rewrite eff_bind_run, instant_now_run. set (b := system h3 clock_now). destruct (Z.leb_spec deadline (ret b)) as [|Hb].
  - eexists _, _. split; [done|]. rewrite last_snoc. eexists _, _. split; [done|]. by right.
  - apply IH. rewrite length_app. cbn.
    assert (length h < length h3)%nat by (unfold h3, h2, h1; rewrite !length_app; cbn; lia).
    destruct (decide (n <= length h3)%nat) as [Hn%Hclock|]; [|lia]. fold b in Hn. lia.
Qed.

(** The test on Windows ends once the deadline is past, even without an event, and never says
    that a datagram is there or that time is up when it is not. *)
Theorem windows_wait_exact system n fd timeout h :
  let deadline := ret (system h clock_now) + timeout in
  (forall h', (n <= length h')%nat -> deadline <= ret (system h' clock_now)) ->
  exists r h', windows_wait_for_udp system (S n) fd timeout h = (r, h') /\ wait_reason deadline r (last h').
Proof.
  intros deadline Hclock. apply (windows_wait_loop_ends system n fd deadline (S n) (h ++ [(clock_now, system h clock_now)]));
    [done|lia].
Qed.

(** On Unix there is one poll: an interrupted one counts as ready, and the read that follows
    finds out. *)
Theorem wait_for_udp_exact system fd timeout h :
  let a := system h (sys_poll [(fd, POLLIN)] (Z.min (as_millis timeout) i32_max)) in
  (wait_for_udp system fd timeout h).1 =
    if ret a <? 0 then (if decide (kind (Os (errno a)) = Interrupted) then Ok true else Err (Os (errno a)))
    else Ok (readable POLLIN (out a)).
Proof.
  unfold wait_for_udp. rewrite eff_bind_run. unfold outcome_of. rewrite checked_run. cbv zeta.
  destruct (_ <? _); [by case_decide|done].
Qed.

(** ** Witnesses *)

(** A socket with one datagram, and a stop requested after eight calls. *)
Definition one_datagram (h : history) (c : call) : answer :=
  match c with
  | load_running => answering (if decide (8 <= length h)%nat then 0 else 1) []
  | load_active => answering 1 []
  | sys_poll _ _ => answering 1 [POLLIN]
  | sys_recvfrom _ _ => if decide (1 <= streak h)%nat then answering (-1) [] else answering 2 [22; 254]
  | clock_now => answering (Z.of_nat (length h)) []
  | _ => answering 0 []
  end.

Lemma udp_reader_stops_witness : (udp_read_run one_datagram (8 + 1 + 1) 3 []).1 <> Ok false.
Proof.
  apply (udp_reader_stops one_datagram 3 1 8 []).
  - intros h Hl. unfold one_datagram. rewrite decide_True by exact Hl. reflexivity.
  - intros h size Hs. unfold one_datagram. rewrite decide_True by exact Hs. reflexivity.
Defined.

Lemma windows_wait_exact_witness :
  exists r h', windows_wait_for_udp (fun h c => if c is sys_poll _ _ then answering 0 [] else one_datagram h c) 6 3 5 [] = (r, h') /\
    wait_reason (0 + 5) r (last h').
Proof.
  apply (windows_wait_exact (fun h c => if c is sys_poll _ _ then answering 0 [] else one_datagram h c) 5 3 5 []).
  intros h Hl. cbn. lia.
Defined.
