(* ===== verification/Platform.v ===== *)
(** * The platform backends

    Models [src/linux/mod.rs], [src/macos/mod.rs] and [src/windows/mod.rs]: a TUN device of
    their own, with a non-blocking descriptor and vectored packets, and the readiness tests
    [wait_udp] and [wait_io]. No module of the crate includes these files, so the program runs
    on the device of [Tun.v]; the theorems here say where the two agree and where not.
    [validate_tun_ipv4], which all three call in the crate's root, is defined nowhere: it is a
    parameter. The error numbers of Windows sockets are written as the Unix ones of the same
    kind. *)

From S2P Require Import Prelude Text Net System Session UdpRead Tun.

Local Open Scope Z_scope.

(** ** Data *)
Record IoReady := { io_udp : bool; io_udp_writable : bool; io_tun : bool }.

#[export] Instance IoReady_eq_dec : EqDecision IoReady.
Proof. solve_decision. Defined.

(** [Tun] of the Unix backends; the one of Windows has its Wintun session for a descriptor. *)
Record BackendTun := { backend_fd : Z; backend_name : rstr }.

Definition POLLOUT : Z := 4.
Definition POLLERR : Z := 8.
Definition POLLHUP : Z := 16.
Definition POLLNVAL : Z := 32.
Definition O_NONBLOCK (os : platform) : Z := if os is Macos then 4 else 0x800.

(** [revents & mask != 0] of the descriptor at [index]. *)
Definition returned (revents : list Z) (index : nat) (mask : Z) : bool :=
  negb (Z.land (nth index revents 0) mask =? 0).

Section backend.
Context (system : history -> call -> answer).
Context (validate_tun_ipv4 : rstr -> rstr -> rstr -> io (rstr * Z)).
Implicit Types (t : BackendTun).

(** ** Readiness on Linux *)

(** [poll]: whether a signal interrupted it, and the returned events, which it leaves zero then. *)
Definition linux_poll (fds : list (Z * Z)) (timeout : Duration) : eff history (bool * list Z) :=
  r ← outcome_of (checked system (sys_poll fds (Z.min (as_millis timeout) i32_max)));
  match r with
  | Ok a => mret (false, out a)
  | Err error =>
      if decide (kind error = Interrupted) then mret (true, repeat 0 (length fds)) else fail_with error
  end.

Definition linux_wait_udp (socket : Z) (timeout : Duration) : eff history bool :=
  polled ← linux_poll [(socket, POLLIN)] timeout;
  let '(interrupted, revents) := polled in
  if interrupted : bool then mret true else mret (returned revents 0 POLLIN).

Definition linux_wait_io (socket : Z) t (timeout : Duration) (want_udp_write : bool) : eff history IoReady :=
  polled ← linux_poll [(socket, Z.lor POLLIN (if want_udp_write then POLLOUT else 0)); (backend_fd t, POLLIN)] timeout;
  let '(_, revents) := polled in
  if returned revents 1 POLLNVAL then fail_with (new_error BrokenPipe "TUN descriptor is invalid")
  else if returned revents 1 (Z.lor POLLERR POLLHUP)
  then fail_with (new_error BrokenPipe "TUN device reported a permanent poll error")
  else mret {| io_udp := returned revents 0 POLLIN; io_udp_writable := returned revents 0 POLLOUT;
               io_tun := returned revents 1 POLLIN |}.

(** ** The device on Linux *)
Definition linux_set_nonblocking (fd : Z) : eff history unit :=
  flags ← checked system (sys_getfl fd);
  _ ← checked system (sys_setfl fd (Z.lor (ret flags) (O_NONBLOCK Linux)));
  mret tt.

Definition linux_open (requested_name : rstr) : eff history BackendTun :=
  device ← checked system (sys_open (bytes "/dev/net/tun" ++ [0]) O_RDWR);
  let fd := ret device in
  request ← or_close system fd (sys_tunsetiff fd (ifreq_name requested_name) (Z.lor IFF_TUN IFF_NO_PI));
  _ ← guarded (ignore (perform system (sys_close fd))) (linux_set_nonblocking fd);
  mret {| backend_fd := fd; backend_name := trim_end_nul (from_utf8_lossy (out request)) |}.

Definition linux_drop t : eff history unit := ignore (perform system (sys_close (backend_fd t))).

Definition linux_configure_mtu t (mtu : Z) : eff history unit :=
  _ ← of_io (validate_mtu mtu);
  run_command system (str "ip")
    [str "link"; str "set"; str "dev"; backend_name t; str "mtu"; display_uint mtu].

Definition linux_configure_ipv4 t (address peer network : rstr) : eff history unit :=
  parts ← of_io (validate_tun_ipv4 address peer network);
  let '(_, prefix) := parts in
  _ ← run_command system (str "ip")
        [str "addr"; str "replace"; address ++ str "/" ++ display_uint prefix; str "dev"; backend_name t];
  _ ← run_command system (str "ip") [str "link"; str "set"; str "dev"; backend_name t; str "up"];
  run_command system (str "ip") [str "route"; str "replace"; network; str "dev"; backend_name t].

(** The packet [read_packet] leaves in a buffer of [size] bytes. *)
Definition linux_read_packet t (size : nat) : eff history (list Z) :=
  a ← checked system (sys_read (backend_fd t) (Z.of_nat size));
  mret (take (Z.to_nat (ret a)) (out a)).

Definition linux_write_packet t (buffer : list Z) : eff history Z :=
  a ← checked system (sys_write (backend_fd t) buffer);
  mret (ret a).

(** ** The device on macOS; the readiness tests are the same text as on Linux *)
Definition macos_wait_udp := linux_wait_udp.
Definition macos_wait_io := linux_wait_io.
Definition macos_poll := linux_poll.
Definition macos_drop := linux_drop.

Definition macos_set_nonblocking (fd : Z) : eff history unit :=
  flags ← checked system (sys_getfl fd);
  _ ← checked system (sys_setfl fd (Z.lor (ret flags) (O_NONBLOCK Macos)));
  mret tt.

Definition macos_open : eff history BackendTun :=
  socket ← checked system (sys_socket 32 SOCK_DGRAM 2);
  let fd := ret socket in
  info ← or_close system fd (sys_ctl_info fd UTUN_CONTROL);
  _ ← or_close system fd (sys_connect_ctl fd (ret info) 0);
  _ ← guarded (ignore (perform system (sys_close fd))) (macos_set_nonblocking fd);
  name ← or_close system fd (sys_utun_name fd 16);
  mret {| backend_fd := fd; backend_name := utun_text (out name) |}.

Definition macos_configure_mtu t (mtu : Z) : eff history unit :=
  _ ← of_io (validate_mtu mtu);
  run_command system (str "ifconfig") [backend_name t; str "mtu"; display_uint mtu].

Definition macos_configure_ipv4 t (address peer network : rstr) : eff history unit :=
  parts ← of_io (validate_tun_ipv4 address peer network);
  let '(network_address, prefix) := parts in
  let netmask := display_ipv4 (mask prefix) in
  _ ← run_command system (str "ifconfig")
        [backend_name t; address; peer; str "netmask"; netmask; str "up"];
  run_command system (str "route")
    [str "-n"; str "add"; str "-net"; network_address; str "-netmask"; netmask;
     str "-interface"; backend_name t].

(** Two vectors: the protocol family and the caller's buffer. *)
Definition macos_read_packet t (size : nat) : eff history (list Z) :=
  a ← checked system (sys_readv (backend_fd t) [4; Z.of_nat size]);
  if (ret a <=? 4) || (Z.of_nat size <? ret a - 4) then fail_with (other "TUN packet too large")
  else mret (take (Z.to_nat (ret a - 4)) (drop 4 (out a))).

Definition macos_write_packet t (buffer : list Z) : eff history Z :=
  if decide (2044 < length buffer)%nat then
    fail_with (new_error InvalidData "TUN packet exceeds internal buffer")
  else
    let family := if from_option (fun byte => Z.shiftr byte 4 =? 6) false (head buffer) then 30 else 2 in
    a ← checked system (sys_writev (backend_fd t) [[0; 0; 0; family]; buffer]);
    mret (Z.max 0 (ret a - 4)).

(** ** Windows *)

(** The loop of [wait_udp]; [None] when the fuel is used up. *)
Fixpoint windows_peek_loop (fuel : nat) (socket : Z) (deadline : Instant) : eff history (option bool) :=
  match fuel with
  | O => mret None
  | S fuel =>
      r ← outcome_of (checked system (sys_peek socket 1));
      match r with
      | Ok _ => mret (Some true)
      | Err error =>
          if decide (kind error = WouldBlock) then
            now ← instant_now system;
            let remaining := saturating_duration_since deadline now in
            if remaining =? 0 then mret (Some false)
            else
              _ ← perform system (thread_sleep (Z.min remaining (from_millis 10)));
              windows_peek_loop fuel socket deadline
          else fail_with error
      end
  end.

Definition windows_wait_udp (fuel : nat) (socket : Z) (timeout : Duration) : eff history (option bool) :=
  now ← instant_now system;
  windows_peek_loop fuel socket (now + timeout).

Definition windows_wait_io (timeout : Duration) (want_udp_write : bool) : eff history IoReady :=
  _ ← perform system (thread_sleep (Z.max (from_millis 1) (Z.min timeout (from_millis 10))));
  mret {| io_udp := true; io_udp_writable := want_udp_write; io_tun := true |}.

Definition windows_backend_open (wintun : Wintun) (requested_name : rstr) : io BackendTun :=
  _ ← map_err (fun error => Custom Other (str "loading Wintun: " ++ error)) (load_from_path wintun);
  _ ← map_err (fun error => Custom Other (str "opening Wintun adapter: " ++ error))
        (match adapter_open wintun with Ok u => Ok u | Err _ => adapter_create wintun end);
  _ ← map_err (fun error => Custom Other (str "starting Wintun session: " ++ error)) (start_session wintun);
  Ok {| backend_fd := 0; backend_name := requested_name |}.

(** Packets are exchanged with Wintun as in [lib.rs], the same text. *)
Definition windows_backend_read_packet := windows_read_packet.
Definition windows_backend_write_packet := windows_write_packet.

Definition windows_configure_mtu t (mtu : Z) : eff history unit :=
  _ ← of_io (validate_mtu mtu);
  run_command system (str "netsh")
    [str "interface"; str "ipv4"; str "set"; str "subinterface"; backend_name t;
     str "mtu=" ++ display_uint mtu; str "store=active"].

Definition windows_configure_ipv4 t (address peer network : rstr) : eff history unit :=
  parts ← of_io (validate_tun_ipv4 address peer network);
  let '(network_address, prefix) := parts in
  let netmask := display_ipv4 (mask prefix) in
  _ ← run_command system (str "netsh")
        [str "interface"; str "ip"; str "set"; str "address"; str "name=" ++ backend_name t; str "static";
         address; netmask; peer];
  run_command system (str "route") [str "ADD"; network_address; str "MASK"; netmask; peer].
End backend.

(** ** Blocking mode *)

(** The mode a descriptor is opened in. *)
Definition opened_mode (os : platform) (c : call) : bool :=
  if c is sys_open _ flags then negb (Z.land flags (O_NONBLOCK os) =? 0) else false.

(** The protocol of a program that has one device at a time: its descriptor, and whether it is
    in non-blocking mode. No call is made on another descriptor. *)
Definition device_step (os : platform) (device : option (Z * bool)) (c : call) (a : answer)
    : option (option (Z * bool)) :=
  match device, call_fd c with
  | None, None => Some ((fun fd => (fd, opened_mode os c)) <$> opens c a)
  | None, Some _ => None
  | Some (fd, mode), Some fd' =>
      if decide (fd' = fd) then
        Some (match c with
              | sys_close _ => None
              | sys_setfl _ flags =>
                  if 0 <=? ret a then Some (fd, negb (Z.land flags (O_NONBLOCK os) =? 0)) else device
              | _ => device
              end)
      else None
  | Some _, None => if opens c a is Some _ then None else Some device
  end.

(** How a system leaves the device's mode after its calls. *)
Definition device_after (os : platform) (calls : history) : option (option (Z * bool)) :=
  follow (device_step os) None calls.

Section device.
Context (system : history -> call -> answer) (os : platform).

(** The flags with [O_NONBLOCK] added have it. *)
Lemma lor_nonblock flags : negb (Z.land (Z.lor flags (O_NONBLOCK os)) (O_NONBLOCK os) =? 0) = true.
Proof.
  apply negb_true_iff, Z.eqb_neq. intros E%(f_equal (fun z => Z.testbit z (if os is Macos then 2 else 11))).
  rewrite Z.land_spec, Z.lor_spec in E. destruct os; cbn in E; by rewrite orb_true_r in E.
Qed.

Definition keeps_device {A} := @keeps (option (Z * bool)) (device_step os) A.

Lemma device_opens c :
  call_fd c = None -> (forall a, opens c a = if 0 <=? ret a then Some (ret a) else None) ->
  keeps_device None (checked system c) (fun r device => device = match r with Ok a => Some (ret a, opened_mode os c) | Err _ => None end).
Proof.
  intros Hc Ho. apply keeps_checked. intros a. unfold device_step. rewrite Hc, Ho.
  eexists. split; [done|]. destruct (Z.ltb_spec (ret a) 0), (Z.leb_spec 0 (ret a)); done || lia.
Qed.

(** Both backends set the mode the same way, each with its own flag. *)
Definition backend_set_nonblocking (fd : Z) : eff history unit :=
  flags ← checked system (sys_getfl fd);
  _ ← checked system (sys_setfl fd (Z.lor (ret flags) (O_NONBLOCK os)));
  mret tt.

(** A call that neither closes the device nor changes its mode. *)
Definition uses (fd : Z) (c : call) : Prop :=
  call_fd c = Some fd /\ match c with sys_close _ | sys_setfl _ _ => False | _ => True end.

Lemma device_uses fd mode c :
  uses fd c -> keeps_device (Some (fd, mode)) (checked system c) (fun _ device => device = Some (fd, mode)).
Proof.
  intros [Hc Hn]. apply keeps_checked. intros a. exists (Some (fd, mode)). split; [|done].
  unfold device_step. rewrite Hc, decide_True by done. by destruct c.
Qed.

Lemma device_closes fd mode :
  keeps_device (Some (fd, mode)) (ignore (perform system (sys_close fd))) (fun _ device => device = None).
Proof.
  eapply (keeps_ignore _ _ _ (fun _ device => device = None)); [|done]. apply keeps_perform. intros a. exists None.
  split; [|done]. unfold device_step. cbn [call_fd]. by rewrite decide_True.
Qed.

Lemma device_or_close fd mode c :
  uses fd c ->
  keeps_device (Some (fd, mode)) (or_close system fd c)
    (fun r device => device = if r is Ok _ then Some (fd, mode) else None).
Proof. intros Hc. eapply keeps_guarded; [by apply device_uses|done|]. intros error ? ->. apply device_closes. Qed.

Lemma device_sets_mode fd :
  keeps_device (Some (fd, false)) (guarded (ignore (perform system (sys_close fd))) (backend_set_nonblocking fd))
    (fun r device => device = if r is Ok _ then Some (fd, true) else None).
Proof.
  eapply (keeps_guarded _ _ _ _ (fun r device => device = Some (fd, if r is Ok _ then true else false)));
    [|by intros [] ? ->|intros error ? ->; apply device_closes].
  eapply keeps_bind; [by apply device_uses|by intros ? ? ->|]. intros flags ? ->.
  eapply (keeps_bind _ _ _ _ (fun r device => device = Some (fd, if r is Ok _ then true else false)));
    [|by intros ? ? ->|intros a ? ->; by apply keeps_ret].
  apply keeps_checked. intros a. unfold device_step. cbn [call_fd]. rewrite decide_True, lor_nonblock by done.
  eexists. split; [done|]. destruct (Z.ltb_spec (ret a) 0), (Z.leb_spec 0 (ret a)); done || lia.
Qed.
End device.

Section opening.
Context (system : history -> call -> answer).

(** The built device: blocking. *)
Lemma tun_open_blocking os name wintun :
  os <> Windows ->
  keeps_device os None (tun_open system os wintun name)
    (fun r device => device = match r with Ok t => Some (tun_fd t, false) | Err _ => None end).
Proof.
  intros Hos. destruct os; [..|done];
    (eapply keeps_bind; [by apply device_opens|done|]; intros a ? ->; cbv beta iota zeta;
     repeat (eapply keeps_bind; [by apply device_or_close|by intros ? ? ->|]; intros ? ? ->; cbv beta iota);
     by apply keeps_ret).
Qed.

Definition backend_open (os : platform) (name : rstr) : eff history BackendTun :=
  if os is Macos then macos_open system else linux_open system name.

Lemma backend_open_nonblocking os name :
  os <> Windows ->
  keeps_device os None (backend_open os name)
    (fun r device => device = match r with Ok t => Some (backend_fd t, true) | Err _ => None end).
Proof.
  intros Hos. destruct os; [| |done].
  - eapply keeps_bind; [by apply device_opens|done|]. intros a ? ->. cbv beta iota zeta.
    eapply keeps_bind; [by apply device_or_close|by intros ? ? ->|]. intros request ? ->. cbv beta iota.
    eapply keeps_bind; [apply (device_sets_mode system Linux)|by intros ? ? ->|]. intros u ? ->. by apply keeps_ret.
  - eapply keeps_bind; [by apply device_opens|done|]. intros a ? ->. cbv beta iota zeta.
    do 2 (eapply keeps_bind; [by apply device_or_close|by intros ? ? ->|]; intros ? ? ->; cbv beta iota).
    eapply keeps_bind; [apply (device_sets_mode system Macos)|by intros ? ? ->|]. intros u ? ->. cbv beta iota.
    eapply keeps_bind; [by apply device_or_close|by intros ? ? ->|]. intros name' ? ->. by apply keeps_ret.
Qed.
End opening.

(** ** Waiting on Windows *)

(** The earliest the clock may show after some calls: it never goes back, and a sleep lasts at
    least as long as it was asked to. *)
Definition floor_effect (ca : call * answer) (floor : Instant) : Instant :=
  match ca.1 with
  | clock_now => Z.max floor (ret ca.2)
  | thread_sleep duration => floor + duration
  | _ => floor
  end.
Definition clock_floor (h : history) : Instant := foldl (fun floor ca => floor_effect ca floor) 0 h.

(** How long the program slept. *)
Definition slept (calls : history) : Duration :=
  foldr (fun ca total => (if ca.1 is thread_sleep duration then duration else 0) + total) 0 calls.

(** Why the test answers as it does, by its last call. *)
Definition peek_reason (deadline : Instant) (r : io (option bool)) (last_call : option (call * answer)) : Prop :=
  match r with
  | Ok (Some true) => exists socket size a, last_call = Some (sys_peek socket size, a) /\ 0 <= ret a
  | Ok (Some false) => exists a, last_call = Some (clock_now, a) /\ deadline <= ret a
  | Ok None => False
  | Err error => exists socket size a, last_call = Some (sys_peek socket size, a) /\ ret a < 0 /\
      error = Os (errno a) /\ kind error <> WouldBlock
  end.

Section waiting.
Context (system : history -> call -> answer).
Hypothesis clock_honest : forall h, clock_floor h <= ret (system h clock_now).

Lemma clock_floor_snoc h ca : clock_floor (h ++ [ca]) = floor_effect ca (clock_floor h).
Proof. unfold clock_floor. by rewrite foldl_snoc. Qed.

Lemma slept_app c1 c2 : slept (c1 ++ c2) = slept c1 + slept c2.
Proof. unfold slept. induction c1 as [|ca c1 IH]; [done|]. cbn [app foldr]. rewrite IH. lia. Qed.

Lemma windows_peek_loop_step fuel socket deadline h :
  let p := (sys_peek socket 1, system h (sys_peek socket 1)) in
  let now := (clock_now, system (h ++ [p]) clock_now) in
  let remaining := saturating_duration_since deadline (ret now.2) in
  let nap := thread_sleep (Z.min remaining (from_millis 10)) in
  windows_peek_loop system (S fuel) socket deadline h =
    if ret p.2 <? 0 then
      if decide (kind (Os (errno p.2)) = WouldBlock) then
        if remaining =? 0 then (Ok (Some false), h ++ [p; now])
        else windows_peek_loop system fuel socket deadline
               (h ++ [p; now; (nap, system (h ++ [p; now]) nap)])
      else (Err (Os (errno p.2)), h ++ [p])
    else (Ok (Some true), h ++ [p]).
Proof.
  cbv zeta. cbn [windows_peek_loop snd]. rewrite eff_bind_run. unfold outcome_of. rewrite checked_run.
  destruct (_ <? 0); [|done]. cbv beta iota. case_decide; [|done]. rewrite eff_bind_run, instant_now_run, <-app_assoc.
  cbv beta iota zeta. cbn [app]. destruct (_ =? 0); [done|]. by rewrite eff_bind_run, perform_run, <-app_assoc.
Qed.

(** With ten milliseconds of fuel for the rest of the time and one turn more, the loop ends. *)
Lemma windows_peek_loop_ends socket deadline fuel h :
  deadline - clock_floor h <= from_millis 10 * Z.of_nat fuel ->
  exists r calls, windows_peek_loop system (S fuel) socket deadline h = (r, h ++ calls) /\
    peek_reason deadline r (last (h ++ calls)) /\ slept calls <= Z.max 0 (deadline - clock_floor h) /\
    (length calls <= 3 * fuel + 2)%nat.
Proof.
  revert h. induction fuel as [|fuel IH]; intros h Hf; rewrite windows_peek_loop_step; cbv zeta; cbn [snd];
    set (p := (sys_peek socket 1, _)); set (now := (clock_now, _)).
  all: destruct (Z.ltb_spec (ret (system h (sys_peek socket 1))) 0) as [Hp|Hp];
    [case_decide as Hk|];
    [|exists (Err (Os (errno p.2))), [p]; cbn; split_and!; [done| |lia..]; rewrite last_snoc; by repeat eexists
     |exists (Ok (Some true)), [p]; cbn; split_and!; [done| |lia..]; rewrite last_snoc; by repeat eexists].
  all: assert (clock_floor h <= ret now.2) as Hnow
    by (pose proof (clock_honest (h ++ [p])) as Hc; rewrite clock_floor_snoc in Hc; exact Hc);
    destruct (Z.eqb_spec (saturating_duration_since deadline (ret (system (h ++ [p]) clock_now))) 0) as [E|E];
    [exists (Ok (Some false)), [p; now]; cbn [snd] in *; split_and!;
       [done|rewrite cons_middle, app_assoc, last_snoc; eexists; split; [done|unfold saturating_duration_since in E; lia]
       |cbn; lia|cbn; lia]|].
  { unfold saturating_duration_since in E. cbn [snd now] in *. lia. }
  set (nap := (thread_sleep _, _)). destruct (IH (h ++ [p; now; nap])) as (r & calls & -> & Hr & Hs & Hl).
  all: assert (clock_floor (h ++ [p; now; nap]) = ret now.2 + Z.min (saturating_duration_since deadline (ret now.2)) (from_millis 10)) as Ec
    by (change [p; now; nap] with ([p] ++ [now] ++ [nap]); rewrite !app_assoc, !clock_floor_snoc;
        subst p now nap; unfold floor_effect; cbn [fst snd app] in *; lia).
  all: unfold saturating_duration_since, from_millis in *.
  { rewrite Ec. cbn [snd now] in *. lia. }
  exists r, ([p; now; nap] ++ calls). rewrite app_assoc. split_and!; [done|done| |rewrite length_app; cbn; lia].
  rewrite slept_app. rewrite Ec in Hs. cbn [slept foldr fst snd p now nap] in *. lia.
Qed.
End waiting.

(** ** Vectored packets on macOS *)

(** A device with one frame waiting: a read takes as much of it as fits and discards the rest,
    and a vectored read is a read into the vectors laid end to end. *)
Definition frame_waiting (system : history -> call -> answer) (h : history) (fd : Z) (frame : list Z) : Prop :=
  (forall n, 0 <= n -> let a := system h (sys_read fd n) in
     ret a = Z.min n (Z.of_nat (length frame)) /\ out a = take (Z.to_nat n) frame) /\
  (forall sizes, system h (sys_readv fd sizes) = system h (sys_read fd (foldr Z.add 0 sizes))).

(** A vectored write is a write of the chunks laid end to end. *)
Definition writes_chunks (system : history -> call -> answer) : Prop :=
  forall h fd chunks, system h (sys_writev fd chunks) = system h (sys_write fd (concat chunks)).

(** The backend's device as the one of [Tun.v]. *)
Definition as_tun (header : bool) (t : BackendTun) : Tun :=
  {| tun_fd := backend_fd t; macos_header := header; tun_name := backend_name t |}.

Lemma macos_write_alike system t packet h :
  writes_chunks system -> (macos_write_packet system t packet h).1 = (write_packet system (as_tun true t) packet h).1.
Proof.
  intros Hv. unfold macos_write_packet, write_packet, packet_frame. cbn [macos_header as_tun].
  change (INTERNAL_BUFFER - 4)%nat with 2044%nat. case_decide; [done|].
  rewrite eff_of_ok, !eff_bind_run, !checked_run, Hv. cbn [concat]. rewrite app_nil_r.
  cbn [tun_fd as_tun]. by destruct (_ <? 0).
Qed.

(** The two readers of one frame. *)
Lemma macos_read_frame system t size h frame :
  frame_waiting system h (backend_fd t) frame ->
  (macos_read_packet system t size h).1 =
    if decide (4 < length frame /\ 0 < size)%nat then Ok (take size (drop 4 frame)) else Err (other "TUN packet too large").
Proof.
  intros [Hr Hv]. unfold macos_read_packet. rewrite eff_bind_run, checked_run, Hv. cbn [foldr].
  destruct (Hr (4 + (Z.of_nat size + 0))) as [Hret Hout]; [lia|]. rewrite Hret.
  destruct (Z.ltb_spec (Z.min (4 + (Z.of_nat size + 0)) (Z.of_nat (length frame))) 0); [lia|].
  cbv beta iota zeta. rewrite Hret, Hout.
  replace (Z.of_nat size <? _) with false by (symmetry; apply Z.ltb_ge; lia). rewrite orb_false_r.
  case_decide; destruct (Z.leb_spec (Z.min (4 + (Z.of_nat size + 0)) (Z.of_nat (length frame))) 4); try lia; [|done].
  cbn [fst mret eff_ret]. f_equal. replace (Z.to_nat (4 + _)) with (4 + size)%nat by lia.
  rewrite skipn_firstn_comm, firstn_firstn. replace (4 + size - 4)%nat with size by lia.
  destruct (Nat.le_ge_cases size (length frame - 4)).
  - f_equal. lia.
  - rewrite !take_ge; [done|rewrite length_drop; lia..].
Qed.

Lemma tun_read_frame system t size h frame :
  frame_waiting system h (backend_fd t) frame -> (length frame <= INTERNAL_BUFFER)%nat ->
  (read_packet system (as_tun true t) size h).1 =
    if decide (4 < length frame <= size + 4)%nat then Ok (drop 4 frame) else Err (other "TUN packet too large").
Proof.
  intros [Hr _] Hl. unfold read_packet. cbn [macos_header as_tun tun_fd]. rewrite eff_bind_run, checked_run.
  destruct (Hr (Z.of_nat INTERNAL_BUFFER)) as [Hret Hout]; [lia|]. rewrite Z.min_r in Hret by lia.
  rewrite Hret. destruct (Z.ltb_spec (Z.of_nat (length frame)) 0); [lia|].
  cbv beta iota zeta. rewrite Hret, Hout, Nat2Z.id, !Nat2Z.id, (take_ge frame INTERNAL_BUFFER), take_ge by lia.
  case_decide; destruct (Z.leb_spec (Z.of_nat (length frame)) 4), (Z.ltb_spec (Z.of_nat size) (Z.of_nat (length frame) - 4));
    try lia; done.
Qed.

(** ** Properties *)

(** C33: The TUN device is opened in blocking mode, on Linux and on macOS, although its users handle
    a device that is not ready; the backends, which the program does not use, open theirs in
    non-blocking mode. In both no call is made on any other descriptor than the device's,
    and a failing open leaves none. *)
Theorem device_blocking_mode system os wintun name h :
  os <> Windows ->
  (exists r calls, tun_open system os wintun name h = (r, h ++ calls) /\
     device_after os calls = Some (match r with Ok t => Some (tun_fd t, false) | Err _ => None end)) /\
  (exists r calls, backend_open system os name h = (r, h ++ calls) /\
     device_after os calls = Some (match r with Ok t => Some (backend_fd t, true) | Err _ => None end)).
Proof.
  intros Hos. split.
  - destruct (tun_open system os wintun name h) as [r h'] eqn:E.
    destruct (tun_open_blocking system os name wintun Hos _ _ _ E) as (calls & device & -> & Hd & ->). by exists r, calls.
  - destruct (backend_open system os name h) as [r h'] eqn:E.
    destruct (backend_open_nonblocking system os name Hos _ _ _ E) as (calls & device & -> & Hd & ->). by exists r, calls.
Qed.

(** The macOS backend with its vectors is the device of the program with its buffer, as far as
    packets go: writes have the same result, and so have reads of frames the buffer of the
    caller can hold. A longer packet is an error of the program's device; the backend cuts it
    off and takes it for whole, since the check it makes can never fail. *)
Theorem macos_backend_packets system t packet size h frame :
  writes_chunks system -> frame_waiting system h (backend_fd t) frame -> (length frame <= INTERNAL_BUFFER)%nat ->
  (0 < size)%nat ->
  (macos_write_packet system t packet h).1 = (write_packet system (as_tun true t) packet h).1 /\
  ((length frame <= size + 4)%nat ->
     (macos_read_packet system t size h).1 = (read_packet system (as_tun true t) size h).1) /\
  ((size + 4 < length frame)%nat ->
     (macos_read_packet system t size h).1 = Ok (take size (drop 4 frame)) /\
     (read_packet system (as_tun true t) size h).1 = Err (other "TUN packet too large")).
Proof.
  intros Hw Hr Hl Hs. rewrite (macos_read_frame _ _ _ _ _ Hr), (tun_read_frame _ _ _ _ _ Hr Hl).
  split_and!; [by apply macos_write_alike| |].
  - intros Hle. repeat case_decide; try lia; [|done]. rewrite take_ge; [done|]. rewrite length_drop. lia.
  - intros Hlt. by rewrite decide_True, decide_False by lia.
Qed.

(** The readiness test on Windows ends: on a clock that does not go back and sleeps that last,
    ten milliseconds of fuel for the time and two turns more are enough. It says that a
    datagram is there only right after one was seen, that time is up only when it is, and
    fails only as the socket did; and it never sleeps past its deadline. *)
Theorem windows_wait_udp_ends system socket timeout fuel h :
  (forall h, clock_floor h <= ret (system h clock_now)) ->
  0 <= timeout <= from_millis 10 * Z.of_nat fuel ->
  let deadline := ret (system h clock_now) + timeout in
  exists r calls, windows_wait_udp system (S fuel) socket timeout h = (r, h ++ calls) /\
    peek_reason deadline r (last (h ++ calls)) /\ slept calls <= timeout /\ (length calls <= 3 * fuel + 3)%nat.
Proof.
  intros Hc Ht deadline. unfold windows_wait_udp. rewrite eff_bind_run, instant_now_run. fold deadline.
  set (h1 := h ++ _). assert (ret (system h clock_now) <= clock_floor h1) as Hf
    by (unfold h1; rewrite clock_floor_snoc; cbn; lia).
  destruct (windows_peek_loop_ends system Hc socket deadline fuel h1) as (r & calls & -> & Hr & Hs & Hl); [lia|].
  exists r, ((clock_now, system h clock_now) :: calls). unfold h1 in *. rewrite <-app_assoc in *.
  split_and!; [done|done| |cbn; lia]. cbn [slept foldr fst]. fold (slept calls). lia.
Qed.

(** [wait_io] reports only what the poll returned, and never a device that reported an error. *)
Theorem wait_io_exact system socket t timeout want h ready h' :
  linux_wait_io system socket t timeout want h = (Ok ready, h') ->
  exists fds ms a, h' = h ++ [(sys_poll fds ms, a)] /\
    (0 <= ret a ->
       returned (out a) 1 (Z.lor POLLNVAL (Z.lor POLLERR POLLHUP)) = false /\
       ready = {| io_udp := returned (out a) 0 POLLIN; io_udp_writable := returned (out a) 0 POLLOUT;
                  io_tun := returned (out a) 1 POLLIN |}) /\
    (ret a < 0 -> kind (Os (errno a)) = Interrupted /\
       ready = {| io_udp := false; io_udp_writable := false; io_tun := false |}).
Proof.
  intros Hw. unfold linux_wait_io, linux_poll in Hw. next_effect Hw polled h1 Hp. next_effect Hp r h2 Hc.
  unfold outcome_of in Hc. rewrite checked_run in Hc. injection Hc as <- <-.
  set (fds := [_; _]) in *. set (ms := Z.min _ _) in *. set (a := system h (sys_poll fds ms)) in *.
  exists fds, ms, a. destruct (Z.ltb_spec (ret a) 0).
  - case_decide; [|done]. injection Hp as <- <-. injection Hw as <- <-. split_and!; [done|lia|done].
  - injection Hp as <- <-. destruct (returned (out a) 1 POLLNVAL) eqn:E1; [done|].
    destruct (returned (out a) 1 (Z.lor POLLERR POLLHUP)) eqn:E2; [done|]. injection Hw as <- <-.
    split_and!; [done| |lia]. intros _. split; [|done]. unfold returned in *.
    apply negb_false_iff, Z.eqb_eq in E1, E2. rewrite Z.land_lor_distr_r, E1, E2. done.
Qed.

(** The configuration commands are the program's own, once [validate_tun_ipv4] is taken to be
    the checks the program makes. *)
Lemma backends_configure_alike system t mtu address peer network :
  linux_configure_mtu system t mtu = configure_mtu system Linux (as_tun false t) mtu /\
  macos_configure_mtu system t mtu = configure_mtu system Macos (as_tun true t) mtu /\
  windows_configure_mtu system t mtu = configure_mtu system Windows (as_tun false t) mtu /\
  linux_configure_ipv4 system check_tun_ipv4 t address peer network =
    configure_ipv4 system Linux (as_tun false t) address peer network /\
  macos_configure_ipv4 system check_tun_ipv4 t address peer network =
    configure_ipv4 system Macos (as_tun true t) address peer network.
Proof. done. Qed.

(** ** Witnesses *)
Lemma device_blocking_mode_witness :
  (exists r calls, tun_open echo_kernel Linux no_wintun (str "vpn0") [] = (r, [] ++ calls) /\
     device_after Linux calls = Some (match r with Ok t => Some (tun_fd t, false) | Err _ => None end)) /\
  (exists r calls, backend_open echo_kernel Linux (str "vpn0") [] = (r, [] ++ calls) /\
     device_after Linux calls = Some (match r with Ok t => Some (backend_fd t, true) | Err _ => None end)).
Proof. apply (device_blocking_mode echo_kernel Linux no_wintun (str "vpn0") []). discriminate. Defined.

Example backend_opened :
  (backend_open echo_kernel Linux (str "vpn0") []).1 = Ok {| backend_fd := 7; backend_name := [] |}.
Proof. vm_compute. reflexivity. Qed.

(** A device with one frame, and a kernel that takes what is written to it. *)
Definition framed (frame : list Z) (h : history) (c : call) : answer :=
  let reading n := answering (Z.min n (Z.of_nat (length frame))) (take (Z.to_nat n) frame) in
  match c with
  | sys_read _ n => reading n
  | sys_readv _ sizes => reading (foldr Z.add 0 sizes)
  | sys_write _ data => answering (Z.of_nat (length data)) []
  | sys_writev _ chunks => answering (Z.of_nat (length (concat chunks))) []
  | _ => answering 0 []
  end.
Definition backend_utun : BackendTun := {| backend_fd := 7; backend_name := str "utun4" |}.

Lemma macos_backend_packets_witness :
  let system := framed [0; 0; 0; 2; 69; 1; 2] in
  (macos_write_packet system backend_utun [69; 0] []).1 = Ok 2 /\
  (macos_read_packet system backend_utun 3 []).1 = Ok [69; 1; 2] /\
  ((length [0; 0; 0; 2; 69; 1; 2] <= 2 + 4)%nat ->
     (macos_read_packet system backend_utun 2 []).1 = (read_packet system (as_tun true backend_utun) 2 []).1) /\
  ((2 + 4 < length [0; 0; 0; 2; 69; 1; 2])%nat ->
     (macos_read_packet system backend_utun 2 []).1 = Ok [69; 1] /\
     (read_packet system (as_tun true backend_utun) 2 []).1 = Err (other "TUN packet too large")).
Proof.
  intros system. split; [vm_compute; reflexivity|]. split; [vm_compute; reflexivity|].
  apply (macos_backend_packets system backend_utun [69; 0] 2 [] [0; 0; 0; 2; 69; 1; 2]).
  - intros h fd chunks. reflexivity.
  - split; [intros n _; split; reflexivity|intros sizes; reflexivity].
  - vm_compute. lia.
  - lia.
Defined.

(** A socket on which nothing arrives, and a clock that only goes on while the program sleeps. *)
Definition quiet_socket (h : history) (c : call) : answer :=
  match c with
  | sys_peek _ _ => {| ret := -1; errno := EAGAIN; out := []; from := []; from_len := 0; shown := [] |}
  | clock_now => answering (clock_floor h) []
  | _ => answering 0 []
  end.

Lemma windows_wait_udp_ends_witness :
  (windows_wait_udp quiet_socket 4 3 (from_millis 25) []).1 = Ok (Some false) /\
  exists r calls, windows_wait_udp quiet_socket 4 3 (from_millis 25) [] = (r, [] ++ calls) /\
    peek_reason (0 + from_millis 25) r (last ([] ++ calls)) /\ slept calls <= from_millis 25 /\ (length calls <= 12)%nat.
Proof.
  split; [vm_compute; reflexivity|].
  apply (windows_wait_udp_ends quiet_socket 3 (from_millis 25) 3 []).
  - intros h. cbn. lia.
  - vm_compute. split; discriminate.
Defined.

Lemma wait_io_exact_witness :
  exists fds ms a, [(sys_poll [(3, 1); (7, 1)] 5, answering 2 [1; 1])] = [] ++ [(sys_poll fds ms, a)] /\
    (0 <= ret a ->
       returned (out a) 1 (Z.lor POLLNVAL (Z.lor POLLERR POLLHUP)) = false /\
       {| io_udp := true; io_udp_writable := false; io_tun := true |} =
         {| io_udp := returned (out a) 0 POLLIN; io_udp_writable := returned (out a) 0 POLLOUT;
            io_tun := returned (out a) 1 POLLIN |}) /\
    (ret a < 0 -> kind (Os (errno a)) = Interrupted /\
       {| io_udp := true; io_udp_writable := false; io_tun := true |} =
         {| io_udp := false; io_udp_writable := false; io_tun := false |}).
Proof.
  apply (wait_io_exact (fun _ _ => answering 2 [1; 1]) 3 backend_utun (from_millis 5) false []).
  vm_compute. reflexivity.
Defined.
