(* ===== verification/Encrypt.v ===== *)
(** * The encrypt worker

    Models [src/server/encrypt.rs]: routing packets read from the TUN device to sessions,
    and writing each session's queue of plaintext packets into its DTLS session. *)

From S2P Require Import Prelude Net Queue DtlsApi Session.

Local Open Scope Z_scope.

(** [SendPacketResult] *)
Module SendPacketResult.
Inductive t := Sent | Retry | DropPacket.

#[export] Instance eq_dec : EqDecision t.
Proof. solve_decision. Defined.
End SendPacketResult.
Import SendPacketResult (Sent).

Abbreviation send_result := SendPacketResult.t (only parsing).

(** ** Draining a queue of plaintext packets *)
Section drain.
Context {St : Type} (now : Instant) (write : Packet -> St -> send_result * St).

(** The [while let Ok(front) = queue.try_peek()] loop; every turn but the last removes an
    item, so the queue's length bounds the turns ([drain_raw_queue_unfold]). *)
Fixpoint drain_raw_loop (fuel : nat) (queue : Queue (Packet * Instant)) (st : St)
    : send_result * Queue (Packet * Instant) * St :=
  match fuel with
  | O => (Sent, queue, st)
  | S fuel =>
      match try_peek queue with
      | (Err _, queue) => (Sent, queue, st)
      | (Ok front, queue) =>
          if SESSION_PACKET_TTL <=? elapsed now (front_value front).2
          then drain_raw_loop fuel queue st
          else
            match write (front_value front).1 st with
            | (SendPacketResult.Sent, st) => drain_raw_loop fuel queue st
            | (SendPacketResult.Retry, st) =>
                (SendPacketResult.Retry, front_drop front queue, st)
            | (SendPacketResult.DropPacket, st) => drain_raw_loop fuel queue st
            end
      end
  end.

Definition drain_raw_queue (queue : Queue (Packet * Instant)) (st : St) :=
  drain_raw_loop (queue_len queue) queue st.

(** What it does to the packets: expired ones are skipped, the others are written in
    order until one must be retried; that one stays in front. *)
Fixpoint drain_spec (packets : list (Packet * Instant)) (st : St)
    : send_result * list (Packet * Instant) * St :=
  match packets with
  | [] => (Sent, [], st)
  | (packet, queued_at) :: rest =>
      if SESSION_PACKET_TTL <=? elapsed now queued_at then drain_spec rest st
      else
        match write packet st with
        | (SendPacketResult.Retry, st) => (SendPacketResult.Retry, packets, st)
        | (_, st) => drain_spec rest st
        end
  end.
End drain.

Section encrypt.
Context {D : Type} `{DtlsSession D}.
Implicit Types (s : Session D) (l : list (Session D)) (w : World).

Definition send_tunnel_packet (packet : Packet) (sw : Session D * World)
    : send_result * (Session D * World) :=
  let '(r, s, w) := with_dtls (write_status packet) sw.1 sw.2 in
  match panic_gate (str "server DTLS write") r with
  | Ok (Complete written) =>
      if written =? Z.of_nat (length packet) then
        (Sent, (s <| last_activity := now w |>
                  <| bytes_tx ::= fun n => saturating_add_u64 n written |>
                  <| packets_tx ::= fun n => saturating_add_u64 n 1 |>, note_sent (address s) packet w))
      else (SendPacketResult.DropPacket, (s, w))
  | Ok WantRead | Ok WantWrite => (SendPacketResult.Retry, (s, w))
  | Err _ => (SendPacketResult.Retry, (s, w))
  end.

Definition drain_session_plain s w : Session D * World :=
  let '(_, queue, (s, w)) :=
    drain_raw_queue (now w) send_tunnel_packet (raw_tx_queue s) (s, w) in
  (s <| raw_tx_queue := queue |>, w).

(** A handler run on every session of the list in turn. *)
Fixpoint for_each (f : Session D -> World -> Session D * World) l w
    : list (Session D) * World :=
  match l with
  | [] => ([], w)
  | s :: l => let '(s, w) := f s w in let '(l, w) := for_each f l w in (s :: l, w)
  end.

Definition flush_pending l w : list (Session D) * World := for_each drain_session_plain l w.

(** ** Routing *)
Record EncryptRouting := {
  network_address : Ipv4Addr;
  network_prefix : Z;
  allow_broadcast : bool;
  allow_multicast : bool;
}.

(** [max_by_key(last_activity)] over the candidates: the last one of the latest. *)
Fixpoint best_session (P : Session D -> bool) (best : option (nat * Session D)) (i : nat) l
    : option (nat * Session D) :=
  match l with
  | [] => best
  | s :: l =>
      let best :=
        if P s then
          match best with
          | Some (_, b) => if last_activity s <? last_activity b then best else Some (i, s)
          | None => Some (i, s)
          end
        else best in
      best_session P best (S i) l
  end.

Definition route_packet (routing : EncryptRouting) (packet : Packet) (destination : Ipv4Addr)
    l w : list (Session D) * World :=
  let broadcast :=
    ipv4_is_broadcast destination (network_address routing) (network_prefix routing) in
  let multicast := is_multicast destination in
  if (broadcast && allow_broadcast routing) || (multicast && allow_multicast routing) then
    flush_pending
      ((fun s => if authenticated s then queue_session_plain s packet w else s) <$> l) w
  else if negb broadcast && negb multicast then
    match best_session (fun s => authenticated s && (address s =? destination)) None 0 l with
    | Some (index, s) =>
        let '(s, w) := drain_session_plain (queue_session_plain s packet w) w in
        (<[index := s]> l, w)
    | None => (l, w)
    end
  else (l, w).

(** One packet of the inner loop: routing, then the retry the UDP writer asked for. *)
Definition encrypt_packet (routing : EncryptRouting) (packet : Packet) l w
    : list (Session D) * World :=
  let w := note_routed packet w in
  match ipv4_destination packet with
  | None => (l, w)
  | Some destination =>
      let '(l, w) := route_packet routing packet destination l w in
      let w := notify_progress w in
      if retry_requested w
      then flush_pending l (w <| retry_requested := false |>)
      else (l, w)
  end.

(** The end of a turn: whether some session still holds packets, so the worker must not
    sleep. *)
Definition encrypt_turn_end l w : bool * list (Session D) * World :=
  let '(l, w) := flush_pending l w in
  let pending := any (fun s => negb (queue_is_empty (raw_tx_queue s))) l in
  (pending, l, notify_progress w).
End encrypt.

(** ** Lemmas: draining *)

(** [q'] is [q] with other items. *)
Definition same_queue {T} (q q' : Queue T) : Prop :=
  capacity q' = capacity q /\ is_closed q' = is_closed q /\
  queue_generation q' = queue_generation q.

(** A queue of the same capacity, open or closed as before. *)
Definition same_frame {T} (q q' : Queue T) : Prop :=
  capacity q' = capacity q /\ is_closed q' = is_closed q.

Section drain_lemmas.
Context {St : Type} (now : Instant) (write : Packet -> St -> send_result * St).
Implicit Types (q : Queue (Packet * Instant)).

Lemma pop_front_ok {T} (q q' : Queue T) x :
  pop_front q = (Some x, q') -> queue_ok q ->
  queue_ok q' /\ (queue_len q = S (queue_len q'))%nat /\ same_queue q q'.
Proof.
  intros Hp (H0 & Hl & Hc). apply pop_front_Some in Hp as (Hi & Hcl & Hcap & Hg).
  unfold queue_ok, queue_len, same_queue in *. rewrite Hi in *. rewrite Hcap, Hcl, Hg. cbn in *.
  split_and!; try done; [lia|]. by intros ?%Hc.
Qed.

(** Putting a reservation back right after taking it restores the queue. *)
Lemma front_drop_pop {T} (q q' : Queue T) f :
  pop_front q = (Some (item f), q') -> queue_ok q ->
  items (state (front_drop f q')) = items (state q) /\ same_queue q (front_drop f q').
Proof.
  intros Hp Hok. destruct (pop_front_ok _ _ _ Hp Hok) as (Hok' & Hlen & Hcap & Hcl & Hg).
  apply pop_front_Some in Hp as (Hi & _).
  assert (is_closed q = false) as Hopen.
  { destruct (is_closed q) eqn:Hc; [|done]. destruct Hok as (_ & _ & Hnil).
    by rewrite Hnil in Hi. }
  destruct Hok as (_ & Hle & _). unfold front_drop. rewrite Hcl, Hopen.
  rewrite decide_False by lia. split; [done|]. unfold same_queue, is_closed, queue_generation in *.
  cbn. split_and!; congruence.
Qed.

Lemma drain_raw_loop_spec n q st :
  queue_ok q -> queue_len q = n ->
  exists q', drain_raw_loop now write n q st =
               ((drain_spec now write (items (state q)) st).1.1, q',
                (drain_spec now write (items (state q)) st).2) /\
    items (state q') = (drain_spec now write (items (state q)) st).1.2 /\
    same_queue q q' /\ queue_ok q'.
Proof.
  revert q st. induction n as [|n IH]; intros q st Hok Hn.
  { unfold queue_len in Hn. apply nil_length_inv in Hn. rewrite Hn. exists q. by split_and!. }
  cbn [drain_raw_loop]. destruct (try_peek q) as [[front|e] q1] eqn:Hp.
  2:{ apply try_peek_Err in Hp as (_ & Hi & _). unfold queue_len in Hn. by rewrite Hi in Hn. }
  apply try_peek_Ok in Hp. destruct (pop_front_ok _ _ _ Hp Hok) as (Hok1 & Hlen & Hcap & Hcl & Hg).
  assert (queue_len q1 = n) as Hn1 by lia.
  assert (forall st, exists q', drain_raw_loop now write n q1 st =
            ((drain_spec now write (items (state q1)) st).1.1, q',
             (drain_spec now write (items (state q1)) st).2) /\
            items (state q') = (drain_spec now write (items (state q1)) st).1.2 /\
            same_queue q q' /\ queue_ok q') as IH1.
  { intros st'. destruct (IH q1 st' Hok1 Hn1) as (q' & ? & ? & (? & ? & ?) & ?).
    exists q'. do 2 (split; [done|]). split; [|done]. split_and!; congruence. }
  pose proof (pop_front_Some _ _ _ Hp) as (Hi & _). rewrite Hi.
  unfold front_value in *. destruct front as [[packet t]]. cbn [item] in *. cbn [drain_spec fst snd].
  destruct (SESSION_PACKET_TTL <=? elapsed now t)%Z; [apply IH1|].
  destruct (write packet st) as [[] st']; [apply IH1| |apply IH1].
  destruct (front_drop_pop q q1 {| item := (packet, t) |} Hp Hok) as [Hi' Hs']. eexists. split; [done|].
  rewrite Hi'. split; [by rewrite Hi|]. split; [done|].
  destruct Hs' as (E1 & E2 & _), Hok as (? & ? & ?). unfold queue_ok, queue_len in *.
  rewrite E1, E2, Hi'. by split_and!.
Qed.
End drain_lemmas.

(** ** Lemmas: what the worker leaves alone *)
Section frame.
Context {D : Type} `{DtlsLaws D}.
Implicit Types (s : Session D) (l : list (Session D)) (w : World).

(** Identity and authentication state of a session. *)
Definition session_id s :=
  (peer s, peer_size s, address s, session_fingerprint s, established s, authenticated s,
   login_attempted s, established_at s).

(** What sending may change: the session sends by pushing to its queue. *)
Definition sending s s' : Prop :=
  session_id s' = session_id s /\ pending_inject s' = pending_inject s /\
  pushes (enc_tx_queue s) (enc_tx_queue s').

Lemma sending_refl s : sending s s.
Proof. split_and!; auto with vpn. Qed.

Lemma sending_trans s1 s2 s3 : sending s1 s2 -> sending s2 s3 -> sending s1 s3.
Proof.
  intros (E1 & I1 & P1) (E2 & I2 & P2). split_and!; [congruence|congruence|by eapply pushes_trans].
Qed.

Lemma send_tunnel_packet_frame packet s w r s' w' :
  send_tunnel_packet packet (s, w) = (r, (s', w')) ->
  sending s s' /\ raw_tx_queue s' = raw_tx_queue s /\ now w' = now w.
Proof.
  unfold send_tunnel_packet. cbn [fst snd].
  destruct (with_dtls (write_status packet) s w) as [[o s1] w1] eqn:Hw.
  destruct (with_dtls_frame _ _ _ _ _ _ Hw (write_status_sends packet)) as (d & q & g & -> & Hq & -> & _).
  destruct (panic_gate _ o) as [[n| |]|]; [destruct (_ =? _)%Z|..]; intros [= <- <- <-]; done.
Qed.

Lemma drain_spec_preserves {St} (now : Instant) (write : Packet -> St -> send_result * St)
    (P : St -> Prop) :
  (forall p st, P st -> P (write p st).2) ->
  forall ps st, P st -> P (drain_spec now write ps st).2.
Proof.
  intros Hw ps. induction ps as [|[p t] ps IH]; intros st Hst; cbn; [done|].
  destruct (_ <=? _)%Z; [by apply IH|]. specialize (Hw p st Hst).
  destruct (write p st) as [[] st']; cbn in *; auto.
Qed.

Lemma drain_spec_sublist {St} (now : Instant) (write : Packet -> St -> send_result * St) ps st :
  (drain_spec now write ps st).1.2 `suffix_of` ps.
Proof.
  revert st. induction ps as [|[p t] ps IH]; intros st; cbn; [done|].
  destruct (_ <=? _)%Z; [by apply suffix_cons_r|].
  destruct (write p st) as [[] st']; cbn; [by apply suffix_cons_r|done|by apply suffix_cons_r].
Qed.

Lemma drain_session_plain_frame s w :
  queue_ok (raw_tx_queue s) ->
  sending s (drain_session_plain s w).1 /\
  queue_ok (raw_tx_queue (drain_session_plain s w).1) /\
  same_frame (raw_tx_queue s) (raw_tx_queue (drain_session_plain s w).1) /\
  items (state (raw_tx_queue (drain_session_plain s w).1)) `suffix_of`
    items (state (raw_tx_queue s)) /\
  now (drain_session_plain s w).2 = now w.
Proof.
  intros Hok. unfold drain_session_plain, drain_raw_queue.
  destruct (drain_raw_loop_spec (now w) send_tunnel_packet _ (raw_tx_queue s) (s, w) Hok eq_refl)
    as (q' & -> & Hi & (Hcap & Hcl & _) & Hok').
  pose proof (drain_spec_preserves (now w) send_tunnel_packet
    (fun sw => sending s sw.1 /\ now sw.2 = now w)) as Hpres.
  specialize (Hpres ltac:(intros p [s1 w1] [Hs Hw]; cbn in Hs, Hw;
    destruct (send_tunnel_packet p (s1, w1)) as [r [s2 w2]] eqn:E;
    apply send_tunnel_packet_frame in E as (E1 & _ & E2); cbn; split;
      [by eapply sending_trans|congruence])
    (items (state (raw_tx_queue s))) (s, w) ltac:(split; [apply sending_refl|done])).
  pose proof (drain_spec_sublist (now w) send_tunnel_packet (items (state (raw_tx_queue s))) (s, w)) as Hsub.
  rewrite <-Hi in Hsub. destruct (drain_spec _ _ _ _) as [[r rest] [s1 w1]].
  cbn in *. destruct Hpres as [Hs Hw]. by split_and!; try apply Hs.
Qed.

Lemma for_each_lookup (f : Session D -> World -> Session D * World) (R : Session D -> Session D -> Prop) l w :
  (forall s w, s ∈ l -> R s (f s w).1) -> Forall2 R l (for_each f l w).1.
Proof.
  revert w. induction l as [|s l IH]; intros w HR; cbn; [constructor|].
  pose proof (HR s w ltac:(by left)) as Hs. destruct (f s w) as [s1 w1].
  specialize (IH w1 ltac:(intros; apply HR; by right)). destruct (for_each f l w1).
  by constructor.
Qed.

Lemma best_session_spec P best i l :
  match best_session P best i l with
  | Some (j, s) => best = Some (j, s) \/ (i <= j /\ l !! (j - i) = Some s /\ P s = true)%nat
  | None => best = None /\ Forall (fun s => P s = false) l
  end.
Proof.
  revert best i. induction l as [|s l IH]; intros best i; cbn [best_session].
  { destruct best as [[j s]|]; [by left|done]. }
  set (b := if P s then _ else _). specialize (IH b (S i)).
  destruct (best_session P b (S i) l) as [[j s']|].
  - destruct IH as [Hb|(Hj & Hl & HP)].
    + unfold b in Hb. destruct (P s) eqn:Hs; [|by left].
      destruct best as [[k sb]|]; [destruct (_ <? _)%Z|]; simplify_eq; try (by left);
        right; (split_and!; [lia|rewrite Nat.sub_diag; done|done]).
    + right. split_and!; [lia| |done]. replace (j - i)%nat with (S (j - S i)) by lia. done.
  - destruct IH as [Hb HF]. unfold b in Hb. destruct (P s) eqn:Hs.
    + destruct best as [[k sb]|]; [by destruct (_ <? _)%Z|done].
    + split; [done|]. by constructor.
Qed.
End frame.

(** ** What the worker may put into a session's queue *)
Section isolation.
Context {D : Type} `{DtlsLaws D}.
Implicit Types (s : Session D) (l : list (Session D)) (w : World).

(** The routing rule: a tunnel packet may go to an authenticated session if it is
    addressed to that session, or is a broadcast or multicast the server forwards. *)
Definition may_receive (routing : EncryptRouting) s (packet : Packet) : Prop :=
  authenticated s = true /\
  exists destination, ipv4_destination packet = Some destination /\
    ((ipv4_is_broadcast destination (network_address routing) (network_prefix routing) = true /\
        allow_broadcast routing = true) \/
     (is_multicast destination = true /\ allow_multicast routing = true) \/
     (destination = address s /\ is_multicast destination = false /\
      ipv4_is_broadcast destination (network_address routing) (network_prefix routing) = false)).

(** A session after the worker's turn: same identity, and its queue holds what it held
    and packets it may receive. *)
Definition enc_rel (routing : EncryptRouting) s s' : Prop :=
  sending s s' /\ queue_ok (raw_tx_queue s') /\
  same_frame (raw_tx_queue s) (raw_tx_queue s') /\
  forall pt, pt ∈ items (state (raw_tx_queue s')) ->
    pt ∈ items (state (raw_tx_queue s)) \/ may_receive routing s pt.1.

Lemma enc_rel_drain routing s w :
  queue_ok (raw_tx_queue s) -> enc_rel routing s (drain_session_plain s w).1.
Proof.
  intros Hok. destruct (drain_session_plain_frame s w Hok) as (Hid & Hok' & Hc & Hs & _).
  do 3 (split; [done|]). intros pt Hpt. left. destruct Hs as [k ->]. set_solver.
Qed.

Lemma enc_rel_queue routing s packet w :
  queue_ok (raw_tx_queue s) -> may_receive routing s packet ->
  enc_rel routing s (queue_session_plain s packet w).
Proof.
  intros Hok Hm. split; [split_and!; try done; apply pushes_refl|]. cbn. split; [auto with vpn|].
  split; [split; apply push_frame|]. intros pt [-> | Hpt]%push_elem; [by right|by left].
Qed.

Lemma may_receive_id routing s s' packet :
  session_id s' = session_id s -> may_receive routing s' packet -> may_receive routing s packet.
Proof. intros [= _ _ Ha _ _ Hau _ _]. unfold may_receive. by rewrite Ha, Hau. Qed.

Lemma enc_rel_trans routing s1 s2 s3 :
  enc_rel routing s1 s2 -> enc_rel routing s2 s3 -> enc_rel routing s1 s3.
Proof.
  intros (E1 & _ & [C1 O1] & Q1) (E2 & Hok & [C2 O2] & Q2). split; [by eapply sending_trans|].
  split; [done|]. split; [by split; etrans|]. intros pt [Hpt|Hm]%Q2; [by apply Q1|]. right.
  eapply may_receive_id; [apply E1|done].
Qed.

Lemma enc_rel_refl routing s : queue_ok (raw_tx_queue s) -> enc_rel routing s s.
Proof. intros Hok. split; [apply sending_refl|]. split_and!; try done; try apply Hok. by left. Qed.

Lemma flush_pending_rel routing l w :
  Forall (fun s => queue_ok (raw_tx_queue s)) l ->
  Forall2 (enc_rel routing) l (flush_pending l w).1.
Proof.
  intros Hl. apply for_each_lookup. intros s w' Hs. rewrite Forall_forall in Hl.
  by apply enc_rel_drain, Hl.
Qed.

Lemma Forall2_enc_rel_ok routing l l' :
  Forall2 (enc_rel routing) l l' -> Forall (fun s => queue_ok (raw_tx_queue s)) l'.
Proof. induction 1 as [|s s' l l' (_ & ? & _)]; by constructor. Qed.

Lemma Forall2_enc_rel_trans routing l1 l2 l3 :
  Forall2 (enc_rel routing) l1 l2 -> Forall2 (enc_rel routing) l2 l3 ->
  Forall2 (enc_rel routing) l1 l3.
Proof.
  intros H12. revert l3. induction H12 as [|s1 s2 l1 l2 H1 _ IH]; intros l3 H23.
  - by apply Forall2_nil_inv_l in H23 as ->.
  - apply Forall2_cons_inv_l in H23 as (s3 & l3' & H2 & H23 & ->).
    constructor; [by eapply enc_rel_trans|by apply IH].
Qed.

Lemma Forall2_enc_rel_refl routing l :
  Forall (fun s => queue_ok (raw_tx_queue s)) l -> Forall2 (enc_rel routing) l l.
Proof. induction 1; constructor; auto using enc_rel_refl. Qed.

(** Queueing for every authenticated session, then flushing. *)
Lemma flood_rel routing packet l w :
  Forall (fun s => queue_ok (raw_tx_queue s)) l ->
  (forall s, authenticated s = true -> may_receive routing s packet) ->
  Forall2 (enc_rel routing) l
    (flush_pending ((fun s => if authenticated s then queue_session_plain s packet w else s) <$> l) w).1.
Proof.
  intros Hl Hm.
  assert (Forall2 (enc_rel routing) l
    ((fun s => if authenticated s then queue_session_plain s packet w else s) <$> l)) as Hq.
  { induction Hl as [|s l Hs _ IH]; [constructor|]. cbn [fmap list_fmap]. constructor; [|done].
    destruct (authenticated s) eqn:Ha; [by apply enc_rel_queue, Hm|by apply enc_rel_refl]. }
  eapply Forall2_enc_rel_trans; [exact Hq|]. apply flush_pending_rel.
  by eapply Forall2_enc_rel_ok.
Qed.

Lemma Forall2_insert_r (R : Session D -> Session D -> Prop) l i s s' :
  Forall2 R l l -> l !! i = Some s -> R s s' -> Forall2 R l (<[i := s']> l).
Proof.
  intros Hl Hi HR. rewrite <-(list_insert_id l i s) at 1 by done. by apply Forall2_insert.
Qed.

Lemma route_packet_rel routing packet destination l w :
  ipv4_destination packet = Some destination ->
  Forall (fun s => queue_ok (raw_tx_queue s)) l ->
  Forall2 (enc_rel routing) l (route_packet routing packet destination l w).1.
Proof.
  intros Hd Hl. unfold route_packet.
  destruct ((ipv4_is_broadcast _ _ _ && _) || _) eqn:Hflood.
  { apply flood_rel; [done|]. intros s Ha. split; [done|]. exists destination. split; [done|].
    apply orb_true_iff in Hflood as [[? ?]%andb_true_iff|[? ?]%andb_true_iff]; [by left|by right; left]. }
  destruct (negb _ && negb _) eqn:Huni; [|by apply Forall2_enc_rel_refl].
  apply andb_true_iff in Huni as [Hb%negb_true_iff Hm%negb_true_iff].
  pose proof (best_session_spec (fun s => authenticated s && (address s =? destination)) None 0 l) as Hbest.
  destruct (best_session _ None 0 l) as [[i s]|]; [|by apply Forall2_enc_rel_refl].
  destruct Hbest as [?|(_ & Hi & [Ha Haddr%Z.eqb_eq]%andb_true_iff)]; [done|].
  rewrite Nat.sub_0_r in Hi.
  assert (queue_ok (raw_tx_queue s)) as Hok by (by eapply Forall_lookup_1 in Hl).
  assert (enc_rel routing s (queue_session_plain s packet w)) as Hq.
  { apply enc_rel_queue; [done|]. split; [done|]. exists destination. split; [done|]. right. by right. }
  pose proof (enc_rel_drain routing (queue_session_plain s packet w) w ltac:(apply Hq)) as Hdr.
  destruct (drain_session_plain _ w) as [s1 w1]. cbn [fst] in *.
  eapply Forall2_insert_r; [by apply Forall2_enc_rel_refl|done|]. by eapply enc_rel_trans.
Qed.

Lemma encrypt_packet_rel routing packet l w :
  Forall (fun s => queue_ok (raw_tx_queue s)) l ->
  Forall2 (enc_rel routing) l (encrypt_packet routing packet l w).1.
Proof.
  intros Hl. unfold encrypt_packet.
  destruct (ipv4_destination packet) as [destination|] eqn:Hd; [|by apply Forall2_enc_rel_refl].
  pose proof (route_packet_rel routing packet destination l (note_routed packet w) Hd Hl) as Hr.
  destruct (route_packet _ _ _ _ _) as [l1 w1]. cbn [fst] in Hr.
  destruct (retry_requested _); [|done].
  eapply Forall2_enc_rel_trans; [exact Hr|]. apply flush_pending_rel.
  by eapply Forall2_enc_rel_ok.
Qed.
End isolation.

(** ** Properties *)

(** Draining a session's plaintext queue is first-in first-out with expiry: with a
    well-formed queue the loop ends, skips exactly the packets older than the time to live,
    writes the others in order, and stops at the first one the DTLS session cannot take yet,
    which stays in front of the packets behind it with its time stamp. *)
Theorem drain_raw_queue_fifo {St} now (write : Packet -> St -> send_result * St) queue st :
  queue_ok queue ->
  exists queue',
    drain_raw_queue now write queue st =
      ((drain_spec now write (items (state queue)) st).1.1, queue',
       (drain_spec now write (items (state queue)) st).2) /\
    items (state queue') = (drain_spec now write (items (state queue)) st).1.2 /\
    same_queue queue queue' /\ queue_ok queue'.
Proof. intros Hok. by apply drain_raw_loop_spec. Qed.

Definition example_raw_queue : Queue (Packet * Instant) :=
  {| capacity := 4; state := {| items := [([1], 0); ([2], from_secs 9); ([3], from_secs 9)];
                                closed := false; generation := 3 |} |}.

(** A writer that records what it is given and cannot take [3] yet. *)
Definition example_write (p : Packet) (sent : list Packet) : send_result * list Packet :=
  if bool_decide (p = [3]) then (SendPacketResult.Retry, sent) else (Sent, sent ++ [p]).

Lemma drain_raw_queue_fifo_witness :
  exists queue', drain_raw_queue (from_secs 10) example_write example_raw_queue [] =
    (SendPacketResult.Retry, queue', [[2]]) /\ items (state queue') = [([3], from_secs 9)].
Proof.
  destruct (drain_raw_queue_fifo (from_secs 10) example_write example_raw_queue [])
    as (q' & Heq & Hi & _).
  - split_and!; cbn; [lia|lia|done].
  - exists q'. split; [exact Heq|exact Hi].
Defined.

(** A tunnel packet reaches only the sessions it is for: whatever the encrypt worker
    does with a packet from the TUN device, no session's identity, authentication or queue
    bound changes, and a session's plaintext queue gains nothing but that routing's packets:
    an authenticated session's own unicast traffic, or a broadcast or multicast that the
    configuration forwards. *)
Theorem encrypt_packet_isolated {D} `{DtlsLaws D} routing packet (l : list (Session D)) w i s' :
  Forall (fun s => queue_ok (raw_tx_queue s)) l ->
  (encrypt_packet routing packet l w).1 !! i = Some s' ->
  exists s, l !! i = Some s /\ session_id s' = session_id s /\ queue_ok (raw_tx_queue s') /\
    forall pt, pt ∈ items (state (raw_tx_queue s')) ->
      pt ∈ items (state (raw_tx_queue s)) \/ may_receive routing s pt.1.
Proof.
  intros Hl Hi. pose proof (encrypt_packet_rel routing packet l w Hl) as Hrel.
  destruct (Forall2_lookup_r _ _ _ _ _ Hrel Hi) as (s & Hs & (Hid & _) & Hok & _ & Hq).
  by exists s.
Qed.

Lemma best_session_max {D} (P : Session D -> bool) best i l j s :
  best_session P best i l = Some (j, s) ->
  (forall k sb, best = Some (k, sb) -> (k < i)%nat) ->
  (forall k sb, best = Some (k, sb) -> last_activity sb <= last_activity s /\ (k <= j)%nat) /\
  (forall k s', l !! k = Some s' -> P s' = true ->
     last_activity s' <= last_activity s /\
     ((j < i + k)%nat -> last_activity s' < last_activity s)).
Proof.
  revert best i. induction l as [|s0 l IH]; intros best i; cbn [best_session].
  { intros -> Hlt. split; [intros k sb [= <- <-]; lia|done]. }
  set (b := if P s0 then _ else _). intros Hb Hlt.
  destruct (IH b (S i) Hb) as [IH1 IH2].
  { intros k sb Hk. unfold b in Hk. destruct (P s0); [|apply Hlt in Hk; lia].
    destruct best as [[k' b']|]; [destruct (_ <? _)|]; simplify_eq; [|lia..].
    specialize (Hlt _ _ eq_refl). lia. }
  assert (forall k sb, best = Some (k, sb) -> exists k' b', b = Some (k', b') /\
            last_activity sb <= last_activity b' /\ (k <= k')%nat) as Hmono.
  { intros k sb ->. unfold b. specialize (Hlt _ _ eq_refl).
    destruct (P s0); [|by exists k, sb].
    destruct (Z.ltb_spec (last_activity s0) (last_activity sb)); [by exists k, sb|].
    exists i, s0. split_and!; [done|lia|lia]. }
  split.
  - intros k sb Hk. destruct (Hmono _ _ Hk) as (k' & b' & Hb' & ? & ?).
    destruct (IH1 _ _ Hb'). split; lia.
  - intros [|k] s' Hk HP; cbn in Hk.
    + injection Hk as ->. rewrite Nat.add_0_r. unfold b in IH1. rewrite HP in IH1.
      destruct best as [[k' b']|].
      * destruct (Z.ltb_spec (last_activity s') (last_activity b')).
        -- destruct (IH1 _ _ eq_refl). split; lia.
        -- destruct (IH1 _ _ eq_refl). split; [lia|]. lia.
      * destruct (IH1 _ _ eq_refl). split; lia.
    + destruct (IH2 k s' Hk HP) as [? Hlt']. split; [done|]. intros. apply Hlt'. lia.
Qed.

(** A unicast packet is handed to the session its destination names: when some
    authenticated session has the destination address, the packet is queued on the one that
    was active last (the last such in the list), whose queue is then written out, and no
    other session is touched. *)
Theorem route_packet_unicast {D} `{DtlsSession D} routing packet destination (l : list (Session D)) w :
  ipv4_is_broadcast destination (network_address routing) (network_prefix routing) = false ->
  is_multicast destination = false ->
  (exists s, s ∈ l /\ authenticated s = true /\ address s = destination) ->
  exists i s, l !! i = Some s /\ authenticated s = true /\ address s = destination /\
    (forall k s', l !! k = Some s' -> authenticated s' = true -> address s' = destination ->
       last_activity s' <= last_activity s /\ ((i < k)%nat -> last_activity s' < last_activity s)) /\
    route_packet routing packet destination l w =
      let '(s', w') := drain_session_plain (queue_session_plain s packet w) w in
      (<[i := s']> l, w').
Proof.
  intros Hb Hm (s0 & Hin & Ha & Hd). unfold route_packet. rewrite Hb, Hm. cbn [andb orb negb].
  set (P := fun s : Session D => authenticated s && (address s =? destination)).
  assert (forall s, P s = true <-> authenticated s = true /\ address s = destination) as HP.
  { intros s. unfold P. by rewrite andb_true_iff, Z.eqb_eq. }
  pose proof (best_session_spec P None 0 l) as Hbest.
  destruct (best_session P None 0 l) as [[i s]|] eqn:Hbs.
  2:{ destruct Hbest as [_ HF]. rewrite Forall_forall in HF. apply HF in Hin.
      assert (P s0 = true) by (by apply HP). congruence. }
  destruct Hbest as [?|(_ & Hi & HPs)]; [done|]. rewrite Nat.sub_0_r in Hi.
  apply HP in HPs as [Has Hds]. exists i, s. split_and!; try done.
  intros k s' Hk Hak Hdk. destruct (best_session_max _ _ _ _ _ _ Hbs) as [_ Hmax]; [done|].
  apply (Hmax k s'); [done|]. by apply HP.
Qed.

Definition example_routing : EncryptRouting :=
  {| network_address := ipv4_new 10 8 1 0; network_prefix := 24; allow_broadcast := false;
     allow_multicast := false |}.

Definition example_sessions : list (Session PlainDtls) :=
  [connected (ipv4_new 10 8 1 2) (example_session (ipv4_new 192 0 2 1) 5000 (str "a"));
   connected (ipv4_new 10 8 1 3) (example_session (ipv4_new 192 0 2 2) 5000 (str "b"))].

Definition example_packet (source destination : Ipv4Addr) : Packet :=
  [69; 0; 0; 20; 0; 0; 0; 0; 0; 0; 0; 0] ++ octets source ++ octets destination.

Lemma route_packet_unicast_witness :
  exists i s, example_sessions !! i = Some s /\ address s = ipv4_new 10 8 1 3 /\
    ((fun s => queue_len (enc_tx_queue s)) <$>
       (route_packet example_routing (example_packet (ipv4_new 10 8 1 1) (ipv4_new 10 8 1 3))
          (ipv4_new 10 8 1 3) example_sessions example_world).1) = [0; 1]%nat.
Proof.
  destruct (route_packet_unicast example_routing
              (example_packet (ipv4_new 10 8 1 1) (ipv4_new 10 8 1 3)) (ipv4_new 10 8 1 3)
              example_sessions example_world) as (i & s & Hi & Ha & Hd & _ & Hr).
  - vm_compute. reflexivity.
  - vm_compute. reflexivity.
  - eexists. split; [right; left|]. split; vm_compute; reflexivity.
  - exists i, s. split_and!; [done..|]. vm_compute. reflexivity.
Defined.

Lemma encrypt_packet_isolated_witness :
  exists s, example_sessions !! 0%nat = Some s /\ authenticated s = true.
Proof.
  destruct (encrypt_packet example_routing (example_packet (ipv4_new 10 8 1 1) (ipv4_new 10 8 1 3))
              example_sessions example_world) as [l' w'] eqn:Hr.
  assert (exists s', l' !! 0%nat = Some s') as [s' Hs'].
  { vm_compute in Hr. injection Hr as <- _. by eexists. }
  destruct (encrypt_packet_isolated example_routing
              (example_packet (ipv4_new 10 8 1 1) (ipv4_new 10 8 1 3)) example_sessions
              example_world 0 s') as (s & Hs & _).
  - repeat (apply Forall_cons; split; [unfold queue_ok; cbn; unfold SESSION_TX_QUEUE_CAPACITY; split_and!; [lia|lia|done]|]).
    apply Forall_nil_2.
  - by rewrite Hr.
  - exists s. split; [done|]. vm_compute in Hs. injection Hs as <-. reflexivity.
Defined.
