(* ===== verification/UdpWrite.v ===== *)
(** * The UDP writer

    Models [src/server/udp_write.rs] and [send_encrypted_datagram] of
    [src/server/socket.rs]: each pass drains every session's queue of encrypted datagrams
    to the shared socket and removes the sessions whose peer cannot be written to. *)

From S2P Require Import Prelude Text Net Queue DtlsApi Session Encrypt.

Local Open Scope Z_scope.

Section udp_write.
(** [libc::sendto] on the server's socket: the number of bytes, or the error number. [K]
    is the state of the kernel. *)
Context {K : Type} (sendto : list Z -> Z -> Packet -> K -> result Z Z * K).

Definition send_encrypted_datagram (peer : list Z) (peer_size : Z) (packet : Packet) (k : K)
    : io Z * K :=
  let '(r, k) := sendto peer peer_size packet k in (map_err Os r, k).

(** The loop of [drain_encrypted_queue]; the queue's length bounds the turns. The error
    of a partial write is [WriteZero]. *)
Fixpoint drain_encrypted_loop (fuel : nat) (now : Instant)
    (send : Packet -> K -> io Z * K) (queue : Queue EncryptedDatagram) (k : K)
    : io bool * Queue EncryptedDatagram * K :=
  match fuel with
  | O => (Ok false, queue, k)
  | S fuel =>
      match try_peek queue with
      | (Err _, queue) => (Ok false, queue, k)
      | (Ok front, queue) =>
          if SESSION_PACKET_TTL <=? elapsed now (enqueued_at (front_value front))
          then drain_encrypted_loop fuel now send queue k
          else
            let bytes := dg_bytes (front_value front) in
            match send bytes k with
            | (Ok written, k) =>
                if written =? Z.of_nat (length bytes)
                then drain_encrypted_loop fuel now send queue k
                else (Err (Custom WriteZero
                             (str "partial UDP datagram write: " ++ display_uint written
                              ++ str "/" ++ display_uint (Z.of_nat (length bytes)))), queue, k)
            | (Err error, k) =>
                if decide (kind error = WouldBlock)
                then (Ok true, front_drop front queue, k)
                else (Err error, front_drop front queue, k)
            end
      end
  end.

Definition drain_encrypted_queue (now : Instant) (send : Packet -> K -> io Z * K)
    (queue : Queue EncryptedDatagram) (k : K) : io bool * Queue EncryptedDatagram * K :=
  drain_encrypted_loop (queue_len queue) now send queue k.

Context {D : Type}.
Implicit Types (s : Session D) (l : list (Session D)) (w : World).

Record Pass := { socket_blocked : bool; sent_any : bool; remove : list nat }.

(** One session of the pass. *)
Definition write_session (index : nat) s (p : Pass) w (k : K) : Session D * Pass * K :=
  let queue_was_nonempty := negb (queue_is_empty (enc_tx_queue s)) in
  let '(r, queue, k) :=
    drain_encrypted_queue (now w) (send_encrypted_datagram (peer s) (peer_size s))
      (enc_tx_queue s) k in
  let s := s <| enc_tx_queue := queue |> in
  match r with
  | Ok blocked =>
      (s, {| socket_blocked := socket_blocked p || blocked;
             sent_any := sent_any p || (queue_was_nonempty && negb blocked);
             remove := remove p |}, k)
  | Err _ =>
      (s <| disconnect_reason := str "udp_write_error" |>,
       {| socket_blocked := socket_blocked p; sent_any := sent_any p;
          remove := remove p ++ [index] |}, k)
  end.

Fixpoint write_sessions (index : nat) l (p : Pass) w (k : K) : list (Session D) * Pass * K :=
  match l with
  | [] => ([], p, k)
  | s :: l =>
      let '(s, p, k) := write_session index s p w k in
      let '(l, p, k) := write_sessions (S index) l p w k in
      (s :: l, p, k)
  end.

(** [for index in remove.into_iter().rev() { sessions.swap_remove(index); }] *)
Definition remove_all (indices : list nat) l w : list (Session D) * World :=
  foldr (fun index '(l, w) => remove_session index l w) (l, w) indices.

(** The part of a pass that holds the session mutex. *)
Definition udp_write_pass l w (k : K) : list (Session D) * Pass * World * K :=
  let '(l, p, k) :=
    write_sessions 0 l {| socket_blocked := false; sent_any := false; remove := [] |} w k in
  let '(l, w) := remove_all (remove p) l w in
  (l, p, w, k).

(** The rest of the pass: ask the encrypt worker for a retry, or sleep until the next
    signal when nothing was sent and nothing is waiting. The list is the one at that
    moment; [true] means the thread waits on [signal]. *)
Definition udp_write_after (p : Pass) (running active : bool) l w : bool * World :=
  if socket_blocked p then (false, notify_tun_queue (request_retry w))
  else if negb (sent_any p) then
    let encrypted_pending := any (fun s => negb (queue_is_empty (enc_tx_queue s))) l in
    (negb encrypted_pending && running && active, w)
  else (false, notify_tun_queue (request_retry w)).
End udp_write.

(** ** Lemmas *)
Section lemmas.
Context {K : Type} (sendto : list Z -> Z -> Packet -> K -> result Z Z * K) {D : Type}.
Implicit Types (s : Session D) (l : list (Session D)) (w : World).

(** What draining does to the datagrams: the reference definition. *)
Fixpoint drain_encrypted_spec (now : Instant) (send : Packet -> K -> io Z * K)
    (l : list EncryptedDatagram) (k : K) : bool * list EncryptedDatagram * K :=
  match l with
  | [] => (true, [], k)
  | d :: rest =>
      if SESSION_PACKET_TTL <=? elapsed now (enqueued_at d)
      then drain_encrypted_spec now send rest k
      else
        match send (dg_bytes d) k with
        | (Ok written, k) =>
            if written =? Z.of_nat (length (dg_bytes d))
            then drain_encrypted_spec now send rest k
            else (false, rest, k)
        | (Err error, k) =>
            if decide (kind error = WouldBlock) then (true, l, k) else (false, l, k)
        end
  end.

Lemma drain_encrypted_loop_spec n now send (q : Queue EncryptedDatagram) (k : K) :
  queue_ok q -> queue_len q = n ->
  exists r q', drain_encrypted_loop n now send q k = (r, q', (drain_encrypted_spec now send (items (state q)) k).2) /\
    is_ok r = (drain_encrypted_spec now send (items (state q)) k).1.1 /\
    items (state q') = (drain_encrypted_spec now send (items (state q)) k).1.2 /\
    (r = Ok false -> items (state q') = []) /\ (r = Ok true -> items (state q') <> []) /\
    same_queue q q' /\ queue_ok q'.
Proof.
  revert q k. induction n as [|n IH]; intros q k Hok Hn.
  { unfold queue_len in Hn. apply nil_length_inv in Hn. exists (Ok false), q. rewrite Hn.
    split_and!; try done; apply Hok. }
  cbn [drain_encrypted_loop]. destruct (try_peek q) as [[front|e] q1] eqn:Hp.
  2:{ apply try_peek_Err in Hp as (_ & Hi & _). unfold queue_len in Hn. by rewrite Hi in Hn. }
  apply try_peek_Ok in Hp. destruct (pop_front_ok _ _ _ Hp Hok) as (Hok1 & Hlen & Hsame).
  assert (queue_len q1 = n) as Hn1 by lia.
  pose proof (pop_front_Some _ _ _ Hp) as (Hi & _).
  destruct (front_drop_pop _ _ _ Hp Hok) as [Hi' Hs'].
  assert (queue_ok (front_drop front q1)) as Hokd.
  { destruct Hs' as (E1 & E2 & _), Hok as (? & ? & ?). unfold queue_ok, queue_len in *.
    rewrite E1, E2, Hi'. by split_and!. }
  assert (forall k, exists r q', drain_encrypted_loop n now send q1 k = (r, q', (drain_encrypted_spec now send (items (state q1)) k).2) /\
    is_ok r = (drain_encrypted_spec now send (items (state q1)) k).1.1 /\
    items (state q') = (drain_encrypted_spec now send (items (state q1)) k).1.2 /\
    (r = Ok false -> items (state q') = []) /\ (r = Ok true -> items (state q') <> []) /\
    same_queue q q' /\ queue_ok q') as IH1.
  { intros k'. destruct (IH q1 k' Hok1 Hn1) as (r & q' & ? & ? & ? & ? & ? & (? & ? & ?) & ?).
    destruct Hsame as (? & ? & ?). exists r, q'. do 5 (split; [done|]). split; [|done].
    split_and!; congruence. }
  unfold front_value. rewrite Hi. cbn [drain_encrypted_spec].
  destruct (_ <=? _) eqn:Httl; [apply IH1|].
  destruct (send (dg_bytes (item front)) k) as [[written|error] k1] eqn:Hsend.
  - destruct (_ =? _); [apply IH1|]. eexists _, q1. do 5 (split; [done|]). by split.
  - case_decide; eexists _, (front_drop front q1); rewrite Hi', Hi; cbn [fst snd is_ok];
      do 5 (split; [done|]); by split.
Qed.
End lemmas.

Section pass_lemmas.
Context {K : Type} (sendto : list Z -> Z -> Packet -> K -> result Z Z * K) {D : Type}.
Implicit Types (s : Session D) (l : list (Session D)) (w : World).

(** [s'] is [s] after the writer drained its queue; [failed] tells whether its peer could
    not be written to. *)
Definition drained w s s' (failed : bool) : Prop :=
  exists k r q k',
    drain_encrypted_queue (now w) (send_encrypted_datagram sendto (peer s) (peer_size s))
      (enc_tx_queue s) k = (r, q, k') /\
    failed = is_err r /\
    s' = (if failed then s <| enc_tx_queue := q |> <| disconnect_reason := str "udp_write_error" |>
          else s <| enc_tx_queue := q |>).

Lemma write_session_drained index s p w k s' p' k' :
  write_session sendto index s p w k = (s', p', k') ->
  exists failed, drained w s s' failed /\
    remove p' = remove p ++ (if failed then [index] else []).
Proof.
  unfold write_session. destruct (drain_encrypted_queue _ _ _ _) as [[r q] k1] eqn:Hd.
  destruct r as [b|e]; intros [= <- <- _].
  - exists false. split; [by exists k, (Ok b), q, k1|]. by rewrite (right_id_L [] (++)).
  - exists true. split; [by exists k, (Err e), q, k1|done].
Qed.

Lemma write_sessions_drained index l p w k l' p' k' :
  write_sessions sendto index l p w k = (l', p', k') ->
  StronglySorted lt (remove p) -> Forall (fun i => i < index)%nat (remove p) ->
  length l' = length l /\ StronglySorted lt (remove p') /\
  Forall (fun i => i < index + length l)%nat (remove p') /\
  (forall i, i ∈ remove p' -> i ∈ remove p \/ index <= i)%nat /\
  (forall i, i ∈ remove p -> i ∈ remove p') /\
  forall i s', l' !! i = Some s' -> exists s failed, l !! i = Some s /\ drained w s s' failed /\
    ((index + i)%nat ∈ remove p' <-> failed = true).
Proof.
  revert index p k l' p' k'. induction l as [|s l IH]; intros index p k l' p' k'; cbn [write_sessions].
  { intros [= <- <- <-] Hs Hlt. split_and!; try done; [|by left].
    eapply Forall_impl; [done|]. cbn. lia. }
  destruct (write_session _ _ _ _ _ _) as [[s1 p1] k1] eqn:Hw.
  destruct (write_sessions _ (S index) l p1 w k1) as [[l2 p2] k2] eqn:Hl. intros [= <- <- <-] Hs Hlt.
  apply write_session_drained in Hw as (failed & Hd & Hr).
  assert (Forall (fun i => i < S index)%nat (remove p1)) as Hlt1.
  { rewrite Hr. apply Forall_app. split; [eapply Forall_impl; [done|]; cbn; lia|].
    destruct failed; repeat constructor. }
  destruct (IH _ _ _ _ _ _ Hl) as (Hlen & Hs2 & Hlt2 & Hnew & Hold & Hi); [|done|].
  { rewrite Hr. apply StronglySorted_app_2; [|done|by destruct failed; repeat constructor].
    intros x y Hx Hy. rewrite Forall_forall in Hlt. apply Hlt in Hx.
    destruct failed; [apply list_elem_of_singleton in Hy; lia|by apply elem_of_nil in Hy]. }
  split_and!; cbn [length]; [lia|done| | | |].
  - eapply Forall_impl; [done|]. cbn. lia.
  - intros i [Hi1|?]%Hnew; [|right; lia]. rewrite Hr in Hi1. apply elem_of_app in Hi1 as [?|Hi1]; [by left|].
    right. destruct failed; [apply list_elem_of_singleton in Hi1; lia|by apply elem_of_nil in Hi1].
  - intros i Hin. apply Hold. rewrite Hr. set_solver.
  - intros [|i] s' Hs'; cbn in Hs'.
    + injection Hs' as <-. exists s, failed. split_and!; [done..|]. rewrite Nat.add_0_r. split.
      * intros Hin. destruct (Hnew _ Hin) as [Hin1|?]; [|lia]. rewrite Hr in Hin1.
        apply elem_of_app in Hin1 as [Hin1|Hin1].
        -- rewrite Forall_forall in Hlt. apply Hlt in Hin1. lia.
        -- by destruct failed; [|apply elem_of_nil in Hin1].
      * intros ->. apply Hold. rewrite Hr. set_solver.
    + destruct (Hi i s' Hs') as (s0 & f & ? & ? & ?). exists s0, f.
      by rewrite Nat.add_succ_r.
Qed.

Lemma remove_all_fst idx l w : (remove_all idx l w).1 = foldr swap_remove l idx.
Proof.
  induction idx as [|i idx IH]; [done|]. cbn [remove_all foldr].
  change (foldr _ (l, w) idx) with (remove_all idx l w). rewrite <-IH.
  by destruct (remove_all idx l w).
Qed.
End pass_lemmas.

(** ** Properties *)

(** Draining a session's queue of encrypted datagrams ends and is first-in first-out
    with expiry: expired datagrams are skipped, the others are sent whole and in order until
    the socket blocks, which keeps that datagram in front for the next pass, or fails. The
    result is [Ok(false)] exactly with an empty queue, [Ok(true)] only with one that still
    waits. *)
Theorem drain_encrypted_queue_fifo {K} now (send : Packet -> K -> io Z * K) queue (k : K) :
  queue_ok queue ->
  exists r queue',
    drain_encrypted_queue now send queue k =
      (r, queue', (drain_encrypted_spec now send (items (state queue)) k).2) /\
    is_ok r = (drain_encrypted_spec now send (items (state queue)) k).1.1 /\
    items (state queue') = (drain_encrypted_spec now send (items (state queue)) k).1.2 /\
    (r = Ok false -> items (state queue') = []) /\ (r = Ok true -> items (state queue') <> []) /\
    same_queue queue queue' /\ queue_ok queue'.
Proof. intros Hok. by apply drain_encrypted_loop_spec. Qed.

Definition example_enc_queue : Queue EncryptedDatagram :=
  queue_of 4 [{| dg_bytes := [1]; enqueued_at := 0 |};
              {| dg_bytes := [2; 2]; enqueued_at := from_secs 9 |};
              {| dg_bytes := [3]; enqueued_at := from_secs 9 |}].

(** A kernel that accepts whole datagrams until [n] of them are sent. *)
Definition example_sendto (peer : list Z) (peer_size : Z) (packet : Packet) (n : nat)
    : result Z Z * nat :=
  match n with
  | O => (Err EAGAIN, O)
  | S n => (Ok (Z.of_nat (length packet)), n)
  end.

Lemma drain_encrypted_queue_fifo_witness :
  exists queue', drain_encrypted_queue (from_secs 10)
      (send_encrypted_datagram example_sendto [] 0) example_enc_queue 1%nat = (Ok true, queue', 0%nat) /\
    items (state queue') = [{| dg_bytes := [3]; enqueued_at := from_secs 9 |}].
Proof.
  destruct (drain_encrypted_queue_fifo (from_secs 10) (send_encrypted_datagram example_sendto [] 0)
              example_enc_queue 1%nat) as (r & q' & Heq & Hr & Hi & _).
  - split_and!; cbn; [lia|lia|done].
  - exists q'. split; [|exact Hi]. rewrite Heq. f_equal. f_equal.
    assert (r = (drain_encrypted_queue (from_secs 10) (send_encrypted_datagram example_sendto [] 0)
              example_enc_queue 1%nat).1.1) as -> by (by rewrite Heq).
    reflexivity.
Defined.

(** A pass of the UDP writer serves every session and removes exactly those whose send
    failed: each session's queue is drained once, whatever happens to the others, and the
    sessions left, in whatever order the removals leave them, are those whose drain
    succeeded. *)
Theorem udp_write_pass_removes_failed {K D} (sendto : list Z -> Z -> Packet -> K -> result Z Z * K)
    (l l2 : list (Session D)) w w' p (k k' : K) :
  udp_write_pass sendto l w k = (l2, p, w', k') ->
  exists l1, length l1 = length l /\
    (forall i s', l1 !! i = Some s' -> exists s failed,
       l !! i = Some s /\ drained sendto w s s' failed /\ (i ∈ remove p <-> failed = true)) /\
    l1 ≡ₚ omap (fun i => l1 !! i) (remove p) ++ l2.
Proof.
  unfold udp_write_pass. destruct (write_sessions _ _ _ _ _ _) as [[l1 p1] k1] eqn:Hw.
  apply write_sessions_drained in Hw as (Hlen & Hs & Hlt & _ & _ & Hi); [|constructor..].
  destruct (remove_all (remove p1) l1 w) as [l3 w3] eqn:Hr. intros [= <- <- <- <-].
  exists l1. split_and!; [done|done|].
  pose proof (remove_all_fst (remove p1) l1 w) as Hfst. rewrite Hr in Hfst. cbn in Hfst. subst l3.
  apply swap_remove_all_perm; [done|]. by rewrite Hlen.
Qed.

Definition failing_sendto (peer : list Z) (peer_size : Z) (packet : Packet) (k : unit)
    : result Z Z * unit :=
  if bool_decide (peer_ipv4 peer = Some (ipv4_new 192 0 2 1)) then (Err 111, tt)
  else (Ok (Z.of_nat (length packet)), tt).

Definition sending_sessions : list (Session PlainDtls) :=
  (fun s => s <| enc_tx_queue ::= fun q => (push {| dg_bytes := [7]; enqueued_at := from_secs 1000 |} q).2 |>)
    <$> example_sessions.

Lemma udp_write_pass_removes_failed_witness :
  exists l2 p w', udp_write_pass failing_sendto sending_sessions example_world tt = (l2, p, w', tt) /\
    remove p = [0%nat] /\ (address <$> l2) = [ipv4_new 10 8 1 3] /\
    exists l1, l1 ≡ₚ omap (fun i => l1 !! i) (remove p) ++ l2.
Proof.
  destruct (udp_write_pass failing_sendto sending_sessions example_world tt)
    as [[[l2 p] w'] k'] eqn:Hp. destruct k'.
  exists l2, p, w'. split; [done|].
  destruct (udp_write_pass_removes_failed failing_sendto _ _ _ _ _ _ _ Hp) as (l1 & _ & _ & Hperm).
  vm_compute in Hp. injection Hp as <- <- <-. split_and!; [reflexivity..|]. by exists l1.
Defined.
