(* ===== verification/Decrypt.v ===== *)
(** * The decrypt worker

    Models [src/server/decrypt.rs]: the thread that reads decrypted packets from the
    established sessions, checks logins and source addresses, writes to the TUN device,
    accepts new peers and runs handshakes. One turn of its loop is [drain_sessions],
    [dedupe], [apply_reloads] and [handle_datagram]; the session mutex is released between
    them. *)

From S2P Require Import Prelude Text Net RateLimit Queue DtlsApi Session Encrypt.

Local Open Scope Z_scope.

(** ** Login frames *)
Definition login_matches (packet : Packet) (id password : rstr) : bool :=
  match strip_prefix AUTH_LOGIN_PREFIX packet with
  | Some body =>
      match position (fun byte => byte =? 0) body with
      | Some index =>
          bool_decide (take index body = as_bytes id) &&
          bool_decide (drop (S index) body = as_bytes password)
      | None => false
      end
  | None => false
  end.

(** ** Writing to the TUN device *)

(** The loop of [write_tun_packet] over the environment's answers; the server stopping is
    the end of the answers. *)
Fixpoint write_tun_loop (attempts : list TunAttempt) (packet : Packet)
    : io unit * list TunAttempt * list Packet :=
  match attempts with
  | [] => (Err (new_error Interrupted "server stopping"), [], [])
  | a :: rest =>
      if negb (tun_running a) then (Err (new_error Interrupted "server stopping"), rest, [])
      else
        match tun_write a with
        | Ok written =>
            if written =? Z.of_nat (length packet) then (Ok tt, rest, [packet])
            else (Err (Custom WriteZero
                         (str "partial TUN write: " ++ display_uint written ++ str "/"
                          ++ display_uint (Z.of_nat (length packet)))), rest, [packet])
        | Err error =>
            if decide (kind error = Interrupted) then
              let '(r, rest, writes) := write_tun_loop rest packet in (r, rest, packet :: writes)
            else if decide (kind error = WouldBlock) then
              match tun_poll a with
              | Ok _ =>
                  let '(r, rest, writes) := write_tun_loop rest packet in
                  (r, rest, packet :: writes)
              | Err error => (Err error, rest, [packet])
              end
            else (Err error, rest, [packet])
        end
  end.

Definition write_tun_packet (packet : Packet) (w : World) : io unit * World :=
  let '(r, rest, writes) := write_tun_loop (tun_attempts w) packet in
  let w := w <| tun_attempts := rest |> <| tun_written ::= fun l => l ++ writes |> in
  (r, note_tun_write packet (is_ok r) w).

(** ** The worker's configuration and state *)

(** The fields of [DecryptContext] that never change. *)
Record DecryptContext := {
  max_clients : nat;
  max_pending_handshakes : nat;
  verify_client_san_ip : bool;
  allow_broadcast : bool;
  allow_multicast : bool;
  network_address : Ipv4Addr;
  network_prefix : Z;
}.

(** What the thread owns. *)
Record DecryptState (D : Type) := {
  bindings : gmap Ipv4Addr rstr;
  logins : gmap Ipv4Addr (rstr * rstr);
  stateless_acceptor : D;
  handshake_limiter : IpRateLimiter;
}.
Arguments bindings {D} _.
Arguments logins {D} _.
Arguments stateless_acceptor {D} _.
Arguments handshake_limiter {D} _.

#[export] Instance eta_DecryptState D : Eta (DecryptState D) := fun st =>
  {| bindings := bindings st; logins := logins st; stateless_acceptor := stateless_acceptor st;
     handshake_limiter := handshake_limiter st |}.

(** [ReloadUpdate] *)
Record ReloadUpdate (D : Type) := {
  new_bindings : gmap Ipv4Addr rstr;
  new_logins : gmap Ipv4Addr (rstr * rstr);
  new_acceptor : D;
  wants_ack : bool;
}.
Arguments new_bindings {D} _.
Arguments new_logins {D} _.
Arguments new_acceptor {D} _.
Arguments wants_ack {D} _.

(** How the treatment of one session ends: on to its pending datagrams, [continue], or
    [break 'server] with an error. *)
Inductive flow := Next | Continue | Break (error : io_error).

Section decrypt.
Context {D : Type} `{DtlsSession D} (ctx : DecryptContext).
Implicit Types (s : Session D) (l : list (Session D)) (w : World) (st : DecryptState D).

(** ** Reading from established sessions *)

Definition destination_allowed (destination : Ipv4Addr) : bool :=
  let broadcast := ipv4_is_broadcast destination (network_address ctx) (network_prefix ctx) in
  let multicast := is_multicast destination in
  (negb broadcast && negb multicast) || (broadcast && allow_broadcast ctx)
  || (multicast && allow_multicast ctx).

(** The first message of a session that still has to log in. *)
Definition handle_login (logins : gmap Ipv4Addr (rstr * rstr)) (login : Packet) s w
    : flow * Session D * World :=
  if login_attempted s then (Continue, s, w)
  else
    let s := s <| login_attempted := true |> in
    let accepted :=
      match logins !! address s with
      | Some (expected_id, expected_password) => login_matches login expected_id expected_password
      | None => false
      end in
    if accepted then
      let s := s <| authenticated := true |> <| last_activity := now w |> in
      let s := queue_session_plain s AUTH_OK w in
      let w := syslog_connection_event
                 (str "client connected vpn_ip=" ++ display_ipv4 (address s) ++ str " fingerprint="
                  ++ from_option id [] (session_fingerprint s)) w in
      (Continue, s, notify_tun_queue (notify_control w))
    else (Continue, queue_session_plain s AUTH_FAILED w, notify_tun_queue w).

(** A packet of an authenticated session. *)
Definition handle_tunnel (packet : Packet) s w : flow * Session D * World :=
  if is_keepalive_packet packet then
    (Continue, queue_session_plain (s <| last_activity := now w |>) KEEPALIVE_PACKET w,
     notify_tun_queue w)
  else
    match ipv4_packet_addresses packet with
    | Some (source, destination) =>
        if (source =? address s) && destination_allowed destination then
          let s := s <| bytes_rx ::= fun n => saturating_add_u64 n (Z.of_nat (length packet)) |>
                     <| packets_rx ::= fun n => saturating_add_u64 n 1 |> in
          match write_tun_packet packet w with
          | (Ok _, w) => (Next, s <| last_activity := now w |>, w)
          | (Err error, w) => (Break error, s, w)
          end
        else (Next, s, w)
    | None => (Next, s, w)
    end.

(** The retry of the oldest datagram the session could not take yet. *)
Definition inject_pending s w : Session D * World :=
  match pending_inject s with
  | [] => (s, w)
  | front :: rest =>
      match with_dtls (inject front) s w with
      | (Ok true, s, w) => (s <| pending_inject := rest |> <| drain_pending := true |>, w)
      | (Ok false, s, w) => (s <| drain_pending := true |>, w)
      | (Err _, s, w) => (s <| pending_inject := rest |>, w)
      end
  end.

Definition drain_session (logins : gmap Ipv4Addr (rstr * rstr)) s w : flow * Session D * World :=
  if negb (drain_pending s) && bool_decide (pending_inject s = []) then (Continue, s, w)
  else
    let '(r, s, w) := with_dtls (read_status 2048) s w in
    let w := notify_tun_queue (request_retry (notify_progress w)) in
    let '(f, s, w) :=
      match panic_gate (str "client DTLS read") r with
      | Ok (Complete ((_ :: _) as packet)) =>
          let s := s <| drain_pending := true |> in
          let w := note_read (address s) (authenticated s) packet w in
          if authenticated s then handle_tunnel packet s w else handle_login logins packet s w
      | Ok (Complete []) | Ok WantRead => (Next, s <| drain_pending := false |>, w)
      | Ok WantWrite => (Next, s <| drain_pending := true |>, w)
      | Err _ => (Next, s <| drain_pending := false |>, w)
      end in
    match f with
    | Next => let '(s, w) := inject_pending s w in (Next, s, w)
    | _ => (f, s, w)
    end.

(** The pass over the established sessions. *)
Fixpoint drain_sessions (logins : gmap Ipv4Addr (rstr * rstr)) l w
    : option io_error * list (Session D) * World :=
  match l with
  | [] => (None, [], w)
  | s :: l =>
      if established s then
        let '(f, s, w) := drain_session logins s w in
        match f with
        | Break error => (Some error, s :: l, w)
        | _ => let '(e, l, w) := drain_sessions logins l w in (e, s :: l, w)
        end
      else let '(e, l, w) := drain_sessions logins l w in (e, s :: l, w)
  end.

Definition pending_session_input l : bool :=
  any (fun s => established s && (drain_pending s || negb (bool_decide (pending_inject s = [])))) l.

(** ** One session per address *)
Definition replaced (seen : gset Ipv4Addr) s : gset Ipv4Addr * Session D * bool :=
  if authenticated s then
    if bool_decide (address s ∈ seen) then
      (seen, s <| disconnect_reason := str "replaced" |>, false)
    else ({[address s]} ∪ seen, s, true)
  else (seen, s, true).

Definition dedupe l w : list (Session D) * World :=
  let '(l, w) := retain_mut replaced ∅ (reverse l) w in (reverse l, w).

(** ** Configuration updates *)
Definition apply_reload (update : ReloadUpdate D) (stw : DecryptState D * World)
    : DecryptState D * World :=
  let '(st, w) := stw in
  (st <| bindings := new_bindings update |> <| logins := new_logins update |>
      <| stateless_acceptor := new_acceptor update |>,
   if wants_ack update then w <| reload_acks ::= S |> else w).

(** The limiter's purge and every update that has arrived. *)
Definition apply_reloads (updates : list (ReloadUpdate D)) st w : DecryptState D * World :=
  let st := st <| handshake_limiter ::= purge (now w) |> in
  foldl (fun stw update => apply_reload update stw) (st, w) updates.

(** ** New peers *)

(** [min_by_key(last_activity)] over the candidates: the first of the earliest. *)
Fixpoint oldest_session (P : Session D -> bool) (best : option (nat * Session D)) (i : nat) l
    : option (nat * Session D) :=
  match l with
  | [] => best
  | s :: l =>
      let best :=
        if P s then
          match best with
          | Some (_, b) => if last_activity s <? last_activity b then Some (i, s) else best
          | None => Some (i, s)
          end
        else best in
      oldest_session P best (S i) l
  end.

Definition established_count l : nat := count established l.
Definition pending_count l : nat := count (fun s => negb (established s)) l.
Definition from_ip (ip : Ipv4Addr) s : bool := bool_decide (peer_ipv4 (peer s) = Some ip).
Definition pending_from_ip (ip : Ipv4Addr) l : nat :=
  count (fun s => negb (established s) && from_ip ip s) l.

Definition new_session (d : D) (dg : UdpDatagram) (enc raw : _) w : Session D :=
  {| dtls := d; peer := dg_peer dg; peer_size := dg_peer_size dg; address := UNSPECIFIED;
     session_fingerprint := None; established := false; authenticated := false;
     login_attempted := false; established_at := None; last_activity := now w;
     dtls_deadline := None; drain_pending := false; pending_inject := [];
     bytes_tx := 0; bytes_rx := 0; packets_tx := 0; packets_rx := 0;
     disconnect_reason := str "server_shutdown"; enc_tx_queue := enc; raw_tx_queue := raw |}.

(** How a datagram from an unknown peer ends: dropped, a fatal error, or a new session. *)
Inductive accepted := Skip | Fatal (error : io_error) | Accepted (index : nat).

Abbreviation accept_result := (accepted * DecryptState D * list (Session D) * World)%type.

(** A fresh acceptor takes the place of one that failed. [fresh] is what
    [create_stateless_acceptor] returns. *)
Definition replace_acceptor (fresh : io D) st l w : accept_result :=
  match fresh with
  | Ok acceptor => (Skip, st <| stateless_acceptor := acceptor |>, l, w)
  | Err error => (Fatal error, st, l, w)
  end.

(** From the admission limits to the new session. *)
Definition create_session (fresh : io D) (dg : UdpDatagram) (peer_ip : Ipv4Addr) st l w
    : accept_result :=
  if decide (max_clients ctx <= established_count l)%nat then (Skip, st, l, w)
  else if decide (MAX_PENDING_PER_IP <= pending_from_ip peer_ip l)%nat then (Skip, st, l, w)
  else
    let '(l, w) :=
      if decide (max_pending_handshakes ctx <= pending_count l)%nat then
        match oldest_session (fun s => negb (established s)) None 0 l with
        | Some (oldest, _) => remove_session oldest l w
        | None => (l, w)
        end
      else (l, w) in
    match fresh with
    | Err error => (Fatal error, st, l, w)
    | Ok replacement =>
        let d := stateless_acceptor st in
        let st := st <| stateless_acceptor := replacement |> in
        match queue_new SESSION_TX_QUEUE_CAPACITY, queue_new SESSION_TX_QUEUE_CAPACITY with
        | Ok enc, Ok raw =>
            match use_queued_send d with
            | (Ok _, d) =>
                (Accepted (length l), st, l ++ [new_session d dg enc raw w], notify_control w)
            | (Err error, _) => (Fatal error, st, l, w)
            end
        | _, _ => (Fatal (other "queue capacity must be greater than zero"), st, l, w)
        end
    end.

Definition banned_now (peer_ip : Ipv4Addr) l w : list (Session D) * World :=
  retain_mut (fun (_ : unit) s => (tt, s, established s || negb (from_ip peer_ip s))) tt l w.

Definition accept_new_peer (fresh : io D) (dg : UdpDatagram) st l w : accept_result :=
  match peer_ipv4 (dg_peer dg) with
  | None => (Skip, st, l, w)
  | Some peer_ip =>
      let '(banned, limiter) := check_ban peer_ip (now w) (handshake_limiter st) in
      let st := st <| handshake_limiter := limiter |> in
      if banned then (Skip, st, l, w)
      else
        let '(r, acceptor) :=
          set_incoming_peer (dg_peer dg) (dg_peer_size dg) (dg_packet dg) (stateless_acceptor st) in
        let st := st <| stateless_acceptor := acceptor |> in
        match r with
        | Err _ => replace_acceptor fresh st l w
        | Ok _ =>
            let '(r, acceptor) := accept_stateless (stateless_acceptor st) in
            let st := st <| stateless_acceptor := acceptor |> in
            match panic_gate (str "stateless DTLS accept") r with
            | Err _ => replace_acceptor fresh st l w
            | Ok false => (Skip, st, l, w)
            | Ok true =>
                let '(decision, limiter) :=
                  record_attempt peer_ip (now w) (handshake_limiter st) in
                let st := st <| handshake_limiter := limiter |> in
                match decision with
                | Allowed => create_session fresh dg peer_ip st l w
                | BannedNow => let '(l, w) := banned_now peer_ip l w in (Skip, st, l, w)
                | Banned => (Skip, st, l, w)
                end
            end
        end
  end.

(** ** Handshakes *)

(** The checks on a completed handshake: the certificate is bound to a VPN address, it
    names that address when the configuration asks for it, and its policy allows the
    source address. [None] rejects the session. *)
Definition authorise (bindings : gmap Ipv4Addr rstr) s : option (Ipv4Addr * rstr) * Session D :=
  let '(r, s) := with_dtls_local fingerprint s in
  match panic_gate (str "client certificate") r with
  | Err _ => (None, s)
  | Ok fp =>
      match list_find (fun kv => kv.2 = fp) (map_to_list bindings) with
      | None => (None, s)
      | Some (_, (a, _)) =>
          let '(san_matches, s) :=
            if verify_client_san_ip ctx then
              let '(r, s) := with_dtls_local (peer_certificate_has_san_ip a) s in
              (match panic_gate (str "client SAN IP verification") r with
               | Ok matches => matches
               | Err _ => false
               end, s)
            else (true, s) in
          if negb san_matches then (None, s)
          else
            match peer_ipv4 (peer s) with
            | None => (None, s)
            | Some source_ip =>
                let '(r, s) := with_dtls_local (peer_certificate_allows_source_ip source_ip) s in
                match panic_gate (str "client source CIDR policy verification") r with
                | Ok true => (Some (a, fp), s)
                | Ok false | Err _ => (None, s)
                end
            end
      end
  end.

Definition same_client (a : Ipv4Addr) (p : list Z) s : bool :=
  established s && (address s =? a) && negb (same_peer (peer s) p).

(** The loop that removes the client's other sessions: every turn advances the index or
    shortens the list, so the length bounds the turns. *)
Fixpoint remove_duplicates (fuel : nat) (index : nat) (a : Ipv4Addr) (p : list Z) l w
    : list (Session D) * World :=
  match fuel with
  | O => (l, w)
  | S fuel =>
      match l !! index with
      | None => (l, w)
      | Some s =>
          if same_client a p s then
            let '(l, w) :=
              remove_session index (<[index := s <| disconnect_reason := str "replaced" |>]> l) w in
            remove_duplicates fuel index a p l w
          else remove_duplicates fuel (S index) a p l w
      end
  end.

(** An authorised session becomes established. *)
Definition establish (logins : gmap Ipv4Addr (rstr * rstr)) (a : Ipv4Addr) (fp : rstr) s w
    : Session D :=
  let s := s <| address := a |> <| session_fingerprint := Some fp |> <| established := true |>
             <| authenticated := bool_decide (logins !! a = None) |>
             <| dtls ::= disable_callback_receive |> <| established_at := Some (now w) |>
             <| dtls_deadline := None |> in
  queue_session_plain s (if authenticated s then AUTH_OK else AUTH_REQUIRED) w.

Definition connected_message (a : Ipv4Addr) (fp : rstr) : rstr :=
  str "client connected vpn_ip=" ++ display_ipv4 a ++ str " fingerprint=" ++ fp.

(** What follows [establish]: the client limit, then the other sessions of the client. *)
Definition admit_session (established_before : nat) (index : nat) s l w : list (Session D) * World :=
  let w := notify_control w in
  let l := <[index := s]> l in
  let replaces_existing := any (same_client (address s) (peer s)) l in
  if bool_decide (max_clients ctx <= established_before)%nat && negb replaces_existing then
    remove_session index (<[index := s <| disconnect_reason := str "max_clients" |>]> l) w
  else
    let w := if authenticated s then
               syslog_connection_event
                 (connected_message (address s) (from_option id [] (session_fingerprint s))) w
             else w in
    let w := notify_tun_queue w in
    if authenticated s then remove_duplicates (length l) 0 (address s) (peer s) l w else (l, w).

Definition handshake_step st (established_before index : nat) s l w : list (Session D) * World :=
  let '(r, s, w) := with_dtls handshake s w in
  match panic_gate (str "client DTLS handshake") r with
  | Err _ => remove_session index (<[index := s]> l) w
  | Ok true =>
      match authorise (bindings st) s with
      | (None, s) => remove_session index (<[index := s]> l) w
      | (Some (a, fp), s) => admit_session established_before index (establish (logins st) a fp s w) l w
      end
  | Ok false =>
      let timeout := current_timeout (dtls s) in
      (<[index := s <| dtls_deadline := Some (now w + timeout) |>]> l, notify_control w)
  end.

(** ** A datagram *)

(** A datagram for a known session is injected, or queued behind the ones that wait;
    [false] when the injection fails. *)
Definition inject_incoming (incoming : Packet) s w : bool * Session D * World :=
  if negb (bool_decide (pending_inject s = [])) then
    if decide (SESSION_TX_QUEUE_CAPACITY <= length (pending_inject s))%nat then (true, s, w)
    else (true, s <| pending_inject ::= fun q => q ++ [incoming] |>, w)
  else
    match with_dtls (inject incoming) s w with
    | (Ok true, s, w) => (true, s <| drain_pending := true |>, w)
    | (Ok false, s, w) =>
        (true, s <| pending_inject ::= fun q => q ++ [incoming] |> <| drain_pending := true |>, w)
    | (Err _, s, w) => (false, s, w)
    end.

Definition process_datagram (is_new : bool) (index : nat) (dg : UdpDatagram) st l w
    : list (Session D) * World :=
  match l !! index with
  | None => (l, w)
  | Some s =>
      let established_before := established_count l in
      let '(go_on, s, w) := if is_new then (true, s, w) else inject_incoming (dg_packet dg) s w in
      if negb go_on || established s then (<[index := s]> l, w)
      else handshake_step st established_before index s l w
  end.

(** The part of a turn that holds the session mutex for one datagram. [Some error] is
    [break 'server]. *)
Definition handle_datagram (fresh : io D) (dg : UdpDatagram) st l w
    : option io_error * DecryptState D * list (Session D) * World :=
  match position (fun s => same_peer (peer s) (dg_peer dg)) l with
  | Some index =>
      let '(l, w) := process_datagram false index dg st l w in (None, st, l, w)
  | None =>
      match accept_new_peer fresh dg st l w with
      | (Skip, st, l, w) => (None, st, l, w)
      | (Fatal error, st, l, w) => (Some error, st, l, w)
      | (Accepted index, st, l, w) =>
          let '(l, w) := process_datagram true index dg st l w in (None, st, l, w)
      end
  end.

(** One turn of the loop when no other thread takes the session mutex in between.
    [datagram] is what [try_pop] finds, [failure] what the error channel holds. *)
Definition decrypt_turn (updates : list (ReloadUpdate D)) (failure : option io_error)
    (fresh : io D) (datagram : option UdpDatagram) st l w
    : option io_error * DecryptState D * list (Session D) * World :=
  match drain_sessions (logins st) l w with
  | (Some error, l, w) => (Some error, st, l, w)
  | (None, l, w) =>
      let '(l, w) := dedupe l w in
      let '(st, w) := apply_reloads updates st w in
      match failure, datagram with
      | Some error, _ => (Some error, st, l, w)
      | None, Some dg => handle_datagram fresh dg st l w
      | None, None => (None, st, l, w)
      end
  end.
End decrypt.
