(* ===== verification/DecryptOk.v ===== *)
(** * The decrypt worker: what its handlers keep and guarantee

    The well-formedness of a session and of the session list, that every handler of
    [Decrypt.v] preserves them, and the properties of the single handlers: logins, source
    addresses, authorisation. *)

From S2P Require Import Prelude Text Net RateLimit Queue DtlsApi Session Encrypt Decrypt.

Local Open Scope Z_scope.

(** ** A well-formed session *)

(** The encrypt worker's view of the same configuration. *)
Definition routing_of (ctx : DecryptContext) : EncryptRouting :=
  {| Encrypt.network_address := network_address ctx; Encrypt.network_prefix := network_prefix ctx;
     Encrypt.allow_broadcast := allow_broadcast ctx; Encrypt.allow_multicast := allow_multicast ctx |}.

Section session_ok.
Context {D : Type} (ctx : DecryptContext).
Implicit Types (s : Session D).

(** What the server may send in the clear into a session: the answers to its handshake
    and login, and to an authenticated session also keepalives and its own traffic. *)
Definition plaintext_ok s (p : Packet) : Prop :=
  p = AUTH_REQUIRED \/ p = AUTH_FAILED \/
  (authenticated s = true /\
   (p = AUTH_OK \/ p = KEEPALIVE_PACKET \/ may_receive (routing_of ctx) s p)).

Record session_ok s : Prop := {
  ok_raw : queue_ok (raw_tx_queue s);
  ok_raw_capacity : capacity (raw_tx_queue s) = SESSION_TX_QUEUE_CAPACITY;
  ok_raw_open : is_closed (raw_tx_queue s) = false;
  ok_enc : queue_ok (enc_tx_queue s);
  ok_enc_capacity : capacity (enc_tx_queue s) = SESSION_TX_QUEUE_CAPACITY;
  ok_inject : (length (pending_inject s) <= SESSION_TX_QUEUE_CAPACITY)%nat;
  ok_authenticated : authenticated s = true -> established s = true;
  ok_fingerprint : established s = true -> is_Some (session_fingerprint s);
  ok_fresh : established s = false -> items (state (raw_tx_queue s)) = [];
  ok_plain : Forall (fun pt => plaintext_ok s pt.1) (items (state (raw_tx_queue s)));
}.

(** The fields [session_ok] does not depend on may change freely. *)
Lemma session_ok_same s s' :
  session_ok s ->
  address s' = address s -> session_fingerprint s' = session_fingerprint s ->
  established s' = established s -> authenticated s' = authenticated s ->
  raw_tx_queue s' = raw_tx_queue s -> pushes (enc_tx_queue s) (enc_tx_queue s') ->
  (length (pending_inject s') <= SESSION_TX_QUEUE_CAPACITY)%nat ->
  session_ok s'.
Proof.
  intros [R Rc O E Ec I A F N P] Ea Ef Ee Eau Er Hp Hl. pose proof (pushes_frame _ _ Hp) as [_ Hcap].
  split; rewrite ?Er, ?Ef, ?Ee, ?Eau, ?Hcap; try done; [eauto with vpn|].
  eapply Forall_impl; [exact P|]. intros pt. unfold plaintext_ok, may_receive.
  by rewrite Ea, Eau.
Qed.

(** Queueing a packet the session may be sent. *)
Lemma session_ok_queue s p w :
  session_ok s -> established s = true -> plaintext_ok s p ->
  session_ok (queue_session_plain s p w).
Proof.
  intros [R Rc O E Ec I A F N P] He Hp. split; cbn; try done; [auto with vpn| | | |].
  - rewrite <-Rc. apply push_frame.
  - rewrite <-O. apply push_frame.
  - intros Hf. congruence.
  - rewrite Forall_forall in P |- *. intros pt [->|Hin]%push_elem; [done|]. by apply P.
Qed.

(** A login makes a session authenticated; what it may be sent only grows. *)
Lemma session_ok_login s t :
  session_ok s -> established s = true ->
  session_ok (s <| login_attempted := true |> <| authenticated := true |> <| last_activity := t |>).
Proof.
  intros [R Rc O E Ec I A F N P] He. split; cbn; try done.
  eapply Forall_impl; [exact P|]. intros pt. unfold plaintext_ok, may_receive. cbn.
  intros [?|[?|(_ & Hp)]]; [by left|by right; left|]. right. right. split; [done|].
  destruct Hp as [?|[?|(_ & ?)]]; [by left|by right; left|by right; right].
Qed.
End session_ok.

(** ** The session list *)

(** What the limits depend on: the peer, whether it is established, and the address. *)
Definition session_key {D} (s : Session D) : list Z * bool * Ipv4Addr :=
  (peer s, established s, address s).

Abbreviation key := (list Z * bool * Ipv4Addr)%type (only parsing).

Definition key_peer (k : key) : list Z := k.1.1.
Definition key_pending (k : key) : bool := negb k.1.2.
Definition key_pending_from (ip : Ipv4Addr) (k : key) : bool :=
  negb k.1.2 && bool_decide (peer_ipv4 k.1.1 = Some ip).

(** The addresses of established sessions. *)
Definition key_addresses (ks : list key) : gset Ipv4Addr :=
  list_to_set (omap (fun k : key => if k.1.2 then Some k.2 else None) ks).

Record keys_ok (ctx : DecryptContext) (ks : list key) : Prop := {
  keys_peers : NoDup (key_peer <$> ks);
  keys_pending : (count key_pending ks <= max_pending_handshakes ctx)%nat;
  keys_total : (length ks < max_clients ctx + max_pending_handshakes ctx)%nat;
  keys_per_ip : forall ip, (count (key_pending_from ip) ks <= MAX_PENDING_PER_IP)%nat;
  keys_clients : (size (key_addresses ks) <= max_clients ctx)%nat;
}.

Definition list_ok {D} (ctx : DecryptContext) (l : list (Session D)) : Prop :=
  keys_ok ctx (session_key <$> l).

Lemma count_submseteq {A} (P : A -> bool) (l k : list A) : l ⊆+ k -> (count P l <= count P k)%nat.
Proof.
  intros [l' ->]%submseteq_Permutation. rewrite count_app. lia.
Qed.

(** Losing sessions keeps the limits. *)
Lemma keys_ok_submseteq ctx ks ks' : ks' ⊆+ ks -> keys_ok ctx ks -> keys_ok ctx ks'.
Proof.
  intros Hs [H1 H2 H3 H4 H5]. split.
  - pose proof (fmap_submseteq key_peer _ _ Hs) as [k Hk]%submseteq_Permutation.
    rewrite Hk in H1. by apply NoDup_app in H1 as [? _].
  - pose proof (count_submseteq key_pending _ _ Hs). lia.
  - apply submseteq_length in Hs. lia.
  - intros ip. pose proof (count_submseteq (key_pending_from ip) _ _ Hs). specialize (H4 ip). lia.
  - etrans; [|exact H5]. apply subseteq_size. unfold key_addresses.
    intros a. rewrite !elem_of_list_to_set, !list_elem_of_omap.
    intros (k & Hk & ?). exists k. split; [|done]. by eapply elem_of_submseteq.
Qed.

Lemma submseteq_keys {D} (l l' : list (Session D)) : l' ⊆+ l -> session_key <$> l' ⊆+ session_key <$> l.
Proof. apply fmap_submseteq. Qed.

(** ** Reading from established sessions *)
Section drain.
Context {D : Type} `{DtlsLaws D} (ctx : DecryptContext).
Implicit Types (s : Session D) (l : list (Session D)) (w : World).

Lemma login_matches_spec packet id password :
  login_matches packet id password = true <->
  packet = AUTH_LOGIN_PREFIX ++ as_bytes id ++ [0] ++ as_bytes password /\ 0 ∉ as_bytes id.
Proof.
  unfold login_matches. destruct (strip_prefix AUTH_LOGIN_PREFIX packet) as [body|] eqn:Hp.
  2:{ split; [done|]. intros [-> _].
      assert (strip_prefix AUTH_LOGIN_PREFIX (AUTH_LOGIN_PREFIX ++ as_bytes id ++ [0] ++ as_bytes password)
              = Some (as_bytes id ++ [0] ++ as_bytes password)) by (by apply strip_prefix_Some).
      congruence. }
  apply strip_prefix_Some in Hp as ->.
  assert (forall a b : list Z, 0 ∉ a -> position (fun byte => byte =? 0) (a ++ 0 :: b) = Some (length a)) as Hpos.
  { induction a as [|x a IH]; intros b Ha; [done|]. cbn.
    apply not_elem_of_cons in Ha as [Hx Ha]. rewrite (proj2 (Z.eqb_neq x 0)) by congruence.
    by rewrite IH. }
  split.
  - destruct (position _ body) as [i|] eqn:Hi; [|done].
    intros [H1%bool_decide_eq_true H2%bool_decide_eq_true]%andb_true_iff.
    apply position_Some in Hi as (x & Hx & Hx0%Z.eqb_eq & Hbefore). subst x.
    rewrite <-H1, <-H2. split.
    + f_equal. rewrite <-(take_drop_middle body i 0) at 1 by done. done.
    + intros (j & Hj)%list_elem_of_lookup. apply lookup_take_Some in Hj as [Hj Hlt].
      specialize (Hbefore j 0 Hlt Hj). done.
  - intros [Hb%app_inv_head Hid]. subst body. cbn [app]. rewrite Hpos by done.
    apply andb_true_iff. rewrite !bool_decide_eq_true. split; [by apply take_app_length|].
    rewrite drop_app_ge by lia. replace (S (length (as_bytes id)) - length (as_bytes id))%nat with 1%nat by lia.
    done.
Qed.

Lemma written_none (l : list Packet) packet : l = l ++ replicate 0 packet.
Proof. symmetry. apply (right_id_L [] (++)). Qed.

Lemma write_tun_packet_frame packet w r w' :
  write_tun_packet packet w = (r, w') ->
  now w' = now w /\ exists n, tun_written w' = tun_written w ++ replicate n packet.
Proof.
  unfold write_tun_packet. destruct (write_tun_loop _ _) as [[r0 rest] writes] eqn:Hl.
  intros [= <- <-]. split; [done|]. cbn.
  assert (exists n, writes = replicate n packet) as [n ->]; [|by exists n].
  revert r0 rest writes Hl. induction (tun_attempts w) as [|a q IH]; intros r0 rest writes; cbn.
  { intros [= <- <- <-]. by exists 0%nat. }
  destruct (tun_running a); cbn [negb]; [|intros [= <- <- <-]; by exists 0%nat].
  destruct (tun_write a) as [n|e].
  - destruct (_ =? _); intros [= <- <- <-]; by exists 1%nat.
  - destruct (write_tun_loop q packet) as [[r1 rest1] w1]. destruct (IH _ _ _ eq_refl) as [n ->].
    repeat case_decide; try destruct (tun_poll a); intros [= <- <- <-];
      first [by exists (S n)|by exists 1%nat].
Qed.

(** The handler of one session's input: what it keeps, and what it may write. *)
Record handled (logins : gmap Ipv4Addr (rstr * rstr)) (packet : Packet) s w s' w' : Prop := {
  handled_ok : session_ok ctx s -> established s = true -> session_ok ctx s';
  handled_key : session_key s' = session_key s;
  handled_fp : session_fingerprint s' = session_fingerprint s;
  handled_auth : authenticated s = true -> authenticated s' = true;
  handled_attempted : login_attempted s = true -> login_attempted s' = true;
  handled_now : now w' = now w;
  handled_written : exists n, tun_written w' = tun_written w ++ replicate n packet /\
    (n <> 0%nat -> authenticated s = true /\ exists destination,
       ipv4_packet_addresses packet = Some (address s, destination) /\
       destination_allowed ctx destination = true);
  handled_login : authenticated s = false ->
    (authenticated s' = true <->
       login_attempted s = false /\ exists id password,
         logins !! address s = Some (id, password) /\ login_matches packet id password = true) /\
    (packet <> [] -> login_attempted s' = true);
}.

Lemma handle_login_handled logins packet s w f s' w' :
  authenticated s = false ->
  handle_login logins packet s w = (f, s', w') -> handled logins packet s w s' w'.
Proof.
  intros Ha. unfold handle_login. destruct (login_attempted s) eqn:Hl.
  { intros [= <- <- <-]. split; try done.
    - exists 0%nat. split; [apply written_none|done].
    - intros _. rewrite Ha, Hl. split; [|done]. split; [done|]. by intros [? _]. }
  set (s1 := s <| login_attempted := true |>).
  destruct (match logins !! address s1 with Some _ => _ | None => _ end) eqn:Hacc;
    intros [= <- <- <-]; split; try done.
  - intros Hok He. apply session_ok_queue; [exact (session_ok_login ctx s (now w) Hok He)|done|].
    right. right. split; [done|by left].
  - exists 0%nat. split; [apply written_none|done].
  - intros _. split; [|done]. split; [intros _|done]. split; [done|].
    change (address s1) with (address s) in Hacc.
    destruct (logins !! address s) as [[id password]|]; [|done]. by exists id, password.
  - intros Hok He. apply session_ok_queue; [|done|by right; left].
    apply (session_ok_same ctx s); try done; [auto with vpn|apply Hok].
  - exists 0%nat. split; [apply written_none|done].
  - intros _. split; [|done]. cbn. rewrite Ha. split; [done|].
    intros (_ & id & password & Hl' & Hm). change (address s1) with (address s) in Hacc.
    rewrite Hl', Hm in Hacc. done.
Qed.

Lemma handle_tunnel_handled logins packet s w f s' w' :
  authenticated s = true ->
  handle_tunnel ctx packet s w = (f, s', w') -> handled logins packet s w s' w'.
Proof.
  intros Ha. unfold handle_tunnel.
  assert (forall s1, session_ok ctx s -> address s1 = address s ->
    session_fingerprint s1 = session_fingerprint s -> established s1 = established s ->
    authenticated s1 = authenticated s -> raw_tx_queue s1 = raw_tx_queue s ->
    enc_tx_queue s1 = enc_tx_queue s -> pending_inject s1 = pending_inject s -> session_ok ctx s1) as Hsame.
  { intros s1 Hok ? ? ? ? ? Henc Hpi. apply (session_ok_same ctx s); try done.
    - rewrite Henc. auto with vpn.
    - rewrite Hpi. apply Hok. }
  assert (forall s1, authenticated s = false -> (authenticated s1 = true <-> login_attempted s = false /\
    exists id password, logins !! address s = Some (id, password) /\ login_matches packet id password = true) /\
    (packet <> [] -> login_attempted s1 = true)) as Hcontra.
  { intros s1 Hf. congruence. }
  destruct (is_keepalive_packet packet).
  { intros [= <- <- <-]. split; try done.
    - intros Hok He. apply session_ok_queue; [by apply Hsame|done|]. right. right. split; [done|].
      right. by left.
    - exists 0%nat. split; [apply written_none|done].
    - apply Hcontra. }
  assert (handled logins packet s w s w) as Hnone.
  { split; try done; [|apply Hcontra]. exists 0%nat. split; [apply written_none|done]. }
  destruct (ipv4_packet_addresses packet) as [[source destination]|] eqn:Hp; [|by intros [= <- <- <-]].
  destruct (_ && _) eqn:Hallow; [|by intros [= <- <- <-]].
  apply andb_true_iff in Hallow as [->%Z.eqb_eq Hdest].
  destruct (write_tun_packet packet w) as [r w1] eqn:Hw.
  apply write_tun_packet_frame in Hw as (Hnow & n & Hn).
  destruct r as [u|e]; intros [= <- <- <-]; split; try done;
    solve [intros Hok He; by apply Hsame | exists n; split; [done|]; intros _; split; [done|]; by exists destination
          | apply Hcontra].
Qed.

Lemma inject_pending_frame s w s' w' :
  inject_pending s w = (s', w') ->
  (session_ok ctx s -> session_ok ctx s') /\ session_key s' = session_key s /\
  session_id s' = session_id s /\ now w' = now w /\ tun_written w' = tun_written w.
Proof.
  unfold inject_pending. destruct (pending_inject s) as [|front rest] eqn:Hp; [by intros [= <- <-]|].
  destruct (with_dtls (inject front) s w) as [[r s1] w1] eqn:Hd.
  destruct (with_dtls_frame _ _ _ _ _ _ Hd (inject_sends front)) as (d & q & g & -> & Hq & -> & _).
  assert (forall s2, session_ok ctx s -> (length (pending_inject s2) <= length (pending_inject s))%nat ->
    address s2 = address s -> session_fingerprint s2 = session_fingerprint s ->
    established s2 = established s -> authenticated s2 = authenticated s ->
    raw_tx_queue s2 = raw_tx_queue s -> enc_tx_queue s2 = q -> session_ok ctx s2) as Hsame.
  { intros s2 Hok Hlen ? ? ? ? ? Henc. apply (session_ok_same ctx s); try done; [by rewrite Henc|].
    pose proof (ok_inject _ _ Hok). lia. }
  destruct r as [[]|e]; intros [= <- <-]; split_and!; try done; intros Hok; apply Hsame; try done;
    cbn; rewrite Hp; cbn; lia.
Qed.
End drain.

Section drain_all.
Context {D : Type} `{DtlsLaws D} (ctx : DecryptContext).
Implicit Types (s : Session D) (l : list (Session D)) (w : World).

(** [packet] is what the session's DTLS object decrypts at time [t]. *)
Definition reads (t : Instant) s (packet : Packet) : Prop :=
  exists sig, (read_status 2048 t (dtls s) {| tx := enc_tx_queue s; signal := sig |}).1.1 =
                Returned (Ok (Complete packet)).

(** A session before and after its turn at time [t]. *)
Record drain_rel (logins : gmap Ipv4Addr (rstr * rstr)) (t : Instant) s s' : Prop := {
  drain_ok : session_ok ctx s -> session_ok ctx s';
  drain_key : session_key s' = session_key s;
  drain_fp : session_fingerprint s' = session_fingerprint s;
  drain_auth : authenticated s = true -> authenticated s' = true;
  drain_attempted : login_attempted s = true -> login_attempted s' = true;
  drain_login : authenticated s = false -> authenticated s' = true ->
    login_attempted s = false /\ login_attempted s' = true /\
    exists id password, logins !! address s = Some (id, password) /\
      0 ∉ as_bytes id /\ reads t s (AUTH_LOGIN_PREFIX ++ as_bytes id ++ [0] ++ as_bytes password);
}.

(** A packet of [s] that may go to the TUN device. *)
Definition may_write (t : Instant) s (packet : Packet) : Prop :=
  established s = true /\ authenticated s = true /\ reads t s packet /\
  exists destination, ipv4_packet_addresses packet = Some (address s, destination) /\
    destination_allowed ctx destination = true.

Lemma drain_rel_refl logins t s : drain_rel logins t s s.
Proof. split; try done. congruence. Qed.

(** A turn of [s] that starts in [w]. *)
Definition drained logins s w s' w' : Prop :=
  drain_rel logins (now w) s s' /\ now w' = now w /\
  exists n packet, tun_written w' = tun_written w ++ replicate n packet /\
    (n <> 0%nat -> may_write (now w) s packet).

(** A turn that reads nothing only retries the pending datagram. *)
Lemma inject_drained logins s d q g b w s' w' :
  pushes (enc_tx_queue s) q ->
  inject_pending (s <| dtls := d |> <| enc_tx_queue := q |> <| drain_pending := b |>)
    (notify_tun_queue (request_retry (notify_progress (w <| progress := g |>)))) = (s', w') ->
  drained logins s w s' w'.
Proof.
  intros Hq Hi. destruct (inject_pending_frame ctx _ _ _ _ Hi) as (Hok & Hk & Hid & Hn & Hw).
  injection Hid as _ _ _ Hfp _ Hau Hla _. cbn in *. split.
  - split; try (intros; congruence); [|by rewrite Hk].
    intros Ho. apply Hok, (session_ok_same ctx s); try done. apply Ho.
  - split; [done|]. exists 0%nat, []. split; [rewrite Hw; apply written_none|done].
Qed.

(** A turn that handles a packet: then the pending datagram, unless the handler left the loop. *)
Lemma finish_drain (f0 f : flow) (s3 s' : Session D) (w3 w' : World) :
  match f0 with
  | Next => let '(s, w) := inject_pending s3 w3 in (Next, s, w)
  | _ => (f0, s3, w3)
  end = (f, s', w') ->
  (session_ok ctx s3 -> session_ok ctx s') /\ session_key s' = session_key s3 /\
  session_id s' = session_id s3 /\ now w' = now w3 /\ tun_written w' = tun_written w3.
Proof.
  destruct f0; [destruct (inject_pending s3 w3) as [s4 w4] eqn:Hi|..]; intros [= <- <- <-]; try done.
  by eapply inject_pending_frame.
Qed.

Lemma drain_session_spec logins s w f s' w' :
  established s = true -> drain_session ctx logins s w = (f, s', w') -> drained logins s w s' w'.
Proof.
  intros He. unfold drain_session. destruct (_ && _).
  { intros [= <- <- <-]. split; [apply drain_rel_refl|]. split; [done|]. exists 0%nat, [].
    split; [apply written_none|done]. }
  destruct (with_dtls (read_status 2048) s w) as [[r s1] w1] eqn:Hr.
  destruct (with_dtls_frame _ _ _ _ _ _ Hr (read_status_sends 2048)) as (d & q & g & -> & Hq & -> & Hres).
  destruct (panic_gate _ r) as [[packet| |]|e] eqn:Hgate;
    [destruct packet as [|x packet]| | |]; cbn iota beta zeta.
  1,3,4,5: destruct (inject_pending _ _) as [s2 w3] eqn:Hi; intros [= <- <- <-]; by eapply inject_drained.
  apply panic_gate_Ok in Hgate. subst r. set (p := x :: packet) in *.
  assert (reads (now w) s p) as Hreads by (by exists (progress w)).
  set (s2 := _ <| drain_pending := true |>). set (w2 := note_read _ _ _ _).
  destruct (if authenticated s2 then handle_tunnel ctx p s2 w2 else handle_login logins p s2 w2)
    as [[f0 s3] w3] eqn:Hh. change (authenticated s2) with (authenticated s) in Hh.
  assert (handled ctx logins p s2 w2 s3 w3) as [Kok Kk Kf Ka Kla Kn (n & Kw & Kwj) Kl].
  { destruct (authenticated s) eqn:Ha; [by eapply handle_tunnel_handled|by eapply handle_login_handled]. }
  intros (Iok & Ik & Iid & In & Iw)%finish_drain. injection Iid as _ _ Iad Ifp _ Iau Ila _. split; [|split].
  - split; [|by rewrite Ik, Kk|by rewrite Ifp, Kf|rewrite Iau; exact Ka|rewrite Ila; exact Kla|].
    + intros Hok. apply Iok. apply Kok; [|done].
      apply (session_ok_same ctx s); try done. apply (ok_inject _ _ Hok).
    + intros Ha Ha'. destruct (Kl Ha) as [Hlogin Hatt]. rewrite Iau in Ha'. rewrite Ila.
      apply Hlogin in Ha' as (Hla & id & password & Hlg & [Hp Hid]%login_matches_spec).
      split; [done|]. split; [by apply Hatt|]. exists id, password.
      split_and!; [done|done|]. by rewrite <-Hp.
  - by rewrite In, Kn.
  - exists n, p. rewrite Iw, Kw. split; [done|]. intros Hn0.
    destruct (Kwj Hn0) as (Ha & destination & Hp & Hd). by split_and!; [..|exists destination].
Qed.

Lemma drain_sessions_spec logins l w e l' w' :
  drain_sessions ctx logins l w = (e, l', w') ->
  Forall2 (drain_rel logins (now w)) l l' /\ now w' = now w /\
  exists new, tun_written w' = tun_written w ++ new /\
    forall packet, packet ∈ new -> exists s, s ∈ l /\ may_write (now w) s packet.
Proof.
  revert w e l' w'. induction l as [|s l IH]; intros w e l' w'; cbn [drain_sessions].
  { intros [= <- <- <-]. split; [constructor|]. split; [done|]. exists []. 
    split; [symmetry; apply (right_id_L [] (++))|]. by intros ? ?%elem_of_nil. }
  assert (forall l, Forall2 (drain_rel logins (now w)) l l) as Hrefl.
  { induction l0; constructor; auto using drain_rel_refl. }
  destruct (established s) eqn:He.
  - destruct (drain_session ctx logins s w) as [[f s1] w1] eqn:Hd.
    destruct (drain_session_spec _ _ _ _ _ _ He Hd) as (Hrel & Hn & n & p & Hw & Hjust).
    assert (forall q, q ∈ replicate n p -> exists s0, s0 ∈ s :: l /\ may_write (now w) s0 q) as Hfirst.
    { intros q [-> Hn0]%elem_of_replicate. exists s. split; [left|]. by apply Hjust. }
    assert (forall error, (Some error, s1 :: l, w1) = (e, l', w') \/
      (let '(e, l, w) := drain_sessions ctx logins l w1 in (e, s1 :: l, w)) = (e, l', w') -> 
      Forall2 (drain_rel logins (now w)) (s :: l) l' /\ now w' = now w /\
      exists new, tun_written w' = tun_written w ++ new /\
      forall packet, packet ∈ new -> exists s0, s0 ∈ s :: l /\ may_write (now w) s0 packet) as Hboth.
    { intros error [[= <- <- <-]|Hrest].
      - split; [by constructor|]. split; [done|]. by exists (replicate n p).
      - destruct (drain_sessions ctx logins l w1) as [[e2 l2] w2] eqn:Hds. injection Hrest as <- <- <-.
        destruct (IH _ _ _ _ Hds) as (HF & Hn2 & new & Hw2 & Hnew). rewrite Hn in HF, Hnew, Hn2.
        split; [by constructor|]. split; [done|]. exists (replicate n p ++ new).
        split; [by rewrite Hw2, Hw, (assoc_L (++))|].
        intros q [Hq|Hq]%elem_of_app; [by apply Hfirst|].
        destruct (Hnew q Hq) as (s0 & ? & ?). exists s0. split; [by right|done]. }
    destruct f as [| |error]; intros Heq; [apply (Hboth (other ""))|apply (Hboth (other ""))|apply (Hboth error)];
      auto.
  - destruct (drain_sessions ctx logins l w) as [[e2 l2] w2] eqn:Hds. intros [= <- <- <-].
    destruct (IH _ _ _ _ Hds) as (HF & Hn2 & new & Hw2 & Hnew).
    split; [constructor; [apply drain_rel_refl|done]|]. split; [done|]. exists new. split; [done|].
    intros q Hq. destruct (Hnew q Hq) as (s0 & ? & ?). exists s0. split; [by right|done].
Qed.
End drain_all.

(** ** One session per address *)
Section dedupe.
Context {D : Type}.
Implicit Types (s : Session D) (l : list (Session D)) (w : World).

Lemma replaced_keep seen s seen' s' : replaced seen s = (seen', s', true) -> s' = s.
Proof. unfold replaced. destruct (authenticated s); [case_bool_decide|]; congruence. Qed.

Lemma dedupe_sublist l w : (dedupe l w).1 `sublist_of` l.
Proof.
  unfold dedupe. pose proof (retain_mut_sublist replaced ∅ (reverse l) w replaced_keep) as Hs.
  destruct (retain_mut _ _ _ _) as [l' w']. cbn in *.
  apply sublist_reverse in Hs. by rewrite reverse_involutive in Hs.
Qed.

(** The addresses of the authenticated sessions, in list order. *)
Definition authenticated_addresses l : list Ipv4Addr := address <$> retain authenticated l.

Lemma retain_replaced seen l w :
  NoDup (authenticated_addresses (retain_mut replaced seen l w).1) /\
  (forall a, a ∈ authenticated_addresses (retain_mut replaced seen l w).1 -> a ∉ seen) /\
  (forall s, s ∈ l -> authenticated s = false -> s ∈ (retain_mut replaced seen l w).1) /\
  (forall s, s ∈ l -> authenticated s = true ->
     address s ∈ seen \/ address s ∈ authenticated_addresses (retain_mut replaced seen l w).1).
Proof.
  unfold authenticated_addresses, retain.
  revert seen w. induction l as [|s l IH]; intros seen w.
  { cbn. split_and!; try (by intros ? ?%elem_of_nil). constructor. }
  cbn [retain_mut]. destruct (replaced seen s) as [[seen1 s1] keep] eqn:Hrep. unfold replaced in Hrep.
  destruct (authenticated s) eqn:Ha; [case_bool_decide as Hin|]; injection Hrep as <- <- <-.
  - destruct (IH seen (session_drop (s <| disconnect_reason := str "replaced" |>) w).2) as (I1 & I2 & I3 & I4).
    split_and!; [done|done|..]; intros s0 [->|Hs0]%elem_of_cons; try congruence; auto.
  - specialize (IH ({[address s]} ∪ seen) w). destruct (retain_mut replaced _ l w) as [l' w'] eqn:Hr.
    cbn [fst] in *. rewrite filter_cons_True by (by rewrite Ha). cbn [fmap list_fmap].
    destruct IH as (I1 & I2 & I3 & I4). split_and!.
    + constructor; [|done]. intros Hin'%I2. set_solver.
    + intros a [->|Hin'%I2]%elem_of_cons; set_solver.
    + intros s0 [->|Hs0]%elem_of_cons; [congruence|]. right. auto.
    + intros s0 [->|Hs0]%elem_of_cons Ha0; [right; by left|].
      destruct (I4 _ Hs0 Ha0) as [[He%elem_of_singleton|?]%elem_of_union|?];
        [right; rewrite He; by left|by left|right; by right].
  - specialize (IH seen w). destruct (retain_mut replaced _ l w) as [l' w'] eqn:Hr.
    cbn [fst] in *. rewrite filter_cons_False by (rewrite Ha; intros []).
    destruct IH as (I1 & I2 & I3 & I4). split_and!; try done.
    + intros s0 [->|Hs0]%elem_of_cons; [by left|]. right. auto.
    + intros s0 [->|Hs0]%elem_of_cons Ha0; [congruence|]. auto.
Qed.

Lemma dedupe_unique l w : NoDup (authenticated_addresses (dedupe l w).1).
Proof.
  unfold dedupe. destruct (retain_replaced ∅ (reverse l) w) as (H1 & _).
  destruct (retain_mut _ _ _ _) as [l' w']. cbn in *. unfold authenticated_addresses, retain in *.
  by rewrite reverse_Permutation.
Qed.
End dedupe.

(** ** New peers *)
Section accept.
Context {D : Type} `{DtlsLaws D} (ctx : DecryptContext).
Implicit Types (s : Session D) (l : list (Session D)) (w : World) (st : DecryptState D).

Lemma oldest_session_spec P best i l :
  match oldest_session P best i l with
  | Some (j, s) => best = Some (j, s) \/ (i <= j /\ l !! (j - i) = Some s /\ P s = true)%nat
  | None => best = None /\ Forall (fun s => P s = false) l
  end.
Proof.
  revert best i. induction l as [|s l IH]; intros best i; cbn [oldest_session].
  { destruct best as [[j s]|]; [by left|done]. }
  set (b := if P s then _ else _). specialize (IH b (S i)).
  destruct (oldest_session P b (S i) l) as [[j s']|].
  - destruct IH as [Hb|(Hj & Hl & HP)].
    + unfold b in Hb. destruct (P s) eqn:Hs; [|by left].
      destruct best as [[k sb]|]; [destruct (_ <? _)%Z|]; simplify_eq; try (by left);
        right; (split_and!; [lia|rewrite Nat.sub_diag; done|done]).
    + right. split_and!; [lia| |done]. replace (j - i)%nat with (S (j - S i)) by lia. done.
  - destruct IH as [Hb HF]. unfold b in Hb. destruct (P s) eqn:Hs.
    + destruct best as [[k sb]|]; [by destruct (_ <? _)%Z|done].
    + split; [done|]. by constructor.
Qed.

Lemma count_keys (P : key -> bool) l :
  count P (session_key <$> l) = count (fun s => P (session_key s)) l.
Proof. induction l as [|s l IH]; [done|]. cbn [fmap list_fmap]. rewrite !count_cons. by rewrite IH. Qed.

Lemma key_addresses_perm (ks ks' : list key) : ks ≡ₚ ks' -> key_addresses ks = key_addresses ks'.
Proof. unfold key_addresses. intros Hp. apply list_to_set_perm_L. by rewrite Hp. Qed.

(** Adding a pending session where the limits leave room for it. *)
Lemma keys_ok_add p ip ks :
  keys_ok ctx ks -> p ∉ key_peer <$> ks -> peer_ipv4 p = Some ip ->
  (count key_pending ks < max_pending_handshakes ctx)%nat ->
  (count (fun k => negb (key_pending k)) ks < max_clients ctx)%nat ->
  (count (key_pending_from ip) ks < MAX_PENDING_PER_IP)%nat ->
  keys_ok ctx (ks ++ [(p, false, UNSPECIFIED)]).
Proof.
  intros [H1 H2 H3 H4 H5] Hp Hip Hpend Hest Hper.
  assert (forall P : key -> bool, count P [(p, false, UNSPECIFIED)] = if P (p, false, UNSPECIFIED) then 1 else 0)%nat
    as Hone by (intros P; rewrite count_cons; unfold count; cbn; lia).
  split.
  - rewrite fmap_app. apply NoDup_app. split_and!; [done| |apply NoDup_singleton].
    intros x Hx ->%list_elem_of_singleton. done.
  - rewrite count_app, Hone. cbn. lia.
  - rewrite length_app. cbn. pose proof (count_split key_pending ks). lia.
  - intros ip'. rewrite count_app, Hone. unfold key_pending_from at 2. cbn [fst snd negb andb].
    rewrite Hip. specialize (H4 ip'). case_bool_decide as He; [injection He as <-|]; lia.
  - unfold key_addresses. rewrite omap_app. cbn. rewrite (right_id_L [] (++)). exact H5.
Qed.

Definition list_good l : Prop := Forall (session_ok ctx) l /\ list_ok ctx l.

Lemma list_good_submseteq l l' : l' ⊆+ l -> list_good l -> list_good l'.
Proof.
  intros Hs [H1 H2]. split.
  - rewrite Forall_forall in H1 |- *. intros s Hs'. apply H1. by eapply elem_of_submseteq.
  - eapply keys_ok_submseteq; [|exact H2]. by apply submseteq_keys.
Qed.

Lemma session_ok_new (d : D) dg enc raw w :
  queue_new SESSION_TX_QUEUE_CAPACITY = Ok enc -> queue_new SESSION_TX_QUEUE_CAPACITY = Ok raw ->
  session_ok ctx (new_session d dg enc raw w).
Proof.
  intros He Hr. destruct (queue_new_ok _ _ He) as (He1 & _), (queue_new_ok _ _ Hr) as (Hr1 & Hr2 & Hr3).
  assert (forall T (q : Queue T), queue_new SESSION_TX_QUEUE_CAPACITY = Ok q -> capacity q = SESSION_TX_QUEUE_CAPACITY) as Hc.
  { intros T q. unfold queue_new. case_decide; [done|]. by intros [= <-]. }
  split; cbn; try done; [by apply Hc|by apply Hc|unfold SESSION_TX_QUEUE_CAPACITY; lia|].
  rewrite Hr2. constructor.
Qed.

(** The outcome of treating an unknown peer. *)
Record accept_spec (dg : UdpDatagram) st l (r : accepted) st' l' : Prop := {
  accept_good : list_good l -> list_good l';
  accept_bindings : bindings st' = bindings st /\ logins st' = logins st;
  accept_kept : forall s, s ∈ l' -> established s = true -> s ∈ l;
  accept_new : forall i, r = Accepted i -> exists s, l' !! i = Some s /\ established s = false /\
                 peer s = dg_peer dg /\ authenticated s = false;
}.

Lemma accept_spec_same dg st st' l r :
  (forall i, r <> Accepted i) -> bindings st' = bindings st -> logins st' = logins st ->
  accept_spec dg st l r st' l.
Proof. intros Hr Hb Hl. split; [done|done|done|]. intros i ->. by destruct (Hr i). Qed.

(** Making room for one more pending session. *)
Lemma evict_spec l w l1 w1 :
  (1 <= max_pending_handshakes ctx)%nat -> list_good l ->
  (if decide (max_pending_handshakes ctx <= pending_count l)%nat then
     match oldest_session (fun s => negb (established s)) None 0 l with
     | Some (oldest, _) => remove_session oldest l w
     | None => (l, w)
     end
   else (l, w)) = (l1, w1) ->
  l1 ⊆+ l /\ (pending_count l1 < max_pending_handshakes ctx)%nat /\
  (established_count l1 = established_count l)%nat.
Proof.
  intros Hctx [_ [_ Hp _ _ _]]. rewrite count_keys in Hp.
  change (count _ l) with (pending_count l) in Hp. case_decide as Hfull.
  2:{ intros [= <- <-]. split; [done|]. split; [lia|done]. }
  pose proof (oldest_session_spec (fun s => negb (established s)) None 0 l) as Ho.
  destruct (oldest_session _ None 0 l) as [[i s]|].
  - destruct Ho as [?|(_ & Hi & Hs)]; [done|]. rewrite Nat.sub_0_r in Hi.
    intros [= <- <-]. split; [apply swap_remove_submseteq|].
    apply swap_remove_perm in Hi. unfold pending_count, established_count in *.
    assert (forall P, count P l = count P (s :: swap_remove i l)) as Hc by (intros P; by rewrite <-Hi).
    rewrite Hc, count_cons, Hs in Hp. rewrite (Hc established), count_cons.
    apply negb_true_iff in Hs. rewrite Hs. cbn. lia.
  - destruct Ho as [_ HF]. exfalso. unfold pending_count in Hfull.
    rewrite count_none in Hfull by done. lia.
Qed.

Lemma create_session_spec fresh dg ip st l w r st' l' w' :
  (1 <= max_pending_handshakes ctx)%nat ->
  peer_ipv4 (dg_peer dg) = Some ip -> Forall (fun s => peer s <> dg_peer dg) l ->
  list_good l ->
  create_session ctx fresh dg ip st l w = (r, st', l', w') -> accept_spec dg st l r st' l'.
Proof.
  intros Hctx Hip Hpeer Hgood. unfold create_session.
  case_decide as Hmax; [by intros [= <- <- <- <-]; apply accept_spec_same|].
  case_decide as Hper; [by intros [= <- <- <- <-]; apply accept_spec_same|].
  destruct (if decide _ then _ else _) as [l1 w1] eqn:Hev.
  destruct (evict_spec _ _ _ _ Hctx Hgood Hev) as (Hsub & Hpend & Hest).
  assert (forall st1 r1, (forall i, r1 <> Accepted i) -> bindings st1 = bindings st ->
            logins st1 = logins st -> accept_spec dg st l r1 st1 l1) as Hstop.
  { intros st1 r1 Hr1 Hb Hl. split; [by intros; eapply list_good_submseteq|done| |].
    - intros s Hs _. by eapply elem_of_submseteq.
    - intros i ->. by destruct (Hr1 i). }
  destruct fresh as [replacement|e]; [|by intros [= <- <- <- <-]; apply Hstop].
  destruct (queue_new SESSION_TX_QUEUE_CAPACITY) as [enc|] eqn:Henc; [|by intros [= <- <- <- <-]; apply Hstop].
  destruct (@queue_new (Packet * Instant) SESSION_TX_QUEUE_CAPACITY) as [raw|] eqn:Hraw; [|by intros [= <- <- <- <-]; apply Hstop].
  destruct (use_queued_send _) as [[u|e] d]; [|by intros [= <- <- <- <-]; apply Hstop].
  intros [= <- <- <- <-]. split; [|done| |].
  - intros _. destruct (list_good_submseteq _ _ Hsub Hgood) as [Hok Hkeys]. split.
    { apply Forall_app. split; [done|]. apply Forall_singleton. by apply session_ok_new. }
    unfold list_ok. rewrite fmap_app. apply (keys_ok_add (dg_peer dg) ip); [done| |done| | |].
    + rewrite <-list_fmap_compose. intros (s & Hs & Hin)%list_elem_of_fmap.
      rewrite Forall_forall in Hpeer. apply (Hpeer s); [by eapply elem_of_submseteq|done].
    + rewrite count_keys. exact Hpend.
    + rewrite count_keys. unfold established_count in *.
      assert (forall k, count (fun s => negb (key_pending (session_key s))) k = count established k) as Hc.
      { induction k as [|s k IH]; [done|]. rewrite !count_cons, IH. unfold key_pending. cbn.
        by destruct (established s). }
      rewrite Hc. lia.
    + rewrite count_keys.
      pose proof (count_submseteq (fun s => key_pending_from ip (session_key s)) _ _ Hsub) as Hle.
      assert (count (fun s => key_pending_from ip (session_key s)) l = pending_from_ip ip l) as Hc by done.
      lia.
  - intros s [Hs|Hs]%elem_of_app He; [by eapply elem_of_submseteq|].
    by apply list_elem_of_singleton in Hs as ->.
  - intros i [= <-]. eexists. split; [by apply list_lookup_middle|]. done.
Qed.

Lemma accept_new_peer_spec fresh dg st l w r st' l' w' :
  (1 <= max_pending_handshakes ctx)%nat ->
  Forall (fun s => peer s <> dg_peer dg) l -> list_good l ->
  accept_new_peer ctx fresh dg st l w = (r, st', l', w') -> accept_spec dg st l r st' l'.
Proof.
  intros Hctx Hpeer Hgood. unfold accept_new_peer.
  destruct (peer_ipv4 (dg_peer dg)) as [ip|] eqn:Hip; [|by intros [= <- <- <- <-]; apply accept_spec_same].
  destruct (check_ban _ _ _) as [banned lim]. destruct banned; [by intros [= <- <- <- <-]; apply accept_spec_same|].
  assert (forall st1, bindings st1 = bindings st -> logins st1 = logins st ->
    replace_acceptor fresh st1 l w = (r, st', l', w') -> accept_spec dg st l r st' l') as Hrep.
  { intros st1 Hb Hl. unfold replace_acceptor.
    destruct fresh; intros [= <- <- <- <-]; by apply accept_spec_same. }
  destruct (set_incoming_peer _ _ _ _) as [[u|e] acc]; [|by apply Hrep].
  destruct (accept_stateless _) as [o acc'].
  destruct (panic_gate _ o) as [[]|e]; [|by intros [= <- <- <- <-]; apply accept_spec_same|by apply Hrep].
  destruct (record_attempt _ _ _) as [[] lim'].
  - intros Hc. destruct (create_session_spec _ _ _ _ _ _ _ _ _ _ Hctx Hip Hpeer Hgood Hc). by split.
  - destruct (banned_now ip l w) as [l1 w1] eqn:Hb. intros [= <- <- <- <-].
    assert (l1 `sublist_of` l) as Hsub.
    { pose proof (retain_mut_sublist (fun (_ : unit) s => (tt, s, established s || negb (from_ip ip s))) tt l w) as Hs.
      unfold banned_now in Hb. rewrite Hb in Hs. apply Hs. by intros ??? s' [= _ <-]. }
    apply sublist_submseteq in Hsub. split; [by intros; eapply list_good_submseteq|done| |done].
    intros s Hs _. by eapply elem_of_submseteq.
  - by intros [= <- <- <- <-]; apply accept_spec_same.
Qed.
End accept.
(** ** Handshakes *)
Section handshakes.
Context {D : Type} `{DtlsLaws D} (ctx : DecryptContext).
Implicit Types (s : Session D) (l : list (Session D)) (w : World) (st : DecryptState D).

(** What the certificate of the peer at [p] must satisfy for the VPN address [a]. *)
Definition certified (b : gmap Ipv4Addr rstr) (p : list Z) (d : D) (a : Ipv4Addr) (fp : rstr) : Prop :=
  b !! a = Some fp /\ (fingerprint d).1 = Returned (Ok fp) /\
  let d1 := (fingerprint d).2 in
  (verify_client_san_ip ctx = true -> (peer_certificate_has_san_ip a d1).1 = Returned (Ok true)) /\
  let d2 := if verify_client_san_ip ctx then (peer_certificate_has_san_ip a d1).2 else d1 in
  exists ip, peer_ipv4 p = Some ip /\ (peer_certificate_allows_source_ip ip d2).1 = Returned (Ok true).

Lemma authorise_dtls b s r s' :
  authorise ctx b s = (r, s') -> exists d, s' = s <| dtls := d |>.
Proof.
  unfold authorise, with_dtls_local. destruct (fingerprint (dtls s)) as [o d].
  destruct (panic_gate _ o) as [fp|]; [|intros [= _ <-]; by exists d].
  destruct (list_find _ _) as [[? [a ?]]|]; [|intros [= _ <-]; by exists d].
  destruct (verify_client_san_ip ctx); cbn [dtls set_field].
  - destruct (peer_certificate_has_san_ip a d) as [o1 d1].
    destruct (match panic_gate _ o1 with Ok m => m | Err _ => false end); cbn [negb];
      [|intros [= _ <-]; by exists d1]. cbn [peer dtls set_field].
    destruct (peer_ipv4 (peer s)); [|intros [= _ <-]; by exists d1].
    destruct (peer_certificate_allows_source_ip _ d1) as [o2 d2].
    destruct (panic_gate _ o2) as [[]|]; intros [= _ <-]; by exists d2.
  - cbn [negb peer dtls set_field]. destruct (peer_ipv4 (peer s)); [|intros [= _ <-]; by exists d].
    destruct (peer_certificate_allows_source_ip _ d) as [o2 d2].
    destruct (panic_gate _ o2) as [[]|]; intros [= _ <-]; by exists d2.
Qed.

Lemma find_binding (b : gmap Ipv4Addr rstr) fp :
  match list_find (fun kv => kv.2 = fp) (map_to_list b) with
  | Some (_, (a, fp')) => b !! a = Some fp /\ fp' = fp
  | None => forall a, b !! a <> Some fp
  end.
Proof.
  destruct (list_find _ _) as [[i [a fp']]|] eqn:Hf.
  - apply list_find_Some in Hf as (Hl & Heq & _). cbn in Heq. subst fp'.
    apply list_elem_of_lookup_2, elem_of_map_to_list in Hl. done.
  - apply list_find_None in Hf. intros a Ha. apply elem_of_map_to_list in Ha.
    rewrite Forall_forall in Hf. by apply (Hf _ Ha).
Qed.

Lemma authorise_sound b s a fp :
  (authorise ctx b s).1 = Some (a, fp) -> certified b (peer s) (dtls s) a fp.
Proof.
  unfold authorise, with_dtls_local, certified. destruct (fingerprint (dtls s)) as [o d]. cbn [fst snd].
  destruct (panic_gate _ o) as [fp0|] eqn:Ho; [|done]. apply panic_gate_Ok in Ho as ->.
  pose proof (find_binding b fp0) as Hfind. destruct (list_find _ _) as [[i [a0 fp1]]|]; [|done].
  destruct Hfind as [Hb ->]. cbn zeta.
  destruct (verify_client_san_ip ctx); cbn [dtls set_field].
  - destruct (peer_certificate_has_san_ip a0 d) as [o1 d1] eqn:Hsan.
    destruct (panic_gate _ o1) as [[]|] eqn:Ho1; cbn [negb]; try done. apply panic_gate_Ok in Ho1 as ->.
    cbn [peer dtls set_field]. destruct (peer_ipv4 (peer s)) as [ip|]; [|done].
    destruct (peer_certificate_allows_source_ip ip d1) as [o2 d2] eqn:Hsrc.
    destruct (panic_gate _ o2) as [[]|] eqn:Ho2; try done. apply panic_gate_Ok in Ho2 as ->.
    intros [= <- <-]. rewrite Hsan. cbn [fst snd]. split_and!; try done. exists ip. by rewrite Hsrc.
  - cbn [negb peer dtls set_field]. destruct (peer_ipv4 (peer s)) as [ip|]; [|done].
    destruct (peer_certificate_allows_source_ip ip d) as [o2 d2] eqn:Hsrc.
    destruct (panic_gate _ o2) as [[]|] eqn:Ho2; try done. apply panic_gate_Ok in Ho2 as ->.
    intros [= <- <-]. split_and!; try done. exists ip. by rewrite Hsrc.
Qed.

Lemma authorise_complete b s a fp :
  (forall a1 a2 f, b !! a1 = Some f -> b !! a2 = Some f -> a1 = a2) ->
  certified b (peer s) (dtls s) a fp -> (authorise ctx b s).1 = Some (a, fp).
Proof.
  intros Hinj. unfold certified, authorise, with_dtls_local.
  destruct (fingerprint (dtls s)) as [o d]. cbn [fst snd]. cbn zeta.
  intros (Hb & -> & Hsan & ip & Hip & Hsrc). cbn [panic_gate].
  pose proof (find_binding b fp) as Hfind. destruct (list_find _ _) as [[i [a0 fp1]]|]; [|by apply Hfind in Hb].
  destruct Hfind as [Hb0 ->]. rewrite (Hinj _ _ _ Hb0 Hb) in *.
  destruct (verify_client_san_ip ctx); cbn [dtls set_field].
  - specialize (Hsan eq_refl). destruct (peer_certificate_has_san_ip a d) as [o1 d1]. cbn in Hsan. subst o1.
    cbn [panic_gate negb peer dtls set_field]. rewrite Hip. cbn [fst snd] in Hsrc.
    destruct (peer_certificate_allows_source_ip ip d1) as [o2 d2]. cbn in Hsrc. subst o2. done.
  - cbn [negb peer dtls set_field]. rewrite Hip.
    destruct (peer_certificate_allows_source_ip ip d) as [o2 d2]. cbn in Hsrc. subst o2. done.
Qed.

Lemma session_ok_establish logins a fp s w :
  session_ok ctx s -> established s = false -> session_ok ctx (establish logins a fp s w).
Proof.
  intros Hok He. pose proof (ok_fresh _ _ Hok He) as Hnil.
  unfold establish. apply session_ok_queue; [|done|].
  - destruct Hok as [R Rc O E Ec I A F N P]. split; cbn; try done. rewrite Hnil. constructor.
  - cbn. destruct (bool_decide _) eqn:Hb; [right; right; cbn; auto|by left].
Qed.

Lemma remove_duplicates_submseteq fuel index a p l w :
  session_key <$> (remove_duplicates fuel index a p l w).1 ⊆+ session_key <$> l /\
  (forall s, s ∈ (remove_duplicates fuel index a p l w).1 -> s ∈ l).
Proof.
  revert index l w. induction fuel as [|fuel IH]; intros index l w; cbn [remove_duplicates]; [done|].
  destruct (l !! index) as [s|] eqn:Hs; [|done]. destruct (same_client a p s); [|apply IH].
  unfold remove_session. rewrite swap_remove_insert by (by eapply lookup_lt_Some).
  destruct (IH index (swap_remove index l)
    (match <[index:=s <| disconnect_reason := str "replaced" |>]> l !! index with
     | Some s => (session_drop s w).2 | None => w end)) as [I1 I2]. split.
  - etrans; [exact I1|]. apply submseteq_keys, swap_remove_submseteq.
  - intros s0 Hs0%I2. by eapply swap_remove_subset.
Qed.

Lemma size_list_to_set_le (xs : list Ipv4Addr) : (size (list_to_set xs : gset Ipv4Addr) <= length xs)%nat.
Proof.
  induction xs as [|x xs IH]; [done|]. cbn [list_to_set length].
  rewrite size_union_alt, size_singleton.
  assert (size ((list_to_set xs : gset Ipv4Addr) ∖ {[x]}) <= size (list_to_set xs : gset Ipv4Addr))%nat;
    [apply subseteq_size; set_solver|lia].
Qed.

Lemma key_addresses_size (ks : list key) :
  (size (key_addresses ks) <= count (fun k => negb (key_pending k)) ks)%nat.
Proof.
  unfold key_addresses. etrans; [apply size_list_to_set_le|].
  induction ks as [|[[p e] a] ks IH]; [done|]. rewrite count_cons. unfold key_pending at 1. cbn.
  destruct e; cbn; lia.
Qed.

(** A pending session becoming established. *)
Lemma keys_ok_establish i p a0 a ks :
  keys_ok ctx ks -> ks !! i = Some (p, false, a0) ->
  (count (fun k => negb (key_pending k)) ks < max_clients ctx)%nat \/ a ∈ key_addresses ks ->
  keys_ok ctx (<[i := (p, true, a)]> ks).
Proof.
  intros [H1 H2 H3 H4 H5] Hi Hroom.
  pose proof (fun P => count_insert P ks i (p, false, a0) (p, true, a) Hi) as Hc. split.
  - rewrite list_fmap_insert. cbn. rewrite list_insert_id; [done|]. by rewrite list_lookup_fmap, Hi.
  - specialize (Hc key_pending). cbn in Hc. lia.
  - by rewrite length_insert.
  - intros ip. specialize (Hc (key_pending_from ip)). unfold key_pending_from in *. cbn in Hc.
    specialize (H4 ip). lia.
  - destruct Hroom as [Hroom|Hin].
    + etrans; [apply key_addresses_size|]. specialize (Hc (fun k => negb (key_pending k))). cbn in Hc. lia.
    + etrans; [|exact H5]. apply subseteq_size. intros b. unfold key_addresses.
      rewrite elem_of_list_to_set, list_elem_of_omap. intros (k & Hk & Hkb).
      apply list_elem_of_lookup in Hk as [j Hj]. destruct (decide (i = j)) as [<-|Hne].
      * rewrite list_lookup_insert_eq in Hj by (by eapply lookup_lt_Some). injection Hj as <-.
        cbn in Hkb. by injection Hkb as <-.
      * rewrite list_lookup_insert_ne in Hj by done.
        rewrite elem_of_list_to_set, list_elem_of_omap. exists k. split; [|done].
        by eapply list_elem_of_lookup_2.
Qed.
End handshakes.

Section datagrams.
Context {D : Type} `{DtlsLaws D} (ctx : DecryptContext).
Implicit Types (s : Session D) (l : list (Session D)) (w : World) (st : DecryptState D).

Abbreviation list_good := (list_good ctx).

(** Replacing a session by one with the same key. *)
Lemma list_good_update i s s' l :
  list_good l -> l !! i = Some s -> session_ok ctx s' -> session_key s' = session_key s ->
  list_good (<[i := s']> l).
Proof.
  intros [H1 H2] Hi Hok Hk. split; [by apply Forall_insert|]. unfold list_ok.
  rewrite list_fmap_insert, Hk, list_insert_id; [done|]. by rewrite list_lookup_fmap, Hi.
Qed.

Lemma list_good_remove i s s' l w :
  list_good l -> l !! i = Some s ->
  list_good (remove_session i (<[i := s']> l) w).1 /\
  forall s0, s0 ∈ (remove_session i (<[i := s']> l) w).1 -> s0 ∈ l.
Proof.
  intros Hg Hi. cbn. rewrite swap_remove_insert by (by eapply lookup_lt_Some). split.
  - eapply list_good_submseteq; [|done]. apply swap_remove_submseteq.
  - intros s0. apply swap_remove_subset.
Qed.

Lemma any_same_client_key a p i s l :
  l !! i = Some s -> peer s = p -> established s = false ->
  any (same_client a p) (<[i := s <| established := true |> <| address := a |>]> l) = true ->
  a ∈ key_addresses (session_key <$> l).
Proof.
  intros Hi Hp He [s0 [Hin Hs0]]%any_true. unfold same_client in Hs0.
  apply andb_true_iff in Hs0 as [[He0 Ha0%Z.eqb_eq]%andb_true_iff Hne%negb_true_iff].
  apply bool_decide_eq_false in Hne. apply list_elem_of_lookup in Hin as [j Hj].
  destruct (decide (i = j)) as [<-|Hij].
  { rewrite list_lookup_insert_eq in Hj by (by eapply lookup_lt_Some). injection Hj as <-. by destruct Hne. }
  rewrite list_lookup_insert_ne in Hj by done.
  unfold key_addresses. rewrite elem_of_list_to_set, list_elem_of_omap.
  exists (session_key s0). split; [apply list_elem_of_fmap_2; by eapply list_elem_of_lookup_2|].
  unfold session_key. cbn. by rewrite He0, Ha0.
Qed.

(** [any] only looks at the keys here. *)
Lemma any_same_client_ext a p l l' :
  session_key <$> l = session_key <$> l' -> any (same_client a p) l = any (same_client a p) l'.
Proof.
  revert l'. induction l as [|s l IH]; intros [|s' l']; try done. cbn [fmap list_fmap].
  intros [= Hp He Ha Hl]. unfold any in *. cbn. rewrite (IH l' Hl). unfold same_client.
  by rewrite Hp, He, Ha.
Qed.

Lemma admit_session_spec i s0 s l w :
  list_good l -> l !! i = Some s0 -> established s0 = false -> peer s = peer s0 ->
  established s = true -> session_ok ctx s ->
  list_good (admit_session ctx (established_count l) i s l w).1 /\
  forall s', s' ∈ (admit_session ctx (established_count l) i s l w).1 -> s' = s \/ s' ∈ l.
Proof.
  intros Hg Hi He0 Hp He Hok. unfold admit_session.
  assert (forall s', s' ∈ <[i := s]> l -> s' = s \/ s' ∈ l) as Hins.
  { intros s' [j Hj]%list_elem_of_lookup. destruct (decide (i = j)) as [<-|].
    - rewrite list_lookup_insert_eq in Hj by (by eapply lookup_lt_Some). injection Hj as <-. by left.
    - rewrite list_lookup_insert_ne in Hj by done. right. by eapply list_elem_of_lookup_2. }
  destruct (_ && _) eqn:Hfull.
  { rewrite list_insert_insert_eq.
    destruct (list_good_remove i s0 (s <| disconnect_reason := str "max_clients" |>) l
      (notify_control w) Hg Hi) as [? Hsub]. split; [done|]. intros s' Hs'. right. by apply Hsub. }
  assert (list_good (<[i := s]> l)) as Hgood.
  { destruct Hg as [H1 H2]. split; [by apply Forall_insert|]. unfold list_ok. rewrite list_fmap_insert.
    replace (session_key s) with (peer s0, true, address s) by (unfold session_key; by rewrite Hp, He).
    apply (keys_ok_establish ctx i (peer s0) (address s0)); [exact H2| |].
    { rewrite list_lookup_fmap, Hi. cbn. unfold session_key. by rewrite He0. }
    apply andb_false_iff in Hfull as [Hroom%bool_decide_eq_false|Hrep%negb_false_iff].
    - left. rewrite count_keys. unfold established_count in Hroom.
      assert (count (fun s => negb (key_pending (session_key s))) l = count established l) as ->; [|lia].
      clear. induction l as [|s l IH]; [done|]. rewrite !count_cons, IH. unfold key_pending. cbn.
      by destruct (established s).
    - right. apply (any_same_client_key (address s) (peer s) i s0); [done|done|done|].
      etrans; [|exact Hrep]. apply any_same_client_ext. rewrite !list_fmap_insert. f_equal.
      unfold session_key. cbn. by rewrite Hp, He. }
  destruct (authenticated s); [|by split].
  set (w1 := notify_tun_queue _).
  destruct (remove_duplicates_submseteq (length (<[i := s]> l)) 0 (address s) (peer s) (<[i := s]> l) w1) as [Hk Hin].
  split; [|intros s' Hs'; by apply Hins, Hin].
  destruct Hgood as [H1 H2]. split; [|by eapply keys_ok_submseteq].
  rewrite Forall_forall in H1 |- *. auto.
Qed.

(** A session that is established after a datagram: it was already, or the handshake of
    the datagram's sender has just been authorised. *)
Definition newly_established (dg : UdpDatagram) st (s : Session D) : Prop :=
  exists t d0 d o o' fp,
    handshake t d0 o = (Returned (Ok true), d, o') /\
    peer s = dg_peer dg /\ certified ctx (bindings st) (peer s) d (address s) fp /\
    session_fingerprint s = Some fp /\
    authenticated s = bool_decide (logins st !! address s = None).

(** Whose session it is. *)
Definition session_owner s := (peer s, address s, session_fingerprint s, established s).

Lemma session_id_owner s s' : session_id s = session_id s' -> session_owner s = session_owner s'.
Proof. intros [= Hp _ Ha Hf He _ _ _]. unfold session_owner. by rewrite Hp, Ha, Hf, He. Qed.

Definition kept l s : Prop :=
  exists s0, s0 ∈ l /\ established s0 = true /\ session_owner s = session_owner s0.

Lemma handshake_step_spec dg st i s0 s l w :
  list_good l -> l !! i = Some s0 -> established s0 = false -> peer s0 = dg_peer dg ->
  session_ok ctx s -> session_key s = session_key s0 ->
  list_good (handshake_step ctx st (established_count l) i s l w).1 /\
  forall s', s' ∈ (handshake_step ctx st (established_count l) i s l w).1 ->
    established s' = true -> s' ∈ l \/ newly_established dg st s'.
Proof.
  intros Hg Hi He0 Hpeer Hok Hk. unfold handshake_step.
  destruct (with_dtls handshake s w) as [[r s1] w1] eqn:Hh.
  destruct (with_dtls_frame _ _ _ _ _ _ Hh handshake_sends) as (d & q & g & -> & Hq & -> & Hr).
  injection Hk as Hkp Hke Hka.
  set (s1 := s <| dtls := d |> <| enc_tx_queue := q |>).
  assert (forall s2, session_ok ctx s -> address s2 = address s -> session_fingerprint s2 = session_fingerprint s ->
    established s2 = established s -> authenticated s2 = authenticated s ->
    raw_tx_queue s2 = raw_tx_queue s -> enc_tx_queue s2 = q -> pending_inject s2 = pending_inject s ->
    session_ok ctx s2) as Hsame.
  { intros s2 _ ? ? ? ? ? Henc Hpi. apply (session_ok_same ctx s); try done; [by rewrite Henc|].
    rewrite Hpi. apply Hok. }
  assert (forall s2 w2, list_good (remove_session i (<[i := s2]> l) w2).1 /\
    forall s', s' ∈ (remove_session i (<[i := s2]> l) w2).1 -> established s' = true ->
      s' ∈ l \/ newly_established dg st s') as Hreject.
  { intros s2 w2. destruct (list_good_remove i s0 s2 l w2 Hg Hi) as [? Hsub]. split; [done|].
    intros s' Hs' _. left. by apply Hsub. }
  destruct (panic_gate _ r) as [[]|e] eqn:Hgate; [| |apply Hreject].
  2:{ split.
      - eapply list_good_update; [done|done| |]; [by apply Hsame|]. unfold session_key. cbn. congruence.
      - intros s' [j Hj]%list_elem_of_lookup He'. left. destruct (decide (i = j)) as [<-|].
        + cbn [fst] in Hj. rewrite list_lookup_insert_eq in Hj by (by eapply lookup_lt_Some).
          injection Hj as <-. cbn in He'. congruence.
        + cbn [fst] in Hj. rewrite list_lookup_insert_ne in Hj by done. by eapply list_elem_of_lookup_2. }
  destruct (authorise ctx (bindings st) s1) as [[[a fp]|] s2] eqn:Hauth; [|apply Hreject].
  destruct (authorise_dtls _ _ _ _ _ Hauth) as [d2 ->].
  pose proof (authorise_sound ctx (bindings st) s1 a fp ltac:(by rewrite Hauth)) as Hcert.
  set (s2 := s1 <| dtls := d2 |>). set (s3 := establish (logins st) a fp s2 _).
  assert (session_ok ctx s3) as Hok3.
  { apply session_ok_establish; [by apply Hsame|]. cbn. congruence. }
  destruct (admit_session_spec i s0 s3 l (w <| progress := g |>) Hg Hi He0) as [Hg' Hin]; [cbn; congruence|done|done|].
  split; [exact Hg'|]. intros s' [->|?]%Hin _; [|by left]. right.
  apply panic_gate_Ok in Hgate. subst r.
  destruct (handshake (now w) (dtls s) {| tx := enc_tx_queue s; signal := progress w |}) as [[r' d'] o'] eqn:Hhs.
  cbn in Hgate. subst r'. unfold with_dtls in Hh. rewrite Hhs in Hh.
  assert (d' = d) as -> by (injection Hh; congruence).
  exists (now w), (dtls s), d, {| tx := enc_tx_queue s; signal := progress w |}, o', fp.
  split_and!; try done. cbn. congruence.
Qed.
End datagrams.

Section handling.
Context {D : Type} `{DtlsLaws D} (ctx : DecryptContext).
Implicit Types (s : Session D) (l : list (Session D)) (w : World) (st : DecryptState D).

Lemma inject_incoming_frame incoming s w b s' w' :
  inject_incoming incoming s w = (b, s', w') ->
  (session_ok ctx s -> session_ok ctx s') /\ session_id s' = session_id s /\ now w' = now w.
Proof.
  unfold inject_incoming. case_bool_decide as Hnil; cbn [negb].
  - destruct (with_dtls (inject incoming) s w) as [[r s1] w1] eqn:Hd.
    destruct (with_dtls_frame _ _ _ _ _ _ Hd (inject_sends incoming)) as (d & q & g & -> & Hq & -> & _).
    destruct r as [[]|]; intros [= <- <- <-]; (split; [|done]); intros Hok; apply (session_ok_same ctx s); try done;
      cbn; rewrite Hnil; cbn; unfold SESSION_TX_QUEUE_CAPACITY; lia.
  - case_decide as Hfull; intros [= <- <- <-]; (split; [|done]); intros Hok; [done|].
    apply (session_ok_same ctx s); try done; [auto with vpn|]. cbn. rewrite length_app. cbn. lia.
Qed.

Lemma session_id_key s s' : session_id s = session_id s' -> session_key s = session_key s'.
Proof. intros [= Hp _ Ha _ He _ _ _]. unfold session_key. by rewrite Hp, Ha, He. Qed.

(** What holds of the list after a datagram from [dg]'s peer. *)
Definition after_datagram (dg : UdpDatagram) st l l' : Prop :=
  list_good ctx l' /\
  forall s', s' ∈ l' -> established s' = true -> kept l s' \/ newly_established ctx dg st s'.

Lemma kept_self l s : s ∈ l -> established s = true -> kept l s.
Proof. intros. by exists s. Qed.

Lemma process_datagram_spec is_new i dg st s l w :
  list_good ctx l -> l !! i = Some s -> peer s = dg_peer dg ->
  after_datagram dg st l (process_datagram ctx is_new i dg st l w).1.
Proof.
  intros Hg Hi Hp. unfold process_datagram. rewrite Hi.
  assert (session_ok ctx s) as Hok by (by eapply Forall_lookup_1; [apply Hg|]).
  destruct (if is_new then _ else _) as [[go_on s1] w1] eqn:Hin.
  assert ((session_ok ctx s -> session_ok ctx s1) /\ session_id s1 = session_id s /\ now w1 = now w)
    as (Hok1 & Hid & Hn).
  { destruct is_new; [by injection Hin as <- <- <-|by eapply inject_incoming_frame]. }
  pose proof (session_id_key _ _ Hid) as Hk. pose proof Hk as [= Hkp Hke Hka].
  destruct (negb go_on || established s1) eqn:Hstop.
  - split; [eapply list_good_update; eauto|].
    intros s' [j Hj]%list_elem_of_lookup He'. left. destruct (decide (i = j)) as [<-|].
    + cbn [fst] in Hj. rewrite list_lookup_insert_eq in Hj by (by eapply lookup_lt_Some). injection Hj as <-.
      exists s. split; [by eapply list_elem_of_lookup_2|].
      split; [congruence|by apply session_id_owner].
    + cbn [fst] in Hj. rewrite list_lookup_insert_ne in Hj by done. apply kept_self; [|done].
      by eapply list_elem_of_lookup_2.
  - apply orb_false_iff in Hstop as [_ He1].
    destruct (handshake_step_spec ctx dg st i s s1 l w1 Hg Hi) as [Hg' Hin']; try done; [congruence|auto|].
    split; [exact Hg'|]. intros s' Hs' He'. destruct (Hin' s' Hs' He') as [?|Hnew]; [left; by apply kept_self|by right].
Qed.

Lemma handle_datagram_spec fresh dg st l w e st' l' w' :
  (1 <= max_pending_handshakes ctx)%nat -> list_good ctx l ->
  handle_datagram ctx fresh dg st l w = (e, st', l', w') ->
  after_datagram dg st l l' /\ bindings st' = bindings st /\ logins st' = logins st.
Proof.
  intros Hctx Hg. unfold handle_datagram.
  destruct (position _ l) as [i|] eqn:Hpos.
  - apply position_Some in Hpos as (s & Hi & Hs%bool_decide_eq_true & _).
    pose proof (process_datagram_spec false i dg st s l w Hg Hi Hs) as Hspec.
    destruct (process_datagram _ _ _ _ _ _ _) as [l1 w1]. by intros [= <- <- <- <-].
  - apply position_None in Hpos.
    assert (Forall (fun s => peer s <> dg_peer dg) l) as Hnew.
    { eapply Forall_impl; [exact Hpos|]. intros s Hs. by apply bool_decide_eq_false in Hs. }
    destruct (accept_new_peer ctx fresh dg st l w) as [[[r st1] l1] w1] eqn:Ha.
    destruct (accept_new_peer_spec ctx _ _ _ _ _ _ _ _ _ Hctx Hnew Hg Ha) as [A1 [A2 A2'] A3 A4].
    assert (list_good ctx l1 /\ forall s', s' ∈ l1 -> established s' = true -> kept l s') as [Hg1 Hk1].
    { split; [auto|]. intros s' Hs' He'. apply kept_self; auto. }
    destruct r as [|error|i].
    + intros [= <- <- <- <-]. split; [|done]. split; [done|]. intros. left. by apply Hk1.
    + intros [= <- <- <- <-]. split; [|done]. split; [done|]. intros. left. by apply Hk1.
    + destruct (A4 i eq_refl) as (s & Hi & He & Hp & _).
      destruct (process_datagram_spec true i dg st1 s l1 w1 Hg1 Hi Hp) as [Hg2 Hin].
      destruct (process_datagram _ _ _ _ _ _ _) as [l2 w2]. intros [= <- <- <- <-]. cbn [fst] in *.
      split; [|done]. split; [done|]. intros s' Hs' He'.
      destruct (Hin s' Hs' He') as [(s0 & Hs0 & He0 & Hid)|(t & d0 & d & o & o' & fp & Hh & Hpr & Hc & Hf & Hau)].
      * left. destruct (Hk1 s0 Hs0 He0) as (s2 & ? & ? & ?). exists s2. split_and!; [done|done|congruence].
      * right. exists t, d0, d, o, o', fp. rewrite A2 in Hc. rewrite A2' in Hau. by split_and!.
Qed.
End handling.

(** ** Properties *)

(** No client can write another's address to the TUN device: every packet one pass of the
    decrypt worker gives to the TUN device was decrypted from the DTLS session of an
    established and authenticated session, is a well-formed IPv4 packet whose source is that
    session's VPN address, and has a destination the configuration forwards. *)
Theorem tun_writes_sourced {D} `{DtlsLaws D} ctx logins (l : list (Session D)) w e l' w' :
  drain_sessions ctx logins l w = (e, l', w') ->
  exists new, tun_written w' = tun_written w ++ new /\
    forall packet, packet ∈ new -> exists s destination, s ∈ l /\
      established s = true /\ authenticated s = true /\ reads (now w) s packet /\
      ipv4_packet_addresses packet = Some (address s, destination) /\
      destination_allowed ctx destination = true.
Proof.
  intros Hd. apply drain_sessions_spec in Hd as (_ & _ & new & Hw & Hnew).
  exists new. split; [done|]. intros p Hp. destruct (Hnew p Hp) as (s & ? & ? & ? & ? & dst & ? & ?).
  by exists s, dst.
Qed.

Definition drain_ctx : DecryptContext :=
  {| max_clients := 2; max_pending_handshakes := 2; verify_client_san_ip := false;
     allow_broadcast := false; allow_multicast := false;
     network_address := ipv4_new 10 8 1 0; network_prefix := 24 |}.

(** A client of 10.8.1.2 with [packet] to read. *)
Definition draining (packet : Packet) (s : Session PlainDtls) : Session PlainDtls :=
  s <| dtls ::= fun d => d <| inbox := [packet] |> |> <| drain_pending := true |>.

Definition example_client : Session PlainDtls :=
  connected (ipv4_new 10 8 1 2) (example_session (ipv4_new 192 0 2 1) 5000 (str "a")).

Definition tun_world : World :=
  example_world <| tun_attempts := [{| tun_running := true; tun_write := Ok 20; tun_poll := Ok tt |}] |>.

Lemma tun_writes_sourced_witness :
  exists l' w', drain_sessions drain_ctx ∅
      [draining (example_packet (ipv4_new 10 8 1 2) (ipv4_new 10 8 1 9)) example_client] tun_world = (None, l', w') /\
    exists new, tun_written w' = [] ++ new /\ length new = 1%nat.
Proof.
  destruct (drain_sessions drain_ctx ∅
      [draining (example_packet (ipv4_new 10 8 1 2) (ipv4_new 10 8 1 9)) example_client] tun_world)
    as [[e l'] w'] eqn:Hd.
  destruct (tun_writes_sourced drain_ctx ∅ _ _ _ _ _ Hd) as (new & Hw & _).
  assert (e = None /\ length (tun_written w') = 1%nat) as [-> Hlen].
  { vm_compute in Hd. injection Hd as <- _ <-. by split. }
  exists l', w'. split; [done|]. exists new. split; [exact Hw|]. by rewrite Hw in Hlen.
Defined.

(** C26: A login succeeds once, with the configured credentials, or never: over a pass of the
    decrypt worker, a session becomes authenticated only if it had not tried to log in
    before, its address has a login, and what was just decrypted from it is exactly the login
    frame with that identifier and password; a session that has tried stays as it is. *)
Theorem login_once {D} `{DtlsLaws D} ctx logins (l l' : list (Session D)) w e w' i s s' :
  drain_sessions ctx logins l w = (e, l', w') ->
  l !! i = Some s -> l' !! i = Some s' -> authenticated s = false ->
  (authenticated s' = true ->
     login_attempted s = false /\ login_attempted s' = true /\
     exists id password, logins !! address s = Some (id, password) /\ 0 ∉ as_bytes id /\
       reads (now w) s (AUTH_LOGIN_PREFIX ++ as_bytes id ++ [0] ++ as_bytes password)) /\
  (login_attempted s = true -> authenticated s' = false /\ login_attempted s' = true).
Proof.
  intros Hd Hs Hs' Ha. apply drain_sessions_spec in Hd as (HF & _).
  destruct (Forall2_lookup_lr _ _ _ _ _ _ HF Hs Hs') as [_ _ _ _ Hatt Hlogin].
  split; [by apply Hlogin|]. intros Hla. split; [|by apply Hatt].
  destruct (authenticated s') eqn:Ha'; [|done].
  destruct (Hlogin Ha eq_refl) as [? _]. congruence.
Qed.

Definition login_frame : Packet := AUTH_LOGIN_PREFIX ++ bytes "alice" ++ [0] ++ bytes "secret".

Lemma login_once_witness :
  exists s', (drain_sessions drain_ctx {[ipv4_new 10 8 1 2 := (str "alice", str "secret")]}
      [draining login_frame (example_client <| authenticated := false |>)] example_world).1.2 !! 0%nat = Some s' /\
    authenticated s' = true /\ login_attempted s' = true.
Proof.
  set (logins := {[ipv4_new 10 8 1 2 := (str "alice", str "secret")]} : gmap Ipv4Addr (rstr * rstr)).
  set (s := draining login_frame (example_client <| authenticated := false |>)).
  destruct (drain_sessions drain_ctx logins [s] example_world) as [[e l'] w'] eqn:Hd.
  assert (authenticated <$> (l' !! 0%nat) = Some true) as Ha.
  { replace l' with (drain_sessions drain_ctx logins [s] example_world).1.2 by (by rewrite Hd).
    vm_compute. reflexivity. }
  destruct (l' !! 0%nat) as [s'|] eqn:Hs'; [|discriminate]. cbn in Ha. injection Ha as Ha.
  destruct (login_once drain_ctx logins [s] l' example_world e w' 0 s s' Hd eq_refl Hs' eq_refl) as [Hl _].
  exists s'. split; [exact Hs'|]. split; [exact Ha|]. apply (Hl Ha).
Defined.

(** The reply to a first login decides it exactly: a session that has not tried yet is
    authenticated if and only if the frame carries the configured identifier and password of
    its address; either way the attempt is used up and the answer is queued for the client. *)
Theorem handle_login_exact {D} logins login (s : Session D) w f s' w' :
  login_attempted s = false -> authenticated s = false ->
  is_closed (raw_tx_queue s) = false ->
  handle_login logins login s w = (f, s', w') ->
  (authenticated s' = true <-> exists id password, logins !! address s = Some (id, password) /\
     login = AUTH_LOGIN_PREFIX ++ as_bytes id ++ [0] ++ as_bytes password /\ 0 ∉ as_bytes id) /\
  login_attempted s' = true /\
  (if authenticated s' then AUTH_OK else AUTH_FAILED, now w) ∈ items (state (raw_tx_queue s')).
Proof.
  intros Hla Ha Hopen. unfold handle_login. rewrite Hla.
  set (s1 := s <| login_attempted := true |>). change (address s1) with (address s).
  assert (forall p, p ∈ items (state (push p (raw_tx_queue s)).2)) as Hpush.
  { intros p. unfold push. rewrite Hopen.
    destruct (decide _); [destruct (items (state (raw_tx_queue s)))|]; cbn; set_solver. }
  destruct (match logins !! address s with Some _ => _ | None => _ end) eqn:Hacc; intros [= <- <- <-].
  - split; [|split; [done|apply Hpush]]. split; [intros _|done].
    destruct (logins !! address s) as [[id password]|]; [|done].
    apply login_matches_spec in Hacc as [-> Hid]. by exists id, password.
  - cbn [authenticated queue_session_plain set_field]. change (authenticated s1) with (authenticated s).
    rewrite Ha. split; [|split; [done|apply Hpush]]. split; [done|].
    intros (id & password & Hl & Hf & Hid). rewrite Hl in Hacc.
    assert (login_matches login id password = true); [|congruence]. by apply login_matches_spec.
Qed.

Lemma handle_login_exact_witness :
  authenticated (handle_login {[ipv4_new 10 8 1 2 := (str "alice", str "secret")]} login_frame
    (example_client <| authenticated := false |>) example_world).1.2 = true.
Proof.
  set (logins := {[ipv4_new 10 8 1 2 := (str "alice", str "secret")]} : gmap Ipv4Addr (rstr * rstr)).
  set (s := example_client <| authenticated := false |>).
  destruct (handle_login logins login_frame s example_world) as [[f s'] w'] eqn:Hh.
  destruct (handle_login_exact logins login_frame s example_world f s' w' eq_refl eq_refl eq_refl Hh) as [Hl _].
  cbn [fst snd]. apply Hl. exists (str "alice"), (str "secret"). split; [vm_compute; reflexivity|].
  split; [vm_compute; reflexivity|]. by apply (bool_decide_unpack _).
Defined.

(** C11: Authorisation decides exactly by the certificate: with one-to-one bindings, a
    completed handshake is given a VPN address and fingerprint if and only if the library
    reports that fingerprint, the bindings assign it to that address, the SAN check passes
    when it is required, and the certificate's source policy allows the peer's address. *)
Theorem authorise_exact {D} `{DtlsSession D} ctx bindings (s : Session D) a fp :
  (forall a1 a2 f, bindings !! a1 = Some f -> bindings !! a2 = Some f -> a1 = a2) ->
  (authorise ctx bindings s).1 = Some (a, fp) <-> certified ctx bindings (peer s) (dtls s) a fp.
Proof. intros Hinj. split; [apply authorise_sound|by apply authorise_complete]. Qed.

Lemma authorise_exact_witness :
  (authorise drain_ctx {[ipv4_new 10 8 1 2 := str "a"]}
     (example_session (ipv4_new 192 0 2 1) 5000 (str "a"))).1 = Some (ipv4_new 10 8 1 2, str "a").
Proof.
  apply authorise_exact.
  - intros a1 a2 f H1%lookup_singleton_Some H2%lookup_singleton_Some. destruct H1, H2. congruence.
  - split; [vm_compute; reflexivity|]. split; [reflexivity|]. split; [discriminate|].
    exists (ipv4_new 192 0 2 1). split; vm_compute; reflexivity.
Defined.
