(* ===== verification/Control.v ===== *)
(** * The control thread

    Models [src/server/control.rs]: the command socket and its watchers, DTLS
    retransmission, session expiry, and configuration reloads that revoke sessions. A
    connected stream is the script of the kernel's answers to its reads and writes together
    with the bytes it has accepted. *)

From S2P Require Import Prelude Text Net Config Queue DtlsApi Session Decrypt.

Local Open Scope Z_scope.

(** ** Streams *)
Record Stream := {
  read_answers : list (io (list Z));
  write_answers : list (io nat);
  output : list Z;
}.

#[export] Instance eta_Stream : Eta Stream := fun s =>
  {| read_answers := read_answers s; write_answers := write_answers s; output := output s |}.

(** One [read] into a buffer of [n] bytes; without an answer it would block. *)
Definition stream_read (n : nat) (s : Stream) : io (list Z) * Stream :=
  match read_answers s with
  | [] => (Err (Simple WouldBlock), s)
  | a :: rest => (take n <$> a, s <| read_answers := rest |>)
  end.

(** One [write]: the kernel accepts a prefix of the data. *)
Definition stream_write (data : list Z) (s : Stream) : io nat * Stream :=
  match write_answers s with
  | [] => (Err (Simple WouldBlock), s)
  | Err e :: rest => (Err e, s <| write_answers := rest |>)
  | Ok n :: rest =>
      let n := Nat.min n (length data) in
      (Ok n, s <| write_answers := rest |> <| output ::= fun o => o ++ take n data |>)
  end.

(** [write_all] with its result ignored: it goes on until everything is written or an
    error other than [Interrupted]; a write of nothing ends it too. *)
Fixpoint write_all_loop (fuel : nat) (data : list Z) (s : Stream) : Stream :=
  match fuel with
  | O => s
  | S fuel =>
      match data with
      | [] => s
      | _ =>
          match stream_write data s with
          | (Ok O, s) => s
          | (Ok n, s) => write_all_loop fuel (drop n data) s
          | (Err e, s) => if decide (kind e = Interrupted) then write_all_loop fuel data s else s
          end
      end
  end.
(** Every turn uses one answer, and the last one finds none. *)
Definition write_all (data : list Z) (s : Stream) : Stream :=
  write_all_loop (S (length (write_answers s))) data s.

(** ** Watchers *)
Record Watcher := {
  stream : Stream;
  pending : list Z;
  written : nat;
  next : option (list Z);
}.

#[export] Instance eta_Watcher : Eta Watcher := fun w =>
  {| stream := stream w; pending := pending w; written := written w; next := next w |}.

Definition watcher_new (stream : Stream) (snapshot : list Z) : Watcher :=
  {| stream := stream; pending := snapshot; written := 0; next := None |}.

Definition enqueue_latest (snapshot : list Z) (w : Watcher) : Watcher :=
  if bool_decide (pending w = []) then w <| pending ::= fun p => p ++ snapshot |> <| written := 0%nat |>
  else w <| next := Some snapshot |>.

(** [Watcher::flush]; every turn but the last uses one answer of the kernel. *)
Fixpoint flush_loop (fuel : nat) (w : Watcher) : bool * Watcher :=
  match fuel with
  | O => (true, w)
  | S fuel =>
      let '(finished, w) :=
        if decide (written w = length (pending w)) then
          match next w with
          | Some snapshot => (false, w <| pending := snapshot |> <| written := 0%nat |> <| next := None |>)
          | None => (true, w <| pending := [] |> <| written := 0%nat |>)
          end
        else (false, w) in
      if (finished : bool) then (true, w)
      else
        match stream_write (drop (written w) (pending w)) (stream w) with
        | (Ok O, s) => (false, w <| stream := s |>)
        | (Ok count, s) => flush_loop fuel (w <| stream := s |> <| written ::= Nat.add count |>)
        | (Err e, s) => (bool_decide (kind e = WouldBlock), w <| stream := s |>)
        end
  end.
Definition flush (w : Watcher) : bool * Watcher :=
  flush_loop (S (length (write_answers (stream w)))) w.

(** ** The published state of the sessions *)
Section snapshots.
Context {D : Type}.
Implicit Types (s : Session D) (l : list (Session D)) (w : World).

Definition client_ip s : rstr := from_option display_ipv4 [] (peer_ipv4 (peer s)).
Definition fingerprint_text s : rstr := from_option id [] (session_fingerprint s).

Definition write_session_identity l : rstr :=
  retain authenticated l ≫= (fun s =>
    display_ipv4 (address s) ++ str ":" ++ fingerprint_text s ++ str ":" ++ client_ip s ++ str "|").

Definition quote : rstr := [34%N].
Definition json_field (name : string) (value : rstr) : rstr := quote ++ str name ++ quote ++ str ":" ++ value.
Definition json_text (value : rstr) : rstr := quote ++ value ++ quote.

Definition session_json w s : rstr :=
  str "{" ++ json_field "vpnAddress" (json_text (display_ipv4 (address s)))
  ++ str "," ++ json_field "fingerprint" (json_text (fingerprint_text s))
  ++ str "," ++ json_field "clientIp" (json_text (client_ip s))
  ++ str "," ++ json_field "connectedSeconds"
       (display_uint (from_option (fun t => as_secs (elapsed (now w) t)) 0 (established_at s)))
  ++ str "," ++ json_field "bytesTx" (display_uint (bytes_tx s))
  ++ str "," ++ json_field "bytesRx" (display_uint (bytes_rx s))
  ++ str "," ++ json_field "packetsTx" (display_uint (packets_tx s))
  ++ str "," ++ json_field "packetsRx" (display_uint (packets_rx s)) ++ str "}".

Fixpoint commas (parts : list rstr) : rstr :=
  match parts with
  | [] => []
  | [p] => p
  | p :: parts => p ++ str "," ++ commas parts
  end.

Definition session_snapshot l w : rstr :=
  str "{" ++ json_field "type" (json_text (str "sessions")) ++ str ","
  ++ json_field "sessions" (str "[" ++ commas (session_json w <$> retain authenticated l) ++ str "]}").
End snapshots.

(** ** The command socket *)
Record PendingCommand := { command_stream : Stream; command_bytes : list Z; accepted_at : Instant }.

#[export] Instance eta_PendingCommand : Eta PendingCommand := fun p =>
  {| command_stream := command_stream p; command_bytes := command_bytes p; accepted_at := accepted_at p |}.

(** [ControlSocket] without its file descriptors. [answered] are the command streams the
    thread is done with. *)
Record ControlSocket := {
  pending_commands : list PendingCommand;
  watchers : list Watcher;
  reload_requested : bool;
  reload_responses : list Stream;
  last_identity : rstr;
  answered : list Stream;
}.

#[export] Instance eta_ControlSocket : Eta ControlSocket := fun c =>
  {| pending_commands := pending_commands c; watchers := watchers c;
     reload_requested := reload_requested c; reload_responses := reload_responses c;
     last_identity := last_identity c; answered := answered c |}.

Definition MAX_COMMAND : nat := 256.

(** A response line. *)
Definition respond (line : rstr) (stream : Stream) (c : ControlSocket) : ControlSocket :=
  c <| answered ::= fun l => l ++ [write_all (as_bytes (line ++ [10%N])) stream] |>.

Definition json_error (error : string) : rstr :=
  str "{" ++ json_field "ok" (str "false") ++ str "," ++ json_field "error" (json_text (str error)) ++ str "}".

(** The reading loop of one pending command: whether the command is complete. *)
Fixpoint read_command (fuel : nat) (p : PendingCommand) : bool * PendingCommand :=
  match fuel with
  | O => (false, p)
  | S fuel =>
      if decide (length (command_bytes p) = MAX_COMMAND) then (true, p)
      else
        match stream_read (MAX_COMMAND - length (command_bytes p)) (command_stream p) with
        | (Ok [], s) => (true, p <| command_stream := s |>)
        | (Ok data, s) =>
            let p := p <| command_stream := s |> <| command_bytes ::= fun b => b ++ data |> in
            if bool_decide (10 ∈ command_bytes p) then (true, p) else read_command fuel p
        | (Err e, s) => (negb (bool_decide (kind e = WouldBlock)), p <| command_stream := s |>)
        end
  end.

Section control.
Context {D : Type} `{DtlsSession D}.
Implicit Types (s : Session D) (l : list (Session D)) (w : World) (c : ControlSocket).

Definition disconnected (a : Ipv4Addr) (_ : unit) s : unit * Session D * bool :=
  if established s && (address s =? a)
  then (tt, s <| disconnect_reason := str "web_disconnect" |>, false)
  else (tt, s, true).

Definition handle_command (stream : Stream) (command : rstr) c l w
    : ControlSocket * list (Session D) * World :=
  if bool_decide (command = str "WATCH") then
    let snapshot := as_bytes (session_snapshot l w ++ [10%N]) in
    let '(alive, watcher) := flush (watcher_new stream snapshot) in
    (if alive then c <| watchers ::= fun ws => ws ++ [watcher] |> else c, l, w)
  else if bool_decide (command = str "STATUS") then
    (* two writes: the snapshot, then the line feed *)
    let stream := write_all (as_bytes (session_snapshot l w)) stream in
    (c <| answered ::= fun ss => ss ++ [write_all [10] stream] |>, l, w)
  else if bool_decide (command = str "RELOAD") then
    (c <| reload_requested := true |> <| reload_responses ::= fun ss => ss ++ [stream] |>, l, w)
  else
    match strip_prefix (str "DISCONNECT ") command with
    | Some text =>
        match parse_ipv4 text with
        | None => (respond (json_error "invalid_vpn_address") stream c, l, w)
        | Some a =>
            let before := length l in
            let '(l, w) := retain_mut (disconnected a) tt l w in
            let removed := (before - length l)%nat in
            (respond (str "{" ++ json_field "ok" (str "true") ++ str ","
                      ++ json_field "disconnected" (display_uint (Z.of_nat removed)) ++ str "}")
               stream c, l, w)
        end
    | None => (respond (json_error "invalid_command") stream c, l, w)
    end.

(** [watchers.retain_mut(Watcher::flush)] *)
Definition flush_watchers (ws : list Watcher) : list Watcher :=
  omap (fun watcher => let '(alive, watcher) := flush watcher in if alive then Some watcher else None) ws.

Definition publish_if_changed c l w : ControlSocket :=
  let identity := write_session_identity l in
  let c :=
    if bool_decide (identity <> last_identity c) then
      let message := as_bytes (session_snapshot l w ++ [10%N]) in
      c <| last_identity := identity |> <| watchers ::= fmap (enqueue_latest message) |>
    else c in
  c <| watchers ::= flush_watchers |>.

(** The accepting loop of [process]; each answer of [accept] is a stream ([set_nonblocking]
    included) or an error. *)
Fixpoint accept_commands (answers : list (io Stream)) c w : io unit * ControlSocket :=
  match answers with
  | [] => (Ok tt, c)
  | Err e :: rest => if decide (kind e = WouldBlock) then (Ok tt, c) else (Err e, c)
  | Ok stream :: rest =>
      let c := if decide (length (pending_commands c) < 64)%nat then
                 c <| pending_commands ::= fun ps =>
                   ps ++ [{| command_stream := stream; command_bytes := []; accepted_at := now w |}] |>
               else c in
      accept_commands rest c w
  end.

Definition process_command (p : PendingCommand) (clw : ControlSocket * list (Session D) * World)
    : ControlSocket * list (Session D) * World :=
  let '(c, l, w) := clw in
  if from_secs 3 <=? elapsed (now w) (accepted_at p) then (c, l, w)
  else
    let '(complete, p) := read_command (S (length (read_answers (command_stream p)))) p in
    if complete
    then handle_command (command_stream p) (trim (from_utf8_lossy (command_bytes p))) c l w
    else (c <| pending_commands ::= fun ps => ps ++ [p] |>, l, w).

Definition process (accepts : list (io Stream)) c l w
    : io unit * ControlSocket * list (Session D) * World :=
  match accept_commands accepts c w with
  | (Err e, c) => (Err e, c, l, w)
  | (Ok _, c) =>
      let commands := pending_commands c in
      let '(c, l, w) :=
        foldl (fun clw p => process_command p clw) (c <| pending_commands := [] |>, l, w) commands in
      (Ok tt, publish_if_changed c l w, l, w)
  end.

Definition respond_reload (ok : bool) c : ControlSocket :=
  let response := if ok then str "{" ++ json_field "ok" (str "true") ++ str "}"
                  else json_error "reload_failed" in
  foldl (fun c stream => respond response stream c) (c <| reload_responses := [] |>)
    (reload_responses c).

(** ** Retransmission and expiry *)
Definition deadline_passed (t : Instant) s : bool :=
  negb (established s) && from_option (fun deadline => deadline <=? t) false (dtls_deadline s).

(** The loop over the pending handshakes; every turn advances the index or shortens the
    list. [t] is the instant at the start of the thread's turn. *)
Fixpoint retransmit_loop (fuel : nat) (t : Instant) (index : nat) l w : list (Session D) * World :=
  match fuel with
  | O => (l, w)
  | S fuel =>
      match l !! index with
      | None => (l, w)
      | Some s =>
          if deadline_passed t s then
            let '(r, s, w) := with_dtls handle_timeout s w in
            match panic_gate (str "DTLS retransmission") (Returned r) with
            | Err _ =>
                let s := s <| disconnect_reason := str "handshake_timeout_error" |> in
                let '(l, w) := remove_session index (<[index := s]> l) w in
                retransmit_loop fuel t index l w
            | Ok _ =>
                let timeout := current_timeout (dtls s) in
                let s := s <| dtls_deadline := Some (now w + timeout) |> in
                retransmit_loop fuel t (S index) (<[index := s]> l) w
            end
          else retransmit_loop fuel t (S index) l w
      end
  end.
Definition retransmit (t : Instant) l w : list (Session D) * World :=
  retransmit_loop (length l) t 0 l w.

(** How long a session may stay without activity. *)
Definition idle_limit s : Duration :=
  if authenticated s then SESSION_IDLE_TIMEOUT
  else if established s then from_secs 120
  else HANDSHAKE_TIMEOUT.

Definition expired_session (max_session_lifetime : Duration) (t : Instant) (_ : unit) s
    : unit * Session D * bool :=
  let idle_valid := elapsed t (last_activity s) <? idle_limit s in
  let lifetime_valid :=
    negb (from_option (fun started => max_session_lifetime <=? elapsed t started) false
            (established_at s)) in
  let s := if idle_valid && negb lifetime_valid
           then s <| disconnect_reason := str "max_session_lifetime" |> else s in
  let s := if negb idle_valid && established s
           then s <| disconnect_reason := str "idle_timeout" |> else s in
  (tt, s, idle_valid && lifetime_valid).

Definition expire (max_session_lifetime : Duration) l w : list (Session D) * World :=
  retain_mut (expired_session max_session_lifetime (now w)) tt l w.

(** ** Reloading the configuration *)
Record ControlState := {
  current_bindings : gmap Ipv4Addr rstr;
  current_logins : gmap Ipv4Addr (rstr * rstr);
  next_config_reload : Instant;
}.

(** [mem::take(&mut control.reload_requested)] *)
Definition take_reload c : bool * ControlSocket := (reload_requested c, c <| reload_requested := false |>).

(** [now >= next_config_reload || reload_requested]; [t] is the start of the turn. *)
Definition reload_due (t : Instant) (requested : bool) (cs : ControlState) : bool :=
  (next_config_reload cs <=? t) || requested.

(** Whether a session survives the change to [new_bindings] and [new_logins]. *)
Definition authorized (logins new_logins : gmap Ipv4Addr (rstr * rstr))
    (new_bindings : gmap Ipv4Addr rstr) s : bool :=
  match session_fingerprint s with
  | Some actual => bool_decide (new_bindings !! address s = Some actual)
  | None => false
  end && bool_decide (logins !! address s = new_logins !! address s).

Definition revoked (logins new_logins : gmap Ipv4Addr (rstr * rstr))
    (new_bindings : gmap Ipv4Addr rstr) (_ : unit) s : unit * Session D * bool :=
  if negb (established s) then (tt, s, false)
  else if authorized logins new_logins new_bindings s then (tt, s, true)
  else (tt, s <| disconnect_reason := str "binding_revoked" |>, false).

Definition revoke_sessions (logins new_logins : gmap Ipv4Addr (rstr * rstr))
    (new_bindings : gmap Ipv4Addr rstr) l w : list (Session D) * World :=
  retain_mut (revoked logins new_logins new_bindings) tt l w.

(** Reading and validating the client section; [file] is the configuration file, [fresh]
    what [create_stateless_acceptor] returns. *)
Definition read_update (file : io rstr) (vpn_address : Ipv4Addr) (vpn_network : rstr)
    (fresh : io D) : io (gmap Ipv4Addr rstr * gmap Ipv4Addr (rstr * rstr) * D) :=
  entries ← parse_ini_entries file (str "client");
  new_logins ← client_logins entries;
  new_bindings ← validate_client_bindings entries vpn_address vpn_network;
  acceptor ← fresh;
  Ok (new_bindings, new_logins, acceptor).

(** The reload step. The update goes to the decrypt thread; [receiving] tells whether it
    still receives, [acked] whether it acknowledges in time. The thread then waits for the
    acknowledgement without a lock; [finished] is the instant this is over. What follows the
    wait changes only what belongs to this thread. [None] ends the thread. *)
Definition reload (file : io rstr) (vpn_address : Ipv4Addr) (vpn_network : rstr) (fresh : io D)
    (config_reload_interval : Duration) (receiving acked : bool) (finished : Instant) (requested : bool)
    (cs : ControlState) c l w
    : option (option (ReloadUpdate D) * ControlState) * ControlSocket * list (Session D) * World :=
  match read_update file vpn_address vpn_network fresh with
  | Ok (new_bindings, new_logins, acceptor) =>
      let '(l, w) := revoke_sessions (current_logins cs) new_logins new_bindings l w in
      let c := publish_if_changed c l w in
      if negb receiving then (None, c, l, w)
      else
        let update := {| new_bindings := new_bindings; new_logins := new_logins;
                         new_acceptor := acceptor; wants_ack := requested |} in
        let c := if requested then respond_reload acked c else c in
        (Some (Some update, {| current_bindings := new_bindings; current_logins := new_logins;
                               next_config_reload := finished + config_reload_interval |}), c, l, w)
  | Err _ =>
      (Some (None, {| current_bindings := current_bindings cs; current_logins := current_logins cs;
                      next_config_reload := finished + config_reload_interval |}),
       respond_reload false c, l, w)
  end.

(** ** The next wake-up *)
Definition session_deadlines (max_session_lifetime : Duration) s : list Instant :=
  option_list (dtls_deadline s) ++ [last_activity s + idle_limit s]
  ++ option_list ((fun started => started + max_session_lifetime) <$> established_at s).

Definition minimum (ts : list Instant) : option Instant :=
  match ts with [] => None | t :: ts => Some (foldl Z.min t ts) end.

Definition next_wake (max_session_lifetime : Duration) (cs : ControlState) c l : Instant :=
  let wake := match minimum (l ≫= session_deadlines max_session_lifetime) with
              | None => next_config_reload cs
              | Some deadline => Z.min deadline (next_config_reload cs)
              end in
  match minimum ((fun p => accepted_at p + from_secs 3) <$> pending_commands c) with
  | None => wake
  | Some deadline => Z.min deadline wake
  end.

(** ** One turn of the thread up to its sleep *)
Definition maintain (accepts : list (io Stream)) (max_session_lifetime : Duration) (t : Instant)
    c l w : io unit * ControlSocket * list (Session D) * World :=
  match process accepts c l w with
  | (Err e, c, l, w) => (Err e, c, l, w)
  | (Ok _, c, l, w) =>
      let '(l, w) := retransmit t l w in
      let '(l, w) := expire max_session_lifetime l w in
      (Ok tt, publish_if_changed c l w, l, w)
  end.
End control.

(** ** Lemmas: watchers *)

(** What a watcher goes through: snapshots are offered, the kernel accepts bytes. *)
Inductive watcher_op := Enqueue (snapshot : list Z) | Flush (answers : list (io nat)).

(** The run ends when a flush reports the peer gone. *)
Fixpoint run_watcher (ops : list watcher_op) (w : Watcher) : bool * Watcher :=
  match ops with
  | [] => (true, w)
  | Enqueue snapshot :: ops => run_watcher ops (enqueue_latest snapshot w)
  | Flush answers :: ops =>
      let '(alive, w) := flush (w <| stream ::= fun s => s <| write_answers := answers |> |>) in
      if alive then run_watcher ops w else (false, w)
  end.

Definition snapshots (ops : list watcher_op) : list (list Z) :=
  omap (fun op => match op with Enqueue snapshot => Some snapshot | Flush _ => None end) ops.

(** [frames] are the snapshots that were or will be sent whole, [offered] all of them. *)
Record watcher_inv (sent0 : list Z) (offered : list (list Z)) (w : Watcher) (frames : list (list Z)) : Prop := {
  watcher_bytes : output (stream w) ++ drop (written w) (pending w) = sent0 ++ concat frames;
  watcher_offered : frames ++ option_list (next w) `sublist_of` offered;
  watcher_last : last (frames ++ option_list (next w)) = last offered;
  watcher_head : head frames = head offered;
  watcher_written : (written w <= length (pending w))%nat;
  watcher_next : pending w = [] -> next w = None;
}.

Lemma watcher_inv_enqueue sent0 offered w frames snapshot :
  offered <> [] ->
  watcher_inv sent0 offered w frames ->
  exists frames', watcher_inv sent0 (offered ++ [snapshot]) (enqueue_latest snapshot w) frames'.
Proof.
  intros Hne [Hb Ho Hl Hh Hw Hn]. unfold enqueue_latest. 
  assert (frames <> []) as Hf by (by destruct frames, offered).
  case_bool_decide as Hp.
  - specialize (Hn Hp). rewrite Hn in Ho, Hl. cbn in Ho, Hl. rewrite (right_id_L [] (++)) in Ho, Hl.
    exists (frames ++ [snapshot]). split; cbn; rewrite ?Hn, ?Hp; cbn; rewrite ?(right_id_L [] (++)).
    + rewrite concat_app. cbn. rewrite (right_id_L [] (++)), (assoc_L (++)), <-Hb, Hp, drop_nil.
      by rewrite (right_id_L [] (++)).
    + by apply sublist_app.
    + by rewrite !last_snoc.
    + by destruct frames, offered.
    + lia.
    + intros ->. done.
  - exists frames. split; cbn; try done.
    + apply sublist_app; [|done]. etrans; [|exact Ho]. by apply sublist_inserts_r.
    + by rewrite !last_snoc.
    + by destruct frames, offered.
Qed.

Lemma stream_write_out data s r s' :
  stream_write data s = (r, s') ->
  match r with
  | Ok n => (n <= length data)%nat /\ output s' = output s ++ take n data
  | Err _ => output s' = output s
  end.
Proof.
  unfold stream_write. destruct (write_answers s) as [|[n|e] rest]; intros [= <- <-]; cbn; [done| |done].
  split; [lia|done].
Qed.

Lemma watcher_inv_flush_loop fuel sent0 offered w frames :
  watcher_inv sent0 offered w frames ->
  exists frames', watcher_inv sent0 offered (flush_loop fuel w).2 frames'.
Proof.
  revert w frames. induction fuel as [|fuel IH]; intros w frames Hinv; cbn [flush_loop]; [by exists frames|].
  assert (forall w1 frames1, watcher_inv sent0 offered w1 frames1 ->
    exists frames', watcher_inv sent0 offered
      (match stream_write (drop (written w1) (pending w1)) (stream w1) with
        | (Ok O, s) => (false, w1 <| stream := s |>)
        | (Ok count, s) => flush_loop fuel (w1 <| stream := s |> <| written ::= Nat.add count |>)
        | (Err e, s) => (bool_decide (kind e = WouldBlock), w1 <| stream := s |>)
        end).2 frames') as Hwrite.
  { intros w1 frames1 [Hb Ho Hl Hh Hw Hn].
    destruct (stream_write _ (stream w1)) as [r s] eqn:Hs. apply stream_write_out in Hs.
    rewrite length_drop in Hs. destruct r as [[|n]|e].
    - destruct Hs as [_ Hs]. rewrite take_0, (right_id_L [] (++)) in Hs.
      exists frames1. split; cbn; try done. by rewrite Hs.
    - destruct Hs as [Hle Hs]. apply IH with frames1. split; cbn [stream pending written next set_field]; try done; [|lia].
      rewrite Hs, <-(assoc_L (++)), <-Hb. f_equal.
      rewrite <-(take_drop (S n) (drop (written w1) (pending w1))) at 2. by rewrite drop_drop, (Nat.add_comm (S n)).
    - exists frames1. split; cbn; try done. by rewrite Hs. }
  destruct (decide (written w = length (pending w))) as [Hdone|]; [|by apply (Hwrite w frames)].
  destruct Hinv as [Hb Ho Hl Hh Hw Hn]. rewrite Hdone, drop_all, (right_id_L [] (++)) in Hb.
  destruct (next w) as [snapshot|] eqn:Hnx.
  - apply (Hwrite _ (frames ++ [snapshot])). split; cbn; rewrite ?(right_id_L [] (++)); try done; [| |lia].
    + rewrite concat_app. cbn. by rewrite (right_id_L [] (++)), (assoc_L (++)), <-Hb.
    + destruct frames as [|f fs]; [|done]. cbn in Hh, Ho. destruct offered; [|done].
      by apply sublist_nil_r in Ho.
  - exists frames. split; cbn; rewrite ?Hnx; try done. by rewrite (right_id_L [] (++)).
Qed.

Lemma run_watcher_inv ops sent0 offered w frames :
  offered <> [] -> watcher_inv sent0 offered w frames ->
  exists offered' frames', offered `prefix_of` offered' /\ offered' `prefix_of` offered ++ snapshots ops /\
    ((run_watcher ops w).1 = true -> offered' = offered ++ snapshots ops) /\
    watcher_inv sent0 offered' (run_watcher ops w).2 frames'.
Proof.
  revert offered w frames. induction ops as [|[snapshot|answers] ops IH]; intros offered w frames Hne Hinv;
    cbn [run_watcher snapshots omap list_omap].
  - exists offered, frames. rewrite (right_id_L [] (++)). by split_and!.
  - destruct (watcher_inv_enqueue _ _ _ _ snapshot Hne Hinv) as [frames' Hinv'].
    destruct (IH (offered ++ [snapshot]) _ frames' ltac:(by destruct offered) Hinv') as (o & f & Hpre & Hp & Ha & Hi).
    rewrite <-(assoc_L (++)) in Hp, Ha. exists o, f. split_and!; try done.
    etrans; [|exact Hpre]. by apply prefix_app_r.
  - assert (watcher_inv sent0 offered (w <| stream ::= fun s => s <| write_answers := answers |> |>) frames) as Hw.
    { destruct Hinv. by split. }
    apply (watcher_inv_flush_loop (S (length answers))) in Hw as [frames' Hw].
    unfold flush. cbn [stream write_answers set_field] in *.
    destruct (flush_loop _ _) as [alive w1]. cbn [snd] in Hw. destruct alive.
    + by apply (IH offered w1 frames').
    + exists offered, frames'. split_and!; [done|by apply prefix_app_r|done|done].
Qed.

(** ** Lemmas: deadlines *)
Lemma fold_min_le (ts : list Instant) t0 t : t ∈ t0 :: ts -> foldl Z.min t0 ts <= t.
Proof.
  intros Ht. assert (foldl Z.min t0 ts <= t0 /\ Forall (fun t => foldl Z.min t0 ts <= t) ts) as [H0 Hts].
  { clear Ht. revert t0. induction ts as [|x ts IH]; intros t0; cbn; [by split|].
    destruct (IH (Z.min t0 x)) as [? ?]. split; [lia|]. constructor; [lia|done]. }
  apply elem_of_cons in Ht as [->|Ht]; [done|]. rewrite Forall_forall in Hts. by apply Hts.
Qed.

Lemma minimum_le ts t : t ∈ ts -> exists m, minimum ts = Some m /\ m <= t.
Proof.
  destruct ts as [|x ts]; [by intros ?%elem_of_nil|]. intros Ht. eexists. split; [done|].
  by apply fold_min_le.
Qed.

Lemma next_wake_le {D} max_session_lifetime cs c (l : list (Session D)) s deadline :
  s ∈ l -> deadline ∈ session_deadlines max_session_lifetime s ->
  next_wake max_session_lifetime cs c l <= deadline.
Proof.
  intros Hs Hd. unfold next_wake.
  destruct (minimum_le (l ≫= session_deadlines max_session_lifetime) deadline) as (m & -> & Hm).
  { apply list_elem_of_bind. by exists s. }
  destruct (minimum _); lia.
Qed.

Lemma elapsed_lt t t0 d : 0 < d -> t < t0 + d -> elapsed t t0 < d.
Proof. unfold elapsed, saturating_duration_since. lia. Qed.

Lemma idle_limit_pos {D} (s : Session D) : 0 < idle_limit s.
Proof. unfold idle_limit. destruct (authenticated s), (established s); done. Qed.

(** ** Lemmas: commands *)
Lemma handle_command_list {D} `{DtlsSession D} stream command c (l : list (Session D)) w :
  (handle_command stream command c l w).1.2 =
    match a ← strip_prefix (str "DISCONNECT ") command; parse_ipv4 a with
    | Some a => retain (fun s => negb (established s && (address s =? a))) l
    | None => l
    end.
Proof.
  assert (forall name, strip_prefix (str "DISCONNECT ") (str name) = None ->
    command = str name -> (a ← strip_prefix (str "DISCONNECT ") command; parse_ipv4 a) = None) as Hname.
  { intros name Hn ->. by rewrite Hn. }
  unfold handle_command. case_bool_decide as H1.
  { rewrite (Hname "WATCH") by done. by destruct (flush _) as [[] ?]. }
  case_bool_decide as H2; [by rewrite (Hname "STATUS")|].
  case_bool_decide as H3; [by rewrite (Hname "RELOAD")|].
  destruct (strip_prefix _ command) as [text|]; [|done]. cbn [mbind option_bind].
  destruct (parse_ipv4 text) as [a|]; [|done].
  pose proof (retain_mut_stateless (disconnected (D := D) a)
    (fun s => negb (established s && (address s =? a))) l w) as Hr.
  destruct (retain_mut _ _ _ _) as [l1 w1]. cbn in *. apply Hr. intros s. unfold disconnected.
  destruct (established s && _); by eexists.
Qed.

(** ** Lemmas: revocation *)

(** The sessions that the reload keeps. *)
Lemma revoke_sessions_elem {D} logins new_logins new_bindings (l : list (Session D)) w s :
  s ∈ (revoke_sessions logins new_logins new_bindings l w).1 <->
  s ∈ l /\ established s = true /\
  (exists fp, session_fingerprint s = Some fp /\ new_bindings !! address s = Some fp) /\
  logins !! address s = new_logins !! address s.
Proof.
  set (keep := fun s : Session D => established s && authorized logins new_logins new_bindings s).
  assert ((revoke_sessions logins new_logins new_bindings l w).1 = retain keep l) as ->.
  { apply retain_mut_stateless. intros s0. unfold revoked, keep.
    destruct (established s0), (authorized _ _ _ s0); by eexists. }
  unfold retain. rewrite list_elem_of_filter, Is_true_true. unfold keep, authorized.
  rewrite !andb_true_iff, bool_decide_eq_true.
  destruct (session_fingerprint s) as [fp|]; [rewrite bool_decide_eq_true|]; naive_solver.
Qed.

(** ** Properties *)

(** C38: A watcher receives whole frames: whatever the kernel accepts of each write, the bytes
    sent to it are the beginning of a concatenation of whole snapshots, the first one
    included and the others a selection in order of those published; and when everything is
    flushed, the last frame it has received is the latest snapshot. *)
Theorem watcher_frames stream first ops alive w :
  run_watcher ops (watcher_new stream first) = (alive, w) ->
  exists frames,
    frames `sublist_of` first :: snapshots ops /\ head frames = Some first /\
    (exists rest, output (Control.stream w) ++ rest = output stream ++ concat frames) /\
    (alive = true -> pending w = [] ->
       output (Control.stream w) = output stream ++ concat frames /\
       last frames = last (first :: snapshots ops)).
Proof.
  intros Hrun.
  destruct (run_watcher_inv ops (output stream) [first] (watcher_new stream first) [first])
    as (offered & frames & Hpre & Hp & Ha & [Hb Ho Hl Hh Hw Hn]); [done| |].
  { split; cbn; try done; [by rewrite (right_id_L [] (++))|lia]. }
  rewrite Hrun in *. cbn [fst snd app] in *. exists frames. split_and!.
  - destruct Hp as [k Hk]. rewrite Hk. apply sublist_inserts_r.
    etrans; [|exact Ho]. by apply sublist_inserts_r.
  - rewrite Hh. by destruct Hpre as [k ->].
  - eexists. exact Hb.
  - intros -> Hpe. specialize (Ha eq_refl). specialize (Hn Hpe). subst offered.
    rewrite Hpe, drop_nil, (right_id_L [] (++)) in Hb. rewrite Hn in Hl. cbn in Hl.
    rewrite (right_id_L [] (++)) in Hl. done.
Qed.

Lemma watcher_frames_witness :
  exists frames, frames `sublist_of` [[1; 10]; [2; 10]; [3; 10]] /\ head frames = Some [1; 10] /\
    exists w, run_watcher [Flush [Ok 1%nat]; Enqueue [2; 10]; Enqueue [3; 10]; Flush [Ok 9%nat; Ok 1%nat]]
                (watcher_new {| read_answers := []; write_answers := []; output := [] |} [1; 10]) = (true, w) /\
      output (stream w) = [1; 10; 3].
Proof.
  destruct (run_watcher [Flush [Ok 1%nat]; Enqueue [2; 10]; Enqueue [3; 10]; Flush [Ok 9%nat; Ok 1%nat]]
              (watcher_new {| read_answers := []; write_answers := []; output := [] |} [1; 10]))
    as [alive w] eqn:Hrun.
  destruct (watcher_frames _ _ _ _ _ Hrun) as (frames & Hs & Hh & _).
  exists frames. split_and!; [done|done|]. vm_compute in Hrun. injection Hrun as <- <-.
  by eexists.
Defined.

(** The test of [expire]. *)
Definition within_limits {D} (max_session_lifetime : Duration) (w : World) (s : Session D) : bool :=
  (elapsed (now w) (last_activity s) <? idle_limit s) &&
  negb (from_option (fun started => max_session_lifetime <=? elapsed (now w) started) false (established_at s)).

Lemma expire_retain {D} max_session_lifetime (l : list (Session D)) w :
  (expire max_session_lifetime l w).1 = retain (within_limits max_session_lifetime w) l.
Proof.
  apply retain_mut_stateless. intros s. unfold expired_session. eexists. split; [done|].
  intros [-> Hl]%andb_true_iff. by rewrite Hl.
Qed.

(** Expiry keeps exactly the sessions that are within both limits: active within the
    idle limit of their state (300 s authenticated, 120 s established, 10 s in handshake)
    and, once established, younger than the maximum lifetime; it changes no session it
    keeps. *)
Theorem expire_exact {D} max_session_lifetime (l : list (Session D)) w :
  (expire max_session_lifetime l w).1 `sublist_of` l /\
  forall s, s ∈ (expire max_session_lifetime l w).1 <->
    s ∈ l /\ elapsed (now w) (last_activity s) < idle_limit s /\
    forall started, established_at s = Some started -> elapsed (now w) started < max_session_lifetime.
Proof.
  rewrite expire_retain.
  split; [apply retain_sublist|]. intros s. unfold retain. rewrite list_elem_of_filter, Is_true_true.
  unfold within_limits. rewrite andb_true_iff, Z.ltb_lt, negb_true_iff.
  destruct (established_at s) as [t|]; cbn; [rewrite Z.leb_gt|]; naive_solver.
Qed.

(** C15: A reload revokes exactly the sessions the new configuration does not cover: those
    left are the established sessions whose certificate the new file still binds to their
    address and whose login entry is unchanged; the decrypt thread is sent those same
    bindings and logins; and a file that does not validate changes nothing. *)
Theorem reload_revokes {D} `{DtlsSession D} file vpn_address vpn_network (fresh : io D) interval
    acked finished requested cs c l w r c' l' w' :
  reload file vpn_address vpn_network fresh interval true acked finished requested cs c l w = (Some r, c', l', w') ->
  match read_update file vpn_address vpn_network fresh with
  | Ok (bs, ls, acceptor) =>
      (forall s, s ∈ l' <-> s ∈ l /\ established s = true /\
         (exists fp, session_fingerprint s = Some fp /\ bs !! address s = Some fp) /\
         current_logins cs !! address s = ls !! address s) /\
      current_bindings r.2 = bs /\ current_logins r.2 = ls /\
      r.1 = Some {| new_bindings := bs; new_logins := ls; new_acceptor := acceptor; wants_ack := requested |}
  | Err _ => l' = l /\ r.1 = None /\ current_bindings r.2 = current_bindings cs /\
             current_logins r.2 = current_logins cs
  end.
Proof.
  unfold reload. destruct (read_update _ _ _ _) as [[[bs ls] acceptor]|e]; [|by intros [= <- <- <- <-]].
  destruct (revoke_sessions _ _ _ l w) as [l1 w1] eqn:Hr. cbn [negb]. intros [= <- <- <- <-].
  split; [|done]. intros s. pose proof (revoke_sessions_elem (current_logins cs) ls bs l w s) as Hs.
  by rewrite Hr in Hs.
Qed.

Definition reload_file : rstr :=
  str "[client]
10.8.1.3 = acacacacacacacacacacacacacacacacacacacacacacacacacacacacacacacac
".

Definition reload_state : ControlState :=
  {| current_bindings := example_bindings; current_logins := ∅; next_config_reload := 0 |}.

Definition reload_sessions : list (Session PlainDtls) :=
  [connected (ipv4_new 10 8 1 2)
     (example_session (ipv4_new 192 0 2 1) 5000 (Config.fingerprint_text (replicate 32 171)));
   connected (ipv4_new 10 8 1 3)
     (example_session (ipv4_new 192 0 2 2) 5000 (Config.fingerprint_text (replicate 32 172)))].

Definition reload_control : ControlSocket :=
  {| pending_commands := []; watchers := []; reload_requested := false; reload_responses := [];
     last_identity := []; answered := [] |}.

Lemma reload_revokes_witness :
  exists r c' l' w', reload (Ok reload_file) (ipv4_new 10 8 1 1) (str "10.8.1.0/24")
      (Ok {| inbox := []; plain_fingerprint := []; plain_source_ok := true |}) (from_secs 30) true true (from_secs 1) false
      reload_state reload_control reload_sessions example_world = (Some r, c', l', w') /\
    current_bindings r.2 = {[ipv4_new 10 8 1 3 := Config.fingerprint_text (replicate 32 172)]} /\
    (address <$> l') = [ipv4_new 10 8 1 3].
Proof.
  destruct (reload (Ok reload_file) (ipv4_new 10 8 1 1) (str "10.8.1.0/24")
      (Ok {| inbox := []; plain_fingerprint := []; plain_source_ok := true |}) (from_secs 30) true true (from_secs 1) false
      reload_state reload_control reload_sessions example_world) as [[[o c'] l'] w'] eqn:Hr.
  assert (address <$> l' = [ipv4_new 10 8 1 3]) as Ha.
  { replace l' with (reload (Ok reload_file) (ipv4_new 10 8 1 1) (str "10.8.1.0/24")
      (Ok {| inbox := []; plain_fingerprint := []; plain_source_ok := true |}) (from_secs 30) true true (from_secs 1) false
      reload_state reload_control reload_sessions example_world).1.2 by (by rewrite Hr).
    vm_compute. reflexivity. }
  destruct o as [r|]; [|exfalso; vm_compute in Hr; discriminate].
  exists r, c', l', w'. split; [done|]. split; [|exact Ha].
  pose proof (reload_revokes _ _ _ _ _ _ _ _ _ _ _ _ _ _ _ _ Hr) as Hrev.
  destruct (read_update (Ok reload_file) (ipv4_new 10 8 1 1) (str "10.8.1.0/24")
      (Ok {| inbox := []; plain_fingerprint := []; plain_source_ok := true |})) as [[[bs ls] acceptor]|e] eqn:Hu.
  - destruct Hrev as (_ & -> & _). vm_compute in Hu. injection Hu as <- _ _. vm_compute. reflexivity.
  - exfalso. vm_compute in Hu. discriminate.
Defined.

(** Only a well-formed DISCONNECT command touches the sessions, and it removes exactly
    the established sessions of its address; every other command leaves the list alone. *)
Theorem handle_command_sessions {D} `{DtlsSession D} stream command c (l : list (Session D)) w :
  (handle_command stream command c l w).1.2 =
    match a ← strip_prefix (str "DISCONNECT ") command; parse_ipv4 a with
    | Some a => retain (fun s => negb (established s && (address s =? a))) l
    | None => l
    end.
Proof. apply handle_command_list. Qed.

(** The control thread never sleeps past its work: until the instant it wakes at, no
    session expires, no handshake deadline passes and no reload is due, and a command being
    received is not yet too old. *)
Theorem next_wake_sound {D} max_session_lifetime cs c (l : list (Session D)) t :
  0 < max_session_lifetime -> t < next_wake max_session_lifetime cs c l ->
  (forall s, s ∈ l -> (expired_session max_session_lifetime t tt s).2 = true /\
                      deadline_passed t s = false) /\
  t < next_config_reload cs /\
  (forall p, p ∈ pending_commands c -> elapsed t (accepted_at p) < from_secs 3).
Proof.
  intros Hmax Ht. split_and!.
  - intros s Hs.
    assert (forall d, d ∈ session_deadlines max_session_lifetime s -> t < d) as Hd.
    { intros d Hd. pose proof (next_wake_le max_session_lifetime cs c l s d Hs Hd). lia. }
    unfold session_deadlines in Hd. split.
    + unfold expired_session. cbn [snd]. apply andb_true_iff. split.
      * apply Z.ltb_lt, elapsed_lt; [apply idle_limit_pos|]. apply Hd. set_solver.
      * apply negb_true_iff. destruct (established_at s) as [started|]; [|done]. cbn.
        apply Z.leb_gt, elapsed_lt; [done|]. apply Hd. cbn. set_solver.
    + unfold deadline_passed. destruct (established s); [done|]. cbn.
      destruct (dtls_deadline s) as [d|]; [|done]. cbn. apply Z.leb_gt, Hd. cbn. set_solver.
  - unfold next_wake in Ht. destruct (minimum _), (minimum _); lia.
  - intros p Hp. apply elapsed_lt; [done|]. unfold next_wake in Ht.
    destruct (minimum_le ((fun p => accepted_at p + from_secs 3) <$> pending_commands c)
                (accepted_at p + from_secs 3)) as (m & Hm & Hle); [by apply (list_elem_of_fmap_2 (fun p => accepted_at p + from_secs 3))|].
    rewrite Hm in Ht. destruct (minimum (_ ≫= _)); lia.
Qed.

Lemma next_wake_sound_witness :
  next_wake (from_secs 3600) reload_state reload_control ([] : list (Session PlainDtls)) = 0 /\
  -1 < next_config_reload reload_state.
Proof.
  split; [vm_compute; reflexivity|].
  apply (next_wake_sound (D := PlainDtls) (from_secs 3600) reload_state reload_control [] (-1)).
  - vm_compute. reflexivity.
  - vm_compute. reflexivity.
Defined.
