(* ===== verification/ControlPoll.v ===== *)
(** * The sleep of the control thread

    Models the end of a turn of [run] in [src/server/control.rs]: how long the thread sleeps,
    the descriptors it gives to [poll], and what it does with the events that come back. A
    descriptor is named after what it belongs to; its number is a parameter. *)

From S2P Require Import Prelude Text System Queue DtlsApi Session UdpRead Control.

Local Open Scope Z_scope.

Definition POLLOUT : Z := 4.
Definition POLLERR : Z := 8.
Definition POLLHUP : Z := 16.
Definition POLLNVAL : Z := 32.

(** Whom a descriptor belongs to: commands and watchers by their index. *)
Inductive Descriptor := Listener | WakeReader | CommandStream (i : nat) | WatcherStream (i : nat).

#[export] Instance Descriptor_eq_dec : EqDecision Descriptor.
Proof. solve_decision. Defined.

Definition watcher_events (w : Watcher) : Z := if bool_decide (pending w = []) then 0 else POLLOUT.

(** The vector given to [poll], with the requested events. *)
Definition polled_descriptors (c : ControlSocket) : list (Descriptor * Z) :=
  [(Listener, POLLIN); (WakeReader, POLLIN)]
  ++ imap (fun i _ => (CommandStream i, POLLIN)) (pending_commands c)
  ++ imap (fun i w => (WatcherStream i, watcher_events w)) (watchers c).

(** [while control.wake_reader.recv(&mut wake).is_ok() {}]: one datagram per turn. *)
Fixpoint drain_wakes (fuel : nat) (w : World) : World :=
  match fuel with
  | O => w
  | S fuel =>
      match control_wakes w with
      | O => w
      | S n => drain_wakes fuel (w <| control_wakes := n |>)
      end
  end.

Definition hung_up (revents : Z) : bool :=
  negb (Z.land revents (Z.lor POLLERR (Z.lor POLLHUP POLLNVAL)) =? 0).

(** [control.watchers.retain(..)] with its running index; [None] is an index out of range,
    where the code panics. *)
Fixpoint retain_watchers (revents : list Z) (watcher_index : nat) (ws : list Watcher) : option (list Watcher) :=
  match ws with
  | [] => Some []
  | w :: ws =>
      events ← revents !! watcher_index;
      kept ← retain_watchers revents (S watcher_index) ws;
      Some (if hung_up events then kept else w :: kept)
  end.

(** What the thread does after its poll. *)
Definition after_poll (revents : list Z) (c : ControlSocket) (w : World) : option (ControlSocket * World) :=
  wake ← revents !! 1%nat;
  let w := if Z.land wake POLLIN =? 0 then w else drain_wakes (S (control_wakes w)) w in
  ws ← retain_watchers revents (2 + length (pending_commands c)) (watchers c);
  Some (c <| watchers := ws |>, w).

Section sleep.
Context (system : history -> call -> answer) (number : Descriptor -> Z).
Context {D : Type}.

Definition poll_arguments (c : ControlSocket) : list (Z * Z) := (fun d => (number d.1, d.2)) <$> polled_descriptors c.

(** From the computed wake-up at the instant [t] to the end of the turn. *)
Definition sleep (max_session_lifetime : Duration) (cs : ControlState) (c : ControlSocket)
    (l : list (Session D)) (t : Instant) (w : World) : eff history (option (ControlSocket * World)) :=
  let timeout := saturating_duration_since (next_wake max_session_lifetime cs c l) t in
  revents ← poll system (poll_arguments c) timeout;
  mret (after_poll revents c w).
End sleep.

(** ** Lemmas *)

(** The event the kernel reported for a descriptor, found by its owner and not by an index. *)
Definition reported (c : ControlSocket) (revents : list Z) (d : Descriptor) : Z :=
  from_option snd 0 (find (fun p => bool_decide (p.1 = d)) (zip (polled_descriptors c).*1 revents)).

(** The watchers whose own stream has not failed. *)
Definition live_watchers (c : ControlSocket) (revents : list Z) : list Watcher :=
  omap id (imap (fun i w => if hung_up (reported c revents (WatcherStream i)) then None else Some w) (watchers c)).

Lemma drain_wakes_all fuel w : (control_wakes w < fuel)%nat -> drain_wakes fuel w = w <| control_wakes := 0%nat |>.
Proof.
  revert w. induction fuel as [|fuel IH]; intros w Hf; [lia|]. cbn [drain_wakes].
  destruct (control_wakes w) as [|n] eqn:E.
  - destruct w. cbn in *. by subst.
  - rewrite IH by (cbn; lia). by destruct w.
Qed.

Lemma length_descriptors c : length (polled_descriptors c) = (2 + length (pending_commands c) + length (watchers c))%nat.
Proof. unfold polled_descriptors. rewrite !length_app, !length_imap. cbn. lia. Qed.

Lemma descriptors_owners c :
  (polled_descriptors c).*1 = [Listener; WakeReader] ++ (CommandStream <$> seq 0 (length (pending_commands c)))
                       ++ (WatcherStream <$> seq 0 (length (watchers c))).
Proof.
  unfold polled_descriptors. rewrite !fmap_app, !fmap_imap. unfold compose. cbn [fst].
  by rewrite <-!(imap_seq_0 (A := PendingCommand)), <-!(imap_seq_0 (A := Watcher)).
Qed.

Lemma descriptors_NoDup c : NoDup (polled_descriptors c).*1.
Proof.
  rewrite descriptors_owners. apply NoDup_app. split_and!.
  - by apply (bool_decide_unpack _); vm_compute.
  - set_solver.
  - apply NoDup_app. split_and!; [apply NoDup_fmap_2; [by intros ?? [=]|apply NoDup_seq]|set_solver|].
    apply NoDup_fmap_2; [by intros ?? [=]|apply NoDup_seq].
Qed.

(** What [find] returns among distinct keys. *)
Lemma find_zip {A B} `{EqDecision A} (ks : list A) (vs : list B) k i v :
  NoDup ks -> ks !! i = Some k -> vs !! i = Some v ->
  find (fun p => bool_decide (p.1 = k)) (zip ks vs) = Some (k, v).
Proof.
  revert vs i. induction ks as [|x ks IH]; intros [|y vs] [|i] Hn Hk Hv; try discriminate; cbn in *.
  - simplify_eq. by rewrite bool_decide_true.
  - apply NoDup_cons in Hn as [Hx Hn]. rewrite bool_decide_false; [eauto|].
    intros ->. by apply Hx, (list_elem_of_lookup_2 _ i).
Qed.

Lemma reported_lookup c revents i d r :
  (polled_descriptors c).*1 !! i = Some d -> revents !! i = Some r -> reported c revents d = r.
Proof.
  intros Hd Hr. unfold reported. by rewrite (find_zip _ _ d i r) by (done || apply descriptors_NoDup).
Qed.

Lemma watcher_position c i :
  (i < length (watchers c))%nat ->
  (polled_descriptors c).*1 !! (2 + length (pending_commands c) + i)%nat = Some (WatcherStream i).
Proof.
  intros Hi. rewrite descriptors_owners, app_assoc, lookup_app_r; rewrite !length_app, length_fmap, length_seq; cbn [length].
  - replace (_ - _)%nat with i by lia. by rewrite list_lookup_fmap, lookup_seq_lt.
  - lia.
Qed.

(** The running index stays on the watcher's own descriptor. *)
Lemma retain_watchers_aligned revents k ws (f : nat -> Z) :
  (forall i, (i < length ws)%nat -> revents !! (k + i)%nat = Some (f i)) ->
  retain_watchers revents k ws = Some (omap id (imap (fun i w => if hung_up (f i) then None else Some w) ws)).
Proof.
  revert k f. induction ws as [|w ws IH]; intros k f Hf; [done|]. cbn [retain_watchers].
  pose proof (Hf 0%nat) as H0. rewrite Nat.add_0_r in H0. rewrite H0 by (cbn; lia). cbn [mbind option_bind].
  rewrite (IH (S k) (fun i => f (S i))).
  - cbn. by destruct (hung_up (f 0%nat)).
  - intros i Hi. rewrite Nat.add_succ_comm. apply Hf. cbn. lia.
Qed.

Lemma after_poll_aligned revents c w :
  length revents = length (polled_descriptors c) ->
  after_poll revents c w =
    Some (c <| watchers := live_watchers c revents |>,
          if Z.land (reported c revents WakeReader) POLLIN =? 0 then w else w <| control_wakes := 0%nat |>).
Proof.
  intros Hl. rewrite length_descriptors in Hl. unfold after_poll.
  destruct (lookup_lt_is_Some_2 revents 1) as [wake Hw]; [lia|]. rewrite Hw. cbn [mbind option_bind].
  rewrite (retain_watchers_aligned _ _ _ (fun i => reported c revents (WatcherStream i))).
  - cbn [mbind option_bind]. rewrite (reported_lookup c revents 1 WakeReader wake) by done.
    rewrite drain_wakes_all by lia. done.
  - intros i Hi. destruct (lookup_lt_is_Some_2 revents (2 + length (pending_commands c) + i)) as [r Hr]; [lia|].
    rewrite Hr. f_equal. symmetry. eapply reported_lookup; [|exact Hr]. by apply watcher_position.
Qed.

Lemma drain_wakes_past fuel w : past (drain_wakes fuel w) = past w.
Proof.
  revert w. induction fuel as [|fuel IH]; intros w; [done|]. cbn. destruct (control_wakes w); [done|]. by rewrite IH.
Qed.

Lemma after_poll_past revents c w c' w' : after_poll revents c w = Some (c', w') -> past w' = past w.
Proof.
  unfold after_poll. destruct (revents !! 1%nat); [|done]. cbn. destruct (retain_watchers _ _ _); [|done].
  cbn. intros [= _ <-]. case_match; [done|]. by apply (drain_wakes_past (S (control_wakes w))).
Qed.

Section sleep_proofs.
Context (system : history -> call -> answer) (number : Descriptor -> Z).
Context {D : Type}.

(** The events [poll] may report for a descriptor. *)
Definition allowed (fd : Z * Z) (events : Z) : Prop :=
  Z.land events (Z.lnot (Z.lor fd.2 (Z.lor POLLERR (Z.lor POLLHUP POLLNVAL)))) = 0.

(** What [poll] promises when it succeeds: one result per descriptor, with no events but those
    asked for and the three error conditions. *)
Definition poll_law : Prop := forall h fds ms,
  let a := system h (sys_poll fds ms) in
  0 <= ret a ->
  Forall2 allowed fds (out a).

Lemma land_outside events asked : Z.land events (Z.lnot (Z.lor 0 asked)) = 0 -> Z.land events asked = 0 -> events = 0.
Proof.
  intros H1 H2. rewrite Z.lor_0_l in H1. apply Z.bits_inj'. intros n Hn.
  apply (f_equal (fun z => Z.testbit z n)) in H1, H2.
  rewrite Z.land_spec, Z.bits_0 in *. rewrite Z.lnot_spec in H1 by done.
  by destruct (Z.testbit events n), (Z.testbit asked n).
Qed.

(** The two ways in which [poll] returns. *)
Lemma poll_Ok fds timeout h revents h' :
  poll_law -> UdpRead.poll system fds timeout h = (Ok revents, h') ->
  Forall2 allowed fds revents.
Proof.
  intros Hlaw. unfold UdpRead.poll, outcome_of. rewrite eff_bind_run, checked_run.
  destruct (Z.ltb_spec (ret (system h (sys_poll fds (Z.min (as_millis timeout) i32_max)))) 0).
  - case_decide; [|discriminate]. intros [= <- <-]. clear. induction fds; cbn; by constructor.
  - intros [= <- <-]. by apply Hlaw.
Qed.

Lemma poll_asks fds timeout h r h' :
  UdpRead.poll system fds timeout h = (r, h') ->
  h' = h ++ [(sys_poll fds (Z.min (as_millis timeout) i32_max), system h (sys_poll fds (Z.min (as_millis timeout) i32_max)))] /\
  match r with Err error => kind error <> Interrupted | Ok _ => True end.
Proof.
  unfold UdpRead.poll, outcome_of. rewrite eff_bind_run, checked_run.
  destruct (_ <? 0); [case_decide|]; by intros [= <- <-].
Qed.

(** A watcher that is reported and stays has output the stream can take. *)
Lemma reported_writable c revents i w :
  Forall2 allowed (poll_arguments number c) revents ->
  watchers c !! i = Some w -> reported c revents (WatcherStream i) <> 0 ->
  hung_up (reported c revents (WatcherStream i)) = false -> pending w <> [].
Proof.
  intros Hall Hw Hr Hh Hp. apply Hr.
  pose proof (lookup_lt_Some _ _ _ Hw) as Hi. pose proof (watcher_position c i Hi) as Hpos.
  set (k := (2 + length (pending_commands c) + i)%nat) in *.
  assert (polled_descriptors c !! k = Some (WatcherStream i, 0)) as Hd.
  { unfold polled_descriptors. rewrite app_assoc, lookup_app_r; rewrite length_app, length_imap; cbn [length]; [|lia].
    replace (k - _)%nat with i by lia. rewrite list_lookup_imap, Hw. cbn. unfold watcher_events.
    by rewrite bool_decide_true. }
  destruct (Forall2_lookup_l _ _ _ k (number (WatcherStream i), 0) Hall) as (r & Hrk & Hlaw).
  { unfold poll_arguments. by rewrite list_lookup_fmap, Hd. }
  rewrite (reported_lookup _ _ _ _ _ Hpos Hrk) in *. unfold hung_up in Hh.
  apply negb_false_iff, Z.eqb_eq in Hh. by eapply land_outside.
Qed.

(** The instant the kernel ends the poll at, when nothing happens. *)
Lemma timeout_bounds (wake t : Instant) :
  let ms := Z.min (as_millis (saturating_duration_since wake t)) i32_max in
  0 <= ms /\ t + from_millis ms <= Z.max t wake /\
  (ms < i32_max -> wake < t + from_millis (ms + 1)).
Proof.
  unfold as_millis, saturating_duration_since, from_millis, i32_max. cbv zeta.
  pose proof (Z.div_mod (Z.max 0 (wake - t)) 1000000). pose proof (Z.mod_pos_bound (Z.max 0 (wake - t)) 1000000).
  assert (0 <= Z.max 0 (wake - t) / 1000000) by (apply Z.div_pos; lia). lia.
Qed.
End sleep_proofs.

(** C25: The control thread sleeps exactly until it has work. It makes one call, a poll over the
    listener, its wake socket, and every command and watcher; when nothing happens that poll
    ends at the next wake-up, at most a millisecond before it (or after 24 days) and never
    after it; so until then no session expires, no handshake deadline passes, no command
    is too old and no reload is due. Then the thread never panics on an index: it drops exactly the watchers whose own
    stream failed, keeps the others in order, empties its wake socket when that is readable,
    and changes nothing else; a watcher that was reported and stays has output to send, so
    the thread does not spin; and a poll a signal interrupts is no error. *)
Theorem control_sleeps_until_work {D} system number max_session_lifetime cs c (l : list (Session D)) t w h r h' :
  poll_law system -> 0 < max_session_lifetime ->
  sleep system number max_session_lifetime cs c l t w h = (r, h') ->
  (exists ms a, h' = h ++ [(sys_poll (poll_arguments number c) ms, a)] /\ 0 <= ms /\
     (ms < i32_max -> next_wake max_session_lifetime cs c l < t + from_millis (ms + 1)) /\
     forall t', t < t' < t + from_millis ms ->
       (forall s, s ∈ l -> (expired_session max_session_lifetime t' tt s).2 = true /\ deadline_passed t' s = false) /\
       t' < next_config_reload cs /\
       forall p, p ∈ pending_commands c -> elapsed t' (accepted_at p) < from_secs 3) /\
  match r with
  | Err error => kind error <> Interrupted
  | Ok result => exists revents,
      result = Some (c <| watchers := live_watchers c revents |>,
                     if Z.land (reported c revents WakeReader) POLLIN =? 0 then w
                     else w <| control_wakes := 0%nat |>) /\
      forall i watcher, watchers c !! i = Some watcher -> reported c revents (WatcherStream i) <> 0 ->
        hung_up (reported c revents (WatcherStream i)) = false -> pending watcher <> []
  end.
Proof.
  intros Hlaw Hmax. unfold sleep. rewrite eff_bind_run.
  destruct (UdpRead.poll _ _ _ h) as [polled h1] eqn:Hp.
  pose proof (poll_asks _ _ _ _ _ _ Hp) as [Hh He].
  intros Hr. assert (h' = h1) as -> by (by destruct polled; injection Hr). split.
  - eexists _, _. split; [exact Hh|].
    destruct (timeout_bounds (next_wake max_session_lifetime cs c l) t) as (H0 & Hlate & Hearly).
    split_and!; [done|done|]. intros t' Ht'. apply next_wake_sound; [done|lia].
  - destruct polled as [revents|error]; simplify_eq Hr; intros; subst r; [|done].
    pose proof (poll_Ok _ _ _ _ _ _ Hlaw Hp) as Hall. exists revents. split.
    + apply after_poll_aligned. apply Forall2_length in Hall.
      unfold poll_arguments in Hall. by rewrite length_fmap in Hall.
    + intros. by eapply reported_writable.
Qed.

(** A system whose poll reports what was asked for on even descriptors, and a hang-up on odd
    ones. *)
Definition demo_events (fd : Z * Z) : Z := if Z.odd fd.1 then POLLHUP else fd.2.
Definition demo_poll (_ : history) (c : call) : answer :=
  match c with
  | sys_poll fds _ => answering 1 (demo_events <$> fds)
  | _ => answering 0 []
  end.
Definition demo_number (d : Descriptor) : Z :=
  match d with
  | Listener => 4
  | WakeReader => 6
  | CommandStream i => 8
  | WatcherStream i => 20 + Z.of_nat i
  end.
Definition demo_stream : Stream := {| read_answers := []; write_answers := []; output := [] |}.
Definition demo_control : ControlSocket :=
  reload_control <| pending_commands := [{| command_stream := demo_stream; command_bytes := [83]; accepted_at := 0 |}] |>
                 <| watchers := [watcher_new demo_stream [1; 10]; watcher_new demo_stream [2; 10];
                                 watcher_new demo_stream []] |>.

Lemma within_allowed events a b : Z.land events (Z.lor a b) = events -> Z.land events (Z.lnot (Z.lor a b)) = 0.
Proof.
  intros <-. apply Z.bits_inj'. intros n Hn. rewrite !Z.land_spec, Z.lnot_spec, Z.bits_0 by done.
  by destruct (Z.testbit events n), (Z.testbit (Z.lor a b) n).
Qed.

Lemma demo_poll_law : poll_law demo_poll.
Proof.
  intros h fds ms a _. cbn. clear. induction fds as [|fd fds IH]; constructor; [|exact IH].
  apply within_allowed. unfold demo_events. apply Z.bits_inj'. intros n Hn. rewrite Z.land_spec, Z.lor_spec.
  destruct (Z.odd fd.1); [|by destruct (Z.testbit fd.2 n)].
  replace (Z.lor POLLERR (Z.lor POLLHUP POLLNVAL)) with (Z.lor POLLHUP (Z.lor POLLERR POLLNVAL)) by done.
  rewrite Z.lor_spec. by destruct (Z.testbit POLLHUP n), (Z.testbit fd.2 n).
Qed.

Lemma control_sleeps_until_work_witness :
  exists revents, sleep demo_poll demo_number (from_secs 3600) reload_state demo_control
                    ([] : list (Session PlainDtls)) 0 (example_world <| control_wakes := 2%nat |>) []
    = (Ok (Some (demo_control <| watchers := live_watchers demo_control revents |>,
                 example_world <| control_wakes := 0%nat |>)),
       [(sys_poll [(4, 1); (6, 1); (8, 1); (20, 4); (21, 4); (22, 0)] 0, answering 1 [1; 1; 1; 4; 16; 0])]) /\
    pending <$> live_watchers demo_control revents = [[1; 10]; []].
Proof.
  destruct (sleep demo_poll demo_number (from_secs 3600) reload_state demo_control
              ([] : list (Session PlainDtls)) 0 (example_world <| control_wakes := 2%nat |>) []) as [r h'] eqn:E.
  assert (0 < from_secs 3600) as Hlife by done.
  destruct (control_sleeps_until_work _ _ _ _ _ _ _ _ _ _ _ demo_poll_law Hlife E) as [_ _].
  exists [1; 1; 1; 4; 16; 0]. split; [|vm_compute; reflexivity].
  rewrite <-E. vm_compute. reflexivity.
Defined.
