(* ===== verification/ControlBind.v ===== *)
(** * Creating the control socket

    Models [ControlSocket::bind] and its [Drop] from [src/server/control.rs]: the path is taken
    over only when nobody listens there, and the socket is given its group and mode before
    the server uses it. *)

From S2P Require Import Prelude Text Session Control System.

Local Open Scope Z_scope.

(** The mode [0o660]: the owner and the group may connect. *)
Definition MODE_0660 : Z := 6 * 64 + 6 * 8.

Section bind.
Context (system : history -> call -> answer).

(** [CString::new(text).map_err(..)] *)
Definition c_text (text : rstr) (message : string) : io rstr :=
  if existsb (N.eqb 0) text then Err (new_error InvalidInput message) else Ok text.

(** The group: [getgrnam], and [chown] with the owner left as it is. *)
Definition set_group (path group : rstr) : eff history unit :=
  group ← of_io (c_text group "invalid control_socket_group");
  entry ← perform system (fs_getgrnam group);
  _ ← (if ret entry <? 0 then fail_with (new_error InvalidInput "control_socket_group not found") else mret tt);
  path ← of_io (c_text path "invalid control_socket path");
  changed ← perform system (fs_chown path (ret entry));
  if ret changed =? 0 then mret tt else fail_with (Os (errno changed)).

(** [UnixStream::connect(&path)]: nobody may answer. *)
Definition check_unused (path : rstr) : eff history unit :=
  connected ← outcome_of (checked system (fs_connect path));
  match connected with
  | Ok _ => fail_with (new_error AddrInUse "control socket is already active")
  | Err error =>
      if decide (kind error = ConnectionRefused \/ kind error = NotFound) then mret tt else fail_with error
  end.

Definition remove_stale (path : rstr) : eff history unit :=
  found ← perform system (fs_exists path);
  if ret found =? 0 then mret tt else _ ← checked system (fs_remove_file path); mret tt.

(** [ControlSocket::bind]: the fields that are not descriptors. *)
Definition control_bind (path : rstr) (group : option rstr) : eff history ControlSocket :=
  _ ← check_unused path;
  _ ← remove_stale path;
  _ ← checked system (fs_bind path);
  _ ← (match group with Some group => set_group path group | None => mret tt end);
  _ ← checked system (fs_set_permissions path MODE_0660);
  _ ← checked system fs_listener_nonblocking;
  _ ← checked system fs_socket_pair;
  _ ← checked system (fs_wake_nonblocking false);
  _ ← checked system (fs_wake_nonblocking true);
  mret {| pending_commands := []; watchers := []; reload_requested := false; reload_responses := [];
          last_identity := []; answered := [] |}.

(** [Drop for ControlSocket] *)
Definition control_drop (path : rstr) : eff history unit := ignore (perform system (fs_remove_file path)).
End bind.

(** ** What happens to the file *)

(** What is at the path: what was there before, or the new socket with the group and the mode it
    was given, if it was. *)
Inductive node := Previous | Socket (group mode : option Z).

#[export] Instance node_eq_dec : EqDecision node.
Proof. solve_decision. Defined.

(** [unused]: a connection to the path was refused; [found_gid]: the group that was looked up. *)
Record bind_state := { unused : bool; found_gid : option Z; file : option node }.

#[export] Instance eta_bind_state : Eta bind_state := fun st =>
  {| unused := unused st; found_gid := found_gid st; file := file st |}.

Definition is_socket (n : option node) : bool := if n is Some (Socket _ _) then true else false.

(** The socket as it is to be when its mode is set: with the group, if one is configured. *)
Definition grouped (group : option rstr) (st : bind_state) : option node :=
  Some (Socket (if group is Some _ then found_gid st else None) None).

(** Only this path is touched; what was there is removed, and the socket made, only when a
    connection was refused; the group given away is the one that was found under the configured
    name, and it is given before the mode, which is set once and to [0o660]. *)
Definition bind_step (path : rstr) (group : option rstr) (st : bind_state) (c : call) (a : answer) : option bind_state :=
  match c with
  | fs_connect p =>
      if decide (p = path) then
        Some (if decide (ret a < 0 /\ (kind (Os (errno a)) = ConnectionRefused \/ kind (Os (errno a)) = NotFound))
              then st <| unused := true |> else st)
      else None
  | fs_exists p => if decide (p = path) then Some st else None
  | fs_remove_file p =>
      if decide (p = path /\ unused st = true /\ is_socket (file st) = false)
      then Some (if ret a <? 0 then st else st <| file := None |>) else None
  | fs_bind p =>
      if decide (p = path /\ unused st = true /\ is_socket (file st) = false)
      then Some (if ret a <? 0 then st else st <| file := Some (Socket None None) |>) else None
  | fs_getgrnam g =>
      if decide (group = Some g) then Some (if ret a <? 0 then st else st <| found_gid := Some (ret a) |>) else None
  | fs_chown p gid =>
      if decide (p = path /\ found_gid st = Some gid /\ file st = Some (Socket None None))
      then Some (if ret a =? 0 then st <| file := Some (Socket (Some gid) None) |> else st) else None
  | fs_set_permissions p mode =>
      if decide (p = path /\ mode = MODE_0660 /\ (is_Some group -> is_Some (found_gid st)) /\ file st = grouped group st)
      then Some (if ret a <? 0 then st
                 else st <| file := Some (Socket (if group is Some _ then found_gid st else None) (Some mode)) |>)
      else None
  | fs_listener_nonblocking | fs_socket_pair | fs_wake_nonblocking _ => Some st
  | _ => None
  end.

Section bind_proofs.
Context (system : history -> call -> answer) (path : rstr) (group : option rstr) (before : option node).
Abbreviation keeps := (keeps (bind_step path group)).

(** The states after each part, when it succeeded; and after any failure. *)
Definition untouched (st : bind_state) : Prop := unused st = false -> file st = before.
Definition taken (st : bind_state) : Prop := unused st = true.
Definition part {A} (ok : bind_state -> Prop) (r : io A) (st : bind_state) : Prop :=
  match r with Ok _ => ok st /\ taken st | Err _ => untouched st end.

Lemma taken_untouched st : taken st -> untouched st.
Proof. unfold taken, untouched. congruence. Qed.

(** A checked call whose success changes the state by [f]. *)
Lemma part_checked c (ok : bind_state -> Prop) (f : bind_state -> bind_state) st :
  taken st ->
  (forall a, bind_step path group st c a = Some (if ret a <? 0 then st else f st)) ->
  ok (f st) -> unused (f st) = unused st -> keeps st (checked system c) (part ok).
Proof.
  intros Ht Hs Hok Hu. apply keeps_checked. intros a. rewrite Hs. eexists. split; [done|].
  destruct (ret a <? 0); cbn; [by apply taken_untouched|]. split; [done|]. unfold taken in *. congruence.
Qed.

(** The next part of a sequence. *)
Lemma part_bind {A B} st (m : eff history A) (f : A -> eff history B) mid ok :
  keeps st m (part mid) -> (forall a st', mid st' -> taken st' -> keeps st' (f a) (part ok)) ->
  keeps st (m ≫= f) (part ok).
Proof.
  intros Hm Hf. eapply keeps_bind; [exact Hm|done|]. intros a st' [H Ht]. by apply Hf.
Qed.

Lemma check_unused_part st :
  untouched st -> unused st = false -> keeps st (check_unused system path) (part (fun st' => file st' = file st)).
Proof.
  intros Hu Hf. eapply (keeps_bind _ _ _ _ (fun r st' => exists r', r = Ok r' /\
    st' = if r' is Err error then
            if decide (kind error = ConnectionRefused \/ kind error = NotFound) then st <| unused := true |> else st
          else st)).
  - eapply (keeps_outcome _ _ _ (fun r' st' => st' = if r' is Err error then
            if decide (kind error = ConnectionRefused \/ kind error = NotFound) then st <| unused := true |> else st
          else st)); [|eauto].
    apply keeps_checked. intros a. cbn [bind_step]. rewrite decide_True by done. eexists. split; [done|].
    destruct (Z.ltb_spec (ret a) 0).
    + repeat case_decide; tauto || done.
    + rewrite decide_False; [done|lia].
  - by intros error st' (? & ? & _).
  - intros r st' (r' & [= <-] & ->). destruct r as [a|error]; [by apply keeps_of_io|].
    case_decide; [by apply keeps_ret|by apply keeps_of_io].
Qed.

Lemma remove_stale_part st :
  taken st -> is_socket (file st) = false ->
  keeps st (remove_stale system path) (part (fun st' => is_socket (file st') = false)).
Proof.
  intros Ht Hn. eapply (part_bind _ _ _ (fun st' => st' = st)).
  - apply keeps_perform. intros a. cbn [bind_step]. rewrite decide_True by done. eexists. split; [done|]. by split.
  - intros a st' -> _. destruct (_ =? _); [by apply keeps_ret|].
    eapply (part_bind _ _ _ (fun st' => is_socket (file st') = false)).
    + apply (part_checked _ _ (fun st => st <| file := None |>)); [done| |done|done].
      intros b. cbn [bind_step]. by rewrite decide_True.
    + intros b st' Hn' Ht'. by apply keeps_ret.
Qed.

(** The socket when it is to be given its mode, and in the end. *)
Definition group_given (st : bind_state) : Prop :=
  (is_Some group -> is_Some (found_gid st)) /\ file st = grouped group st.
Definition socket_ready (st : bind_state) : Prop :=
  (is_Some group -> is_Some (found_gid st)) /\
  file st = Some (Socket (if group is Some _ then found_gid st else None) (Some MODE_0660)).

Lemma set_group_part g st :
  group = Some g -> taken st -> file st = Some (Socket None None) ->
  keeps st (set_group system path g) (part group_given).
Proof.
  intros Hg Ht Hs. unfold set_group, c_text. destruct (existsb _ g); [by apply keeps_of_io, taken_untouched|].
  rewrite eff_of_ok. eapply (keeps_bind _ _ _ _ (fun r st' => exists a, r = Ok a /\
    st' = if ret a <? 0 then st else st <| found_gid := Some (ret a) |>)).
  { apply keeps_perform. intros a. cbn [bind_step]. rewrite decide_True by done. eexists. split; [done|eauto]. }
  { by intros error st' (? & ? & _). }
  intros a st' (a' & [= <-] & ->). destruct (Z.ltb_spec (ret a) 0); [by apply keeps_of_io, taken_untouched|].
  rewrite eff_ret_bind. destruct (existsb _ path); [by apply keeps_of_io, taken_untouched|]. rewrite eff_of_ok.
  eapply (keeps_bind _ _ _ _ (fun r st' => exists b, r = Ok b /\ taken st' /\ (ret b = 0 -> group_given st'))).
  { apply keeps_perform. intros b. cbn [bind_step]. rewrite decide_True by done. eexists. split; [done|].
    exists b. split; [done|]. split; [by destruct (_ =? _)|]. intros ->. unfold group_given, grouped. rewrite Hg. by split; eauto. }
  { by intros error st' (? & ? & _). }
  intros b st' (b' & [= <-] & Ht' & Hok). destruct (Z.eqb_spec (ret b) 0); [apply keeps_ret; split; auto|].
  by apply keeps_of_io, taken_untouched.
Qed.

Lemma control_bind_part st :
  file st = before -> is_socket before = false -> unused st = false ->
  keeps st (control_bind system path group) (part socket_ready).
Proof.
  intros Hb Hn Hu. eapply part_bind; [apply check_unused_part; [by intros _|done]|]. intros [] st1 Hf1 Ht1.
  eapply part_bind; [apply remove_stale_part; [done|by rewrite Hf1, Hb]|]. intros [] st2 Hn2 Ht2.
  eapply part_bind; [apply (part_checked _ (fun st => file st = Some (Socket None None))
    (fun st => st <| file := Some (Socket None None) |>)); [done| |done|done]|].
  { intros a. cbn [bind_step]. by rewrite decide_True. }
  intros _ st3 Hs3 Ht3. eapply (part_bind _ _ _ group_given).
  { destruct group as [g|] eqn:Hg; [rewrite <-Hg; by apply set_group_part|].
    apply keeps_ret. split; [|done]. unfold group_given, grouped. rewrite Hg. split; [by intros [? ?]|done]. }
  intros [] st4 [Hg4 Hs4] Ht4. eapply part_bind; [apply (part_checked _ socket_ready
    (fun st => st <| file := Some (Socket (if group is Some _ then found_gid st else None) (Some MODE_0660)) |>)); [done| |done|done]|].
  { intros a. cbn [bind_step]. by rewrite decide_True. }
  intros _ st5 Hs5 Ht5.
  do 4 (eapply part_bind; [apply (part_checked _ socket_ready id); [done|intros a; by destruct (ret a <? 0)|done|done]|]; intros _ ? ? ?).
  by apply keeps_ret.
Qed.

(** The group of a socket was given by a call that succeeded. *)
Definition has_group (gid : Z) (st : bind_state) : Prop := exists m, file st = Some (Socket (Some gid) m).

Lemma bind_step_group st c a st' gid :
  bind_step path group st c a = Some st' -> has_group gid st' ->
  has_group gid st \/ c = fs_chown path gid /\ ret a = 0.
Proof.
  intros Hs [m Hf]. unfold bind_step in Hs. destruct c; try discriminate Hs.
  1-2, 5: repeat case_decide; simplify_eq; left; exists m; by destruct (ret a <? 0).
  all: try (case_decide as Hd; [|discriminate Hs]); injection Hs as <-.
  - destruct (ret a <? 0); [left; by exists m|done].
  - destruct (ret a <? 0); [left; by exists m|done].
  - destruct (Z.eqb_spec (ret a) 0); [|left; by exists m]. cbn in Hf. injection Hf as -> _. right. by destruct Hd as [-> _].
  - destruct (ret a <? 0); [left; by exists m|]. cbn in Hf. injection Hf as Hg _. left. exists None.
    destruct Hd as (_ & _ & _ & ->). unfold grouped. by rewrite Hg.
  - left; by exists m.
  - left; by exists m.
  - left; by exists m.
Qed.

Lemma follow_group calls st st' gid :
  ~ has_group gid st -> follow (bind_step path group) st calls = Some st' -> has_group gid st' ->
  exists a, (fs_chown path gid, a) ∈ calls /\ ret a = 0.
Proof.
  revert st. induction calls as [|[c a] calls IH]; intros st Hn; cbn [follow]; [by intros [= <-]|].
  destruct (bind_step path group st c a) as [st1|] eqn:E; [|done]. cbn [mbind option_bind]. intros Hf Hg.
  destruct (decide (c = fs_chown path gid /\ ret a = 0)) as [[-> Ha]|Hc]; [exists a; split; [left|done]|].
  destruct (IH st1) as (b & ? & ?); [|done..|exists b; split; [by right|done]].
  intros H1. by destruct (bind_step_group _ _ _ _ _ E H1).
Qed.
End bind_proofs.

(** C22: The socket is never taken from a running server: its file is removed or replaced only
    after a connection to it was refused, and when somebody answers the only call made is that
    connection. On success the file is a new socket with mode [0o660] and, if one is
    configured, the group found under the configured name. The mode is set only to [0o660] and,
    when a group is configured, only after the socket was given that group. *)
Theorem control_bind_safe system path group present h :
  let before := if present : bool then Some Previous else None in
  exists r calls st, control_bind system path group h = (r, h ++ calls) /\
    follow (bind_step path group) {| unused := false; found_gid := None; file := before |} calls = Some st /\
    match r with
    | Ok _ => (is_Some group -> is_Some (found_gid st)) /\
        file st = Some (Socket (if group is Some _ then found_gid st else None) (Some MODE_0660))
    | Err _ => unused st = false -> file st = before
    end /\
    (0 <= ret (system h (fs_connect path)) ->
       r = Err (new_error AddrInUse "control socket is already active") /\
       calls = [(fs_connect path, system h (fs_connect path))]) /\
    forall made p mode a rest, calls = made ++ (fs_set_permissions p mode, a) :: rest ->
      p = path /\ mode = MODE_0660 /\
      (is_Some group -> exists gid b, (fs_chown path gid, b) ∈ made /\ ret b = 0).
Proof.
  intros before. destruct (control_bind system path group h) as [r h'] eqn:E. pose proof E as E'.
  set (st0 := {| unused := false; found_gid := None; file := before |}).
  assert (is_socket before = false) as Hb by by destruct present.
  pose proof (control_bind_part system path group before st0 eq_refl Hb eq_refl) as Hk.
  destruct (Hk _ _ _ E) as (calls & st & -> & Hf & Hp).
  exists r, calls, st. split_and!; [done..| | |]; [destruct r; [apply Hp|exact Hp]| |].
  - intros Hc. unfold control_bind, check_unused in E'. rewrite !eff_bind_run in E'. unfold outcome_of in E'.
    rewrite checked_run in E'. destruct (Z.ltb_spec (ret (system h (fs_connect path))) 0); [lia|].
    injection E' as <- Ec%app_inv_head. by rewrite <-Ec.
  - intros made p mode a rest ->. rewrite follow_app in Hf.
    destruct (follow _ st0 made) as [st1|] eqn:E1; [|done]. cbn in Hf. case_decide as Hd; [|done].
    destruct Hd as (-> & -> & Hsome & Hfile). split_and!; [done..|]. intros Hg. destruct (Hsome Hg) as [gid Hgid].
    unfold grouped in Hfile. destruct group; [|by destruct Hg]. rewrite Hgid in Hfile. exists gid.
    eapply (follow_group path _ made st0 st1); [|exact E1|by exists None]. intros [m Hm]. by destruct present.
Qed.
