(* ===== verification/Server.v ===== *)
(** * The server: all threads over one session list

    Every thread of [src/server.rs] works on the session list under its mutex, so a run of
    the server is a sequence of the threads' atomic parts in any order. The step relation
    below lists them, with everything the environment decides (time, packets, datagrams,
    the DTLS library, the kernel, the configuration file) left free; the theorems hold for
    every interleaving. *)

From S2P Require Import Prelude Text Net Config RateLimit Queue DtlsApi Session Encrypt UdpWrite.
From S2P Require Import Decrypt DecryptOk Control ControlPoll.

Local Open Scope Z_scope.

Record Server (D : Type) := {
  sessions : list (Session D);
  decrypt : DecryptState D;
  control : ControlSocket;
  control_state : ControlState;
  updates : list (ReloadUpdate D);   (** sent by the control thread, not yet received *)
  world : World;
}.
Arguments sessions {D} _.
Arguments decrypt {D} _.
Arguments control {D} _.
Arguments control_state {D} _.
Arguments updates {D} _.
Arguments world {D} _.

#[export] Instance eta_Server D : Eta (Server D) := fun s =>
  {| sessions := sessions s; decrypt := decrypt s; control := control s;
     control_state := control_state s; updates := updates s; world := world s |}.

Section server.
Context {D : Type} `{DtlsLaws D} (ctx : DecryptContext) (max_session_lifetime : Duration)
  (vpn_address : Ipv4Addr) (vpn_network : rstr) (config_reload_interval : Duration).
Implicit Types (s : Session D) (l : list (Session D)) (w : World) (v : Server D).

Inductive step : Server D -> Server D -> Prop :=
(** Time passes and the environment acts on the shared objects. The flags, wake-ups and
    queues of the [World] may so change between any two steps, also between those of one
    thread. *)
| step_world v w : now (world v) <= now w -> past w = past (world v) -> step v (v <| world := w |>)
(** The decrypt thread. *)
| step_drain v e l w :
    drain_sessions ctx (logins (decrypt v)) (sessions v) (world v) = (e, l, w) ->
    step v (v <| sessions := l |> <| world := w |>)
| step_dedupe v l w :
    dedupe (sessions v) (world v) = (l, w) -> step v (v <| sessions := l |> <| world := w |>)
| step_reloads v st w :
    apply_reloads (updates v) (decrypt v) (world v) = (st, w) ->
    step v (v <| decrypt := st |> <| updates := [] |> <| world := w |>)
| step_datagram v fresh dg e st l w :
    handle_datagram ctx fresh dg (decrypt v) (sessions v) (world v) = (e, st, l, w) ->
    step v (v <| sessions := l |> <| decrypt := st |> <| world := w |>)
(** The encrypt thread. *)
| step_encrypt v packet l w :
    encrypt_packet (routing_of ctx) packet (sessions v) (world v) = (l, w) ->
    step v (v <| sessions := l |> <| world := w |>)
| step_encrypt_end v pending l w :
    encrypt_turn_end (sessions v) (world v) = (pending, l, w) ->
    step v (v <| sessions := l |> <| world := w |>)
(** The UDP writer. *)
| step_udp_write v {K} (sendto : list Z -> Z -> Packet -> K -> result Z Z * K) k l p w k' :
    udp_write_pass sendto (sessions v) (world v) k = (l, p, w, k') ->
    step v (v <| sessions := l |> <| world := w |>)
(** The control thread. *)
| step_maintain v accepts t r c l w :
    maintain accepts max_session_lifetime t (control v) (sessions v) (world v) = (r, c, l, w) ->
    step v (v <| sessions := l |> <| control := c |> <| world := w |>)
| step_reload v t file fresh receiving acked finished r c l w :
    let '(requested, c0) := take_reload (control v) in
    reload_due t requested (control_state v) = true ->
    reload file vpn_address vpn_network fresh config_reload_interval receiving acked finished requested
      (control_state v) c0 (sessions v) (world v) = (r, c, l, w) ->
    step v (v <| sessions := l |> <| control := c |> <| control_state := from_option snd (control_state v) r |>
              <| updates ::= fun us => us ++ option_list (r ≫= fst) |> <| world := w |>)
| step_sleep v revents c w :
    after_poll revents (control v) (world v) = Some (c, w) -> step v (v <| control := c |> <| world := w |>).

(** The server before any datagram. *)
Definition initial v : Prop := sessions v = [].

Definition reachable v : Prop := exists v0, initial v0 /\ rtc step v0 v.
End server.

(** ** Lemmas *)
Section preserve.
Context {D : Type} `{DtlsLaws D} (ctx : DecryptContext).
Implicit Types (s : Session D) (l : list (Session D)) (w : World).

(** Sessions that changed without changing who they are. *)
Definition refreshed l l' : Prop :=
  list_good ctx l -> list_good ctx l' /\ forall s', s' ∈ l' -> established s' = true -> kept l s'.

Lemma refreshed_submseteq l l' : l' ⊆+ l -> refreshed l l'.
Proof.
  intros Hs Hg. split; [by eapply list_good_submseteq|]. intros s' Hs' He.
  apply kept_self; [by eapply elem_of_submseteq|done].
Qed.

Lemma refreshed_sublist l l' : l' `sublist_of` l -> refreshed l l'.
Proof. intros Hs. by apply refreshed_submseteq, sublist_submseteq. Qed.

Lemma refreshed_trans l1 l2 l3 : refreshed l1 l2 -> refreshed l2 l3 -> refreshed l1 l3.
Proof.
  intros H12 H23 Hg. destruct (H12 Hg) as [Hg2 K2]. destruct (H23 Hg2) as [Hg3 K3]. split; [done|].
  intros s Hs He. destruct (K3 s Hs He) as (s2 & Hs2 & He2 & Hid).
  destruct (K2 s2 Hs2 He2) as (s1 & ? & ? & ?). exists s1. split_and!; [done|done|congruence].
Qed.

(** Sessions changed one by one. *)
Lemma refreshed_Forall2 l l' :
  Forall2 (fun s s' => session_owner s' = session_owner s /\ (session_ok ctx s -> session_ok ctx s')) l l' ->
  refreshed l l'.
Proof.
  intros HF Hg.
  assert (session_key <$> l' = session_key <$> l) as Hk.
  { clear Hg. induction HF as [|s s' l l' [Hid _] _ IH]; [done|]. cbn [fmap list_fmap].
    f_equal; [|done]. injection Hid as Hp Ha _ He. unfold session_key. by rewrite Hp, Ha, He. }
  split.
  - destruct Hg as [H1 H2]. split; [|unfold list_ok; by rewrite Hk].
    clear Hk H2. induction HF as [|s s' l l' [_ Hok] _ IH]; [constructor|].
    apply Forall_cons in H1 as [? ?]. constructor; auto.
  - intros s' [i Hi]%list_elem_of_lookup He. destruct (Forall2_lookup_r _ _ _ _ _ HF Hi) as (s & Hs & Hid & _).
    exists s. split; [by eapply list_elem_of_lookup_2|]. split; [|done].
    injection Hid as _ _ _ Hest. congruence.
Qed.

Lemma session_ok_enc s s' :
  enc_rel (routing_of ctx) s s' -> session_ok ctx s -> session_ok ctx s'.
Proof.
  intros ((Hid & Hpi & Hpush) & Hraw & [Hcap Hcl] & Hq) [R Rc O E Ec I A F N P].
  pose proof (pushes_frame _ _ Hpush) as [_ Hec].
  injection Hid as _ _ Had Hfp Hes Hau _ _.
  split; rewrite ?Hcap, ?Hcl, ?Hes, ?Hau, ?Hfp, ?Hpi, ?Hec; try done; [eauto with vpn| |].
  - intros He. destruct (items (state (raw_tx_queue s'))) as [|pt q]; [done|].
    destruct (Hq pt ltac:(by left)) as [Hin|[Ha _]].
    + rewrite (N He) in Hin. by apply elem_of_nil in Hin.
    + rewrite (A Ha) in He. done.
  - apply Forall_forall. intros pt [Hin|Hm]%Hq.
    + rewrite Forall_forall in P. specialize (P pt Hin). unfold plaintext_ok, may_receive in *.
      by rewrite Had, Hau.
    + right. right. rewrite Hau. split; [apply Hm|]. right. right. unfold may_receive in *. by rewrite Had, Hau.
Qed.

Lemma refreshed_enc l l' : Forall2 (enc_rel (routing_of ctx)) l l' -> refreshed l l'.
Proof.
  intros HF. apply refreshed_Forall2. eapply Forall2_impl; [exact HF|]. intros s s' Hrel.
  split; [by apply session_id_owner, Hrel|by apply session_ok_enc].
Qed.

Lemma list_good_raw l : list_good ctx l -> Forall (fun s => queue_ok (raw_tx_queue s)) l.
Proof. intros [Hg _]. eapply Forall_impl; [exact Hg|]. intros s Hok. apply Hok. Qed.

Lemma session_ok_reason s r : session_ok ctx s -> session_ok ctx (s <| disconnect_reason := r |>).
Proof. intros Hok. apply (session_ok_same ctx s); try done; [auto with vpn|apply Hok]. Qed.

Lemma udp_write_refreshed {K} (sendto : list Z -> Z -> Packet -> K -> result Z Z * K) l w k l' p w' k' :
  udp_write_pass sendto l w k = (l', p, w', k') -> refreshed l l'.
Proof.
  unfold udp_write_pass. destruct (write_sessions _ _ _ _ _ _) as [[l1 p1] k1] eqn:Hw.
  apply write_sessions_drained in Hw as (Hlen & Hs & Hlt & _ & _ & Hi); [|constructor..].
  pose proof (remove_all_fst (remove p1) l1 w) as Hfst.
  destruct (remove_all (remove p1) l1 w) as [l2 w2]. intros [= <- <- <- <-]. cbn in Hfst. subst l2.
  intros Hg. assert (refreshed l l1) as Hr1.
  { apply refreshed_Forall2. apply Forall2_same_length_lookup_2; [done|].
    intros i s s' Hs1 Hs2. destruct (Hi i s' Hs2) as (s0 & failed & Hs0 & Hd & _). simplify_eq.
    destruct Hd as (k2 & r & q & k3 & Hdr & -> & ->). split; [by destruct (is_err r)|].
    intros Hok. destruct (drain_encrypted_loop_spec _ (now w)
      (send_encrypted_datagram sendto (peer s) (peer_size s)) (enc_tx_queue s) k2 (ok_enc _ _ Hok) eq_refl)
      as (r' & q' & Heq & _ & _ & _ & _ & (Hc & _ & _) & Hokq).
    unfold drain_encrypted_queue in Hdr. rewrite Heq in Hdr. injection Hdr as <- <- _.
    assert (session_ok ctx (s <| enc_tx_queue := q' |>)) as Hok'.
    { destruct Hok. split; cbn; try done. by rewrite Hc. }
    destruct (is_err r'); [by apply session_ok_reason|done]. }
  apply (refreshed_trans l l1); [exact Hr1| |done].
  apply refreshed_submseteq.
  destruct (swap_remove_all_perm (remove p1) l1 Hs) as [Hperm _]; [by rewrite Hlen|].
  rewrite Hperm at 2. by apply submseteq_inserts_l.
Qed.

Lemma retransmit_refreshed fuel t i l w : refreshed l (retransmit_loop fuel t i l w).1.
Proof.
  revert i l w. induction fuel as [|fuel IH]; intros i l w; cbn [retransmit_loop]; [by apply refreshed_submseteq|].
  destruct (l !! i) as [s|] eqn:Hi; [|by apply refreshed_submseteq].
  destruct (deadline_passed t s); [|apply IH].
  destruct (with_dtls handle_timeout s w) as [[r s1] w1] eqn:Hd.
  destruct (with_dtls_frame _ _ _ _ _ _ Hd handle_timeout_sends) as (d & q & g & -> & Hq & -> & _).
  cbn [panic_gate]. destruct r as [u|e].
  - eapply refreshed_trans; [|apply IH]. apply refreshed_Forall2.
    apply Forall2_same_length_lookup_2; [by rewrite length_insert|].
    intros j s1 s2 H1 H2. destruct (decide (i = j)) as [<-|Hne].
    + rewrite list_lookup_insert_eq in H2 by (by eapply lookup_lt_Some). simplify_eq. split; [done|].
      intros Hok. apply (session_ok_same ctx s); try done. apply Hok.
    + rewrite list_lookup_insert_ne in H2 by done. by simplify_eq.
  - unfold remove_session. rewrite swap_remove_insert by (by eapply lookup_lt_Some).
    eapply refreshed_trans; [|apply IH]. apply refreshed_submseteq, swap_remove_submseteq.
Qed.

Lemma process_refreshed accepts c l w r c' l' w' :
  process accepts c l w = (r, c', l', w') -> refreshed l l'.
Proof.
  unfold process. destruct (accept_commands accepts c w) as [[u|e] c1]; [|by intros [= <- <- <- <-]; apply refreshed_submseteq].
  destruct (foldl _ _ _) as [[c2 l2] w2] eqn:Hf. intros [= <- <- <- <-].
  revert Hf. generalize (c1 <| pending_commands := [] |>) as c0.
  generalize (pending_commands c1) as ps. intros ps. revert l w.
  induction ps as [|p ps IH]; intros l w c0; cbn [foldl].
  { intros [= <- <- <-]. by apply refreshed_submseteq. }
  destruct (process_command p (c0, l, w)) as [[c3 l3] w3] eqn:Hp. intros Hf.
  eapply refreshed_trans; [|by eapply IH]. unfold process_command in Hp.
  destruct (_ <=? _); [by injection Hp as <- <- <-; apply refreshed_submseteq|].
  destruct (read_command _ _) as [[] p1]; [|by injection Hp as <- <- <-; apply refreshed_submseteq].
  pose proof (handle_command_list (command_stream p1) (trim (from_utf8_lossy (command_bytes p1))) c0 l w) as Hl.
  rewrite Hp in Hl. cbn in Hl. apply refreshed_sublist. rewrite Hl.
  destruct (_ ≫= _); [apply retain_sublist|done].
Qed.

Lemma drain_refreshed logins l w e l' w' :
  drain_sessions ctx logins l w = (e, l', w') -> refreshed l l'.
Proof.
  intros Hd. apply drain_sessions_spec in Hd as (HF & _). apply refreshed_Forall2.
  eapply Forall2_impl; [exact HF|]. intros s s' [Hok Hk Hf _ _ _].
  split; [|done]. injection Hk as Hp He Ha. unfold session_owner. by rewrite Hp, Ha, Hf, He.
Qed.

Lemma maintain_refreshed accepts life t c l w r c' l' w' :
  maintain accepts life t c l w = (r, c', l', w') -> refreshed l l'.
Proof.
  unfold maintain. destruct (process accepts c l w) as [[[[u|e] c1] l1] w1] eqn:Hp.
  2:{ intros [= <- <- <- <-]. by eapply process_refreshed. }
  pose proof (retransmit_refreshed (length l1) t 0 l1 w1) as Hr. unfold retransmit.
  destruct (retransmit_loop _ _ _ _ _) as [l2 w2]. cbn in Hr.
  pose proof (retain_sublist (within_limits life w2) l2) as He. rewrite <-expire_retain in He. destruct (expire life l2 w2) as [l3 w3].
  intros [= <- <- <- <-]. eapply refreshed_trans; [by eapply process_refreshed|].
  eapply refreshed_trans; [exact Hr|]. by apply refreshed_sublist.
Qed.

Lemma revoke_sublist logins new_logins new_bindings l w :
  (revoke_sessions logins new_logins new_bindings l w).1 `sublist_of` l.
Proof.
  apply retain_mut_sublist. intros [] s [] s'. unfold revoked.
  destruct (established s); cbn [negb]; [|done]. destruct (authorized _ _ _ s); congruence.
Qed.

Lemma reload_refreshed file a n fresh i receiving acked finished requested cs c l w r c' l' w' :
  reload file a n fresh i receiving acked finished requested cs c l w = (r, c', l', w') -> refreshed l l'.
Proof.
  unfold reload. destruct (read_update _ _ _ _) as [[[bs ls] acceptor]|e].
  2:{ intros [= <- <- <- <-]. by apply refreshed_submseteq. }
  pose proof (revoke_sublist (current_logins cs) ls bs l w) as Hs.
  destruct (revoke_sessions _ _ _ l w) as [l1 w1]. cbn in Hs.
  destruct receiving; intros [= <- <- <- <-]; by apply refreshed_sublist.
Qed.
End preserve.

Section invariants.
Context {D : Type} `{DtlsLaws D} (ctx : DecryptContext) (max_session_lifetime : Duration)
  (vpn_address : Ipv4Addr) (vpn_network : rstr) (config_reload_interval : Duration).
Implicit Types (v : Server D).

Abbreviation step := (step ctx max_session_lifetime vpn_address vpn_network config_reload_interval).
Abbreviation reachable := (reachable ctx max_session_lifetime vpn_address vpn_network config_reload_interval).

(** One step of any thread: the list stays well-formed, and a session is established only
    if it was, or by the handshake of this step. *)
Lemma step_spec v v' :
  (1 <= max_pending_handshakes ctx)%nat -> list_good ctx (sessions v) -> step v v' ->
  list_good ctx (sessions v') /\
  forall s, s ∈ sessions v' -> established s = true ->
    kept (sessions v) s \/ exists dg, newly_established ctx dg (decrypt v) s.
Proof.
  intros Hctx Hg Hstep.
  assert (forall l, refreshed ctx (sessions v) l -> list_good ctx l /\
    forall s, s ∈ l -> established s = true ->
      kept (sessions v) s \/ exists dg, newly_established ctx dg (decrypt v) s) as Href.
  { intros l Hr. destruct (Hr Hg) as [? Hk]. split; [done|]. intros. left. by apply Hk. }
  destruct Hstep as [v w _|v e l w Hd|v l w Hd|v st w Hd|v fresh dg e st l w Hd|v p l w Hd
    |v p l w Hd|v K sendto k l p w k' Hd|v a t r c l w Hd|v t f fr rc ac fi r c l w _ Hd|v evs c w Hd]; cbn.
  - by apply Href, refreshed_submseteq.
  - by eapply Href, drain_refreshed.
  - pose proof (dedupe_sublist (sessions v) (world v)) as Hs. rewrite Hd in Hs.
    by apply Href, refreshed_sublist.
  - by apply Href, refreshed_submseteq.
  - destruct (handle_datagram_spec _ _ _ _ _ _ _ _ _ _ Hctx Hg Hd) as [[Hg' Hk] _].
    split; [done|]. intros s Hs He. destruct (Hk s Hs He); [by left|right; by exists dg].
  - pose proof (encrypt_packet_rel (routing_of ctx) p (sessions v) (world v) (list_good_raw _ _ Hg)) as Hrel.
    rewrite Hd in Hrel. by apply Href, refreshed_enc.
  - pose proof (flush_pending_rel (routing_of ctx) (sessions v) (world v) (list_good_raw _ _ Hg)) as Hrel.
    unfold encrypt_turn_end in Hd. destruct (flush_pending _ _) as [l1 w1]. injection Hd as _ <- _.
    by apply Href, refreshed_enc.
  - by eapply Href, udp_write_refreshed.
  - by eapply Href, maintain_refreshed.
  - by eapply Href, reload_refreshed.
  - by apply Href, refreshed_submseteq.
Qed.

Lemma reachable_good v :
  (1 <= max_clients ctx)%nat -> (1 <= max_pending_handshakes ctx)%nat -> reachable v ->
  list_good ctx (sessions v).
Proof.
  intros Hmc Hmp (v0 & Hi & Hr).
  assert (list_good ctx (sessions v0)) as H0'.
  { rewrite Hi. split; [constructor|]. split.
    - constructor.
    - apply Nat.le_0_l.
    - cbn. lia.
    - intros ip. apply Nat.le_0_l.
    - unfold key_addresses. cbn. rewrite size_empty. lia. }
  clear Hi. induction Hr as [|v0 v1 v2 Hs _ IH]; [done|].
  apply IH. by eapply step_spec.
Qed.
End invariants.

(** ** Lemmas: counting clients *)
Definition established_addresses {D} (l : list (Session D)) : gset Ipv4Addr :=
  list_to_set (address <$> retain established l).

Lemma key_addresses_sessions {D} (l : list (Session D)) :
  key_addresses (session_key <$> l) = established_addresses l.
Proof.
  unfold key_addresses, established_addresses, retain. f_equal.
  induction l as [|s l IH]; [done|]. cbn [fmap list_fmap omap list_omap]. unfold session_key at 1. cbn [fst snd].
  rewrite filter_cons. destruct (established s); cbn [Is_true decide];
    [rewrite decide_True by done|rewrite decide_False by auto]; cbn [fmap list_fmap]; by rewrite <-IH.
Qed.

Lemma NoDup_length_le (xs : list Ipv4Addr) (X : gset Ipv4Addr) :
  NoDup xs -> (forall x, x ∈ xs -> x ∈ X) -> (length xs <= size X)%nat.
Proof.
  intros Hd Hin. rewrite <-(size_list_to_set (C := gset Ipv4Addr)) by done.
  apply subseteq_size. intros x Hx%elem_of_list_to_set. auto.
Qed.

Lemma authenticated_le_established {D} (ctx : DecryptContext) (l : list (Session D)) :
  list_good ctx l -> NoDup (authenticated_addresses l) ->
  (length (retain authenticated l) <= size (established_addresses l))%nat.
Proof.
  intros [Hok _] Hd. rewrite <-(length_fmap address). apply NoDup_length_le; [done|].
  intros a (s & -> & Hs)%list_elem_of_fmap. apply list_elem_of_filter in Hs as [Ha Hs].
  apply elem_of_list_to_set, list_elem_of_fmap. exists s. split; [done|].
  apply list_elem_of_filter. split; [|done]. rewrite Forall_forall in Hok.
  apply Is_true_true. apply (ok_authenticated _ _ (Hok s Hs)). by apply Is_true_true.
Qed.

(** ** Properties *)

(** C5: In every reachable state of the server, whatever the order its threads run in, no two
    sessions share a peer, the handshakes in progress respect the global and the per-address
    limit, the established sessions hold at most [max_clients] VPN addresses, and the number
    of sessions is less than [max_clients + max_pending_handshakes]. *)
Theorem server_limits {D} `{DtlsLaws D} ctx life a n i (v : Server D) :
  (1 <= max_clients ctx)%nat -> (1 <= max_pending_handshakes ctx)%nat ->
  reachable ctx life a n i v ->
  NoDup (peer <$> sessions v) /\
  (pending_count (sessions v) <= max_pending_handshakes ctx)%nat /\
  (forall ip, pending_from_ip ip (sessions v) <= MAX_PENDING_PER_IP)%nat /\
  (size (established_addresses (sessions v)) <= max_clients ctx)%nat /\
  (length (sessions v) < max_clients ctx + max_pending_handshakes ctx)%nat.
Proof.
  intros Hmc Hmp Hr. destruct (reachable_good _ _ _ _ _ _ Hmc Hmp Hr) as [_ [K1 K2 K3 K4 K5]].
  rewrite count_keys in K2. rewrite length_fmap in K3. rewrite key_addresses_sessions in K5.
  split_and!; [|exact K2| |exact K5|exact K3].
  - rewrite <-list_fmap_compose in K1. exact K1.
  - intros ip. specialize (K4 ip). rewrite count_keys in K4. exact K4.
Qed.

(** C6: In every reachable state, an authenticated session is established, an established one
    has a certificate fingerprint, every queue is within its capacity, and the plaintext
    waiting for a session is only what that session may be sent: the answers to its handshake
    and login, and, once it is authenticated, keepalives and the tunnel packets routed to it.
    Nothing is ever queued for a session that has not completed its handshake. *)
Theorem server_sessions_safe {D} `{DtlsLaws D} ctx life a n i (v : Server D) (s : Session D) :
  (1 <= max_clients ctx)%nat -> (1 <= max_pending_handshakes ctx)%nat ->
  reachable ctx life a n i v -> s ∈ sessions v ->
  (authenticated s = true -> established s = true) /\
  (established s = true -> is_Some (session_fingerprint s)) /\
  (established s = false -> items (state (raw_tx_queue s)) = []) /\
  (queue_len (raw_tx_queue s) <= SESSION_TX_QUEUE_CAPACITY)%nat /\
  (queue_len (enc_tx_queue s) <= SESSION_TX_QUEUE_CAPACITY)%nat /\
  (length (pending_inject s) <= SESSION_TX_QUEUE_CAPACITY)%nat /\
  Forall (fun pt => plaintext_ok ctx s pt.1) (items (state (raw_tx_queue s))).
Proof.
  intros Hmc Hmp Hr Hs. destruct (reachable_good _ _ _ _ _ _ Hmc Hmp Hr) as [Hok _].
  rewrite Forall_forall in Hok. destruct (Hok s Hs) as [R Rc O E Ec I A F N P].
  destruct R as (_ & R & _), E as (_ & E & _). rewrite Rc in R. rewrite Ec in E. by split_and!.
Qed.

(** C7: A session becomes established only by authenticating: in one step of any thread, an
    established session was the same peer's with the same address and certificate before, or
    its own handshake has just succeeded with a certificate the bindings assign to exactly
    that address, whose SAN names the address when that is required, and whose source policy
    admits the peer's address; and it starts authenticated exactly when the address needs no
    login. *)
Theorem established_only_by_handshake {D} `{DtlsLaws D} ctx life a n i (v v' : Server D) (s : Session D) :
  (1 <= max_clients ctx)%nat -> (1 <= max_pending_handshakes ctx)%nat ->
  reachable ctx life a n i v -> step ctx life a n i v v' ->
  s ∈ sessions v' -> established s = true ->
  (exists s0, s0 ∈ sessions v /\ established s0 = true /\ session_owner s = session_owner s0) \/
  (exists t d0 d o o' fp,
     handshake t d0 o = (Returned (Ok true), d, o') /\
     certified ctx (bindings (decrypt v)) (peer s) d (address s) fp /\
     session_fingerprint s = Some fp /\
     authenticated s = bool_decide (logins (decrypt v) !! address s = None)).
Proof.
  intros Hmc Hmp Hr Hstep Hs He. pose proof (reachable_good _ _ _ _ _ _ Hmc Hmp Hr) as Hg.
  destruct (step_spec _ _ _ _ _ _ _ Hmp Hg Hstep) as [_ Hk].
  destruct (Hk s Hs He) as [Hkept|(dg & t & d0 & d & o & o' & fp & Hh & _ & Hc & Hf & Ha)]; [by left|].
  right. exists t, d0, d, o, o', fp. by split_and!.
Qed.

(** After the decrypt thread's deduplication in any reachable state, no two authenticated
    sessions share a VPN address, so at most [max_clients] clients are connected. *)
Theorem dedupe_limits_clients {D} `{DtlsLaws D} ctx life a n i (v : Server D) l w :
  (1 <= max_clients ctx)%nat -> (1 <= max_pending_handshakes ctx)%nat ->
  reachable ctx life a n i v -> dedupe (sessions v) (world v) = (l, w) ->
  NoDup (authenticated_addresses l) /\ (length (retain authenticated l) <= max_clients ctx)%nat.
Proof.
  intros Hmc Hmp Hr Hd. pose proof (reachable_good _ _ _ _ _ _ Hmc Hmp Hr) as Hg.
  pose proof (dedupe_unique (sessions v) (world v)) as Hu. pose proof (dedupe_sublist (sessions v) (world v)) as Hs.
  rewrite Hd in Hu, Hs. cbn in Hu, Hs. split; [done|].
  destruct (refreshed_sublist ctx _ _ Hs Hg) as [Hg' _].
  etrans; [by eapply authenticated_le_established|].
  destruct Hg' as [_ [_ _ _ _ K]]. by rewrite key_addresses_sessions in K.
Qed.

(** ** A run on a concrete input: one client connects *)
Definition example_ctx : DecryptContext :=
  {| max_clients := 2; max_pending_handshakes := 2; verify_client_san_ip := true;
     allow_broadcast := false; allow_multicast := false;
     network_address := ipv4_new 10 8 1 0; network_prefix := 24 |}.

Definition example_acceptor (source_ok : bool) : PlainDtls :=
  {| inbox := []; plain_fingerprint := Config.fingerprint_text (replicate 32 171);
     plain_source_ok := source_ok |}.

Definition example_decrypt : DecryptState PlainDtls :=
  {| bindings := example_bindings; logins := ∅; stateless_acceptor := example_acceptor true;
     handshake_limiter := limiter_new 30 (from_secs 60) (from_secs 600) |}.

Definition example_control : ControlSocket :=
  {| pending_commands := []; watchers := []; reload_requested := false; reload_responses := [];
     last_identity := []; answered := [] |}.

Definition example_server : Server PlainDtls :=
  {| sessions := []; decrypt := example_decrypt; control := example_control;
     control_state := {| current_bindings := example_bindings; current_logins := ∅;
                         next_config_reload := from_secs 1030 |};
     updates := []; world := example_world |}.

Definition example_datagram (packet : Packet) : UdpDatagram :=
  {| dg_peer := socket_addr_storage_v4 (ipv4_new 192 0 2 1) 5000; dg_peer_size := 16;
     dg_packet := packet |}.

(** The server after a datagram. *)
Definition receive (dg : UdpDatagram) (v : Server PlainDtls) : Server PlainDtls :=
  let '(_, st, l, w) :=
    handle_datagram example_ctx (Ok (example_acceptor true)) dg (decrypt v) (sessions v) (world v) in
  v <| sessions := l |> <| decrypt := st |> <| world := w |>.

Definition example_connected : Server PlainDtls := receive (example_datagram [1]) example_server.

Abbreviation example_step := (step example_ctx (from_secs 3600) (ipv4_new 10 8 1 1) (str "10.8.1.0/24") (from_secs 30)).
Abbreviation example_reachable :=
  (reachable example_ctx (from_secs 3600) (ipv4_new 10 8 1 1) (str "10.8.1.0/24") (from_secs 30)).

Lemma receive_step dg v : example_step v (receive dg v).
Proof.
  unfold receive.
  destruct (handle_datagram example_ctx (Ok (example_acceptor true)) dg (decrypt v) (sessions v) (world v))
    as [[[e st] l] w] eqn:Hd.
  by eapply step_datagram.
Qed.

Lemma example_server_reachable : example_reachable example_server.
Proof. exists example_server. split; [done|apply rtc_refl]. Qed.

Lemma example_connected_reachable : example_reachable example_connected.
Proof. exists example_server. split; [done|]. apply rtc_once, receive_step. Qed.

Lemma server_limits_witness :
  (length (sessions example_connected) < 4)%nat /\ length (sessions example_connected) = 1%nat.
Proof.
  split; [|vm_compute; reflexivity].
  apply (server_limits example_ctx _ _ _ _ _ ltac:(cbn; lia) ltac:(cbn; lia) example_connected_reachable).
Defined.

Lemma server_sessions_safe_witness :
  exists s, s ∈ sessions example_connected /\ authenticated s = true /\ established s = true.
Proof.
  destruct (sessions example_connected) as [|s l] eqn:Hs; [by vm_compute in Hs|].
  assert (s ∈ sessions example_connected) as Hin by (rewrite Hs; left).
  assert (authenticated s = true) as Ha.
  { assert (authenticated <$> head (sessions example_connected) = Some true) as Hh by (vm_compute; reflexivity).
    rewrite Hs in Hh. cbn in Hh. by injection Hh. }
  exists s. split_and!; [left|done|].
  apply (server_sessions_safe example_ctx _ _ _ _ _ s ltac:(cbn; lia) ltac:(cbn; lia) example_connected_reachable Hin).
  exact Ha.
Defined.

Lemma established_only_by_handshake_witness :
  exists s, s ∈ sessions example_connected /\ address s = ipv4_new 10 8 1 2 /\
    example_bindings !! address s = session_fingerprint s.
Proof.
  destruct (sessions example_connected) as [|s l] eqn:Hs; [by vm_compute in Hs|].
  assert (s ∈ sessions example_connected) as Hin by (rewrite Hs; left).
  assert ((established s, address s) = (true, ipv4_new 10 8 1 2)) as [= He Ha].
  { assert ((fun s => (established s, address s)) <$> head (sessions example_connected) =
            Some (true, ipv4_new 10 8 1 2)) as Hh by (vm_compute; reflexivity).
    rewrite Hs in Hh. cbn [head fmap option_fmap option_map] in Hh. congruence. }
  exists s. split; [left|]. split; [exact Ha|].
  destruct (established_only_by_handshake example_ctx _ _ _ _ example_server example_connected s
              ltac:(cbn; lia) ltac:(cbn; lia) example_server_reachable (receive_step _ _) Hin He)
    as [(s0 & Hs0 & _)|(t & d0 & d & o & o' & fp & _ & (Hb & _) & Hf & _)].
  - destruct (not_elem_of_nil s0 Hs0).
  - rewrite Hf. exact Hb.
Defined.

Lemma dedupe_limits_clients_witness :
  (length (retain authenticated (dedupe (sessions example_connected) (world example_connected)).1) <= 2)%nat.
Proof.
  destruct (dedupe (sessions example_connected) (world example_connected)) as [l w] eqn:Hd.
  apply (dedupe_limits_clients example_ctx _ _ _ _ _ _ _ ltac:(cbn; lia) ltac:(cbn; lia) example_connected_reachable Hd).
Defined.
