(* ===== verification/ControlRun.v ===== *)
(** * The control thread over its turns

    Models the loop of [run] in [src/server/control.rs] as a whole: maintenance, reload and
    sleep of one turn, with the other threads of the server at work between them, and the
    turns one after another. What the reload revokes is followed through the server, to the
    decrypt thread and back. *)

From S2P Require Import Prelude Text Net Config RateLimit System Queue DtlsApi Session UdpRead.
From S2P Require Import Decrypt DecryptOk Control ControlPoll Server.

Local Open Scope Z_scope.

(** ** One turn *)

(** What the environment decides about a turn. The last two are the other threads, after the
    maintenance and after the reload. *)
Record Turn (D : Type) := {
  turn_running : bool;                    (** [RUNNING] and [active] at its start *)
  turn_now : Instant;
  turn_accepts : list (io Stream);
  turn_file : io rstr;
  turn_fresh : io D;
  turn_receiving : bool;
  turn_acked : bool;
  turn_finished : Instant;
  turn_others1 : Server D -> Server D;
  turn_others2 : Server D -> Server D;
}.
Arguments turn_running {D} _.
Arguments turn_now {D} _.
Arguments turn_accepts {D} _.
Arguments turn_file {D} _.
Arguments turn_fresh {D} _.
Arguments turn_receiving {D} _.
Arguments turn_acked {D} _.
Arguments turn_finished {D} _.
Arguments turn_others1 {D} _ _.
Arguments turn_others2 {D} _ _.

(** How a turn ends: with another one, with the thread's result, or with a panic. *)
Inductive TurnEnd := GoesOn | Ends (r : io unit) | Panics.

Section turn.
Context (system : history -> call -> answer) (number : Descriptor -> Z).
Context {D : Type} `{DtlsSession D} (max_session_lifetime : Duration)
  (vpn_address : Ipv4Addr) (vpn_network : rstr) (config_reload_interval : Duration).
Implicit Types v : Server D.

(** From the flag to the end of the reload; [false] is the [break]. *)
Definition reload_if_due (i : Turn D) v : bool * Server D :=
  let '(requested, c) := take_reload (control v) in
  if reload_due (turn_now i) requested (control_state v) then
    let '(r, c, l, w) :=
      reload (turn_file i) vpn_address vpn_network (turn_fresh i) config_reload_interval
        (turn_receiving i) (turn_acked i) (turn_finished i) requested (control_state v) c (sessions v) (world v) in
    (bool_decide (is_Some r),
     v <| sessions := l |> <| control := c |> <| control_state := from_option snd (control_state v) r |>
       <| updates ::= fun us => us ++ option_list (r ≫= fst) |> <| world := w |>)
  else (true, v <| control := c |>).

Definition control_turn (i : Turn D) v (h : history) : TurnEnd * Server D * history :=
  let '(r, c, l, w) := maintain (turn_accepts i) max_session_lifetime (turn_now i) (control v) (sessions v) (world v) in
  let v := v <| sessions := l |> <| control := c |> <| world := w |> in
  match r with
  | Err e => (Ends (Err e), v, h)
  | Ok _ =>
      let '(going, v) := reload_if_due i (turn_others1 i v) in
      if negb going then (Ends (Ok tt), v, h)
      else
        let v := turn_others2 i v in
        match sleep system number max_session_lifetime (control_state v) (control v) (sessions v)
                (now (world v)) (world v) h with
        | (Err e, h) => (Ends (Err e), v, h)
        | (Ok None, h) => (Panics, v, h)
        | (Ok (Some (c, w)), h) => (GoesOn, v <| control := c |> <| world := w |>, h)
        end
  end.

(** [run]: the turns the environment grants; [GoesOn] after the last one. *)
Fixpoint control_run (turns : list (Turn D)) v (h : history) : TurnEnd * Server D * history :=
  match turns with
  | [] => (GoesOn, v, h)
  | i :: turns =>
      if turn_running i then
        match control_turn i v h with
        | (GoesOn, v, h) => control_run turns v h
        | ended => ended
        end
      else (Ends (Ok tt), v, h)
  end.
End turn.

(** ** Which commands a turn completes *)

(** What a command asks for, once it is complete and not too old. *)
Definition completed (w : World) (p : PendingCommand) : option (Stream * rstr) :=
  if from_secs 3 <=? elapsed (now w) (accepted_at p) then None
  else
    let '(complete, p) := read_command (S (length (read_answers (command_stream p)))) p in
    if complete then Some (command_stream p, trim (from_utf8_lossy (command_bytes p))) else None.

Definition completed_commands (accepts : list (io Stream)) (c : ControlSocket) (w : World) : list (Stream * rstr) :=
  omap (completed w) (pending_commands (accept_commands accepts c w).2).

(** The streams of the completed RELOAD commands, and how many others get an answer. *)
Definition reload_streams (cs : list (Stream * rstr)) : list Stream :=
  (retain (fun c => bool_decide (c.2 = str "RELOAD")) cs).*1.
Definition other_answers (cs : list (Stream * rstr)) : nat :=
  length (retain (fun c => negb (bool_decide (c.2 = str "RELOAD") || bool_decide (c.2 = str "WATCH"))) cs).

Definition reload_answer (ok : bool) : list Z :=
  as_bytes ((if ok then str "{" ++ json_field "ok" (str "true") ++ str "}" else json_error "reload_failed") ++ [10%N]).

(** ** Lemmas: commands *)

(** What a part of the turn does to the parts of the socket that concern reloads. *)
Record commanded (cs : list (Stream * rstr)) (c c' : ControlSocket) : Prop := {
  commanded_responses : reload_responses c' = reload_responses c ++ reload_streams cs;
  commanded_requested : reload_requested c' = reload_requested c || bool_decide (reload_streams cs <> []);
  commanded_answered : exists direct, answered c' = answered c ++ direct /\ length direct = other_answers cs;
}.

Lemma commanded_none c c' :
  reload_responses c' = reload_responses c -> reload_requested c' = reload_requested c ->
  answered c' = answered c -> commanded [] c c'.
Proof.
  intros H1 H2 H3. split.
  - rewrite H1. cbn. by rewrite (right_id_L [] (++)).
  - rewrite H2. cbn. by rewrite orb_false_r.
  - exists []. by rewrite H3, (right_id_L [] (++)).
Qed.

Lemma commanded_app cs1 cs2 c1 c2 c3 : commanded cs1 c1 c2 -> commanded cs2 c2 c3 -> commanded (cs1 ++ cs2) c1 c3.
Proof.
  intros [R1 Q1 (d1 & A1 & L1)] [R2 Q2 (d2 & A2 & L2)].
  assert (reload_streams (cs1 ++ cs2) = reload_streams cs1 ++ reload_streams cs2) as Hs.
  { unfold reload_streams. by rewrite retain_app, fmap_app. }
  split.
  - by rewrite R2, R1, Hs, (assoc_L (++)).
  - rewrite Q2, Q1, Hs, <-orb_assoc, <-bool_decide_or. f_equal. apply bool_decide_ext.
    destruct (reload_streams cs1), (reload_streams cs2); cbn; naive_solver.
  - exists (d1 ++ d2). rewrite A2, A1, (assoc_L (++)). split; [done|].
    unfold other_answers in *. rewrite retain_app, !length_app. by rewrite L1, L2.
Qed.

Lemma commanded_publish {D} cs c c' (l : list (Session D)) w :
  commanded cs c c' -> commanded cs c (publish_if_changed c' l w).
Proof.
  intros [R Q A]. unfold publish_if_changed. cbv zeta.
  by destruct (bool_decide (write_session_identity l <> _)); split.
Qed.

Lemma accept_commands_frame accepts c w :
  let c' := (accept_commands accepts c w).2 in
  reload_responses c' = reload_responses c /\ reload_requested c' = reload_requested c /\ answered c' = answered c.
Proof.
  revert c. induction accepts as [|[stream|e] rest IH]; intros c; cbn [accept_commands].
  - done.
  - destruct (decide _); [|apply IH]. destruct (IH (c <| pending_commands ::= fun ps =>
      ps ++ [{| command_stream := stream; command_bytes := []; accepted_at := now w |}] |>) ) as (-> & -> & ->). done.
  - by destruct (decide _).
Qed.

Section commands.
Context {D : Type} `{DtlsSession D}.
Implicit Types (l : list (Session D)).

Lemma one_reload_stream stream command :
  reload_streams [(stream, command)] = if bool_decide (command = str "RELOAD") then [stream] else [].
Proof. unfold reload_streams, retain. rewrite filter_cons. cbn. by case_bool_decide. Qed.

Lemma one_other_answer stream command :
  other_answers [(stream, command)]
    = if bool_decide (command = str "RELOAD") || bool_decide (command = str "WATCH") then 0%nat else 1%nat.
Proof. unfold other_answers, retain. rewrite filter_cons. cbn. by destruct (_ || _). Qed.

Lemma commanded_one stream command c c' :
  reload_responses c' = reload_responses c ++ (if bool_decide (command = str "RELOAD") then [stream] else []) ->
  reload_requested c' = reload_requested c || bool_decide (command = str "RELOAD") ->
  (exists direct, answered c' = answered c ++ direct /\
     length direct = if bool_decide (command = str "RELOAD") || bool_decide (command = str "WATCH") then 0%nat else 1%nat) ->
  commanded [(stream, command)] c c'.
Proof.
  intros R Q A. split; rewrite ?one_reload_stream, ?one_other_answer; [done| |done].
  rewrite Q. by case_bool_decide.
Qed.

Lemma handle_command_commanded stream command c l w :
  commanded [(stream, command)] c (handle_command stream command c l w).1.1.
Proof.
  assert (forall c' s, command <> str "WATCH" -> command <> str "RELOAD" ->
    reload_responses c' = reload_responses c -> reload_requested c' = reload_requested c ->
    answered c' = answered c ++ [s] -> commanded [(stream, command)] c c') as Hother.
  { intros c' s H1 H2 R Q A. apply commanded_one; rewrite ?(bool_decide_false (_ = str "RELOAD")) by done.
    - by rewrite R, (right_id_L [] (++)).
    - by rewrite Q, orb_false_r.
    - exists [s]. by rewrite bool_decide_false by done. }
  unfold handle_command. case_bool_decide as H1.
  { subst command. destruct (flush _) as [alive watcher]. apply (commanded_one stream (str "WATCH"));
      rewrite ?(bool_decide_false (str "WATCH" = str "RELOAD")), ?(bool_decide_true (str "WATCH" = str "WATCH")) by done;
      [| |exists []]; destruct alive; cbn; by rewrite ?(right_id_L [] (++)), ?orb_false_r. }
  case_bool_decide as H2; [by eapply Hother; subst|].
  case_bool_decide as H3.
  { subst command. apply (commanded_one stream (str "RELOAD"));
      rewrite ?(bool_decide_true (str "RELOAD" = str "RELOAD")) by done; [done|by rewrite orb_true_r|].
    exists []. by rewrite (right_id_L [] (++)). }
  destruct (strip_prefix _ command) as [text|]; [|by eapply Hother].
  destruct (parse_ipv4 text) as [a|]; [|by eapply Hother].
  destruct (retain_mut _ _ _ _) as [l1 w1]. by eapply Hother.
Qed.

Lemma handle_command_now stream command c l w : now (handle_command stream command c l w).2 = now w.
Proof.
  unfold handle_command. repeat case_bool_decide; [by destruct (flush _) as [[] ?]|done|done|].
  destruct (strip_prefix _ command) as [text|]; [|done]. destruct (parse_ipv4 text) as [a|]; [|done].
  destruct (retain_mut_now (disconnected (D := D) a) tt l w) as [Hn _]. by destruct (retain_mut _ _ _ _).
Qed.

Lemma process_command_commanded p c l w :
  commanded (option_list (completed w p)) c (process_command p (c, l, w)).1.1 /\
  now (process_command p (c, l, w)).2 = now w.
Proof.
  unfold process_command, completed. destruct (_ <=? _); [split; [by apply commanded_none|done]|].
  destruct (read_command _ p) as [[] p1]; [|split; [by apply commanded_none|done]].
  split; [apply handle_command_commanded|apply handle_command_now].
Qed.

Lemma process_commands_commanded ps c l w :
  commanded (omap (completed w) ps) c (foldl (fun clw p => process_command p clw) (c, l, w) ps).1.1.
Proof.
  revert c l w. induction ps as [|p ps IH]; intros c l w; cbn [foldl]; [by apply commanded_none|].
  destruct (process_command_commanded p c l w) as [Hp Hn].
  destruct (process_command p (c, l, w)) as [[c1 l1] w1]. cbn [fst snd] in Hp, Hn.
  replace (omap (completed w) (p :: ps)) with (option_list (completed w p) ++ omap (completed w) ps)
    by (cbn; by destruct (completed w p)).
  eapply commanded_app; [exact Hp|]. specialize (IH c1 l1 w1).
  replace (completed w1) with (completed w) in IH; [exact IH|]. unfold completed. by rewrite Hn.
Qed.

(** The maintenance: every completed command is a reload request, a watcher or answered. *)
Lemma maintain_commanded accepts life t c l w c' l' w' :
  maintain accepts life t c l w = (Ok tt, c', l', w') -> commanded (completed_commands accepts c w) c c'.
Proof.
  unfold maintain, process, completed_commands. pose proof (accept_commands_frame accepts c w) as Hf.
  destruct (accept_commands accepts c w) as [[u|e] c1]; [|done]. cbn [snd] in *. destruct Hf as (R & Q & A).
  pose proof (process_commands_commanded (pending_commands c1) (c1 <| pending_commands := [] |>) l w) as Hp.
  destruct (foldl _ _ _) as [[c2 l2] w2]. cbn [fst] in Hp.
  destruct (retransmit t l2 w2) as [l3 w3]. destruct (expire life l3 w3) as [l4 w4]. intros [= <- _ _].
  apply commanded_publish, commanded_publish.
  eapply (commanded_app []); [|exact Hp]. by apply commanded_none.
Qed.
End commands.

(** ** Lemmas: the reload *)

(** No reload is under way. *)
Definition settled (c : ControlSocket) : Prop := reload_requested c = false /\ reload_responses c = [].

Lemma respond_reload_answers ok c :
  reload_responses (respond_reload ok c) = [] /\ reload_requested (respond_reload ok c) = reload_requested c /\
  answered (respond_reload ok c) = answered c ++ (write_all (reload_answer ok) <$> reload_responses c).
Proof.
  unfold respond_reload. generalize (reload_responses c) as streams. intros streams.
  set (c0 := c <| reload_responses := [] |>).
  change (answered c) with (answered c0). change (reload_requested c) with (reload_requested c0).
  assert (reload_responses c0 = []) as H0 by done. clearbody c0. revert c0 H0.
  induction streams as [|s streams IH]; intros c0 H0; cbn [foldl]; [by rewrite fmap_nil, (right_id_L [] (++))|].
  destruct (IH (respond (if ok then str "{" ++ json_field "ok" (str "true") ++ str "}"
                         else json_error "reload_failed") s c0) H0) as (R & Q & A).
  rewrite R, Q, A. split_and!; [done|done|]. cbn [respond answered set_field fmap list_fmap].
  by rewrite <-(assoc_L (++)).
Qed.

Lemma publish_frame {D} c (l : list (Session D)) w :
  let c' := publish_if_changed c l w in
  reload_responses c' = reload_responses c /\ reload_requested c' = reload_requested c /\ answered c' = answered c.
Proof.
  unfold publish_if_changed. cbv zeta. by destruct (bool_decide (write_session_identity l <> _)).
Qed.

Section reload.
Context {D : Type} `{DtlsSession D} (vpn_address : Ipv4Addr) (vpn_network : rstr) (interval : Duration).
Implicit Types v : Server D.

Abbreviation update_of i := (read_update (turn_file i) vpn_address vpn_network (turn_fresh i)).
Abbreviation reload_if_due := (reload_if_due vpn_address vpn_network interval).

(** The configuration after the reload step. *)
Definition reloaded_state (i : Turn D) (cs : ControlState) : ControlState :=
  match update_of i with
  | Ok (bs, ls, _) =>
      {| current_bindings := bs; current_logins := ls; next_config_reload := turn_finished i + interval |}
  | Err _ =>
      {| current_bindings := current_bindings cs; current_logins := current_logins cs;
         next_config_reload := turn_finished i + interval |}
  end.

Lemma reload_if_due_answers i v b v' :
  reload_requested (control v) = bool_decide (reload_responses (control v) <> []) ->
  reload_if_due i v = (b, v') ->
  if b then
    settled (control v') /\
    answered (control v') = answered (control v)
      ++ (write_all (reload_answer (is_ok (update_of i) && turn_acked i)) <$> reload_responses (control v)) /\
    control_state v' = if reload_due (turn_now i) (reload_requested (control v)) (control_state v)
                       then reloaded_state i (control_state v) else control_state v
  else turn_receiving i = false.
Proof.
  intros Hreq. unfold ControlRun.reload_if_due, take_reload, reloaded_state.
  set (c0 := (control v) <| reload_requested := false |>).
  change (answered (control v)) with (answered c0). change (reload_responses (control v)) with (reload_responses c0) in *.
  assert (reload_requested c0 = false) as H0 by done.
  destruct (reload_due _ _ _) eqn:Hdue.
  - unfold reload. destruct (update_of i) as [[[bs ls] acceptor]|e]; cbn [is_ok andb].
    + destruct (revoke_sessions _ _ _ _ _) as [l1 w1]. destruct (publish_frame c0 l1 w1) as (R & Q & A).
      destruct (turn_receiving i); cbn [negb]; intros [= <- <-]; [|done]. cbn [control control_state set_field from_option].
      rewrite Hreq. case_bool_decide as Hr.
      * destruct (respond_reload_answers (turn_acked i) (publish_if_changed c0 l1 w1)) as (R1 & Q1 & A1).
        unfold settled. rewrite R1, Q1, A1, Q, R, A. by split_and!.
      * unfold settled. rewrite R, Q, A, Hr, fmap_nil. by rewrite (right_id_L [] (++)).
    + intros [= <- <-]. destruct (respond_reload_answers false c0) as (R & Q & A).
      cbn [control control_state set_field from_option]. unfold settled. rewrite R, Q, A. by split_and!.
  - intros [= <- <-]. cbn [control control_state set_field]. unfold reload_due in Hdue.
    apply orb_false_iff in Hdue as [_ Hf]. rewrite Hreq in Hf. apply bool_decide_eq_false, dec_stable in Hf.
    unfold settled. rewrite Hf, fmap_nil, (right_id_L [] (++)). by split_and!.
Qed.
End reload.

(** ** Lemmas: the turn and the server *)
Section server.
Context (system : history -> call -> answer) (number : Descriptor -> Z).
Context {D : Type} `{DtlsLaws D} (ctx : DecryptContext) (max_session_lifetime : Duration)
  (vpn_address : Ipv4Addr) (vpn_network : rstr) (interval : Duration).
Implicit Types v : Server D.

Abbreviation step := (step ctx max_session_lifetime vpn_address vpn_network interval).
Abbreviation reload_if_due := (reload_if_due vpn_address vpn_network interval).
Abbreviation control_turn := (control_turn system number max_session_lifetime vpn_address vpn_network interval).

(** What other threads may do: steps of the server that leave this thread's state alone. *)
Definition by_others v v' : Prop :=
  rtc step v v' /\ control v' = control v /\ control_state v' = control_state v.
Definition turn_fair (i : Turn D) : Prop := forall v, by_others v (turn_others1 i v) /\ by_others v (turn_others2 i v).

Lemma reload_if_due_step i v b v' : reload_if_due i v = (b, v') -> rtc step v v'.
Proof.
  unfold ControlRun.reload_if_due. destruct (take_reload (control v)) as [requested c] eqn:Ht.
  destruct (reload_due (turn_now i) requested (control_state v)) eqn:Hdue.
  - destruct (reload _ _ _ _ _ _ _ _ _ _ _ _ _) as [[[r c1] l1] w1] eqn:Hr. intros [= _ <-].
    apply rtc_once. pose proof (step_reload ctx max_session_lifetime vpn_address vpn_network interval
      v (turn_now i) (turn_file i) (turn_fresh i) (turn_receiving i) (turn_acked i) (turn_finished i)
      r c1 l1 w1) as Hs. rewrite Ht in Hs. by apply Hs.
  - intros [= _ <-]. unfold take_reload in Ht. injection Ht as <- <-.
    unfold reload_due in Hdue. apply orb_false_iff in Hdue as [_ Hf].
    destruct v as [l d c cs us w]. cbn in *. destruct c. cbn in *. subst. apply rtc_refl.
Qed.

Lemma sleep_after_poll life cs c (l : list (Session D)) t w h r h' :
  sleep system number life cs c l t w h = (Ok r, h') -> exists revents, r = after_poll revents c w.
Proof.
  unfold sleep. rewrite eff_bind_run. destruct (UdpRead.poll _ _ _ h) as [[revents|e] h1]; [|done].
  intros [= <- _]. by exists revents.
Qed.

Lemma sleep_no_panic life cs c (l : list (Session D)) t w h h' :
  poll_law system -> sleep system number life cs c l t w h <> (Ok None, h').
Proof.
  intros Hlaw. unfold sleep. rewrite eff_bind_run. destruct (UdpRead.poll _ _ _ h) as [[revents|e] h1] eqn:Hp; [|done].
  pose proof (poll_Ok _ _ _ _ _ _ Hlaw Hp) as Hall%Forall2_length. unfold poll_arguments in Hall. rewrite length_fmap in Hall.
  cbn. by rewrite after_poll_aligned.
Qed.

Lemma after_poll_settled revents c w c' w' :
  after_poll revents c w = Some (c', w') -> answered c' = answered c /\ (settled c -> settled c').
Proof.
  unfold after_poll. destruct (revents !! 1%nat); [|done]. cbn. destruct (retain_watchers _ _ _); [|done].
  cbn. by intros [= <- _].
Qed.

Lemma control_turn_steps i v h e v' h' :
  turn_fair i -> control_turn i v h = (e, v', h') -> rtc step v v'.
Proof.
  intros Hfair. unfold ControlRun.control_turn.
  destruct (maintain _ _ _ _ _ _) as [[[r c] l] w] eqn:Hm.
  set (v1 := v <| sessions := l |> <| control := c |> <| world := w |>).
  assert (rtc step v v1) as H1 by (by eapply rtc_once, step_maintain).
  destruct r as [u|e0]; [|by intros [= _ <- _]].
  assert (rtc step v (turn_others1 i v1)) as H2 by (etrans; [exact H1|apply Hfair]).
  destruct (reload_if_due i (turn_others1 i v1)) as [b v3] eqn:Hr. apply reload_if_due_step in Hr.
  assert (rtc step v v3) as H3 by (by etrans). destruct b; cbn [negb]; [|by intros [= _ <- _]].
  assert (rtc step v (turn_others2 i v3)) as H4 by (etrans; [exact H3|apply Hfair]).
  destruct (sleep _ _ _ _ _ _ _ _ h) as [[[[c5 w5]|]|e5] h5] eqn:Hs; intros [= _ <- _]; [|done..].
  etrans; [exact H4|]. apply sleep_after_poll in Hs as [revents Hs].
  by eapply rtc_once, step_sleep.
Qed.
End server.

(** What a turn makes of the commands it completes. *)
Definition turn_answers {D} `{DtlsSession D} a network interval (i : Turn D) (v : Server D) (e : TurnEnd)
    (v' : Server D) : Prop :=
  let commands := completed_commands (turn_accepts i) (control v) (world v) in
  let asked := reload_streams commands in
  match e with
  | GoesOn =>
      settled (control v') /\
      (exists direct, length direct = other_answers commands /\
         answered (control v') = answered (control v) ++ direct ++
           (write_all (reload_answer (is_ok (read_update (turn_file i) a network (turn_fresh i)) && turn_acked i))
              <$> asked)) /\
      control_state v' =
        if bool_decide (asked <> []) || (next_config_reload (control_state v) <=? turn_now i)
        then reloaded_state a network interval i (control_state v) else control_state v
  | Ends (Ok _) => turn_receiving i = false
  | Ends (Err _) => True
  | Panics => False
  end.

Lemma control_turn_answers {D} `{DtlsLaws D} system number ctx life a network interval (i : Turn D) v h e v' h' :
  poll_law system -> turn_fair ctx life a network interval i -> settled (control v) ->
  control_turn system number life a network interval i v h = (e, v', h') ->
  turn_answers a network interval i v e v'.
Proof.
  intros Hlaw Hfair [Hq0 Hr0]. unfold turn_answers. cbv zeta.
  unfold control_turn. destruct (maintain _ _ _ _ _ _) as [[[r c] l] w] eqn:Hm.
  set (v1 := v <| sessions := l |> <| control := c |> <| world := w |>).
  destruct r as [[]|e0]; [|by intros [= <- <- _]].
  apply maintain_commanded in Hm as [R Q (direct & A & L)]. rewrite Hr0 in R. rewrite Hq0 in Q. cbn in R, Q.
  destruct (Hfair v1) as [(_ & Hc2 & Hs2) _]. destruct (reload_if_due _ _ _ i (turn_others1 i v1)) as [b v3] eqn:Hr.
  apply reload_if_due_answers in Hr; [|by rewrite Hc2; cbn; rewrite Q, R]. rewrite Hc2, Hs2 in Hr.
  change (control v1) with c in Hr. change (control_state v1) with (control_state v) in Hr.
  destruct b; cbn [negb]; [|by intros [= <- <- _]]. destruct Hr as (Hset & Ha & Hcs).
  destruct (Hfair v3) as [_ (_ & Hc4 & Hs4)].
  destruct (sleep _ _ _ _ _ _ _ _ h) as [[[[c5 w5]|]|e5] h5] eqn:Hs; intros [= <- <- _]; [| |done].
  - apply sleep_after_poll in Hs as [revents Hs]. symmetry in Hs. apply after_poll_settled in Hs as [Ha5 Hset5].
    rewrite Hc4 in Ha5, Hset5. cbn [control control_state set_field]. split; [by apply Hset5|]. split.
    + exists direct. split; [done|]. rewrite Ha5, Ha, A, R. by rewrite <-(assoc_L (++)).
    + rewrite Hs4, Hcs, Q. unfold reload_due. by rewrite orb_comm.
  - by apply (sleep_no_panic system number) in Hs.
Qed.

(** ** Lemmas: the configuration in two threads *)

(** The copies of the configuration in the control thread and the decrypt thread are the
    same, but for the updates on their way. *)
Definition agreed {D} (v : Server D) : Prop :=
  match last (updates v) with
  | Some u => new_bindings u = current_bindings (control_state v) /\ new_logins u = current_logins (control_state v)
  | None => bindings (decrypt v) = current_bindings (control_state v) /\
            logins (decrypt v) = current_logins (control_state v)
  end.

(** The control thread's configuration names the session's certificate for its address. *)
Definition covered {D} (v : Server D) (s : Session D) : Prop :=
  exists fp, session_fingerprint s = Some fp /\ current_bindings (control_state v) !! address s = Some fp.

Section revocation.
Context {D : Type} `{DtlsLaws D} (ctx : DecryptContext) (max_session_lifetime : Duration)
  (vpn_address : Ipv4Addr) (vpn_network : rstr) (interval : Duration).
Implicit Types v : Server D.

Abbreviation step := (step ctx max_session_lifetime vpn_address vpn_network interval).

Lemma apply_reloads_last us (st : DecryptState D) w :
  match last us with
  | Some u => bindings (apply_reloads us st w).1 = new_bindings u /\ logins (apply_reloads us st w).1 = new_logins u
  | None => bindings (apply_reloads us st w).1 = bindings st /\ logins (apply_reloads us st w).1 = logins st
  end.
Proof.
  unfold apply_reloads. destruct us as [|u us _] using rev_ind; [done|]. rewrite last_snoc, foldl_snoc.
  by destruct (foldl _ _ us).
Qed.

Lemma reload_agreed file (fresh : io D) receiving acked finished requested v c0 r c l w :
  reload file vpn_address vpn_network fresh interval receiving acked finished requested
    (control_state v) c0 (sessions v) (world v) = (r, c, l, w) ->
  agreed v ->
  agreed (v <| sessions := l |> <| control := c |> <| control_state := from_option snd (control_state v) r |>
            <| updates ::= fun us => us ++ option_list (r ≫= fst) |> <| world := w |>).
Proof.
  unfold reload, agreed. destruct (read_update _ _ _ _) as [[[bs ls] d]|e].
  - destruct (revoke_sessions _ _ _ _ _) as [l1 w1]. destruct receiving; intros [= <- <- <- <-] Hv; cbn in *.
    + by rewrite last_snoc.
    + by rewrite (right_id_L [] (++)).
  - intros [= <- <- <- <-] Hv. cbn in *. by rewrite (right_id_L [] (++)).
Qed.

Lemma step_agreed v v' :
  (1 <= max_pending_handshakes ctx)%nat -> list_good ctx (sessions v) -> step v v' -> agreed v -> agreed v'.
Proof.
  intros Hmp Hg Hstep. destruct Hstep as [v w _|v e l w Hd|v l w Hd|v st w Hd|v fresh dg e st l w Hd|v p l w Hd
    |v p l w Hd|v K sendto k l p w k' Hd|v a t r c l w Hd|v t f fr rc ac fi r c l w _ Hd|v evs c w Hd]; try done.
  - pose proof (apply_reloads_last (updates v) (decrypt v) (world v)) as Hl. rewrite Hd in Hl.
    unfold agreed. cbn in *. destruct (last (updates v)) as [u|]; destruct Hl as [-> ->]; done.
  - destruct (handle_datagram_spec _ _ _ _ _ _ _ _ _ _ Hmp Hg Hd) as (_ & Hb & Hl).
    unfold agreed. cbn. by rewrite Hb, Hl.
  - by eapply reload_agreed.
Qed.

(** Every step leaves the configuration alone, except for the reload that revokes what it
    does not cover. *)
Lemma step_covers v v' s :
  (1 <= max_pending_handshakes ctx)%nat -> list_good ctx (sessions v) -> step v v' ->
  s ∈ sessions v' -> established s = true ->
  covered v' s \/
  (control_state v' = control_state v \/ current_bindings (control_state v') = current_bindings (control_state v)) /\
  (kept (sessions v) s \/ exists fp, session_fingerprint s = Some fp /\ bindings (decrypt v) !! address s = Some fp).
Proof.
  intros Hmp Hg Hstep Hs He.
  assert (kept (sessions v) s \/ exists fp, session_fingerprint s = Some fp /\ bindings (decrypt v) !! address s = Some fp) as Hk.
  { destruct (step_spec _ _ _ _ _ _ _ Hmp Hg Hstep) as [_ Hk].
    destruct (Hk s Hs He) as [|(dg & t & d0 & d & o & o' & fp & _ & _ & [Hc _] & Hf & _)]; [by left|right; by exists fp]. }
  destruct Hstep as [v w _|v e l w Hd|v l w Hd|v st w Hd|v fresh dg e st l w Hd|v p l w Hd
    |v p l w Hd|v K sendto k l p w k' Hd|v a t r c l w Hd|v t f fr rc ac fi r c l w _ Hd|v evs c w Hd];
    try (right; split; [by left|exact Hk]).
  revert Hd. unfold reload. destruct (read_update _ _ _ _) as [[[bs ls] d]|e]; [|intros [= <- <- <- <-]; right; by split; [right|]].
  pose proof (revoke_sessions_elem (current_logins (control_state v)) ls bs (sessions v) (world v) s) as Hrev.
  destruct (revoke_sessions _ _ _ _ _) as [l1 w1]. destruct rc; intros [= <- <- <- <-].
  - left. by apply Hrev in Hs as (_ & _ & Hf & _).
  - right. split; [by left|exact Hk].
Qed.
End revocation.

(** ** Properties *)

(** C16: Every RELOAD is answered in its turn. A turn of the control thread that began with no
    reload under way is a run of the server's steps, and when it goes on it ends with none:
    each completed RELOAD command has received one line, [ok] exactly if the configuration
    file was valid and the decrypt thread acknowledged it, after the answers to the other
    commands, of which each but WATCH has received one; the configuration was read exactly
    if a RELOAD or the interval asked for it, and the next time is an interval after that.
    The thread never panics on an index; it ends without an error only when the decrypt
    thread is gone. *)
Theorem reloads_answered {D} `{DtlsLaws D} system number ctx life a network interval (i : Turn D) v h e v' h' :
  poll_law system -> turn_fair ctx life a network interval i -> settled (control v) ->
  control_turn system number life a network interval i v h = (e, v', h') ->
  rtc (step ctx life a network interval) v v' /\ turn_answers a network interval i v e v'.
Proof.
  intros Hlaw Hfair Hset Hturn. split; [by eapply control_turn_steps|by eapply control_turn_answers].
Qed.

(** A RELOAD that arrives in one piece, on a stream that takes every byte. *)
Definition reload_command_stream : Stream :=
  {| read_answers := [Ok (as_bytes (str "RELOAD" ++ [10%N]))]; write_answers := [Ok 100%nat]; output := [] |}.
Definition example_turn (t : Instant) (file : rstr) : Turn PlainDtls :=
  {| turn_running := true; turn_now := t; turn_accepts := [Ok reload_command_stream];
     turn_file := Ok file; turn_fresh := Ok (example_acceptor true); turn_receiving := true; turn_acked := true;
     turn_finished := from_secs 1001; turn_others1 := id; turn_others2 := id |}.

Lemma reloads_answered_witness :
  exists v' h', control_turn demo_poll demo_number (from_secs 3600) (ipv4_new 10 8 1 1) (str "10.8.1.0/24")
                  (from_secs 30) (example_turn (from_secs 1000) reload_file) example_server [] = (GoesOn, v', h') /\
    settled (control v') /\ output <$> answered (control v') = [reload_answer true] /\
    next_config_reload (control_state v') = from_secs 1031.
Proof.
  destruct (control_turn demo_poll demo_number (from_secs 3600) (ipv4_new 10 8 1 1) (str "10.8.1.0/24")
              (from_secs 30) (example_turn (from_secs 1000) reload_file) example_server []) as [[e v'] h'] eqn:E.
  assert (e = GoesOn) as ->.
  { assert (e = (control_turn demo_poll demo_number (from_secs 3600) (ipv4_new 10 8 1 1) (str "10.8.1.0/24")
       (from_secs 30) (example_turn (from_secs 1000) reload_file) example_server []).1.1) as -> by (by rewrite E).
    vm_compute. reflexivity. }
  assert (turn_fair example_ctx (from_secs 3600) (ipv4_new 10 8 1 1) (str "10.8.1.0/24") (from_secs 30)
            (example_turn (from_secs 1000) reload_file)) as Hfair.
  { intros v. by split; (split; [apply rtc_refl|]). }
  destruct (reloads_answered _ _ _ _ _ _ _ _ _ _ _ _ _ demo_poll_law Hfair (conj eq_refl eq_refl : settled (control example_server)) E)
    as (_ & Hset & (direct & Hd & Ha) & Hcs).
  exists v', h'. split; [done|]. split; [exact Hset|]. split.
  - rewrite Ha. destruct direct; [|exfalso; vm_compute in Hd; discriminate]. vm_compute. reflexivity.
  - rewrite Hcs. vm_compute. reflexivity.
Defined.

(** No RELOAD is ever carried over into another turn. *)
Theorem control_run_settled {D} `{DtlsLaws D} system number ctx life a network interval turns :
  poll_law system -> Forall (turn_fair ctx life a network interval) turns ->
  forall v h e v' h',
  settled (control v) ->
  control_run system number life a network interval turns v h = (e, v', h') ->
  rtc (step ctx life a network interval) v v' /\ e <> Panics /\ (e = GoesOn -> settled (control v')).
Proof.
  intros Hlaw Hfair. induction Hfair as [|i turns Hi _ IH]; intros v h e v' h' Hset; cbn [control_run].
  { intros [= <- <- _]. by split_and!. }
  destruct (turn_running i); [|intros [= <- <- _]; by split_and!].
  destruct (control_turn _ _ _ _ _ _ i v h) as [[e1 v1] h1] eqn:Ht. pose proof Ht as Hsteps.
  apply (control_turn_steps _ _ ctx) in Hsteps; [|done].
  apply (control_turn_answers _ _ ctx) in Ht; [|done..]. unfold turn_answers in Ht.
  destruct e1 as [|r|]; [|by intros [= <- <- _]|done]. destruct Ht as [Hset1 _]. intros Hrun.
  destruct (IH _ _ _ _ _ Hset1 Hrun) as (? & ? & ?). split; [by etrans|done].
Qed.

(** C14: A revoked certificate keeps no session, but for one window. In every reachable state in
    which the control thread's configuration covers every established session, each next
    step of any thread keeps it so: a reload removes the sessions that its new configuration
    does not cover, and handshakes are checked against the decrypt thread's copy, which is
    the same configuration. The exception is a handshake that completes while a reload is on its way
    to the decrypt thread, with a certificate of that thread's older configuration. *)
Theorem revocation_holds {D} `{DtlsLaws D} ctx life a network interval (v0 v v' : Server D) s :
  (1 <= max_clients ctx)%nat -> (1 <= max_pending_handshakes ctx)%nat ->
  initial v0 -> agreed v0 -> rtc (step ctx life a network interval) v0 v ->
  (forall s0, s0 ∈ sessions v -> established s0 = true -> covered v s0) ->
  step ctx life a network interval v v' -> s ∈ sessions v' -> established s = true ->
  covered v' s \/
  updates v <> [] /\ exists fp, session_fingerprint s = Some fp /\ bindings (decrypt v) !! address s = Some fp.
Proof.
  intros Hmc Hmp Hinit Hag Hrun Hcov Hstep Hs He.
  assert (forall v1, rtc (step ctx life a network interval) v0 v1 -> list_good ctx (sessions v1)) as Hgood.
  { intros v1 Hrun1. eapply reachable_good; [done..|]. by exists v0. }
  assert (agreed v) as Hv.
  { clear Hcov Hstep Hs He Hinit. revert Hag. induction Hrun as [|v1 v2 v3 Hstep _ IH]; intros Hag; [done|]. apply IH.
    - intros v4 Hv4. apply Hgood. by eapply rtc_l.
    - eapply step_agreed; [done|apply Hgood, rtc_refl|exact Hstep|exact Hag]. }
  destruct (step_covers _ _ _ _ _ _ _ s Hmp (Hgood v Hrun) Hstep Hs He) as [|[Hcs [(s0 & Hs0 & He0 & Hid)|(fp & Hf & Hb)]]]; [by left| |].
  - left. injection Hid as _ Ha Hfp _. destruct (Hcov s0 Hs0 He0) as (fp & Hf & Hb). exists fp.
    rewrite Hfp, Ha. split; [done|]. by destruct Hcs as [->| ->].
  - destruct (last (updates v)) as [u|] eqn:Hl.
    + right. split; [by intros Hnil; rewrite Hnil in Hl|by exists fp].
    + left. exists fp. split; [done|]. unfold agreed in Hv. rewrite Hl in Hv. destruct Hv as [Hv _].
      rewrite Hv in Hb. by destruct Hcs as [->| ->].
Qed.

Lemma revocation_holds_witness :
  exists s, s ∈ sessions example_connected /\ covered example_connected s.
Proof.
  destruct (sessions example_connected) as [|s l] eqn:Hs; [by vm_compute in Hs|].
  assert (s ∈ sessions example_connected) as Hin by (rewrite Hs; left).
  assert (established s = true) as He.
  { assert (established <$> head (sessions example_connected) = Some true) as Hh by (vm_compute; reflexivity).
    rewrite Hs in Hh. cbn in Hh. by injection Hh. }
  exists s. split; [left|].
  destruct (revocation_holds example_ctx (from_secs 3600) (ipv4_new 10 8 1 1) (str "10.8.1.0/24") (from_secs 30)
    example_server example_server example_connected s) as [Hc|[Hu _]]; [cbn; lia|cbn; lia|done|by split|apply rtc_refl| | |exact Hin|exact He| |].
  - intros s0 Hs0 _. destruct (not_elem_of_nil s0 Hs0).
  - apply receive_step.
  - exact Hc.
  - by destruct Hu.
Defined.

(** A configuration that now demands a login for the client's address. *)
Definition login_file : rstr :=
  str "[client]
10.8.1.2 = abababababababababababababababababababababababababababababababab user secret
".

(** The control thread reloads the file; [t] is the start of its turn. *)
Definition reloaded (t : Instant) (v : Server PlainDtls) : Server PlainDtls :=
  (reload_if_due (ipv4_new 10 8 1 1) (str "10.8.1.0/24") (from_secs 30)
     (example_turn t login_file) v).2.
(** The decrypt thread takes the updates. *)
Definition updated (v : Server PlainDtls) : Server PlainDtls :=
  let '(st, w) := apply_reloads (updates v) (decrypt v) (world v) in
  v <| decrypt := st |> <| updates := [] |> <| world := w |>.

Definition unlogged : Server PlainDtls :=
  updated (receive (example_datagram [1]) (reloaded (from_secs 1030) example_server)).

Lemma unlogged_reachable : example_reachable unlogged.
Proof.
  exists example_server. split; [done|].
  transitivity (reloaded (from_secs 1030) example_server).
  { unfold reloaded. destruct (reload_if_due _ _ _ _ _) as [b v] eqn:Hr. by eapply reload_if_due_step. }
  eapply rtc_l; [apply receive_step|]. apply rtc_once. unfold unlogged, updated.
  destruct (apply_reloads _ _ _) as [st w] eqn:Ha. by apply step_reloads.
Qed.

(** The window is real, and for logins it does not close: a client whose handshake completes
    while the reload is on its way needs no login yet; when the decrypt thread has the new
    configuration, which demands one, the client stays authenticated, and a later reload
    keeps it too because the login has not changed any more. *)
Theorem login_demand_missed :
  example_reachable unlogged /\ updates unlogged = [] /\
  (exists s, s ∈ sessions unlogged /\ authenticated s = true /\ login_attempted s = false /\
     is_Some (logins (decrypt unlogged) !! address s)) /\
  (fun s => (address s, authenticated s)) <$> sessions (reloaded (from_secs 1061) unlogged)
    = [(ipv4_new 10 8 1 2, true)].
Proof.
  split; [exact unlogged_reachable|]. split; [vm_compute; reflexivity|]. split; [|vm_compute; reflexivity].
  destruct (sessions unlogged) as [|s l] eqn:Hs; [by vm_compute in Hs|].
  assert ((fun s => (authenticated s, login_attempted s, logins (decrypt unlogged) !! address s)) <$> head (sessions unlogged)
    = Some (true, false, Some (str "user", str "secret"))) as Hh by (vm_compute; reflexivity).
  rewrite Hs in Hh. clear Hs. revert Hh. generalize (logins (decrypt unlogged)) as demanded. intros demanded [= Ha Hl Hd].
  exists s. split_and!; [left|done|done|]. rewrite Hd. by eexists.
Qed.
