(* ===== verification/ServerTunnel.v ===== *)
(** * Packets through the server

    Follows the tunnelled packets through the server of [Server.v], in every interleaving of its
    threads, by the history that [World] keeps: what the decrypt worker gives to the TUN device
    against what the sessions' DTLS objects decrypted, and what is written into the sessions
    against what the encrypt worker took from the TUN device. *)

From S2P Require Import Prelude Text Net Config RateLimit Queue DtlsApi Session Encrypt UdpWrite.
From S2P Require Import Decrypt DecryptOk Control ControlPoll Server.

Local Open Scope Z_scope.

(** ** What is on its way to the clients *)

(** A tunnelled packet, as opposed to a control frame. *)
Definition tunnelled (packet : Packet) : bool := bool_decide (is_Some (ipv4_destination packet)).

Section carried.
Context {D : Type}.
Implicit Types (s : Session D) (l : list (Session D)) (w : World).

(** The tunnelled packets that wait in a session's queue, with the session's address. *)
Definition waiting s : list (Ipv4Addr * Packet) :=
  pair (address s) <$> retain tunnelled (items (state (raw_tx_queue s))).*1.

Definition queued l : list (Ipv4Addr * Packet) := l ≫= waiting.

(** Those, after the tunnelled packets that were written into a session. *)
Definition carried l w : list (Ipv4Addr * Packet) :=
  retain (fun e => tunnelled e.2) (plain_sent (past w)) ++ queued l.

Lemma queued_app l k : queued (l ++ k) = queued l ++ queued k.
Proof. apply bind_app. Qed.

Lemma queued_submseteq l k : l ⊆+ k -> queued l ⊆+ queued k.
Proof.
  induction 1 as [|s l k _ IH|s1 s2 l|s l k _ IH|l1 l2 l3 _ IH1 _ IH2]; cbn; [done|..].
  - by apply submseteq_app.
  - rewrite !(assoc_L (++)). apply submseteq_app; [|done].
    by rewrite (comm (++) (waiting s2) (waiting s1)).
  - by apply submseteq_inserts_l.
  - by etrans.
Qed.

Lemma queued_Forall2 l k : Forall2 (fun s s' => waiting s' ⊆+ waiting s) l k -> queued k ⊆+ queued l.
Proof. induction 1; cbn; [done|]. by apply submseteq_app. Qed.

Lemma queued_insert l i s s' : l !! i = Some s -> waiting s' ⊆+ waiting s -> queued (<[i := s']> l) ⊆+ queued l.
Proof.
  intros Hi Hs. rewrite <-(take_drop_middle l i s Hi) at 2.
  rewrite insert_take_drop by (by eapply lookup_lt_Some). rewrite !queued_app. cbn.
  apply submseteq_app; [done|]. by apply submseteq_app.
Qed.

Lemma waiting_same s s' :
  address s' = address s -> raw_tx_queue s' = raw_tx_queue s -> waiting s' = waiting s.
Proof. unfold waiting. by intros -> ->. Qed.

Lemma waiting_nil s : items (state (raw_tx_queue s)) = [] -> waiting s = [].
Proof. unfold waiting. by intros ->. Qed.

(** A push adds a tunnelled packet, and nothing for a control frame; it may lose the oldest. *)
Lemma push_items {T} (q : Queue T) x : items (state (push x q).2) `sublist_of` items (state q) ++ [x].
Proof.
  unfold push. destruct (is_closed q); [by apply sublist_inserts_r|].
  destruct (decide _), (items (state q)) as [|y k] eqn:Hi; cbn; rewrite ?Hi; try done. by apply sublist_cons.
Qed.

Lemma waiting_queue s packet w :
  waiting (queue_session_plain s packet w) `sublist_of`
    waiting s ++ (if tunnelled packet then [(address s, packet)] else []).
Proof.
  unfold waiting, queue_session_plain. cbn.
  pose proof (push_items (raw_tx_queue s) (packet, now w)) as Hp.
  apply (fmap_sublist fst), (retain_sublist_mono tunnelled), (fmap_sublist (pair (address s))) in Hp.
  etrans; [exact Hp|]. rewrite fmap_app, retain_app, fmap_app. apply sublist_app; [done|].
  change ([(packet, now w)].*1) with [packet]. rewrite retain_cons. by destruct (tunnelled packet).
Qed.

(** Control frames are no packets. *)
Lemma control_not_tunnelled packet :
  packet ∈ [AUTH_REQUIRED; AUTH_OK; AUTH_FAILED; KEEPALIVE_PACKET] -> tunnelled packet = false.
Proof. rewrite !elem_of_cons. by intros [->|[->|[->|[->|[]%not_elem_of_nil]]]]. Qed.

Lemma waiting_control s packet w :
  packet ∈ [AUTH_REQUIRED; AUTH_OK; AUTH_FAILED; KEEPALIVE_PACKET] ->
  waiting (queue_session_plain s packet w) ⊆+ waiting s.
Proof.
  intros Hc. apply sublist_submseteq. etrans; [apply waiting_queue|].
  by rewrite control_not_tunnelled, (right_id_L [] (++)).
Qed.

(** ** Steps that carry nothing on *)

(** Nothing passes, and nothing new waits. *)
Definition silent l w l' w' : Prop := past w' = past w /\ queued l' ⊆+ queued l.

Lemma silent_refl l w : silent l w l w.
Proof. done. Qed.

Lemma silent_trans l1 w1 l2 w2 l3 w3 : silent l1 w1 l2 w2 -> silent l2 w2 l3 w3 -> silent l1 w1 l3 w3.
Proof. intros [E1 S1] [E2 S2]. split; [congruence|by etrans]. Qed.

Lemma silent_submseteq l w l' w' : past w' = past w -> l' ⊆+ l -> silent l w l' w'.
Proof. intros E S. split; [done|by apply queued_submseteq]. Qed.

Lemma session_drop_past s w : past (session_drop s w).2 = past w.
Proof. unfold session_drop. cbn. by destruct (authenticated s). Qed.

Lemma remove_session_silent i l w : silent l w (remove_session i l w).1 (remove_session i l w).2.
Proof.
  apply silent_submseteq; [|apply swap_remove_submseteq]. unfold remove_session. cbn.
  destruct (l !! i); [apply session_drop_past|done].
Qed.

Lemma remove_inserted_silent i s l w :
  silent l w (remove_session i (<[i := s]> l) w).1 (remove_session i (<[i := s]> l) w).2.
Proof.
  destruct (decide (i < length l)%nat) as [Hi|Hi].
  - apply silent_submseteq.
    + unfold remove_session. cbn. destruct (_ !! i); [apply session_drop_past|done].
    + cbn. rewrite swap_remove_insert by done. apply swap_remove_submseteq.
  - rewrite list_insert_ge by lia. apply remove_session_silent.
Qed.

Lemma retain_mut_silent {St} (f : St -> Session D -> St * Session D * bool) st l w :
  (forall st s st' s', f st s = (st', s', true) -> waiting s' ⊆+ waiting s) ->
  silent l w (retain_mut f st l w).1 (retain_mut f st l w).2.
Proof.
  intros Hf. revert st w. induction l as [|s l IH]; intros st w; [done|]. cbn [retain_mut].
  destruct (f st s) as [[st1 s1] []] eqn:E.
  - destruct (IH st1 w) as [Hp Hq]. destruct (retain_mut f st1 l w). cbn in *. split; [done|]. cbn.
    apply submseteq_app; [by eapply Hf|done].
  - destruct (IH st1 (session_drop s1 w).2) as [Hp Hq]. split.
    + by rewrite Hp, session_drop_past.
    + cbn. by apply submseteq_inserts_l.
Qed.

Lemma silent_insert l w i s s' w' :
  l !! i = Some s -> waiting s' ⊆+ waiting s -> past w' = past w -> silent l w (<[i := s']> l) w'.
Proof. intros Hi Hs Hp. split; [done|by eapply queued_insert]. Qed.
End carried.

(** *** The decrypt thread: datagrams, deduplication, reloads *)
Section silent_decrypt.
Context {D : Type} `{DtlsLaws D} (ctx : DecryptContext).
Implicit Types (s : Session D) (l : list (Session D)) (w : World) (st : DecryptState D).

(** An operation of a session's DTLS object leaves its plaintext queue alone. *)
Lemma with_dtls_waiting {A} (op : dtls_op D A) s w a s' w' :
  sends_only op -> with_dtls op s w = (a, s', w') ->
  address s' = address s /\ raw_tx_queue s' = raw_tx_queue s /\ established s' = established s /\
  waiting s' = waiting s /\ past w' = past w.
Proof.
  intros Hop Hd. destruct (with_dtls_frame _ _ _ _ _ _ Hd Hop) as (d & q & g & -> & _ & -> & _). done.
Qed.

Lemma dedupe_silent l w : silent l w (dedupe l w).1 (dedupe l w).2.
Proof.
  unfold dedupe.
  pose proof (retain_mut_silent (D := D) replaced ∅ (reverse l) w) as Hs.
  destruct (retain_mut replaced ∅ (reverse l) w) as [l1 w1]. cbn in *.
  destruct Hs as [Hp Hq]; [by intros ??? s' ->%replaced_keep|]. split; [done|].
  etrans; [apply queued_submseteq; by rewrite reverse_Permutation|].
  etrans; [exact Hq|]. apply queued_submseteq. by rewrite reverse_Permutation.
Qed.

Lemma apply_reloads_past (updates : list (ReloadUpdate D)) st w : past (apply_reloads updates st w).2 = past w.
Proof.
  unfold apply_reloads. generalize (st <| handshake_limiter ::= purge (now w) |>) as st0.
  revert w. induction updates as [|u us IH]; intros w st0; [done|]. cbn [foldl].
  cbn [apply_reload]. etrans; [apply IH|]. by destruct (wants_ack u).
Qed.

Lemma create_session_silent fresh dg ip st l w r st' l' w' :
  create_session ctx fresh dg ip st l w = (r, st', l', w') -> silent l w l' w'.
Proof.
  unfold create_session. case_decide; [by intros [= <- <- <- <-]|]. case_decide; [by intros [= <- <- <- <-]|].
  destruct (if decide _ then _ else _) as [l1 w1] eqn:Hev.
  assert (silent l w l1 w1) as Hs.
  { case_decide; [|by injection Hev as <- <-]. destruct (oldest_session _ None 0 l) as [[i s]|]; [|by injection Hev as <- <-].
    pose proof (remove_session_silent i l w) as Hr. rewrite Hev in Hr. done. }
  destruct fresh as [replacement|]; [|by intros [= <- <- <- <-]].
  destruct (queue_new SESSION_TX_QUEUE_CAPACITY) as [enc|]; [|by intros [= <- <- <- <-]].
  destruct (@queue_new (Packet * Instant) _) as [raw|] eqn:Hraw; [|by intros [= <- <- <- <-]].
  destruct (use_queued_send _) as [[u|] d]; intros [= <- <- <- <-]; [|done].
  eapply silent_trans; [exact Hs|]. split; [done|]. rewrite queued_app. cbn.
  rewrite (waiting_nil (new_session d dg enc raw w1)) by (apply queue_new_ok in Hraw; apply Hraw).
  by rewrite !(right_id_L [] (++)).
Qed.

Lemma accept_new_peer_silent fresh dg st l w r st' l' w' :
  accept_new_peer ctx fresh dg st l w = (r, st', l', w') -> silent l w l' w'.
Proof.
  unfold accept_new_peer. destruct (peer_ipv4 _) as [ip|]; [|by intros [= <- <- <- <-]].
  destruct (check_ban _ _ _) as [[] lim]; [by intros [= <- <- <- <-]|].
  assert (forall st1, replace_acceptor fresh st1 l w = (r, st', l', w') -> silent l w l' w') as Hrep.
  { intros st1. unfold replace_acceptor. destruct fresh; by intros [= <- <- <- <-]. }
  destruct (set_incoming_peer _ _ _ _) as [[u|] acc]; [|apply Hrep].
  destruct (accept_stateless _) as [o acc']. destruct (panic_gate _ o) as [[]|]; [|by intros [= <- <- <- <-]|apply Hrep].
  destruct (record_attempt _ _ _) as [[] lim']; [apply create_session_silent| |by intros [= <- <- <- <-]].
  unfold banned_now. pose proof (retain_mut_silent (D := D) (fun (_ : unit) s => (tt, s, established s || negb (from_ip ip s))) tt l w) as Hs.
  destruct (retain_mut _ tt l w) as [l1 w1]. intros [= <- <- <- <-]. apply Hs. by intros ??? s' [= _ <-].
Qed.

Lemma remove_duplicates_silent fuel i a p l w :
  silent l w (remove_duplicates fuel i a p l w).1 (remove_duplicates fuel i a p l w).2.
Proof.
  revert i l w. induction fuel as [|fuel IH]; intros i l w; cbn [remove_duplicates]; [done|].
  destruct (l !! i) as [s|]; [|done]. destruct (same_client a p s); [|apply IH].
  eapply silent_trans; [apply remove_inserted_silent|apply IH].
Qed.

Lemma admit_session_silent n i s0 s l w :
  l !! i = Some s0 -> waiting s ⊆+ waiting s0 ->
  silent l w (admit_session ctx n i s l w).1 (admit_session ctx n i s l w).2.
Proof.
  intros Hi Hs. unfold admit_session. destruct (_ && _).
  { rewrite list_insert_insert_eq. eapply silent_trans; [|apply remove_inserted_silent]. done. }
  set (w1 := notify_tun_queue _).
  assert (silent l w (<[i := s]> l) w1) as H1.
  { eapply silent_insert; [done|done|]. unfold w1. by destruct (authenticated s). }
  destruct (authenticated s); [|exact H1]. eapply silent_trans; [exact H1|]. apply remove_duplicates_silent.
Qed.

Lemma handshake_step_silent st n i s0 s l w :
  l !! i = Some s0 -> items (state (raw_tx_queue s)) = [] ->
  silent l w (handshake_step ctx st n i s l w).1 (handshake_step ctx st n i s l w).2.
Proof.
  intros Hi Hn. unfold handshake_step. destruct (with_dtls handshake s w) as [[r s1] w1] eqn:Hd.
  destruct (with_dtls_waiting _ _ _ _ _ _ handshake_sends Hd) as (_ & Hr1 & _ & _ & Hp1).
  assert (forall l' w', silent l w1 l' w' -> silent l w l' w') as Hw.
  { intros l' w' Hs. eapply silent_trans; [|exact Hs]. done. }
  destruct (panic_gate _ r) as [[]|]; [| |apply Hw, remove_inserted_silent].
  - destruct (authorise ctx (bindings st) s1) as [[[a fp]|] s2] eqn:Ha; [|apply Hw, remove_inserted_silent].
    apply authorise_dtls in Ha as [d ->]. apply Hw. apply (admit_session_silent _ _ s0); [done|].
    unfold establish. etrans; [apply waiting_control; case_match; set_solver|].
    rewrite waiting_nil; [apply submseteq_nil_l|]. cbn. by rewrite Hr1.
  - eapply silent_insert; [done| |done]. rewrite waiting_nil; [apply submseteq_nil_l|]. cbn. by rewrite Hr1.
Qed.

Lemma inject_incoming_waiting incoming s w b s' w' :
  inject_incoming incoming s w = (b, s', w') ->
  raw_tx_queue s' = raw_tx_queue s /\ address s' = address s /\ established s' = established s /\ past w' = past w.
Proof.
  unfold inject_incoming. case_bool_decide; cbn [negb]; [|case_decide; by intros [= <- <- <-]].
  destruct (with_dtls (inject incoming) s w) as [[r s1] w1] eqn:Hd.
  destruct (with_dtls_waiting _ _ _ _ _ _ (inject_sends incoming) Hd) as (? & ? & ? & _ & ?).
  destruct r as [[]|]; by intros [= <- <- <-].
Qed.

Lemma process_datagram_silent is_new i dg st l w :
  Forall (session_ok ctx) l ->
  silent l w (process_datagram ctx is_new i dg st l w).1 (process_datagram ctx is_new i dg st l w).2.
Proof.
  intros Hok. unfold process_datagram. destruct (l !! i) as [s|] eqn:Hi; [|done].
  destruct (if is_new then _ else _) as [[go_on s1] w1] eqn:Hin.
  assert (raw_tx_queue s1 = raw_tx_queue s /\ address s1 = address s /\ established s1 = established s /\ past w1 = past w)
    as (Hr & Ha & He & Hp).
  { destruct is_new; [by injection Hin as <- <- <-|by eapply inject_incoming_waiting]. }
  destruct (negb go_on || established s1) eqn:Hstop.
  - eapply silent_insert; [done|by rewrite (waiting_same s s1)|done].
  - apply orb_false_iff in Hstop as [_ He1]. eapply silent_trans; [|eapply handshake_step_silent; [exact Hi|]]; [done|].
    rewrite Hr. eapply Forall_lookup_1 in Hok; [|exact Hi]. apply (ok_fresh _ _ Hok). congruence.
Qed.

Lemma handle_datagram_silent fresh dg st l w e st' l' w' :
  (1 <= max_pending_handshakes ctx)%nat -> list_good ctx l ->
  handle_datagram ctx fresh dg st l w = (e, st', l', w') -> silent l w l' w'.
Proof.
  intros Hctx Hg. unfold handle_datagram. destruct (position _ l) as [i|] eqn:Hpos.
  - pose proof (process_datagram_silent false i dg st l w) as Hs.
    destruct (process_datagram _ _ _ _ _ _ _) as [l1 w1]. intros [= <- <- <- <-]. apply Hs, Hg.
  - apply position_None in Hpos.
    assert (Forall (fun s => peer s <> dg_peer dg) l) as Hnew.
    { eapply Forall_impl; [exact Hpos|]. intros s Hs. by apply bool_decide_eq_false in Hs. }
    destruct (accept_new_peer ctx fresh dg st l w) as [[[r st1] l1] w1] eqn:Ha.
    pose proof (accept_new_peer_silent _ _ _ _ _ _ _ _ _ Ha) as Hs.
    destruct (accept_new_peer_spec ctx _ _ _ _ _ _ _ _ _ Hctx Hnew Hg Ha) as [Hg1 _ _ _].
    destruct r as [|error|i]; [by intros [= <- <- <- <-]..|].
    pose proof (process_datagram_silent true i dg st1 l1 w1) as Hs2.
    destruct (process_datagram _ _ _ _ _ _ _) as [l2 w2]. intros [= <- <- <- <-].
    eapply silent_trans; [exact Hs|]. by apply Hs2, Hg1.
Qed.
End silent_decrypt.

(** *** The UDP writer and the control thread *)
Section silent_control.
Context {D : Type} `{DtlsLaws D}.
Implicit Types (s : Session D) (l : list (Session D)) (w : World).

Lemma write_sessions_waiting {K} (sendto : list Z -> Z -> Packet -> K -> result Z Z * K) i l p w k l' p' k' :
  write_sessions sendto i l p w k = (l', p', k') -> queued l' = queued l.
Proof.
  revert i p k l' p' k'. induction l as [|s l IH]; intros i p k l' p' k'; cbn [write_sessions].
  { by intros [= <- <- <-]. }
  destruct (write_session sendto i s p w k) as [[s1 p1] k1] eqn:Hs.
  destruct (write_sessions sendto (S i) l p1 w k1) as [[l2 p2] k2] eqn:Hl. intros [= <- <- <-].
  unfold queued. cbn. f_equal; [|by eapply IH]. apply waiting_same; unfold write_session in Hs;
    destruct (drain_encrypted_queue _ _ _ _) as [[[] q] k3]; by injection Hs as <- <- <-.
Qed.

Lemma remove_all_silent idx l w : silent l w (remove_all idx l w).1 (remove_all idx l w).2.
Proof.
  induction idx as [|i idx IH]; [done|]. cbn [remove_all foldr].
  change (foldr _ (l, w) idx) with (remove_all idx l w). destruct (remove_all idx l w) as [l1 w1].
  eapply silent_trans; [exact IH|apply remove_session_silent].
Qed.

Lemma udp_write_silent {K} (sendto : list Z -> Z -> Packet -> K -> result Z Z * K) l w k l' p w' k' :
  udp_write_pass sendto l w k = (l', p, w', k') -> silent l w l' w'.
Proof.
  unfold udp_write_pass. destruct (write_sessions _ _ _ _ _ _) as [[l1 p1] k1] eqn:Hw.
  pose proof (remove_all_silent (remove p1) l1 w) as Hs. destruct (remove_all _ l1 w) as [l2 w2].
  intros [= <- <- <- <-]. eapply silent_trans; [|exact Hs]. split; [done|].
  by rewrite (write_sessions_waiting _ _ _ _ _ _ _ _ _ Hw).
Qed.

Lemma retransmit_silent fuel t i l w :
  silent l w (retransmit_loop fuel t i l w).1 (retransmit_loop fuel t i l w).2.
Proof.
  revert i l w. induction fuel as [|fuel IH]; intros i l w; cbn [retransmit_loop]; [done|].
  destruct (l !! i) as [s|] eqn:Hi; [|done]. destruct (deadline_passed t s); [|apply IH].
  destruct (with_dtls handle_timeout s w) as [[r s1] w1] eqn:Hd.
  destruct (with_dtls_waiting _ _ _ _ _ _ handle_timeout_sends Hd) as (_ & _ & _ & Hw & Hp).
  destruct (panic_gate _ _).
  - eapply silent_trans; [|apply IH]. eapply silent_insert; [done| |done]. by rewrite <-Hw.
  - pose proof (remove_inserted_silent i (s1 <| disconnect_reason := str "handshake_timeout_error" |>) l w1) as Hr.
    destruct (remove_session _ _ w1) as [l2 w2]. eapply silent_trans; [|apply IH].
    eapply silent_trans; [|exact Hr]. done.
Qed.

Lemma process_command_silent p c l w :
  let '(_, l', w') := process_command p (c, l, w) in silent l w l' w'.
Proof.
  unfold process_command. destruct (_ <=? _); [done|]. destruct (read_command _ _) as [[] p1]; [|done].
  unfold handle_command. case_bool_decide; [by destruct (flush _)|]. case_bool_decide; [done|].
  case_bool_decide; [done|]. destruct (strip_prefix _ _) as [text|]; [|done].
  destruct (parse_ipv4 text) as [a|]; [|done].
  pose proof (retain_mut_silent (D := D) (disconnected a) tt l w) as Hs.
  destruct (retain_mut _ tt l w) as [l1 w1]. apply Hs. intros ??? s'. unfold disconnected.
  destruct (_ && _); by intros [= _ <-].
Qed.

Lemma process_silent accepts c l w r c' l' w' :
  process accepts c l w = (r, c', l', w') -> silent l w l' w'.
Proof.
  unfold process. destruct (accept_commands accepts c w) as [[u|e] c1]; [|by intros [= <- <- <- <-]].
  destruct (foldl _ _ _) as [[c2 l2] w2] eqn:Hf. intros [= <- <- <- <-].
  revert Hf. generalize (c1 <| pending_commands := [] |>) as c0.
  generalize (pending_commands c1) as ps. intros ps. revert l w.
  induction ps as [|p ps IH]; intros l w c0; cbn [foldl]; [by intros [= <- <- <-]|].
  pose proof (process_command_silent p c0 l w) as Hp.
  destruct (process_command p (c0, l, w)) as [[c3 l3] w3]. intros Hf.
  eapply silent_trans; [exact Hp|by eapply IH].
Qed.

Lemma maintain_silent accepts life t c l w r c' l' w' :
  maintain accepts life t c l w = (r, c', l', w') -> silent l w l' w'.
Proof.
  unfold maintain. destruct (process accepts c l w) as [[[[u|e] c1] l1] w1] eqn:Hp; apply process_silent in Hp.
  2:{ by intros [= <- <- <- <-]. }
  pose proof (retransmit_silent (length l1) t 0 l1 w1) as Hr. unfold retransmit.
  destruct (retransmit_loop _ _ _ _ _) as [l2 w2].
  pose proof (retain_mut_silent (D := D) (expired_session life (now w2)) tt l2 w2) as He. unfold expire.
  destruct (retain_mut _ tt l2 w2) as [l3 w3]. intros [= <- <- <- <-].
  eapply silent_trans; [exact Hp|]. eapply silent_trans; [exact Hr|]. apply He.
  intros st s st' s'. unfold expired_session. intros [= _ <- _].
  by destruct (_ && negb (negb _)), (_ && established _).
Qed.

Lemma reload_silent file a n fresh i receiving acked finished requested cs c l w r c' l' w' :
  reload file a n fresh i receiving acked finished requested cs c l w = (r, c', l', w') -> silent l w l' w'.
Proof.
  unfold reload. destruct (read_update _ _ _ _) as [[[bs ls] acceptor]|e]; [|by intros [= <- <- <- <-]].
  pose proof (retain_mut_silent (D := D) (revoked (current_logins cs) ls bs) tt l w) as Hs. unfold revoke_sessions.
  destruct (retain_mut _ tt l w) as [l1 w1].
  assert (silent l w l1 w1) by (apply Hs; intros ??? s'; unfold revoked;
    destruct (established _); cbn [negb]; [destruct (authorized _ _ _ _)|]; by intros [= _ <-]).
  destruct receiving; by intros [= <- <- <- <-].
Qed.
End silent_control.

(** ** The encrypt worker *)
Section passing.
Context {D : Type} `{DtlsLaws D}.
Implicit Types (s : Session D) (l : list (Session D)) (w : World).

(** The history with more written into the sessions. *)
Definition sent_more (sent : list (Ipv4Addr * Packet)) (p : Past) : Past :=
  p <| plain_sent ::= fun k => k ++ sent |>.

Lemma plain_sent_more sent p : plain_sent (sent_more sent p) = plain_sent p ++ sent.
Proof. done. Qed.

(** What is written into the sessions waited for them. *)
Definition passes l w l' w' : Prop := exists sent,
  past w' = sent_more sent (past w) /\
  retain (fun e => tunnelled e.2) sent ++ queued l' ⊆+ queued l.

Lemma past_no_sent (p : Past) : p = sent_more [] p.
Proof. destruct p. unfold sent_more, set_field. cbn. by rewrite (right_id_L [] (++)). Qed.

Lemma silent_passes l w l' w' : silent l w l' w' -> passes l w l' w'.
Proof. intros [Hp Hq]. exists []. split; [rewrite Hp; apply past_no_sent|done]. Qed.

Lemma passes_trans l1 w1 l2 w2 l3 w3 : passes l1 w1 l2 w2 -> passes l2 w2 l3 w3 -> passes l1 w1 l3 w3.
Proof.
  intros (s1 & P1 & Q1) (s2 & P2 & Q2). exists (s1 ++ s2). split.
  - rewrite P2, P1. unfold sent_more, set_field. cbn. by rewrite (assoc_L (++)).
  - rewrite retain_app, <-(assoc_L (++)). etrans; [|exact Q1]. by apply submseteq_app.
Qed.

Lemma passes_cons s w s' w1 l l' w2 :
  passes [s] w [s'] w1 -> passes l w1 l' w2 -> passes (s :: l) w (s' :: l') w2.
Proof.
  intros (a1 & P1 & Q1) (a2 & P2 & Q2). exists (a1 ++ a2). split.
  - rewrite P2, P1. unfold sent_more, set_field. cbn. by rewrite (assoc_L (++)).
  - unfold queued in *. cbn in *. rewrite !(right_id_L [] (++)) in Q1. rewrite retain_app.
    transitivity ((retain (fun e => tunnelled e.2) a1 ++ waiting s') ++ (retain (fun e => tunnelled e.2) a2 ++ queued l')).
    + unfold queued. rewrite <-!(assoc_L (++)). apply submseteq_app; [done|].
      rewrite !(assoc_L (++)). apply submseteq_app; [|done]. by rewrite (comm (++)).
    + by apply submseteq_app.
Qed.

Lemma passes_insert i l s w s' w' :
  l !! i = Some s -> passes [s] w [s'] w' -> passes l w (<[i := s']> l) w'.
Proof.
  intros Hi Hp. rewrite <-(take_drop_middle l i s Hi) at 1. rewrite insert_take_drop by (by eapply lookup_lt_Some).
  assert (passes (s :: drop (S i) l) w (s' :: drop (S i) l) w') as Hs.
  { eapply passes_cons; [exact Hp|]. apply silent_passes, silent_refl. }
  destruct Hs as (a & P & Q). exists a. split; [exact P|]. rewrite !queued_app.
  rewrite (assoc_L (++)), (comm (++) (retain _ a)), <-(assoc_L (++)). by apply submseteq_app.
Qed.

Lemma send_tunnel_packet_past packet s w r s' w' :
  send_tunnel_packet packet (s, w) = (r, (s', w')) ->
  address s' = address s /\ raw_tx_queue s' = raw_tx_queue s /\
  exists sent, past w' = sent_more sent (past w) /\
    (sent = [] \/ r = SendPacketResult.Sent /\ sent = [(address s, packet)]).
Proof.
  unfold send_tunnel_packet. cbn [fst snd]. destruct (with_dtls _ s w) as [[o s1] w1] eqn:Hd.
  destruct (with_dtls_waiting _ _ _ _ _ _ (write_status_sends packet) Hd) as (Ha & Hr & _ & _ & Hp).
  assert (exists sent, past w1 = sent_more sent (past w) /\ sent = []) as Hnone.
  { exists []. split; [rewrite Hp; apply past_no_sent|done]. }
  destruct (panic_gate _ o) as [[n| |]|]; [destruct (_ =? _)|..]; intros [= <- <- <-]; (split_and!; [done..|]).
  2-5: destruct Hnone as (x & ? & ?); exists x; by split; [|left].
  exists [(address s, packet)]. split; [|by right]. cbn. by rewrite Hp, Ha.
Qed.

(** Draining a list of packets: those written and those left were in it, once each. *)
Lemma drain_spec_past ps s w r rest s' w' :
  drain_spec (now w) send_tunnel_packet ps (s, w) = (r, rest, (s', w')) ->
  address s' = address s /\ raw_tx_queue s' = raw_tx_queue s /\
  exists sent, past w' = sent_more (pair (address s) <$> sent) (past w) /\
    sent ++ rest.*1 `sublist_of` ps.*1.
Proof.
  generalize (now w) as t. intros t. revert s w r rest s' w'.
  induction ps as [|[packet queued_at] ps IH]; intros s w r rest s' w'; cbn [drain_spec].
  { intros [= <- <- <- <-]. split_and!; [done..|]. exists []. split; [apply past_no_sent|done]. }
  destruct (SESSION_PACKET_TTL <=? _).
  { intros (? & ? & sent & ? & ?)%IH. split_and!; [done..|]. exists sent. split; [done|]. by apply sublist_cons. }
  destruct (send_tunnel_packet packet (s, w)) as [q [s1 w1]] eqn:Hs.
  apply send_tunnel_packet_past in Hs as (Ha & Hr & a & Hp & Hsent).
  assert (drain_spec t send_tunnel_packet ps (s1, w1) = (r, rest, (s', w')) ->
    address s' = address s /\ raw_tx_queue s' = raw_tx_queue s /\
    exists sent, past w' = sent_more (pair (address s) <$> sent) (past w) /\
      sent ++ rest.*1 `sublist_of` packet :: ps.*1) as Hgo.
  { intros (Ha' & Hr' & sent & Hp' & Hsub)%IH. split_and!; [congruence..|]. destruct Hsent as [->|[-> ->]].
    - exists sent. split; [|by apply sublist_cons]. rewrite Hp', Hp, Ha. by rewrite <-past_no_sent.
    - exists (packet :: sent). split; [|by apply sublist_skip]. rewrite Hp', Hp, Ha.
      unfold sent_more, set_field. cbn. by rewrite <-(assoc_L (++)). }
  destruct q; [exact Hgo| |exact Hgo]. intros [= <- <- <- <-]. split_and!; [done..|].
  destruct Hsent as [->|[? _]]; [|done]. exists []. split; [exact Hp|done].
Qed.

Lemma drain_session_plain_passes s w :
  queue_ok (raw_tx_queue s) ->
  passes [s] w [(drain_session_plain s w).1] (drain_session_plain s w).2.
Proof.
  intros Hok. unfold drain_session_plain, drain_raw_queue.
  destruct (drain_raw_loop_spec (now w) send_tunnel_packet _ (raw_tx_queue s) (s, w) Hok eq_refl) as (q & -> & Hi & _).
  destruct (drain_spec _ _ _ _) as [[r rest] [s1 w1]] eqn:Hd.
  apply drain_spec_past in Hd as (Ha & _ & sent & Hp & Hsub). cbn [fst snd] in *.
  exists (pair (address s) <$> sent). split; [exact Hp|]. unfold queued, waiting. cbn.
  rewrite !(right_id_L [] (++)), Hi, Ha. apply sublist_submseteq.
  apply (retain_sublist_mono tunnelled), (fmap_sublist (pair (address s))) in Hsub.
  rewrite retain_app, fmap_app in Hsub.
  assert (retain (fun e => tunnelled e.2) (pair (address s) <$> sent) = pair (address s) <$> retain tunnelled sent) as ->;
    [|exact Hsub].
  clear. induction sent as [|p sent IH]; [done|]. cbn [fmap list_fmap]. rewrite !retain_cons, fmap_app. cbn.
  rewrite IH. by destruct (tunnelled p).
Qed.

Lemma flush_pending_passes l w :
  Forall (fun s => queue_ok (raw_tx_queue s)) l -> passes l w (flush_pending l w).1 (flush_pending l w).2.
Proof.
  unfold flush_pending. intros Hl. revert w. induction Hl as [|s l Hs _ IH]; intros w; cbn [for_each].
  { apply silent_passes, silent_refl. }
  pose proof (drain_session_plain_passes s w Hs) as Hd. destruct (drain_session_plain s w) as [s1 w1].
  specialize (IH w1). destruct (for_each _ l w1) as [l2 w2]. by eapply passes_cons.
Qed.
End passing.

(** Where a packet may go: to its own address, or, when it is a broadcast or multicast that is
    forwarded, to all. *)
Definition may_reach (routing : EncryptRouting) (a : Ipv4Addr) (packet : Packet) : Prop :=
  exists destination, ipv4_destination packet = Some destination /\
    ((ipv4_is_broadcast destination (Encrypt.network_address routing) (Encrypt.network_prefix routing) = true /\
        Encrypt.allow_broadcast routing = true) \/
     (is_multicast destination = true /\ Encrypt.allow_multicast routing = true) \/ destination = a).

(** The one address of a packet that is no broadcast and no multicast. *)
Definition unicast (routing : EncryptRouting) (packet : Packet) : option Ipv4Addr :=
  destination ← ipv4_destination packet;
  if ipv4_is_broadcast destination (Encrypt.network_address routing) (Encrypt.network_prefix routing) || is_multicast destination
  then None else Some destination.

Lemma unicast_tunnelled routing packet : is_Some (unicast routing packet) -> tunnelled packet = true.
Proof.
  unfold unicast, tunnelled. intros [a Ha]. apply bool_decide_eq_true. destruct (ipv4_destination packet); [eauto|done].
Qed.

Section routing.
Context {D : Type} `{DtlsLaws D} (routing : EncryptRouting).
Implicit Types (s : Session D) (l : list (Session D)) (w : World).

(** The copies of [packet] that a turn may have queued. *)
Definition copies (packet : Packet) (new : list (Ipv4Addr * Packet)) : Prop :=
  Forall (fun e => e.2 = packet /\ may_reach routing e.1 packet) new /\
  forall a, unicast routing packet = Some a -> new ⊆+ [(a, packet)].

Lemma copies_nil packet : copies packet [].
Proof. split; [constructor|]. intros. apply submseteq_nil_l. Qed.

Definition routes packet l w l' w' : Prop := exists new sent,
  copies packet new /\ past w' = sent_more sent (past w) /\
  retain (fun e => tunnelled e.2) sent ++ queued l' ⊆+ queued l ++ new.

Lemma passes_routes packet l w l' w' : passes l w l' w' -> routes packet l w l' w'.
Proof.
  intros (sent & Hp & Hq). exists [], sent. split; [apply copies_nil|]. split; [done|]. by rewrite (right_id_L [] (++)).
Qed.

Lemma queue_routes packet new l w l1 l2 w2 :
  copies packet new -> queued l1 ⊆+ queued l ++ new -> passes l1 w l2 w2 -> routes packet l w l2 w2.
Proof.
  intros Hc Hq (sent & Hp & Hs). exists new, sent. split; [done|]. split; [done|]. by etrans.
Qed.

Lemma routes_passes packet l1 w1 l2 w2 l3 w3 :
  routes packet l1 w1 l2 w2 -> passes l2 w2 l3 w3 -> routes packet l1 w1 l3 w3.
Proof.
  intros (new & s1 & Hc & P1 & Q1) (s2 & P2 & Q2). exists new, (s1 ++ s2). split; [done|]. split.
  - rewrite P2, P1. unfold sent_more, set_field. cbn. by rewrite (assoc_L (++)).
  - rewrite retain_app, <-(assoc_L (++)). etrans; [|exact Q1]. by apply submseteq_app.
Qed.

Lemma flood_queued packet l w :
  queued ((fun s => if authenticated s then queue_session_plain s packet w else s) <$> l) ⊆+
    queued l ++ ((fun s => (address s, packet)) <$> l).
Proof.
  induction l as [|s l IH]; [done|]. cbn [fmap list_fmap]. unfold queued in *. cbn.
  transitivity ((waiting s ++ [(address s, packet)]) ++ (l ≫= waiting) ++ ((fun s => (address s, packet)) <$> l)).
  2:{ rewrite <-!(assoc_L (++)). apply submseteq_app; [done|]. cbn. by rewrite Permutation_middle. }
  apply submseteq_app; [|exact IH]. destruct (authenticated s); [|by apply submseteq_inserts_r].
  apply sublist_submseteq. etrans; [apply waiting_queue|]. apply sublist_app; [done|].
  destruct (tunnelled packet); [done|apply sublist_nil_l].
Qed.

Lemma route_packet_routes packet destination l w :
  ipv4_destination packet = Some destination -> Forall (fun s => queue_ok (raw_tx_queue s)) l ->
  routes packet l w (route_packet routing packet destination l w).1 (route_packet routing packet destination l w).2.
Proof.
  intros Hd Hl. unfold route_packet.
  destruct ((ipv4_is_broadcast _ _ _ && _) || _) eqn:Hflood.
  { eapply queue_routes; [|apply flood_queued|apply flush_pending_passes].
    - split.
      + apply Forall_fmap, Forall_true. intros s. split; [done|]. exists destination. split; [done|].
        apply orb_true_iff in Hflood as [[? ?]%andb_true_iff|[? ?]%andb_true_iff]; [by left|by right; left].
      + intros a. unfold unicast. rewrite Hd. cbn.
        apply orb_true_iff in Hflood as [[-> _]%andb_true_iff|[-> _]%andb_true_iff]; [done|by rewrite orb_true_r].
    - apply Forall_fmap. eapply Forall_impl; [exact Hl|]. intros s Hs. cbn. destruct (authenticated s); [|done].
      cbn. auto with vpn. }
  destruct (negb _ && negb _) eqn:Huni; [|apply passes_routes, silent_passes, silent_refl].
  pose proof (best_session_spec (fun s => authenticated s && (address s =? destination)) None 0 l) as Hbest.
  destruct (best_session _ None 0 l) as [[i s]|]; [|apply passes_routes, silent_passes, silent_refl].
  destruct Hbest as [?|(_ & Hi & [_ Ha%Z.eqb_eq]%andb_true_iff)]; [done|]. rewrite Nat.sub_0_r in Hi.
  assert (queue_ok (raw_tx_queue s)) as Hok by (by eapply Forall_lookup_1 in Hl).
  pose proof (drain_session_plain_passes (queue_session_plain s packet w) w ltac:(cbn; auto with vpn)) as Hdr.
  destruct (drain_session_plain _ w) as [s1 w1]. cbn [fst snd] in *.
  eapply (queue_routes packet [(destination, packet)] l w (<[i := queue_session_plain s packet w]> l)).
  - split; [apply Forall_singleton; split; [done|]; exists destination; split; [done|]; by right; right|].
    intros a. unfold unicast. rewrite Hd. cbn. destruct (ipv4_is_broadcast _ _ _ || _); [done|]. by intros [= <-].
  - rewrite <-(take_drop_middle l i s Hi) at 2. rewrite insert_take_drop by (by eapply lookup_lt_Some).
    rewrite !queued_app, <-(assoc_L (++)). apply submseteq_app; [done|]. unfold queued. cbn.
    rewrite <-(assoc_L (++)). rewrite (comm (++) (drop _ _ ≫= _) [_]), (assoc_L (++)). apply submseteq_app; [|done].
    apply sublist_submseteq. etrans; [apply waiting_queue|]. apply sublist_app; [done|]. rewrite Ha.
    destruct (tunnelled packet); [done|apply sublist_nil_l].
  - rewrite <-(list_insert_insert_eq l i s1 (queue_session_plain s packet w)). apply passes_insert with (queue_session_plain s packet w); [|done].
    apply list_lookup_insert_eq. by eapply lookup_lt_Some.
Qed.

Lemma encrypt_packet_routes packet l w :
  Forall (fun s => queue_ok (raw_tx_queue s)) l ->
  routes packet l (note_routed packet w) (encrypt_packet routing packet l w).1 (encrypt_packet routing packet l w).2.
Proof.
  intros Hl. unfold encrypt_packet. destruct (ipv4_destination packet) as [d|] eqn:Hd.
  2:{ apply passes_routes, silent_passes, silent_refl. }
  pose proof (route_packet_routes packet d l (note_routed packet w) Hd Hl) as Hr.
  pose proof (route_packet_rel routing packet d l (note_routed packet w) Hd Hl) as Hrel.
  destruct (route_packet _ _ _ _ _) as [l1 w1]. cbn [fst snd] in *. apply Forall2_enc_rel_ok in Hrel.
  assert (routes packet l (note_routed packet w) l1 (notify_progress w1)) as Hr1.
  { eapply routes_passes; [exact Hr|]. by apply silent_passes. }
  destruct (retry_requested _); [|exact Hr1]. eapply routes_passes; [exact Hr1|].
  eapply passes_trans; [|by apply flush_pending_passes]. by apply silent_passes.
Qed.
End routing.

(** ** The decrypt thread's pass over the sessions *)

(** What was decrypted from a session may go to the TUN device. *)
Definition forwarded (ctx : DecryptContext) (e : Ipv4Addr * bool * Packet) : bool :=
  let '(a, authenticated, packet) := e in
  authenticated && negb (is_keepalive_packet packet) &&
  match ipv4_packet_addresses packet with
  | Some (source, destination) => (source =? a) && destination_allowed ctx destination
  | None => false
  end.

Section drains.
Context {D : Type} `{DtlsLaws D} (ctx : DecryptContext).
Implicit Types (s : Session D) (l : list (Session D)) (w : World).

Definition read_more (reads : list (Ipv4Addr * bool * Packet)) (results : list (Packet * bool)) (p : Past) : Past :=
  p <| plain_read ::= fun k => k ++ reads |> <| tun_results ::= fun k => k ++ results |>.

(** Each packet that may go to the TUN device is given to it, in order; nothing new waits. *)
Definition drains l w l' w' : Prop := exists reads results,
  past w' = read_more reads results (past w) /\
  results.*1 = snd <$> retain (forwarded ctx) reads /\ queued l' ⊆+ queued l.

Lemma past_no_reads (p : Past) : p = read_more [] [] p.
Proof. destruct p. unfold read_more, set_field. cbn. by rewrite !(right_id_L [] (++)). Qed.

Lemma silent_drains l w l' w' : silent l w l' w' -> drains l w l' w'.
Proof. intros [Hp Hq]. exists [], []. split; [rewrite Hp; apply past_no_reads|done]. Qed.

Lemma drains_past s w w1 l' w' : past w1 = past w -> drains [s] w1 l' w' -> drains [s] w l' w'.
Proof. intros E (rs & ts & Hp & Hq). exists rs, ts. by rewrite Hp, E. Qed.

Lemma drains_cons s w s' w1 l l' w2 :
  drains [s] w [s'] w1 -> drains l w1 l' w2 -> drains (s :: l) w (s' :: l') w2.
Proof.
  intros (r1 & t1 & P1 & E1 & Q1) (r2 & t2 & P2 & E2 & Q2). exists (r1 ++ r2), (t1 ++ t2). split_and!.
  - rewrite P2, P1. unfold read_more, set_field. cbn. by rewrite !(assoc_L (++)).
  - by rewrite fmap_app, retain_app, fmap_app, E1, E2.
  - unfold queued in *. cbn in *. rewrite !(right_id_L [] (++)) in Q1. by apply submseteq_app.
Qed.

(** One session alone. *)
Lemma silent_one s s' w w' : past w' = past w -> waiting s' ⊆+ waiting s -> silent [s] w [s'] w'.
Proof. intros Hp Hq. split; [done|]. unfold queued. cbn. by rewrite !(right_id_L [] (++)). Qed.

Lemma handle_login_silent logins login s w f s' w' :
  handle_login logins login s w = (f, s', w') -> silent [s] w [s'] w'.
Proof.
  unfold handle_login. destruct (login_attempted s); [by intros [= <- <- <-]|].
  destruct (match logins !! _ with Some _ => _ | None => _ end); intros [= <- <- <-];
    apply silent_one; try done; etrans; (apply waiting_control; set_solver) || done.
Qed.

(** The packet just noted as read is given to the TUN device when it may go there. *)
Lemma handle_tunnel_drains packet s w f s' w' :
  authenticated s = true ->
  handle_tunnel ctx packet s (note_read (address s) true packet w) = (f, s', w') -> drains [s] w [s'] w'.
Proof.
  intros Ha. unfold handle_tunnel.
  assert (forall s1 w1, past w1 = past (note_read (address s) true packet w) -> waiting s1 ⊆+ waiting s ->
    forwarded ctx (address s, true, packet) = false -> drains [s] w [s1] w1) as Hnone.
  { intros s1 w1 Hp Hw Hf. exists [(address s, true, packet)], []. split_and!.
    - rewrite Hp. destruct (past w) eqn:E. unfold note_read, read_more, set_field. cbn. rewrite E. cbn.
      by rewrite (right_id_L [] (++)).
    - by rewrite retain_cons, Hf.
    - unfold queued. cbn. by rewrite !(right_id_L [] (++)). }
  destruct (is_keepalive_packet packet) eqn:Hk.
  { intros [= <- <- <-]. apply Hnone; [done| |by unfold forwarded; rewrite Hk].
    match goal with |- waiting (queue_session_plain ?s1 _ ?w1) ⊆+ _ =>
      exact (waiting_control s1 KEEPALIVE_PACKET w1 ltac:(set_solver)) end. }
  destruct (ipv4_packet_addresses packet) as [[source destination]|] eqn:Hp.
  2:{ intros [= <- <- <-]. apply Hnone; [done|done|]. unfold forwarded. by rewrite Hk, Hp. }
  destruct (_ && _) eqn:Hallow.
  2:{ intros [= <- <- <-]. apply Hnone; [done|done|]. unfold forwarded. by rewrite Hk, Hp. }
  assert (forall s1, waiting s1 = waiting s ->
    drains [s] w [s1] (write_tun_packet packet (note_read (address s) true packet w)).2) as Hone.
  { intros s1 Hs1. exists [(address s, true, packet)], [(packet, is_ok (write_tun_packet packet (note_read (address s) true packet w)).1)].
    split_and!.
    - unfold write_tun_packet. destruct (write_tun_loop _ _) as [[r0 rest] writes].
      destruct (past w) eqn:E. unfold note_read, read_more, note_tun_write, set_field. cbn. by rewrite E.
    - rewrite retain_cons. unfold forwarded. by rewrite Hk, Hp, Hallow.
    - unfold queued. cbn. by rewrite Hs1. }
  destruct (write_tun_packet packet _) as [[u|e] w1]; intros [= <- <- <-]; by apply Hone.
Qed.

Lemma inject_pending_silent s w s' w' : inject_pending s w = (s', w') -> silent [s] w [s'] w'.
Proof.
  unfold inject_pending. destruct (pending_inject s) as [|front rest]; [by intros [= <- <-]|].
  destruct (with_dtls (inject front) s w) as [[r s1] w1] eqn:Hd.
  destruct (with_dtls_waiting _ _ _ _ _ _ (inject_sends front) Hd) as (_ & _ & _ & Hw & Hp).
  destruct r as [[]|]; intros [= <- <-]; apply silent_one; try done; by rewrite <-Hw.
Qed.

Lemma drains_silent s w s1 w1 l' w2 : drains [s] w [s1] w1 -> silent [s1] w1 l' w2 -> drains [s] w l' w2.
Proof.
  intros (rs & ts & Hp & He & Hq) [Hp' Hq']. exists rs, ts. split; [congruence|]. split; [done|by etrans].
Qed.

Lemma drain_session_drains logins s w f s' w' :
  drain_session ctx logins s w = (f, s', w') -> drains [s] w [s'] w'.
Proof.
  unfold drain_session. destruct (_ && _); [by intros [= <- <- <-]; apply silent_drains|].
  destruct (with_dtls (read_status 2048) s w) as [[r s1] w1] eqn:Hd.
  destruct (with_dtls_frame _ _ _ _ _ _ Hd (read_status_sends 2048)) as (d & q & g & -> & _ & -> & _).
  set (w2 := notify_tun_queue _).
  assert (forall (f0 : flow) s2 w3, drains [s] w [s2] w3 ->
    match f0 with Next => let '(s, w) := inject_pending s2 w3 in (Next, s, w) | _ => (f0, s2, w3) end = (f, s', w') ->
    drains [s] w [s'] w') as Hend.
  { intros f0 s2 w3 Hs. destruct f0; [destruct (inject_pending s2 w3) as [s4 w4] eqn:Hi|..]; intros [= <- <- <-]; try done.
    eapply drains_silent; [exact Hs|by apply inject_pending_silent]. }
  assert (forall b, drains [s] w [s <| dtls := d |> <| enc_tx_queue := q |> <| drain_pending := b |>] w2) as Hstay.
  { intros b. by apply silent_drains, silent_one. }
  destruct (panic_gate _ r) as [[[|x packet]| |]|e]; [exact (Hend Next _ _ (Hstay _))| |exact (Hend Next _ _ (Hstay _))..]. set (p := x :: packet).
  set (s2 := _ <| drain_pending := true |>).
  destruct (authenticated s2) eqn:Ha.
  - destruct (handle_tunnel _ _ _ _) as [[f0 s3] w3] eqn:Ht. apply Hend.
    apply (handle_tunnel_drains p s2 w2) in Ht; [|done]. exact Ht.
  - destruct (handle_login _ _ _ _) as [[f0 s3] w3] eqn:Ht. apply Hend.
    apply handle_login_silent in Ht. eapply drains_silent; [|exact Ht].
    exists [(address s, false, p)], []. split_and!; [|done|done].
    unfold note_read, read_more, set_field. cbn. by rewrite (right_id_L [] (++)).
Qed.

Lemma drain_sessions_drains logins l w e l' w' :
  drain_sessions ctx logins l w = (e, l', w') -> drains l w l' w'.
Proof.
  revert w e l' w'. induction l as [|s l IH]; intros w e l' w'; cbn [drain_sessions].
  { intros [= <- <- <-]. apply silent_drains, silent_refl. }
  assert (forall s1 w1 l2 w2, drains [s] w [s1] w1 -> drains l w1 l2 w2 -> drains (s :: l) w (s1 :: l2) w2) as Hcons
    by (intros; by eapply drains_cons).
  destruct (established s).
  - destruct (drain_session ctx logins s w) as [[f s1] w1] eqn:Hd. apply drain_session_drains in Hd.
    destruct f; [..|by intros [= <- <- <-]; eapply Hcons; [exact Hd|apply silent_drains, silent_refl]];
      destruct (drain_sessions ctx logins l w1) as [[e2 l2] w2] eqn:Hds; apply IH in Hds;
      intros [= <- <- <-]; by eapply Hcons.
  - destruct (drain_sessions ctx logins l w) as [[e2 l2] w2] eqn:Hds. apply IH in Hds. intros [= <- <- <-].
    eapply Hcons; [|exact Hds]. apply silent_drains, silent_refl.
Qed.
End drains.

(** ** The server *)
Section server.
Context {D : Type} `{DtlsLaws D} (ctx : DecryptContext) (max_session_lifetime : Duration)
  (vpn_address : Ipv4Addr) (vpn_network : rstr) (config_reload_interval : Duration).
Implicit Types (l : list (Session D)) (w : World) (v : Server D).

Abbreviation step := (step ctx max_session_lifetime vpn_address vpn_network config_reload_interval).

(** A server that has carried nothing yet. *)
Definition fresh_server v : Prop := initial v /\ past (world v) = nothing_past.

(** The unicast packets of a list, with their addresses. *)
Definition unicasts (es : list (Ipv4Addr * Packet)) : list (Ipv4Addr * Packet) :=
  retain (fun e => bool_decide (is_Some (unicast (routing_of ctx) e.2))) es.

(** The packets the encrypt worker took, each with its own address. *)
Definition addressed (packets : list Packet) : list (Ipv4Addr * Packet) :=
  omap (fun p => (fun a => (a, p)) <$> unicast (routing_of ctx) p) packets.

Record server_carries l w : Prop := {
  carries_in : (tun_results (past w)).*1 = snd <$> retain (forwarded ctx) (plain_read (past w));
  carries_unicast : unicasts (carried l w) ⊆+ addressed (tun_routed (past w));
  carries_routed : Forall (fun e => e.2 ∈ tun_routed (past w) /\ may_reach (routing_of ctx) e.1 e.2) (carried l w);
}.

(** What is carried may shrink. *)
Lemma server_carries_less l w l' w' :
  server_carries l w -> tun_results (past w') = tun_results (past w) -> plain_read (past w') = plain_read (past w) ->
  tun_routed (past w') = tun_routed (past w) -> carried l' w' ⊆+ carried l w -> server_carries l' w'.
Proof.
  intros [Hi Hu Hr] E1 E2 E3 Hc. split; rewrite ?E1, ?E2, ?E3; [done| |by eapply Forall_submseteq].
  etrans; [|exact Hu]. by apply retain_submseteq.
Qed.

Lemma server_carries_silent l w l' w' : silent l w l' w' -> server_carries l w -> server_carries l' w'.
Proof.
  intros [Hp Hq] Hs. apply (server_carries_less l w); rewrite ?Hp; try done. unfold carried. rewrite Hp.
  by apply submseteq_app.
Qed.

Lemma server_carries_passes l w l' w' : passes l w l' w' -> server_carries l w -> server_carries l' w'.
Proof.
  intros (sent & Hp & Hq) Hs. apply (server_carries_less l w); rewrite ?Hp; try done. unfold carried.
  rewrite Hp, plain_sent_more, retain_app, <-(assoc_L (++)). by apply submseteq_app.
Qed.

Lemma server_carries_drains l w l' w' : drains ctx l w l' w' -> server_carries l w -> server_carries l' w'.
Proof.
  intros (rs & ts & Hp & He & Hq) [Hi Hu Hr].
  assert (carried l' w' ⊆+ carried l w) as Hc by (unfold carried; rewrite Hp; by apply submseteq_app).
  split; rewrite Hp.
  - change (tun_results (read_more rs ts (past w))) with (tun_results (past w) ++ ts).
    change (plain_read (read_more rs ts (past w))) with (plain_read (past w) ++ rs).
    by rewrite fmap_app, retain_app, fmap_app, Hi, He.
  - etrans; [|exact Hu]. by apply retain_submseteq.
  - by eapply Forall_submseteq.
Qed.

Lemma server_carries_routes packet l w l' w' :
  routes (routing_of ctx) packet l (note_routed packet w) l' w' -> server_carries l w -> server_carries l' w'.
Proof.
  intros (new & sent & [Hnew Huni] & Hp & Hq) [Hi Hu Hr].
  assert (carried l' w' ⊆+ carried l w ++ new) as Hc.
  { unfold carried. rewrite Hp, plain_sent_more, retain_app, <-!(assoc_L (++)). by apply submseteq_app. }
  assert (tun_routed (past w') = tun_routed (past w) ++ [packet]) as Ht by (by rewrite Hp).
  split.
  - by rewrite Hp.
  - etrans; [by apply retain_submseteq|]. unfold unicasts in *. rewrite retain_app, Ht. unfold addressed.
    rewrite omap_app. apply submseteq_app; [done|]. cbn. destruct (unicast (routing_of ctx) packet) as [a|] eqn:Ha; cbn.
    + etrans; [apply sublist_submseteq, retain_sublist|]. by apply Huni.
    + clear -Hnew Ha. induction Hnew as [|e new [He _] _ IH]; [done|]. rewrite retain_cons, He, Ha. exact IH.
  - rewrite Ht. eapply Forall_submseteq; [exact Hc|]. apply Forall_app. split.
    + eapply Forall_impl; [exact Hr|]. intros e [? ?]. split; [|done]. apply elem_of_app. by left.
    + eapply Forall_impl; [exact Hnew|]. intros e [-> ?]. split; [|done]. apply elem_of_app. right. by left.
Qed.

Lemma step_carries v v' :
  (1 <= max_pending_handshakes ctx)%nat -> list_good ctx (sessions v) -> step v v' ->
  server_carries (sessions v) (world v) -> server_carries (sessions v') (world v').
Proof.
  intros Hctx Hg Hstep.
  destruct Hstep as [v w _ Hp|v e l w Hd|v l w Hd|v st w Hd|v fresh dg e st l w Hd|v p l w Hd
    |v p l w Hd|v K sendto k l p w k' Hd|v a t r c l w Hd|v t f fr rc ac fi r c l w _ Hd|v evs c w Hd]; cbn.
  - by apply server_carries_silent.
  - by eapply server_carries_drains, drain_sessions_drains.
  - pose proof (dedupe_silent (sessions v) (world v)) as Hs. rewrite Hd in Hs. by apply server_carries_silent.
  - apply server_carries_silent. split; [|done].
    pose proof (apply_reloads_past (updates v) (decrypt v) (world v)) as Hp. by rewrite Hd in Hp.
  - by eapply server_carries_silent, handle_datagram_silent.
  - pose proof (encrypt_packet_routes (routing_of ctx) p (sessions v) (world v) (list_good_raw _ _ Hg)) as Hr.
    rewrite Hd in Hr. by eapply server_carries_routes.
  - pose proof (flush_pending_passes (sessions v) (world v) (list_good_raw _ _ Hg)) as Hs.
    unfold encrypt_turn_end in Hd. destruct (flush_pending _ _) as [l1 w1]. injection Hd as _ <- <-.
    intros Hc. eapply server_carries_passes in Hc; [|exact Hs]. by eapply server_carries_silent; [|exact Hc].
  - by eapply server_carries_silent, udp_write_silent.
  - by eapply server_carries_silent, maintain_silent.
  - by eapply server_carries_silent, reload_silent.
  - apply server_carries_silent. split; [by eapply after_poll_past|done].
Qed.

Lemma fresh_carries v0 v :
  (1 <= max_clients ctx)%nat -> (1 <= max_pending_handshakes ctx)%nat -> fresh_server v0 -> rtc step v0 v ->
  server_carries (sessions v) (world v).
Proof.
  intros Hmc Hmp [Hi Hp] Hr.
  assert (server_carries (sessions v0) (world v0)) as H0'.
  { rewrite Hi. split; unfold carried; rewrite Hp; done. }
  assert (reachable ctx max_session_lifetime vpn_address vpn_network config_reload_interval v0) as Hr0
    by (exists v0; split; [done|apply rtc_refl]).
  clear Hi Hp. induction Hr as [|v0 v1 v2 Hs _ IH]; [done|]. apply IH.
  - eapply step_carries; [done|by eapply reachable_good|done|done].
  - destruct Hr0 as (u & ? & ?). exists u. split; [done|]. by eapply rtc_r.
Qed.
End server.

(** ** Properties *)

(** C2: The server as a whole refines two relays that do not mix up their clients. However its
    threads interleave, whatever the sessions, the network and the reloads do: exactly the
    packets decrypted from an authenticated session that have the session's address as their
    source and a destination that is forwarded are given to the TUN device, in that order,
    each once; every tunnelled packet written into a session of some address was taken from
    the TUN device and is addressed to it, or a broadcast or multicast that is forwarded;
    and no unicast packet is written more often than it was taken. *)
Theorem server_tunnel_relays {D} `{DtlsLaws D} ctx life a n i (v0 v : Server D) :
  (1 <= max_clients ctx)%nat -> (1 <= max_pending_handshakes ctx)%nat ->
  fresh_server v0 -> rtc (step ctx life a n i) v0 v ->
  let p := past (world v) in
  (tun_results p).*1 = snd <$> retain (forwarded ctx) (plain_read p) /\
  (forall b packet, (b, packet) ∈ plain_sent p -> tunnelled packet = true ->
     packet ∈ tun_routed p /\ may_reach (routing_of ctx) b packet) /\
  unicasts ctx (plain_sent p) ⊆+ addressed ctx (tun_routed p).
Proof.
  intros Hmc Hmp Hf Hr. destruct (fresh_carries _ _ _ _ _ _ _ Hmc Hmp Hf Hr) as [Hi Hu Hrt]. split_and!; [done| |].
  - intros b packet Hin Ht. rewrite Forall_forall in Hrt. apply (Hrt (b, packet)). unfold carried.
    apply elem_of_app. left. by apply elem_of_retain.
  - etrans; [|exact Hu]. unfold carried, unicasts. rewrite retain_app. apply submseteq_inserts_r.
    clear. induction (plain_sent _) as [|e l IH]; [done|]. rewrite !retain_cons, retain_app.
    apply submseteq_app; [|done]. case_bool_decide as He; [|apply submseteq_nil_l].
    by rewrite (unicast_tunnelled (routing_of ctx) e.2 He), retain_cons, bool_decide_true.
Qed.

(** ** A run on a concrete input: a client connects, sends a packet and is sent one *)
Definition world_step (f : World -> World) (v : Server PlainDtls) : Server PlainDtls := v <| world ::= f |>.

Definition drain_step (v : Server PlainDtls) : Server PlainDtls :=
  let '(_, l, w) := drain_sessions example_ctx (logins (decrypt v)) (sessions v) (world v) in
  v <| sessions := l |> <| world := w |>.

Definition encrypt_step (packet : Packet) (v : Server PlainDtls) : Server PlainDtls :=
  let '(l, w) := encrypt_packet (routing_of example_ctx) packet (sessions v) (world v) in
  v <| sessions := l |> <| world := w |>.

Definition upstream_packet : Packet := example_packet (ipv4_new 10 8 1 2) (ipv4_new 10 8 1 9).
Definition downstream_packet : Packet := example_packet (ipv4_new 10 8 1 9) (ipv4_new 10 8 1 2).

Definition answer_write (w : World) : World :=
  w <| tun_attempts := [{| tun_running := true; tun_write := Ok 20; tun_poll := Ok tt |}] |>.

Definition example_relayed : Server PlainDtls :=
  encrypt_step downstream_packet
    (drain_step (drain_step (world_step answer_write (receive (example_datagram upstream_packet) example_connected)))).

Lemma answer_step v : example_step v (world_step answer_write v).
Proof. apply (step_world _ _ _ _ _ v (answer_write (world v))); done. Qed.

Lemma drain_step_step v : example_step v (drain_step v).
Proof. unfold drain_step. destruct (drain_sessions _ _ _ _) as [[e l] w] eqn:Hd. by eapply step_drain. Qed.

Lemma encrypt_step_step packet v : example_step v (encrypt_step packet v).
Proof. unfold encrypt_step. destruct (encrypt_packet _ _ _ _) as [l w] eqn:Hd. by eapply step_encrypt. Qed.

Lemma example_relayed_run : rtc example_step example_server example_relayed.
Proof.
  eapply rtc_l; [apply (receive_step (example_datagram [1]))|].
  eapply rtc_l; [apply (receive_step (example_datagram upstream_packet))|].
  eapply rtc_l; [apply answer_step|].
  do 2 (eapply rtc_l; [apply drain_step_step|]). apply rtc_once, encrypt_step_step.
Qed.

Lemma server_tunnel_relays_witness :
  tun_results (past (world example_relayed)) = [(upstream_packet, true)] /\
  (ipv4_new 10 8 1 2, downstream_packet) ∈ plain_sent (past (world example_relayed)) /\
  downstream_packet ∈ tun_routed (past (world example_relayed)).
Proof.
  assert ((ipv4_new 10 8 1 2, downstream_packet) ∈ plain_sent (past (world example_relayed))) as Hs
    by (apply list_elem_of_lookup; exists 1%nat; vm_compute; reflexivity).
  split; [vm_compute; reflexivity|]. split; [exact Hs|].
  destruct (server_tunnel_relays example_ctx _ _ _ _ example_server example_relayed
    ltac:(cbn; lia) ltac:(cbn; lia) (conj eq_refl eq_refl) example_relayed_run) as (_ & Hin & _).
  apply (Hin (ipv4_new 10 8 1 2) downstream_packet Hs). vm_compute. reflexivity.
Defined.
