(* ===== verification/Delivery.v ===== *)
(** * What becomes of a packet for a client

    Follows one unicast packet through [route_packet] of the encrypt worker into the DTLS
    session of its client ([src/server/encrypt.rs]): which session it is given to, and in which
    cases a packet is lost there. *)

From S2P Require Import Prelude Net Queue DtlsApi Session Decrypt DecryptOk Encrypt Control Server ServerTunnel.

Local Open Scope Z_scope.

(** The packets that a drain at [t] does not skip. *)
Definition unexpired (t : Instant) (packets : list (Packet * Instant)) : list Packet :=
  fst <$> retain (fun p => negb (SESSION_PACKET_TTL <=? elapsed t p.2)) packets.

(** A DTLS session that writes a record whole or not at all. *)
Definition whole_writes (D : Type) `{DtlsSession D} : Prop := forall packet now d o n,
  panic_gate (str "server DTLS write") (write_status packet now d o).1.1 = Ok (Complete n) ->
  n = Z.of_nat (length packet).

Section delivery.
Context {D : Type} `{DtlsLaws D}.
Implicit Types (s : Session D) (l : list (Session D)) (w : World).

(** What the queue holds once the packet is in it: a full queue has lost its oldest. *)
Definition waiting_with s (packet : Packet) w : list (Packet * Instant) :=
  (if decide (queue_len (raw_tx_queue s) = capacity (raw_tx_queue s)) then tail (items (state (raw_tx_queue s)))
   else items (state (raw_tx_queue s))) ++ [(packet, now w)].

Lemma waiting_pushed s packet w :
  is_closed (raw_tx_queue s) = false ->
  items (state (raw_tx_queue (queue_session_plain s packet w))) = waiting_with s packet w.
Proof.
  intros Hc. unfold waiting_with. cbn. unfold push. rewrite Hc. case_decide; [|done].
  by destruct (items (state (raw_tx_queue s))).
Qed.

Lemma unexpired_cons t packet queued_at ps :
  unexpired t ((packet, queued_at) :: ps)
    = (if SESSION_PACKET_TTL <=? elapsed t queued_at then [] else [packet]) ++ unexpired t ps.
Proof. unfold unexpired. rewrite retain_cons. cbn [snd]. by destruct (_ <=? _). Qed.

Lemma send_tunnel_packet_whole packet s w r s' w' :
  whole_writes D -> send_tunnel_packet packet (s, w) = (r, (s', w')) ->
  (r = SendPacketResult.Sent /\ past w' = sent_more [(address s, packet)] (past w)) \/
  (r = SendPacketResult.Retry /\ past w' = past w).
Proof.
  intros Hwhole. unfold send_tunnel_packet. cbn [fst snd].
  destruct (with_dtls (write_status packet) s w) as [[o s1] w1] eqn:Hd.
  destruct (with_dtls_frame _ _ _ _ _ _ Hd (write_status_sends packet)) as (d & q & g & -> & _ & -> & Ho).
  specialize (Hwhole packet (now w) (dtls s) {| tx := enc_tx_queue s; signal := progress w |}). rewrite <-Ho in Hwhole.
  destruct (panic_gate _ o) as [[n| |]|]; [|intros [= <- <- <-]; by right..].
  rewrite (Hwhole n eq_refl), Z.eqb_refl. intros [= <- <- <-]. by left.
Qed.

(** Nothing is lost but what has expired, and what is left waits for the session. *)
Lemma drain_spec_conserves t ps s w r rest s' w' :
  whole_writes D ->
  drain_spec t send_tunnel_packet ps (s, w) = (r, rest, (s', w')) ->
  exists sent, past w' = sent_more (pair (address s) <$> sent) (past w) /\
    unexpired t ps = sent ++ unexpired t rest /\
    (rest = [] \/ exists packet queued_at rest' st,
       rest = (packet, queued_at) :: rest' /\
       send_tunnel_packet packet st = (SendPacketResult.Retry, (s', w'))).
Proof.
  intros Hwhole. revert s w. induction ps as [|[packet queued_at] ps IH]; intros s w; cbn [drain_spec].
  { intros [= <- <- <- <-]. exists []. split_and!; [apply past_no_sent|done|by left]. }
  rewrite unexpired_cons. destruct (SESSION_PACKET_TTL <=? elapsed t queued_at) eqn:He; [apply IH|].
  destruct (send_tunnel_packet packet (s, w)) as [q [s1 w1]] eqn:Hs.
  pose proof (send_tunnel_packet_past _ _ _ _ _ _ Hs) as (Ha & _).
  destruct (send_tunnel_packet_whole _ _ _ _ _ _ Hwhole Hs) as [[-> Hp]|[-> Hp]].
  - intros (sent & Hp' & Hu & Hr)%IH. exists (packet :: sent). split_and!; [|by rewrite Hu|done].
    rewrite Hp', Hp, Ha. unfold sent_more, set_field. cbn. by rewrite <-(assoc_L (++)).
  - intros [= <- <- <- <-]. exists []. split_and!; [rewrite Hp; apply past_no_sent|by rewrite unexpired_cons, He|].
    right. by exists packet, queued_at, ps, (s, w).
Qed.

Lemma drain_session_plain_spec s w :
  queue_ok (raw_tx_queue s) ->
  let '(r, rest, (s', w')) := drain_spec (now w) send_tunnel_packet (items (state (raw_tx_queue s))) (s, w) in
  exists q, drain_session_plain s w = (s' <| raw_tx_queue := q |>, w') /\ items (state q) = rest.
Proof.
  intros Hok. unfold drain_session_plain, drain_raw_queue.
  destruct (drain_raw_loop_spec (now w) send_tunnel_packet _ (raw_tx_queue s) (s, w) Hok eq_refl) as (q' & -> & Hi & _).
  destruct (drain_spec _ _ _ _) as [[r rest] [s' w']]. by exists q'.
Qed.

Lemma route_packet_delivers (routing : EncryptRouting) packet destination l w :
  whole_writes D ->
  Forall (fun s => queue_ok (raw_tx_queue s) /\ is_closed (raw_tx_queue s) = false) l ->
  ipv4_is_broadcast destination (network_address routing) (network_prefix routing) = false ->
  is_multicast destination = false ->
  (exists s, s ∈ l /\ authenticated s = true /\ address s = destination) ->
  exists i s s' w' sent,
    l !! i = Some s /\ authenticated s = true /\ address s = destination /\
    (forall k s1, l !! k = Some s1 -> authenticated s1 = true -> address s1 = destination ->
       last_activity s1 <= last_activity s) /\
    route_packet routing packet destination l w = (<[i := s']> l, w') /\
    past w' = sent_more (pair destination <$> sent) (past w) /\
    unexpired (now w) (waiting_with s packet w) = sent ++ unexpired (now w) (items (state (raw_tx_queue s'))) /\
    (items (state (raw_tx_queue s')) = [] \/ exists front queued_at rest st q,
       items (state (raw_tx_queue s')) = (front, queued_at) :: rest /\
       send_tunnel_packet front st = (SendPacketResult.Retry, (s' <| raw_tx_queue := q |>, w'))).
Proof.
  intros Hwhole Hl Hb Hm Hex.
  destruct (route_packet_unicast routing packet destination l w Hb Hm Hex) as (i & s & Hi & Ha & Hd & Hmax & Hroute).
  apply (Forall_lookup_1 _ _ _ _ Hl) in Hi as Hs. destruct Hs as [Hok Hopen].
  set (sq := queue_session_plain s packet w) in *.
  assert (queue_ok (raw_tx_queue sq)) as Hokq by (unfold sq; cbn; auto with vpn).
  pose proof (drain_session_plain_spec sq w Hokq) as Hspec.
  destruct (drain_spec _ _ _ _) as [[r rest] [s1 w1]] eqn:E.
  destruct (drain_spec_conserves _ _ _ _ _ _ _ _ Hwhole E) as (sent & Hp & Hu & Hr).
  destruct Hspec as (q & Hdr & Hrest). set (s' := s1 <| raw_tx_queue := q |>).
  exists i, s, s', w1, sent. unfold sq in Hu, Hp. rewrite waiting_pushed in Hu by done.
  cbn [raw_tx_queue s' set_field]. rewrite Hrest. split_and!; try done.
  - intros k s2 Hk Ha2 Hd2. by apply (Hmax k s2).
  - by rewrite Hroute, Hdr.
  - by rewrite <-Hd.
  - destruct Hr as [->|(front & queued_at & rest' & st & Hrest' & Hst)]; [by left|].
    right. exists front, queued_at, rest', st, (raw_tx_queue s1). split; [done|].
    rewrite Hst. by destruct s1.
Qed.
End delivery.

(** ** Properties *)

(** C3: A packet for a client is delivered or accounted for. When some authenticated session has
    the destination of a unicast packet, the packet is given to the one that was active last
    and no other session is touched; that session then writes, in order, everything that
    waited and has not expired, the new packet last, up to the first one its DTLS object
    refuses for now, which stays in front of the rest. A packet is lost only if it has
    waited for its time to live, or if it is the oldest of a full queue of 512. This holds in every
    reachable state of the server, for a DTLS object that writes records whole. It is what the
    code does, against README.md:355, which speaks of at most 32 packets per round and session
    and of a queue of 256: the code has no limit per round and writes all that waited, also
    more than 32 packets. *)
Theorem unicast_delivered {D} `{DtlsLaws D} ctx life a n i (v : Server D) packet destination (w : World) :
  (1 <= max_clients ctx)%nat -> (1 <= max_pending_handshakes ctx)%nat ->
  reachable ctx life a n i v -> whole_writes D ->
  ipv4_is_broadcast destination (network_address (routing_of ctx)) (network_prefix (routing_of ctx)) = false ->
  is_multicast destination = false ->
  (exists s, s ∈ sessions v /\ authenticated s = true /\ address s = destination) ->
  exists j s s' w' sent,
    sessions v !! j = Some s /\ authenticated s = true /\ address s = destination /\
    (forall k s1, sessions v !! k = Some s1 -> authenticated s1 = true -> address s1 = destination ->
       last_activity s1 <= last_activity s) /\
    route_packet (routing_of ctx) packet destination (sessions v) w = (<[j := s']> (sessions v), w') /\
    past w' = sent_more (pair destination <$> sent) (past w) /\
    unexpired (now w) (waiting_with s packet w) = sent ++ unexpired (now w) (items (state (raw_tx_queue s'))) /\
    (items (state (raw_tx_queue s')) = [] \/ exists front queued_at rest st q,
       items (state (raw_tx_queue s')) = (front, queued_at) :: rest /\
       send_tunnel_packet front st = (SendPacketResult.Retry, (s' <| raw_tx_queue := q |>, w'))).
Proof.
  intros Hmc Hmp Hr Hwhole. apply route_packet_delivers; [done|].
  destruct (reachable_good _ _ _ _ _ _ Hmc Hmp Hr) as [Hok _].
  eapply Forall_impl; [exact Hok|]. intros s Hs. split; apply Hs.
Qed.

(** A plaintext session writes records whole. *)
Lemma plain_whole_writes : whole_writes PlainDtls.
Proof. intros packet now d o n. cbn. unfold panic_gate. intros [= <-]. done. Qed.

(** The client that [Server.example_connected] has authenticated. *)
Definition example_unicast : Packet := example_packet (ipv4_new 10 8 1 1) (ipv4_new 10 8 1 2).

Lemma unicast_delivered_witness :
  exists j s s' w' sent,
    sessions example_connected !! j = Some s /\ address s = ipv4_new 10 8 1 2 /\
    route_packet (routing_of example_ctx) example_unicast (ipv4_new 10 8 1 2) (sessions example_connected)
      (world example_connected) = (<[j := s']> (sessions example_connected), w') /\
    plain_sent (past w') = plain_sent (past (world example_connected)) ++ (pair (ipv4_new 10 8 1 2) <$> sent).
Proof.
  destruct (unicast_delivered example_ctx (from_secs 3600) (ipv4_new 10 8 1 1) (str "10.8.1.0/24") (from_secs 30)
    example_connected example_unicast (ipv4_new 10 8 1 2) (world example_connected))
    as (j & s & s' & w' & sent & Hj & _ & Hd & _ & Hr & Hp & _ & _).
  - cbn. lia.
  - cbn. lia.
  - exact example_connected_reachable.
  - exact plain_whole_writes.
  - vm_compute. reflexivity.
  - vm_compute. reflexivity.
  - destruct (sessions example_connected) as [|s l] eqn:Hs; [by vm_compute in Hs|].
    exists s. split; [left|].
    assert (((fun s => (authenticated s, address s)) <$> head (sessions example_connected)) =
            Some (true, ipv4_new 10 8 1 2)) as Hh by (vm_compute; reflexivity).
    rewrite Hs in Hh. injection Hh as Ha Hd. by split.
  - exists j, s, s', w', sent. split; [exact Hj|]. split; [exact Hd|]. split; [exact Hr|].
    rewrite Hp. apply plain_sent_more.
Defined.
