(* ===== verification/ServerStop.v ===== *)
(** * Stopping the server

    Models the loops of the server's threads and the end of [run] in [src/server.rs], as far as
    flags, queue and signal generations, wake-ups and joins go: who looks at what, who sleeps on
    what, and who wakes whom. One step is one access to shared state; what a thread does
    between them is free. The generations are not bounded here: they wrap after [2^64] steps. *)

From S2P Require Import Prelude Text.

Local Open Scope Z_scope.

(** ** Shared state *)

(** [RUNNING] and [active]; the generation of [udp_rx_queue] and [tun_read_queue] and whether
    they are closed; the generation of [dtls_progress]; a byte in the control thread's wake
    socket; and whether the TUN reader has sent an error. *)
Record Shared := {
  running : bool;
  active : bool;
  rx_generation : Z;
  rx_closed : bool;
  tun_generation : Z;
  tun_closed : bool;
  progress : Z;
  wake : bool;
  tun_error : bool;
}.

#[export] Instance eta_Shared : Eta Shared := fun s =>
  {| running := running s; active := active s; rx_generation := rx_generation s; rx_closed := rx_closed s;
     tun_generation := tun_generation s; tun_closed := tun_closed s; progress := progress s; wake := wake s; tun_error := tun_error s |}.

(** The condition of every thread's loop. Both flags only ever go from true to false, so the two
    loads are as good as one. *)
Definition going (s : Shared) : bool := running s && active s.

(** [Drop for StopOnDrop] *)
Definition stop_on_drop (s : Shared) : Shared := s <| active := false |>.

(** [n] calls of [notify], of [push] or [notify_change], and of [close]. *)
Definition notify (n : nat) (s : Shared) : Shared := s <| progress ::= Z.add (Z.of_nat n) |>.
Definition change_tun (n : nat) (s : Shared) : Shared := s <| tun_generation ::= Z.add (Z.of_nat n) |>.
Definition change_rx (n : nat) (s : Shared) : Shared := s <| rx_generation ::= Z.add (Z.of_nat n) |>.
Definition close_rx (s : Shared) : Shared := change_rx 1 (s <| rx_closed := true |>).
Definition close_tun (s : Shared) : Shared := change_tun 1 (s <| tun_closed := true |>).
Definition wake_control (s : Shared) : Shared := s <| wake := true |>.

(** ** The threads *)

(** The encrypt worker. *)
Inductive encrypt_pc := E_check | E_observe | E_work (observed : Z) | E_decide (observed : Z) | E_wait (observed : Z) | E_done.

Inductive encrypt_step : encrypt_pc -> Shared -> encrypt_pc -> Shared -> Prop :=
| E_go s : going s = true -> encrypt_step E_check s E_observe s
| E_stop s : going s = false -> encrypt_step E_check s E_done (stop_on_drop s)
| E_observes s : encrypt_step E_observe s (E_work (tun_generation s)) s
| E_works o n s : encrypt_step (E_work o) s (E_decide o) (notify n s)
| E_panics o n s : encrypt_step (E_work o) s E_done (stop_on_drop (notify n s))
| E_closed o s : tun_closed s = true -> encrypt_step (E_decide o) s E_done (stop_on_drop s)
| E_pending o s : tun_closed s = false -> encrypt_step (E_decide o) s E_check s
| E_sleeps o s : tun_closed s = false -> encrypt_step (E_decide o) s (E_wait o) s
| E_wakes o s : tun_generation s <> o \/ tun_closed s = true -> encrypt_step (E_wait o) s E_check s.

(** The UDP writer. Its poll for a writable socket is bounded by [SESSION_PACKET_TTL]. *)
Inductive writer_pc := W_check | W_observe | W_drain (observed : Z) | W_poll | W_recheck (observed : Z) | W_wait (observed : Z) | W_done.

Inductive writer_step : writer_pc -> Shared -> writer_pc -> Shared -> Prop :=
| W_go s : going s = true -> writer_step W_check s W_observe s
| W_stop s : going s = false -> writer_step W_check s W_done (stop_on_drop s)
| W_observes s : writer_step W_observe s (W_drain (progress s)) s
| W_panics o s : writer_step (W_drain o) s W_done (stop_on_drop s)
| W_blocked o s : writer_step (W_drain o) s W_poll s
| W_polled s : writer_step W_poll s W_check (change_tun 1 s)
| W_sent o s : writer_step (W_drain o) s W_check (change_tun 1 s)
| W_idle o s : writer_step (W_drain o) s (W_recheck o) s
| W_pending o s : writer_step (W_recheck o) s W_check s
| W_stopped o s : going s = false -> writer_step (W_recheck o) s W_check s
| W_sleeps o s : going s = true -> writer_step (W_recheck o) s (W_wait o) s
| W_wakes o s : progress s <> o -> writer_step (W_wait o) s W_check s.

(** The decrypt worker: reading sessions, and then the next datagram, or an error another thread
    has sent; it looks for one again after its loop. It ends with an error or not. *)
Inductive decrypt_pc := D_check | D_observe | D_work (observed : Z) | D_next (observed : Z) | D_wait (observed : Z)
| D_final | D_done (failed : bool).

Inductive decrypt_step : decrypt_pc -> Shared -> decrypt_pc -> Shared -> Prop :=
| D_go s : going s = true -> decrypt_step D_check s D_observe s
| D_stop s : going s = false -> decrypt_step D_check s D_final s
| D_ends s : decrypt_step D_final s (D_done (tun_error s)) (stop_on_drop s)
| D_observes s : decrypt_step D_observe s (D_work (rx_generation s)) s
| D_reads o n m s : decrypt_step (D_work o) s (D_next o) (change_tun m (notify n s))
| D_logs_in o n m s : decrypt_step (D_work o) s (D_next o) (wake_control (change_tun m (notify n s)))
| D_fails o n m s : decrypt_step (D_work o) s (D_done true) (stop_on_drop (change_tun m (notify n s)))
| D_closed o s : rx_closed s = true -> decrypt_step (D_next o) s D_final s
| D_datagram o n m s : decrypt_step (D_next o) s D_check (change_tun m (notify n s))
| D_told o s : tun_error s = true -> decrypt_step (D_next o) s (D_done true) (stop_on_drop s)
| D_rejected o s : decrypt_step (D_next o) s (D_done true) (stop_on_drop s)
| D_accepts o n m s : decrypt_step (D_next o) s D_check (wake_control (change_tun m (notify n s)))
| D_yields o s : rx_closed s = false -> decrypt_step (D_next o) s D_check s
| D_sleeps o s : rx_closed s = false -> decrypt_step (D_next o) s (D_wait o) s
| D_wakes o s : rx_generation s <> o \/ rx_closed s = true -> decrypt_step (D_wait o) s D_check s.

(** The control thread. Its wait for the acknowledgement of a reload ends after two seconds;
    that its poll ends at the next deadline, which may be far away, is an event below. *)
Inductive control_pc := C_check | C_work | C_poll | C_done.

Inductive control_step : control_pc -> Shared -> control_pc -> Shared -> Prop :=
| C_go s : going s = true -> control_step C_check s C_work s
| C_stop s : going s = false -> control_step C_check s C_done (stop_on_drop s)
| C_works n s : control_step C_work s C_poll (change_rx n s)
| C_fails n s : control_step C_work s C_done (stop_on_drop (change_rx n s))
| C_woken s : wake s = true -> control_step C_poll s C_check (s <| wake := false |>)
| C_poll_fails s : control_step C_poll s C_done (stop_on_drop s).

(** The TUN reader; its poll takes at most 100 milliseconds. A fatal error clears the flag, is
    sent, and closes the queue, in that order. *)
Inductive tun_pc := T_check | T_poll | T_send | T_close | T_done.

Inductive tun_step : tun_pc -> Shared -> tun_pc -> Shared -> Prop :=
| T_go s : going s = true -> tun_step T_check s T_poll s
| T_stop s : going s = false -> tun_step T_check s T_done (stop_on_drop s)
| T_reads n s : tun_step T_poll s T_check (change_tun n s)
| T_closed s : tun_closed s = true -> tun_step T_poll s T_done (stop_on_drop s)
| T_fails s : tun_step T_poll s T_send (stop_on_drop s)
| T_sends s : tun_step T_send s T_close (s <| tun_error := true |>)
| T_closes s : tun_step T_close s T_done (close_tun (stop_on_drop s)).

(** The main thread: reading datagrams, the clean-up, and the joins in their order. *)
Inductive main_pc := M_read | M_clear | M_notify | M_wake | M_close_rx | M_close_tun
| M_join_encrypt | M_join_writer | M_join_decrypt | M_join_control | M_join_tun | M_done.

(** ** The server *)
Record Threads := {
  main : main_pc;
  encrypt : encrypt_pc;
  writer : writer_pc;
  decrypt : decrypt_pc;
  control : control_pc;
  tun : tun_pc;
  shared : Shared;
}.

Inductive main_step : Threads -> main_pc -> Shared -> Prop :=
| M_receives t n m : main t = M_read -> main_step t M_read (notify m (change_rx n (shared t)))
| M_ends t : main t = M_read -> main_step t M_clear (shared t)
| M_clears t : main t = M_clear -> main_step t M_notify (stop_on_drop (shared t))
| M_notifies t : main t = M_notify -> main_step t M_wake (notify 1 (shared t))
| M_wakes t : main t = M_wake -> main_step t M_close_rx (wake_control (shared t))
| M_closes_rx t : main t = M_close_rx -> main_step t M_close_tun (close_rx (shared t))
| M_closes_tun t : main t = M_close_tun -> main_step t M_join_encrypt (close_tun (shared t))
| M_joins_encrypt t : main t = M_join_encrypt -> encrypt t = E_done -> main_step t M_join_writer (shared t)
| M_joins_writer t : main t = M_join_writer -> writer t = W_done -> main_step t M_join_decrypt (shared t)
| M_joins_decrypt t failed : main t = M_join_decrypt -> decrypt t = D_done failed -> main_step t M_join_control (shared t)
| M_joins_control t : main t = M_join_control -> control t = C_done -> main_step t M_join_tun (shared t)
| M_joins_tun t : main t = M_join_tun -> tun t = T_done -> main_step t M_done (shared t).

#[export] Instance eta_Threads : Eta Threads := fun t =>
  {| main := main t; encrypt := encrypt t; writer := writer t; decrypt := decrypt t; control := control t;
     tun := tun t; shared := shared t |}.

(** Any thread moves. *)
Inductive step (t : Threads) : Threads -> Prop :=
| Main pc s : main_step t pc s -> step t (t <| main := pc |> <| shared := s |>)
| Encrypt pc s : encrypt_step (encrypt t) (shared t) pc s -> step t (t <| encrypt := pc |> <| shared := s |>)
| Writer pc s : writer_step (writer t) (shared t) pc s -> step t (t <| writer := pc |> <| shared := s |>)
| Decrypt pc s : decrypt_step (decrypt t) (shared t) pc s -> step t (t <| decrypt := pc |> <| shared := s |>)
| Control pc s : control_step (control t) (shared t) pc s -> step t (t <| control := pc |> <| shared := s |>)
| Tun pc s : tun_step (tun t) (shared t) pc s -> step t (t <| tun := pc |> <| shared := s |>).

(** What happens to the threads from outside: a signal, and a deadline of the control thread. *)
Definition deadline (t : Threads) : Threads :=
  if control t is C_poll then t <| control := C_check |> else t.
Definition signal (t : Threads) : Threads := t <| shared ::= fun s => s <| running := false |> |>.

(** All threads were just spawned. *)
Definition spawned : Threads :=
  {| main := M_read; encrypt := E_check; writer := W_check; decrypt := D_check; control := C_check; tun := T_check;
     shared := {| running := true; active := true; rx_generation := 0; rx_closed := false; tun_generation := 0;
                  tun_closed := false; progress := 0; wake := false; tun_error := false |} |}.

Inductive reachable : Threads -> Prop :=
| Spawned : reachable spawned
| Steps t t' : reachable t -> step t t' -> reachable t'
| Signalled t : reachable t -> reachable (signal t)
| Deadline t : reachable t -> reachable (deadline t).

(** ** Invariant *)
Definition stage (pc : main_pc) : nat :=
  match pc with
  | M_read => 0 | M_clear => 1 | M_notify => 2 | M_wake => 3 | M_close_rx => 4 | M_close_tun => 5
  | M_join_encrypt => 6 | M_join_writer => 7 | M_join_decrypt => 8 | M_join_control => 9 | M_join_tun => 10 | M_done => 11
  end.

(** What the writer saw is not from the future; one that sleeps slept before the flag was
    cleared, so it is woken by the notification that follows. *)
Definition writer_inv (notified : bool) (generation : Z) (pc : writer_pc) : Prop :=
  match pc with
  | W_drain o | W_recheck o => o <= generation
  | W_wait o => if notified then o < generation else o <= generation
  | _ => True
  end.

Record inv (t : Threads) : Prop := {
  inv_cleared : (2 <= stage (main t))%nat -> active (shared t) = false;
  inv_writer : writer_inv (bool_decide (3 <= stage (main t))%nat) (progress (shared t)) (writer t);
  inv_wake : (4 <= stage (main t))%nat -> wake (shared t) = true \/ control t = C_check \/ control t = C_done;
  inv_rx : (5 <= stage (main t))%nat -> rx_closed (shared t) = true;
  inv_tun : (6 <= stage (main t))%nat -> tun_closed (shared t) = true;
  inv_encrypt_joined : (7 <= stage (main t))%nat -> encrypt t = E_done;
  inv_writer_joined : (8 <= stage (main t))%nat -> writer t = W_done;
  inv_decrypt_joined : (9 <= stage (main t))%nat -> exists failed, decrypt t = D_done failed;
  inv_control_joined : (10 <= stage (main t))%nat -> control t = C_done;
  inv_tun_joined : (11 <= stage (main t))%nat -> tun t = T_done;
}.

(** What a step of another thread may do to the shared state. *)
Record grown (s s' : Shared) : Prop := {
  grown_running : running s' = running s;
  grown_active : active s = false -> active s' = false;
  grown_rx : rx_closed s = true -> rx_closed s' = true;
  grown_tun : tun_closed s = true -> tun_closed s' = true;
  grown_progress : progress s <= progress s';
  grown_wake : wake s = true -> wake s' = true;
}.

Lemma encrypt_grown pc s pc' s' : encrypt_step pc s pc' s' -> grown s s'.
Proof. destruct 1; split; cbn; try done; lia. Qed.

Lemma writer_grown pc s pc' s' : writer_step pc s pc' s' -> grown s s'.
Proof. destruct 1; split; cbn; try done; lia. Qed.

Lemma decrypt_grown pc s pc' s' : decrypt_step pc s pc' s' -> grown s s'.
Proof. destruct 1; split; cbn; try done; lia. Qed.

Lemma tun_grown pc s pc' s' : tun_step pc s pc' s' -> grown s s'.
Proof. destruct 1; split; cbn; try done; lia. Qed.

Lemma writer_inv_grows notified g g' pc : writer_inv notified g pc -> g <= g' -> writer_inv notified g' pc.
Proof. destruct pc; cbn; try done; destruct notified; lia. Qed.

(** Another thread's step keeps everything the invariant says of the others. *)
Lemma grown_keeps t s :
  inv t -> grown (shared t) s -> inv (t <| shared := s |>).
Proof.
  intros [] []. split; cbn; auto. all: try (intros Hst; destruct inv_wake0; auto).
  by eapply writer_inv_grows.
Qed.

Lemma writer_step_inv pc s pc' s' notified :
  writer_step pc s pc' s' -> (active s = true -> notified = false) ->
  writer_inv notified (progress s) pc -> writer_inv notified (progress s') pc'.
Proof.
  unfold going. destruct 1; cbn; intros Ha Hi; try done.
  rewrite Ha; [done|]. by apply andb_true_iff in H as [_ ?].
Qed.

Lemma threads_step_inv t t' : inv t -> step t t' -> inv t'.
Proof.
  intros Hi Hs. destruct Hs as [pc s Hm|pc s Hs|pc s Hs|pc s Hs|pc s Hs|pc s Hs].
  - destruct Hi. destruct t as [m e w d c u sh]. cbn in *.
    inversion Hm; cbn in *; subst; split; cbn in *; try (intros; lia); auto with lia; eauto.
    all: try (eapply writer_inv_grows; [eassumption|cbn; lia]).
    all: change (bool_decide (3 <= 3)%nat) with true; change (bool_decide (3 <= 2)%nat) with false in inv_writer0.
    all: destruct w; cbn in *; lia || done.
  - pose proof (encrypt_grown _ _ _ _ Hs) as Hg. pose proof (grown_keeps _ _ Hi Hg) as []. split; cbn in *; auto.
    intros Hst. pose proof (inv_encrypt_joined _ Hi Hst) as E. rewrite E in Hs. by inversion Hs.
  - pose proof (writer_grown _ _ _ _ Hs) as Hg. pose proof (grown_keeps _ _ Hi Hg) as []. split; cbn in *; auto.
    + eapply writer_step_inv; [exact Hs| |apply Hi]. intros Ha. apply bool_decide_eq_false.
      intros Hst. rewrite (inv_cleared _ Hi) in Ha; [done|lia].
    + intros Hst. pose proof (inv_writer_joined _ Hi Hst) as E. rewrite E in Hs. by inversion Hs.
  - pose proof (decrypt_grown _ _ _ _ Hs) as Hg. pose proof (grown_keeps _ _ Hi Hg) as []. split; cbn in *; auto.
    intros Hst. destruct (inv_decrypt_joined _ Hi Hst) as [failed E]. rewrite E in Hs. by inversion Hs.
  - destruct Hi. destruct t as [m e w d c u sh]. cbn in *.
    inversion Hs; cbn in *; subst; split; cbn in *; auto.
    all: intros Hst; try (specialize (inv_control_joined0 Hst); done).
    all: destruct (inv_wake0 Hst) as [Hw|[Hw|Hw]]; try done; auto.
    specialize (inv_cleared0 ltac:(lia)). unfold going in *. by rewrite inv_cleared0, andb_false_r in *.
  - pose proof (tun_grown _ _ _ _ Hs) as Hg. pose proof (grown_keeps _ _ Hi Hg) as []. split; cbn in *; auto.
    intros Hst. pose proof (inv_tun_joined _ Hi Hst) as E. rewrite E in Hs. by inversion Hs.
Qed.

Lemma threads_inv t : reachable t -> inv t.
Proof.
  induction 1 as [|t t' _ IH Hs|t _ IH|t _ IH]; [split; cbn; auto; lia|by eapply threads_step_inv| |].
  - destruct IH. split; cbn; auto.
  - unfold deadline. destruct (control t) eqn:Hc; try done. destruct IH. split; cbn; auto.
    intros Hst. specialize (inv_control_joined0 Hst). congruence.
Qed.

(** ** Progress *)

(** How many steps a thread may still make once [active] is cleared. *)
Definition encrypt_left (pc : encrypt_pc) : nat :=
  match pc with E_done => 0 | E_check => 1 | E_wait _ => 2 | E_decide _ => 3 | E_work _ => 4 | E_observe => 5 end.
Definition writer_left (pc : writer_pc) : nat :=
  match pc with W_done => 0 | W_check => 1 | W_wait _ | W_recheck _ | W_poll => 2 | W_drain _ => 3 | W_observe => 4 end.
Definition decrypt_left (pc : decrypt_pc) : nat :=
  match pc with D_done _ => 0 | D_final => 1 | D_check => 2 | D_wait _ => 3 | D_next _ => 4 | D_work _ => 5 | D_observe => 6 end.
Definition control_left (pc : control_pc) : nat :=
  match pc with C_done => 0 | C_check => 1 | C_poll => 2 | C_work => 3 end.
Definition tun_left (pc : tun_pc) : nat :=
  match pc with T_done => 0 | T_check | T_close => 1 | T_send => 2 | T_poll => 3 end.

Definition steps_left (t : Threads) : nat :=
  (11 - stage (main t)) + encrypt_left (encrypt t) + writer_left (writer t) + decrypt_left (decrypt t)
  + control_left (control t) + tun_left (tun t).

Lemma step_decreases t t' :
  inv t -> (2 <= stage (main t))%nat -> step t t' -> (steps_left t' < steps_left t /\ 2 <= stage (main t'))%nat.
Proof.
  intros Hi Hst Hs. pose proof (inv_cleared _ Hi Hst) as Ha. destruct t as [m e w d c u sh]. cbn in *.
  assert (going sh = false) as Hg by (unfold going; by rewrite Ha, andb_false_r).
  destruct Hs as [pc s Hm|pc s Hs|pc s Hs|pc s Hs|pc s Hs|pc s Hs]; cbn in *;
    [inversion Hm; cbn in *; subst; cbn in *|inversion Hs; subst; cbn in *..]; try congruence; unfold steps_left; cbn; lia.
Qed.

(** Somebody can always move, until everybody has ended. *)
Lemma step_enabled t : inv t -> (2 <= stage (main t))%nat -> main t = M_done \/ exists t', step t t'.
Proof.
  intros Hi Hst. pose proof (inv_cleared _ Hi Hst) as Ha.
  assert (going (shared t) = false) as Hg by (unfold going; by rewrite Ha, andb_false_r).
  destruct (main t) eqn:Hm; cbn in Hst; try lia; [right..|by left].
  1, 2, 3, 4: eexists; eapply Main; by constructor.
  - destruct (encrypt t) eqn:He; [..|eexists; apply Main, M_joins_encrypt; done]; eexists; eapply Encrypt; rewrite He.
    + by apply E_stop.
    + apply E_observes.
    + apply (E_works _ 0).
    + apply E_closed, (inv_tun _ Hi). rewrite Hm. cbn. lia.
    + apply E_wakes. right. apply (inv_tun _ Hi). rewrite Hm. cbn. lia.
  - destruct (writer t) eqn:Hw; [..|eexists; apply Main, M_joins_writer; done]; eexists; eapply Writer; rewrite Hw.
    + by apply W_stop.
    + apply W_observes.
    + apply W_idle.
    + apply W_polled.
    + by apply W_stopped.
    + apply W_wakes. pose proof (inv_writer _ Hi) as H. rewrite Hw, Hm in H. unfold writer_inv in H.
      rewrite bool_decide_eq_true_2 in H by (cbn; lia). lia.
  - destruct (decrypt t) eqn:Hd; [..|eexists; by eapply Main, M_joins_decrypt]; eexists; eapply Decrypt; rewrite Hd.
    + by apply D_stop.
    + apply D_observes.
    + apply (D_reads _ 0 0).
    + apply D_closed, (inv_rx _ Hi). rewrite Hm. cbn. lia.
    + apply D_wakes. right. apply (inv_rx _ Hi). rewrite Hm. cbn. lia.
    + apply D_ends.
  - destruct (control t) eqn:Hc; [..|eexists; apply Main, M_joins_control; done]; eexists; eapply Control; rewrite Hc.
    + by apply C_stop.
    + apply (C_works 0).
    + apply C_woken. destruct (inv_wake _ Hi) as [H|[H|H]]; [rewrite Hm; cbn; lia|done|congruence..].
  - destruct (tun t) eqn:Hu; [..|eexists; apply Main, M_joins_tun; done]; eexists; eapply Tun; rewrite Hu.
    + by apply T_stop.
    + apply (T_reads 0).
    + apply T_sends.
    + apply T_closes.
Qed.

Definition all_done (t : Threads) : Prop :=
  main t = M_done /\ encrypt t = E_done /\ writer t = W_done /\ (exists failed, decrypt t = D_done failed) /\ control t = C_done /\ tun t = T_done.

(** C8: A stopped server ends: once the main thread is past its reading loop and has cleared
    [active], wherever the other threads are, at most 30 more steps of any kind happen, in
    whatever order, and it is only when all six threads have ended that none can be made.
    Nobody sleeps through the stop, not even a thread that decided to sleep just before it. A
    system call counts as a step: that each one returns is assumed, also of a read or write
    of the TUN device, which is in blocking mode ([Platform.device_blocking_mode]). *)
Theorem server_shutdown_completes t n t' :
  reachable t -> main t <> M_read -> main t <> M_clear -> nsteps step n t t' ->
  (n + steps_left t' <= steps_left t <= 30)%nat /\ (all_done t' \/ exists t'', step t' t'').
Proof.
  intros Hr H0 H1 Hn. pose proof (threads_inv _ Hr) as Hi.
  assert (2 <= stage (main t))%nat as Hst by (destruct (main t); cbn; try lia; done).
  assert (steps_left t <= 30)%nat as Hmax.
  { unfold steps_left. destruct (encrypt t), (writer t), (decrypt t), (control t), (tun t); cbn; lia. }
  clear H0 H1 Hr. induction Hn as [t|n t t1 t' Hs Hn IH].
  - split; [lia|]. destruct (step_enabled _ Hi Hst) as [Hm|]; [left|by right].
    destruct Hi. rewrite Hm in *. cbn in *. split_and!; auto with lia.
  - destruct (step_decreases _ _ Hi Hst Hs) as [Hd Hst1]. destruct IH as [Hb He]; [by eapply threads_step_inv|done|lia|].
    split; [lia|done].
Qed.

Tactic Notation "advance" uconstr(s) := refine (Steps _ _ _ s).

(** ** The result *)

(** The end of [run]: the first error in the order of the threads it waits for. *)
Definition server_result (read decrypt control encrypt udp_write tun_read : io unit) : io unit :=
  match read, decrypt, control, encrypt, udp_write with
  | Ok _, Ok _, Ok _, Ok _, Ok _ => tun_read
  | Err error, _, _, _, _ | Ok _, Err error, _, _, _ | Ok _, Ok _, Err error, _, _
  | Ok _, Ok _, Ok _, Err error, _ | Ok _, Ok _, Ok _, Ok _, Err error => Err error
  end.

Lemma server_result_Ok read decrypt control encrypt udp_write tun_read :
  server_result read decrypt control encrypt udp_write tun_read = Ok tt <->
  Forall (fun r => r = Ok tt) [read; decrypt; control; encrypt; udp_write; tun_read].
Proof.
  rewrite !Forall_cons, Forall_nil. destruct read as [[]|], decrypt as [[]|], control as [[]|], encrypt as [[]|], udp_write as [[]|];
    cbn; naive_solver.
Qed.

Lemma run_main t pc s : reachable t -> main_step t pc s -> reachable (t <| main := pc |> <| shared := s |>).
Proof. intros Hr Hs. eapply Steps; [exact Hr|]. by apply Main. Qed.

(** A fatal error of the TUN reader can be lost: the reader clears [active] before it sends the
    error, and a decrypt worker that sees the flag in between also looks for errors before there
    is one. The TUN reader's own result carries no error, so the server reports success. *)
Theorem server_tun_error_lost :
  exists t, reachable t /\ all_done t /\ tun_error (shared t) = true /\ decrypt t = D_done false.
Proof.
  assert (reachable {| main := M_read; encrypt := E_done; writer := W_done; decrypt := D_done false; control := C_done; tun := T_done;
     shared := {| running := true; active := false; rx_generation := 0; rx_closed := false; tun_generation := 1;
                  tun_closed := true; progress := 0; wake := false; tun_error := true |} |}) as H.
  { pose (s0 := shared spawned).
    pose (s1 := stop_on_drop s0). pose (s2 := s1 <| tun_error := true |>). pose (s3 := close_tun (stop_on_drop s2)).
    pose (at_ := fun e w d c u s => {| main := M_read; encrypt := e; writer := w; decrypt := d; control := c; tun := u; shared := s |}).
    change (reachable (at_ E_done W_done (D_done false) C_done T_done s3)).
    advance (Tun (at_ E_done W_done (D_done false) C_done T_close s2) _ _ (T_closes s2)).
    advance (Tun (at_ E_done W_done (D_done false) C_done T_send s1) _ _ (T_sends s1)).
    advance (Control (at_ E_done W_done (D_done false) C_check T_send s1) _ _ (C_stop s1 eq_refl)).
    advance (Decrypt (at_ E_done W_done D_final C_check T_send s1) _ _ (D_ends s1)).
    advance (Decrypt (at_ E_done W_done D_check C_check T_send s1) _ _ (D_stop s1 eq_refl)).
    advance (Writer (at_ E_done W_check D_check C_check T_send s1) _ _ (W_stop s1 eq_refl)).
    advance (Encrypt (at_ E_check W_check D_check C_check T_send s1) _ _ (E_stop s1 eq_refl)).
    advance (Tun (at_ E_check W_check D_check C_check T_poll s0) _ _ (T_fails s0)).
    advance (Tun (at_ E_check W_check D_check C_check T_check s0) _ _ (T_go s0 eq_refl)).
    apply Spawned. }
  eapply run_main in H; [|by apply M_ends]. eapply run_main in H; [|by apply M_clears].
  eapply run_main in H; [|by apply M_notifies]. eapply run_main in H; [|by apply M_wakes].
  eapply run_main in H; [|by apply M_closes_rx]. eapply run_main in H; [|by apply M_closes_tun].
  eapply run_main in H; [|by apply M_joins_encrypt]. eapply run_main in H; [|by apply M_joins_writer].
  eapply run_main in H; [|by eapply M_joins_decrypt]. eapply run_main in H; [|by apply M_joins_control].
  eapply run_main in H; [|by apply M_joins_tun]. eexists. split; [exact H|]. split_and!; [|done..].
  split_and!; try done. by eexists.
Qed.

(** A server whose threads all sleep when the signal comes: the main thread has noticed it. *)
Definition asleep (pc : main_pc) (running active : bool) : Threads :=
  {| main := pc; encrypt := E_wait 0; writer := W_wait 0; decrypt := D_wait 0; control := C_poll; tun := T_poll;
     shared := {| running := running; active := active; rx_generation := 0; rx_closed := false; tun_generation := 0;
                  tun_closed := false; progress := 0; wake := false; tun_error := false |} |}.
Definition stopped_asleep : Threads := asleep M_notify false false.


Lemma stopped_asleep_reachable : reachable stopped_asleep.
Proof.
  advance (Main (asleep M_clear false true) _ _ (M_clears (asleep M_clear false true) eq_refl)).
  advance (Main (asleep M_read false true) _ _ (M_ends (asleep M_read false true) eq_refl)).
  refine (Signalled (asleep M_read true true) _).
  pose (at_ := fun e w d c u => {| main := M_read; encrypt := e; writer := w; decrypt := d; control := c; tun := u; shared := shared spawned |}).
  change (reachable (at_ (E_wait 0) (W_wait 0) (D_wait 0) C_poll T_poll)).
  advance (Tun (at_ (E_wait 0) (W_wait 0) (D_wait 0) C_poll T_check) _ _ (T_go (shared spawned) eq_refl)).
  advance (Control (at_ (E_wait 0) (W_wait 0) (D_wait 0) C_work T_check) _ _ (C_works 0 _)).
  advance (Control (at_ (E_wait 0) (W_wait 0) (D_wait 0) C_check T_check) _ _ (C_go (shared spawned) eq_refl)).
  advance (Decrypt (at_ (E_wait 0) (W_wait 0) (D_next 0) C_check T_check) _ _ (D_sleeps 0 (shared spawned) eq_refl)).
  advance (Decrypt (at_ (E_wait 0) (W_wait 0) (D_work 0) C_check T_check) _ _ (D_reads 0 0 0 _)).
  advance (Decrypt (at_ (E_wait 0) (W_wait 0) D_observe C_check T_check) _ _ (D_observes _)).
  advance (Decrypt (at_ (E_wait 0) (W_wait 0) D_check C_check T_check) _ _ (D_go (shared spawned) eq_refl)).
  advance (Writer (at_ (E_wait 0) (W_recheck 0) D_check C_check T_check) _ _ (W_sleeps 0 (shared spawned) eq_refl)).
  advance (Writer (at_ (E_wait 0) (W_drain 0) D_check C_check T_check) _ _ (W_idle 0 _)).
  advance (Writer (at_ (E_wait 0) W_observe D_check C_check T_check) _ _ (W_observes _)).
  advance (Writer (at_ (E_wait 0) W_check D_check C_check T_check) _ _ (W_go (shared spawned) eq_refl)).
  advance (Encrypt (at_ (E_decide 0) W_check D_check C_check T_check) _ _ (E_sleeps 0 (shared spawned) eq_refl)).
  advance (Encrypt (at_ (E_work 0) W_check D_check C_check T_check) _ _ (E_works 0 0 _)).
  advance (Encrypt (at_ E_observe W_check D_check C_check T_check) _ _ (E_observes _)).
  advance (Encrypt (at_ E_check W_check D_check C_check T_check) _ _ (E_go (shared spawned) eq_refl)).
  apply Spawned.
Qed.

Lemma server_shutdown_completes_witness :
  (0 + steps_left stopped_asleep <= steps_left stopped_asleep <= 30)%nat /\
  (all_done stopped_asleep \/ exists t'', step stopped_asleep t'').
Proof.
  apply (server_shutdown_completes stopped_asleep 0 stopped_asleep); [exact stopped_asleep_reachable|discriminate..|apply nsteps_O].
Defined.
