(* ===== verification/Startup.v ===== *)
(** * Starting up

    Models how a client or server comes up: the private-key check and the TLS context of
    [Dtls::new] ([src/lib.rs]), the settings of [run_with_login] ([src/client/mod.rs]), and the settings, checks and initial state of [run]
    ([src/server.rs]). Files, sockets, the TUN device and the calls of wolfSSL's contexts are
    answered by the environment. *)

From S2P Require Import Prelude Text Net Tun Config RateLimit Queue DtlsApi Session Encrypt.
From S2P Require Import Decrypt DecryptOk Control Server ControlRun.

Local Open Scope Z_scope.

(** ** The TLS context *)

Record TlsConfig := {
  config_server : bool;
  certificate_file : rstr;
  private_key_file : rstr;
  ca_file : option rstr;
  crl_file : option rstr;
  ocsp_enabled : bool;
  ocsp_url : option rstr;
  mtu : Z;
}.

(** What [fs::metadata] says of a file: whether it is a regular file, and its mode. *)
Record Metadata := { is_file : bool; mode : Z }.

(** [{:03o}] of a file mode's permissions. *)
Definition display_octal3 (m : Z) : rstr :=
  [digit_char (m / 64 mod 8); digit_char (m / 8 mod 8); digit_char (m mod 8)].

(** The text of the operating system's error is left out of the message. Only on Unix has a
    file a mode. *)
Definition validate_private_key_file (os : platform) (path : rstr) (metadata : io Metadata) : io unit :=
  match metadata with
  | Err error => Err (Custom (kind error) (str "unable to inspect private key " ++ path))
  | Ok m =>
      if negb (is_file m)
      then Err (Custom InvalidInput (str "private key is not a regular file: " ++ path))
      else if negb (bool_decide (os = Windows)) && negb (Z.land (mode m) 63 =? 0)  (* 0o077 *)
      then Err (Custom PermissionDenied (str "private key permissions are too open (" ++ display_octal3 (mode m)
                                            ++ str "); use chmod 600 " ++ path))
      else Ok tt
  end.

(** [CString::new(..).map_err(invalid_input)] *)
Definition check_c_string (s : rstr) : io unit :=
  if decide (0%N ∈ s) then Err (new_error InvalidInput "nul byte found in provided data") else Ok tt.

(** The calls on a context; a context is created at most once in a run. *)
Inductive ctx_call :=
| Init
| CTX_new (server : bool)
| Use_certificate_file (file : rstr)
| Use_PrivateKey_file (file : rstr)
| Load_verify_locations (file : rstr)
| Set_verify (mode : Z)
| EnableCRL
| LoadCRL (file : rstr)
| SetOCSP_OverrideURL (url : rstr)
| EnableOCSP (options : Z)
| CTX_free.

#[export] Instance ctx_call_eq_dec : EqDecision ctx_call.
Proof. solve_decision. Defined.

Definition VERIFY_NONE : Z := 0.
Definition VERIFY_PEER : Z := 1.
Definition VERIFY_FAIL_IF_NO_PEER_CERT : Z := 2.
Definition CTX_SUCCESS : Z := 1.

Section context.
(** What the library answers; [CTX_new] answers zero for a null pointer. *)
Context (lib : ctx_call -> Z).

(** Calls made in order until one fails: whether all succeeded, and the calls made. *)
Fixpoint attempt (calls : list ctx_call) : bool * list ctx_call :=
  match calls with
  | [] => (true, [])
  | c :: calls =>
      if lib c =? CTX_SUCCESS then let '(ok, made) := attempt calls in (ok, c :: made) else (false, [c])
  end.

(** A stage of [Dtls::new]: when a call fails the context is freed. *)
Definition stage (calls : list ctx_call) (message : string)
    (go_on : list ctx_call -> io unit * list ctx_call) (made : list ctx_call) : io unit * list ctx_call :=
  let '(ok, more) := attempt calls in
  if ok then go_on (made ++ more) else (Err (other message), made ++ more ++ [CTX_free]).

Definition ctx_ocsp (config : TlsConfig) (made : list ctx_call) : io unit * list ctx_call :=
  if ocsp_enabled config || bool_decide (is_Some (ocsp_url config)) then
    let enable options := stage [EnableOCSP options]
      "unable to enable OCSP verification; wolfSSL must include OCSP support" (fun made => (Ok tt, made)) in
    match ocsp_url config with
    | Some url => stage [SetOCSP_OverrideURL url] "unable to set OCSP override URL" (enable 1) made
    | None => enable 0 made
    end
  else (Ok tt, made).

Definition ctx_crl (config : TlsConfig) (made : list ctx_call) : io unit * list ctx_call :=
  match crl_file config with
  | Some crl => stage [EnableCRL; LoadCRL crl]
      "unable to enable CRL verification; wolfSSL must include CRL support" (ctx_ocsp config) made
  | None => ctx_ocsp config made
  end.

Definition ctx_verify (config : TlsConfig) (made : list ctx_call) : io unit * list ctx_call :=
  match ca_file config with
  | Some ca =>
      stage [Load_verify_locations ca] "unable to load CA file"
        (fun made => ctx_crl config
           (made ++ [Set_verify (Z.lor VERIFY_PEER
                       (if config_server config then VERIFY_FAIL_IF_NO_PEER_CERT else 0))])) made
  | None => ctx_crl config (made ++ [Set_verify VERIFY_NONE])
  end.

Definition check_option (o : option rstr) : io unit := from_option check_c_string (Ok tt) o.

(** [Dtls::new] before it calls the library. *)
Definition tls_checks (os : platform) (metadata : io Metadata) (config : TlsConfig) : io unit :=
  _ ← validate_mtu (mtu config);
  _ ← validate_private_key_file os (private_key_file config) metadata;
  _ ← check_c_string (certificate_file config);
  _ ← check_c_string (private_key_file config);
  _ ← check_option (ca_file config);
  _ ← check_option (crl_file config);
  check_option (ocsp_url config).

(** [Dtls::new]: the result and the calls made. *)
Definition dtls_new (os : platform) (metadata : io Metadata) (config : TlsConfig) : io unit * list ctx_call :=
  match tls_checks os metadata config with
  | Err error => (Err error, [])
  | Ok _ =>
      if negb (lib Init =? CTX_SUCCESS) then (Err (other "wolfSSL_Init failed"), [Init])
      else if lib (CTX_new (config_server config)) =? 0
      then (Err (other "wolfSSL_CTX_new failed"), [Init; CTX_new (config_server config)])
      else stage [Use_certificate_file (certificate_file config); Use_PrivateKey_file (private_key_file config)]
             "unable to load certificate or private key" (ctx_verify config)
             [Init; CTX_new (config_server config)]
  end.
End context.

(** ** Settings *)

Definition parse_setting (max : Z) (values : gmap rstr rstr) (key default message : string) : io Z :=
  ok_or (parse_uint max (value values (str key) (str default))) (other message).

Definition parse_address (values : gmap rstr rstr) (key default : string) (error : io_error) : io Ipv4Addr :=
  ok_or (parse_ipv4 (value values (str key) (str default))) error.

Definition in_range (low high n : Z) (message : string) : io Z :=
  if (low <=? n) && (n <=? high) then Ok n else Err (other message).

(** [values.get(key).filter(|value| !value.trim().is_empty())] *)
Definition optional_value (values : gmap rstr rstr) (key : string) : option rstr :=
  v ← values !! str key; if bool_decide (trim v = []) then None else Some v.

(** ** The client's settings *)
Record ClientSettings := {
  server_address : Ipv4Addr;
  client_port : Z;
  keepalive_interval : Duration;
  verify_server_san_ip : bool;
  force_dns : bool;
  dns_server : Ipv4Addr;
  client_config : TlsConfig;
}.

(** From [values] to the first use of a setting in [run_with_login]. *)
Definition client_settings (values : gmap rstr rstr) : io ClientSettings :=
  server ← parse_address values "server_address" "127.0.0.1" (other "invalid server_address");
  port ← parse_setting u16_max values "port" "4433" "invalid port";
  seconds ← parse_setting u64_max values "keepalive_interval" "30" "invalid keepalive_interval";
  seconds ← in_range 5 90 seconds "keepalive_interval must be between 5 and 90 seconds";
  verify ← boolean_value values (str "verify_server_san_ip") true;
  force_dns ← boolean_value values (str "force_dns") false;
  dns ← parse_address values "dns_server" "10.8.1.1" (new_error InvalidInput "invalid dns_server");
  ca ← required_value values (str "ca_file");
  ocsp ← boolean_value values (str "ocsp_enabled") true;
  mtu ← parse_setting u16_max values "mtu" "1200" "invalid mtu";
  Ok {| server_address := server; client_port := port; keepalive_interval := from_secs seconds;
        verify_server_san_ip := verify; force_dns := force_dns; dns_server := dns;
        client_config := {|
          config_server := false;
          certificate_file := value values (str "certificate_file") (str "client-cert.pem");
          private_key_file := value values (str "private_key_file") (str "client-key.pem");
          ca_file := Some ca; crl_file := optional_value values "crl_file"; ocsp_enabled := ocsp;
          ocsp_url := optional_value values "ocsp_url"; mtu := mtu |} |}.

(** ** The server's settings and start *)
Record ServerSettings := {
  settings_max_clients : Z;
  settings_max_pending : Z;
  settings_port : Z;
  settings_listen : Ipv4Addr;
  settings_config : TlsConfig;
  settings_verify_san : bool;
  settings_broadcast : bool;
  settings_multicast : bool;
  max_session_lifetime : Duration;
  config_reload_interval : Duration;
  control_socket_path : rstr;
  control_socket_group : option rstr;
}.

(** The settings before the sockets are opened. *)
Definition server_settings (values : gmap rstr rstr) : io ServerSettings :=
  max_clients ← parse_setting usize_max values "max_clients" "64" "invalid max_clients";
  max_clients ← in_range 1 1024 max_clients "max_clients must be between 1 and 1024";
  max_pending ← parse_setting usize_max values "max_pending_handshakes" "16" "invalid max_pending_handshakes";
  max_pending ← in_range 1 256 max_pending "max_pending_handshakes must be between 1 and 256";
  port ← parse_setting u16_max values "port" "4433" "invalid port";
  listen ← parse_address values "listen_address" "0.0.0.0" (other "invalid listen_address");
  ca ← required_value values (str "ca_file");
  ocsp ← boolean_value values (str "ocsp_enabled") true;
  mtu ← parse_setting u16_max values "mtu" "1200" "invalid mtu";
  verify ← boolean_value values (str "verify_client_san_ip") false;
  broadcast ← boolean_value values (str "allow_broadcast") false;
  multicast ← boolean_value values (str "allow_multicast") false;
  lifetime ← duration_value values (str "max_session_lifetime") 3600 60 604800;
  interval ← duration_value values (str "config_reload_interval") 30 5 3600;
  Ok {| settings_max_clients := max_clients; settings_max_pending := max_pending;
        settings_port := port; settings_listen := listen;
        settings_config := {|
          config_server := true;
          certificate_file := value values (str "certificate_file") (str "server-cert.pem");
          private_key_file := value values (str "private_key_file") (str "server-key.pem");
          ca_file := Some ca; crl_file := optional_value values "crl_file"; ocsp_enabled := ocsp;
          ocsp_url := optional_value values "ocsp_url"; mtu := mtu |};
        settings_verify_san := verify; settings_broadcast := broadcast; settings_multicast := multicast;
        max_session_lifetime := lifetime; config_reload_interval := interval;
        control_socket_path := value values (str "control_socket") (str "/var/run/autobricks-vpn.sock");
        control_socket_group := values !! str "control_socket_group" |}.

(** The VPN address and network. *)
Definition vpn_settings (values : gmap rstr rstr) : io (Ipv4Addr * rstr * (Ipv4Addr * Z)) :=
  vpn_address ← parse_address values "vpn_address" "10.8.1.1" (new_error InvalidInput "invalid vpn_address");
  let vpn_network := value values (str "vpn_network") (str "10.8.1.0/24") in
  network ← parse_ipv4_cidr vpn_network;
  if negb (ipv4_in_cidr vpn_address network.1 network.2)
  then Err (new_error InvalidInput "vpn_address is outside vpn_network")
  else Ok (vpn_address, vpn_network, network).

(** How the steps that touch the system end: the control socket with the value it gives, the
    UDP socket, opening the TUN device, its configuration with the forwarding rule, the cookie
    secret, and the acceptor; for the trial TLS context, what the system says of the private
    key's file and what the library answers. *)
Record System (D : Type) := {
  bind_control : io ControlSocket;
  bind_udp : io unit;
  open_tun : io unit;
  configure_tun : io unit;
  host : platform;
  key_metadata : io Metadata;
  tls_library : ctx_call -> Z;
  cookie_secret : io unit;
  acceptor : io D;
  started_at : Instant;
}.
Arguments bind_control {D} _.
Arguments bind_udp {D} _.
Arguments open_tun {D} _.
Arguments configure_tun {D} _.
Arguments host {D} _.
Arguments key_metadata {D} _.
Arguments tls_library {D} _.
Arguments cookie_secret {D} _.
Arguments acceptor {D} _.
Arguments started_at {D} _.

(** What the threads are started with. *)
Record Started (D : Type) := {
  context : DecryptContext;
  routing : EncryptRouting;
  settings : ServerSettings;
  server_vpn : Ipv4Addr * rstr;
  initial_server : Server D;
}.
Arguments context {D} _.
Arguments routing {D} _.
Arguments settings {D} _.
Arguments server_vpn {D} _.
Arguments initial_server {D} _.

Definition empty_world (t : Instant) (queue : Queue Packet) : World :=
  {| now := t; progress := 0; retry_requested := false; tun_read_queue := queue; control_wakes := 0;
     tun_attempts := []; tun_written := []; syslog := []; reload_acks := 0; past := nothing_past |}.

(** [ServerQueues::new]: the queue of received datagrams, and the packets of the TUN device. The
    model of the decrypt worker has the first one's content as an input. *)
Definition new_queue {T} : io (Queue T) :=
  map_err (fun _ => other "queue capacity must be greater than zero") (queue_new SERVER_QUEUE_CAPACITY).

Definition server_queues_new : io (Queue UdpDatagram * Queue Packet) :=
  udp_rx_queue ← new_queue;
  tun_read_queue ← new_queue;
  Ok (udp_rx_queue, tun_read_queue).

(** [server::run] up to the threads; [values] and [clients] are the two sections read. *)
Definition server_start {D} (sys : System D) (values : gmap rstr rstr) (clients : list (rstr * rstr))
    : io (Started D) :=
  s ← server_settings values;
  control ← bind_control sys;
  _ ← bind_udp sys;
  vpn ← vpn_settings values;
  let '(vpn_address, vpn_network, (network, prefix)) := vpn in
  logins ← client_logins clients;
  bindings ← validate_client_bindings clients vpn_address vpn_network;
  _ ← open_tun sys;
  _ ← validate_mtu (mtu (settings_config s));
  _ ← configure_tun sys;
  _ ← (dtls_new (tls_library sys) (host sys) (key_metadata sys) (settings_config s)).1;
  _ ← cookie_secret sys;
  acceptor ← acceptor sys;
  queues ← server_queues_new;
  Ok {| context := {|
          max_clients := Z.to_nat (settings_max_clients s);
          max_pending_handshakes := Z.to_nat (settings_max_pending s);
          verify_client_san_ip := settings_verify_san s;
          allow_broadcast := settings_broadcast s; allow_multicast := settings_multicast s;
          network_address := network; network_prefix := prefix |};
        routing := {| Encrypt.network_address := network; Encrypt.network_prefix := prefix;
                      Encrypt.allow_broadcast := settings_broadcast s;
                      Encrypt.allow_multicast := settings_multicast s |};
        settings := s; server_vpn := (vpn_address, vpn_network);
        initial_server := {|
          sessions := [];
          decrypt := {| bindings := bindings; logins := logins; stateless_acceptor := acceptor;
                        handshake_limiter := limiter_new 30 (from_secs 60) (from_secs 600) |};
          control := control;
          control_state := {| current_bindings := bindings; current_logins := logins;
                              next_config_reload := started_at sys + config_reload_interval s |};
          updates := []; world := empty_world (started_at sys) queues.2 |} |}.

(** ** Lemmas *)

Lemma in_range_Ok low high n m v : in_range low high n m = Ok v -> v = n /\ low <= n <= high.
Proof. unfold in_range. destruct (_ && _) eqn:Hr; [|done]. intros [= <-]. split; [done|lia]. Qed.

Lemma duration_value_Ok values key default minimum maximum d :
  duration_value values key default minimum maximum = Ok d -> from_secs minimum <= d <= from_secs maximum.
Proof.
  unfold duration_value, from_secs. intros (n & _ & Hn)%result_bind_Ok.
  destruct (_ && _) eqn:Hr; [|done]. injection Hn as <-. lia.
Qed.

(** Takes one step of a chain of checks that has succeeded. *)

Lemma server_settings_Ok values s :
  server_settings values = Ok s ->
  1 <= settings_max_clients s <= 1024 /\ 1 <= settings_max_pending s <= 256 /\
  from_secs 60 <= max_session_lifetime s <= from_secs 604800 /\
  from_secs 5 <= config_reload_interval s <= from_secs 3600 /\
  config_server (settings_config s) = true /\ is_Some (ca_file (settings_config s)).
Proof.
  unfold server_settings. intros H.
  next_check H n0 Hx. clear Hx. next_check H n1 Hc. next_check H p0 Hx. clear Hx. next_check H p1 Hp.
  next_check H port Hx. clear Hx. next_check H listen Hx. clear Hx. next_check H ca Hx. clear Hx.
  next_check H ocsp Hx. clear Hx. next_check H m Hx. clear Hx. next_check H verify Hx. clear Hx.
  next_check H broadcast Hx. clear Hx. next_check H multicast Hx. clear Hx.
  next_check H lifetime Hl. next_check H interval Hi. injection H as <-. cbn.
  apply in_range_Ok in Hc as [-> Hc], Hp as [-> Hp]. apply duration_value_Ok in Hl, Hi.
  split; [done|]. split; [done|]. split; [done|]. split; [done|]. split; [done|by eexists].
Qed.

Lemma validate_mtu_Ok m : validate_mtu m = Ok tt -> 576 <= m <= 1500.
Proof. unfold validate_mtu, MIN_TUN_MTU, MAX_TUN_MTU. destruct (_ && _) eqn:Hm; [lia|done]. Qed.

Lemma server_start_Ok {D} (sys : System D) values clients st :
  server_start sys values clients = Ok st ->
  server_settings values = Ok (settings st) /\
  vpn_settings values = Ok ((server_vpn st).1, (server_vpn st).2, (network_address (context st), network_prefix (context st))) /\
  validate_client_bindings clients (server_vpn st).1 (server_vpn st).2 = Ok (bindings (decrypt (initial_server st))) /\
  client_logins clients = Ok (logins (decrypt (initial_server st))) /\
  576 <= mtu (settings_config (settings st)) <= 1500 /\
  max_clients (context st) = Z.to_nat (settings_max_clients (settings st)) /\
  max_pending_handshakes (context st) = Z.to_nat (settings_max_pending (settings st)) /\
  routing st = routing_of (context st) /\ sessions (initial_server st) = [] /\ updates (initial_server st) = [] /\
  current_bindings (control_state (initial_server st)) = bindings (decrypt (initial_server st)) /\
  current_logins (control_state (initial_server st)) = logins (decrypt (initial_server st)).
Proof.
  unfold server_start. intros H. next_check H s Hs. next_check H ctl Hx. clear Hx. next_check H u Hx. clear Hx.
  next_check H vpn Hv. destruct vpn as [[a n] [net prefix]].
  next_check H lg Hlg. next_check H b Hb. next_check H u0 Hx. clear Hx.
  next_check H u1 Hm. destruct u1. next_check H u2 Hx. clear Hx. next_check H u3 Hx. clear Hx. next_check H u4 Hx. clear Hx.
  next_check H acc Hx. clear Hx. next_check H q Hx. clear Hx. injection H as <-. cbn.
  split; [done|]. split; [done|]. split; [done|]. split; [done|]. split; [by apply validate_mtu_Ok|].
  by split_and!.
Qed.

Lemma server_start_tls {D} (sys : System D) values clients st :
  server_start sys values clients = Ok st ->
  (dtls_new (tls_library sys) (host sys) (key_metadata sys) (settings_config (settings st))).1 = Ok tt.
Proof.
  unfold server_start. intros H. next_check H s Hx. clear Hx. next_check H ctl Hx. clear Hx. next_check H u Hx. clear Hx.
  next_check H vpn Hx. clear Hx. destruct vpn as [[a n] [net prefix]].
  do 4 (let x := fresh "x" in next_check H x Hx; clear Hx). next_check H u2 Hx. clear Hx. next_check H u3 Htls.
  do 3 (let x := fresh "x" in next_check H x Hx; clear Hx). injection H as <-. by destruct u3.
Qed.

(** Both threads start with the same configuration. *)
Lemma server_start_agreed {D} (sys : System D) values clients st :
  server_start sys values clients = Ok st -> agreed (initial_server st).
Proof.
  intros (_ & _ & _ & _ & _ & _ & _ & _ & _ & Hu & Hb & Hl)%server_start_Ok. unfold agreed. by rewrite Hu.
Qed.

Lemma server_start_world {D} (sys : System D) values clients st :
  server_start sys values clients = Ok st -> exists t queue, world (initial_server st) = empty_world t queue.
Proof.
  unfold server_start. intros H.
  repeat (let x := fresh "x" in next_check H x Hx; clear Hx;
          match type of x with (_ * _ * (_ * _))%type => destruct x as [[? ?] [? ?]] | _ => idtac end).
  injection H as <-. by eexists _, _.
Qed.

(** *** The TLS context *)

(** What a configuration asks of the context, in this order: the credentials, what the peer's
    certificate is checked against, and its revocation checks. *)
Definition ocsp_calls (config : TlsConfig) : list ctx_call :=
  match ocsp_url config with
  | Some url => [SetOCSP_OverrideURL url; EnableOCSP 1]
  | None => if ocsp_enabled config then [EnableOCSP 0] else []
  end.
Definition crl_calls (config : TlsConfig) : list ctx_call :=
  match crl_file config with Some crl => [EnableCRL; LoadCRL crl] | None => [] end.
Definition verify_calls (config : TlsConfig) : list ctx_call :=
  match ca_file config with
  | Some ca => [Load_verify_locations ca; Set_verify (if config_server config then 3 else 1)]
  | None => [Set_verify 0]
  end.
Definition requested (config : TlsConfig) : list ctx_call :=
  [Use_certificate_file (certificate_file config); Use_PrivateKey_file (private_key_file config)]
    ++ verify_calls config ++ crl_calls config ++ ocsp_calls config.

(** Setting the verification mode returns nothing; every other call reports whether it succeeded. *)
Definition fallible (c : ctx_call) : bool := if c is Set_verify _ then false else true.

Section context_lemmas.
Context (lib : ctx_call -> Z).

Definition accepted (c : ctx_call) : Prop := fallible c = true -> lib c = CTX_SUCCESS.

(** How a run of stages from [made] ends: it succeeds exactly if everything [wanted] is accepted,
    having called just that; otherwise it stops on the way and frees the context. *)
Definition stage_ends (wanted : list ctx_call) (made : list ctx_call) (r : io unit * list ctx_call) : Prop :=
  match r.1 with
  | Ok _ => r.2 = made ++ wanted /\ Forall accepted wanted
  | Err _ => ~ Forall accepted wanted /\
      exists more, r.2 = made ++ more ++ [CTX_free] /\ more `prefix_of` wanted
  end.

Lemma attempt_spec calls :
  Forall (fun c => fallible c = true) calls ->
  match attempt lib calls with
  | (true, more) => more = calls /\ Forall accepted calls
  | (false, more) => more `prefix_of` calls /\ ~ Forall accepted calls
  end.
Proof.
  induction 1 as [|c calls Hc _ IH]; cbn [attempt]; [by split|]. destruct (Z.eqb_spec (lib c) CTX_SUCCESS).
  - destruct (attempt lib calls) as [[] more]; destruct IH as [IH1 IH2].
    + split; [by rewrite IH1|]. constructor; [by intros _|done].
    + split; [by apply prefix_cons|]. by intros [_ ?]%Forall_cons.
  - split; [by exists calls|]. intros [Ha _]%Forall_cons. by apply Ha in Hc.
Qed.

Lemma stage_spec calls message go_on made wanted :
  Forall (fun c => fallible c = true) calls ->
  stage_ends wanted (made ++ calls) (go_on (made ++ calls)) ->
  stage_ends (calls ++ wanted) made (stage lib calls message go_on made).
Proof.
  intros Hc%attempt_spec Hgo. unfold stage. destruct (attempt lib calls) as [[] more]; destruct Hc as [Hm Ha].
  - rewrite Hm. unfold stage_ends in *. destruct ((go_on _).1).
    + destruct Hgo as [-> Hw]. split; [by rewrite (assoc_L (++))|by apply Forall_app].
    + destruct Hgo as [Hw (more' & -> & Hp)]. split; [by intros [_ ?]%Forall_app|].
      exists (calls ++ more'). rewrite <-!(assoc_L (++)). split; [done|by apply prefix_app].
  - split; [by intros [? _]%Forall_app|]. exists more. split; [done|]. by apply prefix_app_r.
Qed.

(** Setting the mode between two stages. *)
Lemma stage_ends_void mode wanted made r :
  stage_ends wanted (made ++ [Set_verify mode]) r -> stage_ends (Set_verify mode :: wanted) made r.
Proof.
  unfold stage_ends. destruct (r.1).
  - intros [-> Hw]. split; [by rewrite <-(assoc_L (++))|]. by constructor.
  - intros [Hw (more & -> & Hp)]. split; [by intros [_ ?]%Forall_cons|].
    exists (Set_verify mode :: more). rewrite <-!(assoc_L (++)). split; [done|by apply prefix_cons].
Qed.

Lemma stage_ends_done made : stage_ends [] made (Ok tt, made).
Proof. split; [by rewrite (right_id_L [] (++))|done]. Qed.

Lemma ctx_ocsp_spec config made : stage_ends (ocsp_calls config) made (ctx_ocsp lib config made).
Proof.
  unfold ctx_ocsp, ocsp_calls. destruct (ocsp_url config) as [url|].
  - rewrite bool_decide_eq_true_2, orb_true_r by eauto.
    apply (stage_spec [SetOCSP_OverrideURL url] _ _ _ [EnableOCSP 1]); [by repeat constructor|].
    apply (stage_spec [EnableOCSP 1] _ _ _ []); [by repeat constructor|]. apply stage_ends_done.
  - rewrite bool_decide_eq_false_2, orb_false_r by (by intros [? ?]).
    destruct (ocsp_enabled config); [|apply stage_ends_done].
    apply (stage_spec [EnableOCSP 0] _ _ _ []); [by repeat constructor|]. apply stage_ends_done.
Qed.

Lemma ctx_crl_spec config made : stage_ends (crl_calls config ++ ocsp_calls config) made (ctx_crl lib config made).
Proof.
  unfold ctx_crl, crl_calls. destruct (crl_file config) as [crl|]; [|apply ctx_ocsp_spec].
  apply stage_spec; [by repeat constructor|]. apply ctx_ocsp_spec.
Qed.

Lemma ctx_verify_spec config made :
  stage_ends (verify_calls config ++ crl_calls config ++ ocsp_calls config) made (ctx_verify lib config made).
Proof.
  unfold ctx_verify, verify_calls.
  assert (Z.lor VERIFY_PEER (if config_server config then VERIFY_FAIL_IF_NO_PEER_CERT else 0)
          = if config_server config then 3 else 1) as -> by by destruct (config_server config).
  destruct (ca_file config) as [ca|]; [|apply stage_ends_void, ctx_crl_spec].
  apply (stage_spec [Load_verify_locations ca]); [by repeat constructor|]. apply stage_ends_void, ctx_crl_spec.
Qed.

(** [Dtls::new] once the context is there. *)
Lemma dtls_new_stages os metadata config :
  tls_checks os metadata config = Ok tt -> lib Init = CTX_SUCCESS -> lib (CTX_new (config_server config)) <> 0 ->
  stage_ends (requested config) [Init; CTX_new (config_server config)] (dtls_new lib os metadata config).
Proof.
  intros Hc Hi Hn. unfold dtls_new. rewrite Hc, Hi. cbn [Z.eqb CTX_SUCCESS Pos.eqb negb].
  destruct (Z.eqb_spec (lib (CTX_new (config_server config))) 0); [done|].
  apply stage_spec; [by repeat constructor|]. apply ctx_verify_spec.
Qed.

(** It fails before, or the context is there. *)
Lemma dtls_new_early os metadata config r calls :
  dtls_new lib os metadata config = (r, calls) ->
  tls_checks os metadata config = Ok tt /\ lib Init = CTX_SUCCESS /\ lib (CTX_new (config_server config)) <> 0 \/
  (exists e, r = Err e) /\ calls `prefix_of` [Init; CTX_new (config_server config)] /\
  ~ (tls_checks os metadata config = Ok tt /\ lib Init = CTX_SUCCESS /\ lib (CTX_new (config_server config)) <> 0) /\
  bool_decide (CTX_new (config_server config) ∈ calls) && negb (lib (CTX_new (config_server config)) =? 0) = false.
Proof.
  unfold dtls_new. destruct (tls_checks _ _ _) as [[]|e].
  2:{ intros [= <- <-]. right. rewrite bool_decide_eq_false_2 by apply not_elem_of_nil. split_and!; [eauto|apply prefix_nil|naive_solver|done]. }
  destruct (Z.eqb_spec (lib Init) CTX_SUCCESS) as [Hi|Hi]; cbn [negb].
  2:{ intros [= <- <-]. right. rewrite bool_decide_eq_false_2 by set_solver.
      split_and!; [eauto|by eexists|naive_solver|done]. }
  destruct (Z.eqb_spec (lib (CTX_new (config_server config))) 0) as [H0|H0]; [|by left].
  intros [= <- <-]. right. rewrite andb_false_r. split_and!; [eauto|done|naive_solver|done].
Qed.

Lemma dtls_new_Ok os metadata config :
  (dtls_new lib os metadata config).1 = Ok tt ->
  (dtls_new lib os metadata config).2 = [Init; CTX_new (config_server config)] ++ requested config /\
  Forall accepted (requested config).
Proof.
  intros Hr. destruct (dtls_new_early os metadata config _ _ (surjective_pairing _)) as [(Hc & Hi & Hn)|([e He] & _)]; [|congruence].
  pose proof (dtls_new_stages os metadata config Hc Hi Hn) as Hends. unfold stage_ends in Hends. by rewrite Hr in Hends.
Qed.

Lemma tls_checks_key os metadata config :
  tls_checks os metadata config = Ok tt ->
  exists m, metadata = Ok m /\ is_file m = true /\ (os <> Windows -> Z.land (mode m) 63 = 0).
Proof.
  intros (u0 & _ & (u1 & Hk & _)%result_bind_Ok)%result_bind_Ok.
  unfold validate_private_key_file in Hk. destruct metadata as [m|]; [|done].
  destruct (is_file m) eqn:Hfile; [|done]. cbn [negb] in Hk. exists m. split_and!; [done..|]. intros Hos.
  rewrite bool_decide_eq_false_2 in Hk by done. by destruct (Z.eqb_spec (Z.land (mode m) 63) 0).
Qed.
End context_lemmas.

(** ** Lemmas: addresses *)

(** Bindings to addresses of the VPN network other than the server's. *)
Definition in_network (a : Ipv4Addr) (network : rstr) (address : Ipv4Addr) : Prop :=
  address <> a /\ exists net, parse_ipv4_cidr network = Ok net /\ ipv4_in_cidr address net.1 net.2 = true.
Definition bindings_inside (a : Ipv4Addr) (network : rstr) (b : gmap Ipv4Addr rstr) : Prop :=
  forall address f, b !! address = Some f -> in_network a network address.

Lemma validate_client_bindings_inside entries a network b :
  validate_client_bindings entries a network = Ok b -> bindings_inside a network b.
Proof.
  unfold validate_client_bindings.
  intros (net & Hnet & (pairs & _ & Hok & Hd & _ & _ & ->)%bindings_loop_Ok)%result_bind_Ok address f.
  rewrite (right_id_L ∅ (∪)). intros Hin%elem_of_list_to_map_2. rewrite Forall_forall in Hok.
  destruct (Hok _ Hin) as [H1 H2]. split; [done|]. by exists net.
Qed.

Lemma read_update_inside {D} file a network (fresh : io D) b lg d :
  read_update file a network fresh = Ok (b, lg, d) -> bindings_inside a network b.
Proof.
  unfold read_update. intros H. next_check H entries Hx. clear Hx. next_check H lg' Hx. clear Hx.
  next_check H b' Hb. next_check H d' Hx. clear Hx. injection H as <- <- <-.
  by eapply validate_client_bindings_inside.
Qed.

Section addresses.
Context {D : Type} `{DtlsLaws D} (ctx : DecryptContext) (life : Duration) (a : Ipv4Addr)
  (network : rstr) (interval : Duration).
Implicit Types v : Server D.

Record addresses_ok v : Prop := {
  addresses_bound : bindings_inside a network (bindings (decrypt v));
  addresses_updates : Forall (fun u => bindings_inside a network (new_bindings u)) (updates v);
  addresses_sessions : forall s, s ∈ sessions v -> established s = true -> in_network a network (address s);
}.

Lemma apply_reloads_inside us st w st' w' :
  apply_reloads us st w = (st', w') -> bindings_inside a network (bindings st) ->
  Forall (fun u : ReloadUpdate D => bindings_inside a network (new_bindings u)) us ->
  bindings_inside a network (bindings st').
Proof.
  unfold apply_reloads. set (st0 := st <| handshake_limiter ::= _ |>). intros Hf Hb.
  change (bindings_inside a network (bindings st0)) in Hb. clearbody st0. revert st0 w Hf Hb.
  induction us as [|u us IH]; intros st0 w; cbn [foldl]; [by intros [= <- <-]|].
  intros Hf _ [Hu Hus]%Forall_cons. cbn [apply_reload] in Hf. by apply IH in Hf.
Qed.

Lemma reload_update_inside file (fresh : io D) receiving acked finished requested cs0 c0 l0 w0 r c l w :
  reload file a network fresh interval receiving acked finished requested cs0 c0 l0 w0 = (r, c, l, w) ->
  Forall (fun u : ReloadUpdate D => bindings_inside a network (new_bindings u)) (option_list (r ≫= fst)).
Proof.
  unfold reload. destruct (read_update file a network fresh) as [[[b lg] d]|e] eqn:Hr.
  - destruct (revoke_sessions _ _ _ _ _) as [l1 w1]. destruct receiving; intros [= <- _ _ _]; [|constructor].
    apply Forall_singleton. by eapply read_update_inside.
  - intros [= <- _ _ _]. constructor.
Qed.

Lemma step_addresses v v' :
  (1 <= max_pending_handshakes ctx)%nat -> list_good ctx (sessions v) ->
  step ctx life a network interval v v' -> addresses_ok v -> addresses_ok v'.
Proof.
  intros Hmp Hg Hstep [Hb Hu Hs].
  assert (forall s, s ∈ sessions v' -> established s = true -> in_network a network (address s)) as Hs'.
  { intros s Hin He. destruct (step_spec _ _ _ _ _ _ _ Hmp Hg Hstep) as [_ Hk].
    destruct (Hk s Hin He) as [(s0 & Hin0 & He0 & [= _ Ha _ _])|(dg & t & d0 & d & o & o' & fp & _ & _ & Hc & _)].
    - rewrite Ha. by apply Hs.
    - destruct Hc as [Hbind _]. by eapply Hb. }
  split; [| |exact Hs'].
  - destruct Hstep; cbn; try done.
    + by eapply apply_reloads_inside.
    + match goal with Hd : handle_datagram _ _ _ _ _ _ = _ |- _ =>
        pose proof (handle_datagram_spec ctx _ _ _ _ _ _ _ _ _ Hmp Hg Hd) as (_ & -> & _) end. done.
  - destruct Hstep; cbn; try done.
    apply Forall_app. split; [done|]. by eapply reload_update_inside.
Qed.
End addresses.

(** ** Properties *)

(** What a server's context has checked once it is there. *)
Lemma requested_accepted lib os metadata config :
  (dtls_new lib os metadata config).1 = Ok tt -> config_server config = true -> is_Some (ca_file config) ->
  let calls := (dtls_new lib os metadata config).2 in
  (exists ca, ca_file config = Some ca /\ Load_verify_locations ca ∈ calls /\
     lib (Load_verify_locations ca) = CTX_SUCCESS /\
     Set_verify (Z.lor VERIFY_PEER VERIFY_FAIL_IF_NO_PEER_CERT) ∈ calls) /\
  (forall c, c ∈ crl_calls config ++ ocsp_calls config -> c ∈ calls /\ lib c = CTX_SUCCESS).
Proof.
  intros [-> Ha]%dtls_new_Ok Hserver [ca Hca] calls. rewrite Forall_forall in Ha.
  assert (forall c, c ∈ requested config -> c ∈ [Init; CTX_new (config_server config)] ++ requested config) as Hin by set_solver.
  assert (Load_verify_locations ca ∈ requested config /\ Set_verify 3 ∈ requested config) as [Hl Hv].
  { unfold requested, verify_calls. rewrite Hca, Hserver. set_solver. }
  split.
  - exists ca. split_and!; [done|by apply Hin|by apply Ha|by apply Hin].
  - intros c Hc. assert (c ∈ requested config) as Hq by (unfold requested; set_solver).
    split; [by apply Hin|]. apply Ha; [done|].
    unfold crl_calls, ocsp_calls in Hc. clear -Hc. destruct (crl_file config), (ocsp_url config), (ocsp_enabled config);
      cbn [app] in Hc; repeat (apply elem_of_cons in Hc as [->|Hc]; [done|]); by apply elem_of_nil in Hc.
Qed.

(** C4: A started server keeps its promises. When [server::run] gets as far as its threads,
    both packet paths use the same network and forwarding rules, and wolfSSL has loaded the
    configured CA, was told to demand a certificate of every client, and has accepted every
    revocation check the configuration asks for; and in every state the server can reach from there, whatever the
    threads, the network and later reloads of the configuration do, there are fewer than 1280
    sessions, at most 1024 VPN addresses are in use, and every established session's address
    lies in the VPN network and is not the server's own. *)
Theorem started_server_safe {D} `{DtlsLaws D} (sys : System D) values clients st v :
  server_start sys values clients = Ok st ->
  rtc (step (context st) (max_session_lifetime (settings st)) (server_vpn st).1 (server_vpn st).2
         (config_reload_interval (settings st))) (initial_server st) v ->
  let config := settings_config (settings st) in
  let calls := (dtls_new (tls_library sys) (host sys) (key_metadata sys) config).2 in
  routing st = routing_of (context st) /\
  (exists ca, ca_file config = Some ca /\ Load_verify_locations ca ∈ calls /\
     tls_library sys (Load_verify_locations ca) = CTX_SUCCESS /\
     Set_verify (Z.lor VERIFY_PEER VERIFY_FAIL_IF_NO_PEER_CERT) ∈ calls) /\
  (forall c, c ∈ crl_calls config ++ ocsp_calls config -> c ∈ calls /\ tls_library sys c = CTX_SUCCESS) /\
  (length (sessions v) < 1280)%nat /\ (size (established_addresses (sessions v)) <= 1024)%nat /\
  forall s, s ∈ sessions v -> established s = true ->
    in_network (server_vpn st).1 (server_vpn st).2 (address s).
Proof.
  intros Hst. pose proof (server_start_tls _ _ _ _ Hst) as Htls. revert Hst.
  intros (Hset & _ & Hb & _ & _ & Hmc & Hmp & Hr & Hs & Hu & _)%server_start_Ok Hrun config calls.
  destruct (server_settings_Ok _ _ Hset) as (H1 & H2 & _ & _ & Hserver & Hca).
  destruct (requested_accepted _ _ _ _ Htls Hserver Hca) as [Hverify Hrevoke].
  assert (1 <= max_clients (context st) <= 1024)%nat as Hc by lia.
  assert (1 <= max_pending_handshakes (context st) <= 256)%nat as Hp by lia. clear Hmc Hmp.
  assert (forall v1, rtc (step (context st) (max_session_lifetime (settings st)) (server_vpn st).1 (server_vpn st).2
         (config_reload_interval (settings st))) (initial_server st) v1 -> list_good (context st) (sessions v1)) as Hgood.
  { intros v1 Hrun1. eapply reachable_good; [lia..|]. by exists (initial_server st). }
  split; [done|]. split; [exact Hverify|]. split; [exact Hrevoke|]. clear Htls Hverify Hrevoke config calls.
  destruct (Hgood v Hrun) as [_ [_ _ K3 _ K5]]. rewrite length_fmap in K3. rewrite key_addresses_sessions in K5.
  split; [lia|]. split; [lia|].
  assert (addresses_ok (server_vpn st).1 (server_vpn st).2 v) as [_ _ Hok]; [|exact Hok].
  assert (addresses_ok (server_vpn st).1 (server_vpn st).2 (initial_server st)) as Hinit.
  { split; [by eapply validate_client_bindings_inside|by rewrite Hu|]. rewrite Hs. by intros s ?%elem_of_nil. }
  clear Hs Hu Hb Hset K3 K5. revert Hgood Hinit. clear Hca Hr Hserver.
  induction Hrun as [|v0 v1 v2 Hstep _ IH]; intros Hgood Hinit; [done|]. apply IH.
  - intros v3 Hv3. apply Hgood. by eapply rtc_l.
  - eapply step_addresses; [|apply (Hgood v0), rtc_refl|exact Hstep|exact Hinit]. lia.
Qed.

(** C36: A TLS context is complete or gone, and a check that was asked for is never skipped.
    [Dtls::new] succeeds if and only if its checks of the configuration pass and the library
    accepts every call that the configuration asks for: credentials, CA, revocation lists, OCSP
    (README.md:294 and 492). It has then made these calls in this order and no others, demanding
    a certificate of clients, with a private key that is a regular file and that, on Unix, nobody
    but its owner can access. When it fails after the context was created, it has stopped on
    the way, freed the context once, and touched it no more. *)
Theorem dtls_new_complete lib os metadata config r calls :
  dtls_new lib os metadata config = (r, calls) ->
  let all := [Init; CTX_new (config_server config)] ++ requested config in
  (r = Ok tt <-> tls_checks os metadata config = Ok tt /\ lib Init = CTX_SUCCESS /\
     lib (CTX_new (config_server config)) <> 0 /\ Forall (accepted lib) (requested config)) /\
  match r with
  | Ok _ => calls = all /\
      exists m, metadata = Ok m /\ is_file m = true /\ (os <> Windows -> Z.land (mode m) 63 = 0)
  | Err _ =>
      if bool_decide (CTX_new (config_server config) ∈ calls) && negb (lib (CTX_new (config_server config)) =? 0)
      then exists before, calls = before ++ [CTX_free] /\ before `prefix_of` all
      else calls `prefix_of` [Init; CTX_new (config_server config)]
  end.
Proof.
  intros E all. destruct (dtls_new_early _ _ _ _ _ _ E) as [(Hc & Hi & Hn)|([e ->] & Hp & Hnot & ->)].
  - pose proof (dtls_new_stages lib os metadata config Hc Hi Hn) as Hends. rewrite E in Hends.
    unfold stage_ends in Hends. cbn [fst snd] in Hends. destruct r as [[]|e].
    + destruct Hends as [-> Hw]. split; [done|]. split; [done|]. by eapply tls_checks_key.
    + destruct Hends as [Hw (more & -> & Hp)]. split; [naive_solver|].
      rewrite bool_decide_eq_true_2 by set_solver. destruct (Z.eqb_spec (lib (CTX_new (config_server config))) 0); [done|].
      exists ([Init; CTX_new (config_server config)] ++ more). rewrite <-(assoc_L (++)). split; [done|by apply prefix_app].
  - split; [naive_solver|done].
Qed.

(** *** Machine types *)

(** Values of [u16] and of a duration in whole seconds that fits [u64]; what the settings of
    either program are made of. *)
Definition is_u16 (n : Z) : Prop := 0 <= n <= u16_max.
Definition is_duration (d : Duration) : Prop := 0 <= d /\ d mod from_secs 1 = 0 /\ as_secs d <= u64_max.

Lemma parse_setting_typed max values key default message n :
  0 <= max -> parse_setting max values key default message = Ok n -> 0 <= n <= max.
Proof. intros Hm Hp%ok_or_Ok. by eapply parse_uint_bound. Qed.

Lemma parse_address_typed values key default error a : parse_address values key default error = Ok a -> is_ipv4 a.
Proof. intros Hp%ok_or_Ok. by eapply parse_ipv4_range. Qed.

Lemma from_secs_duration n : 0 <= n <= u64_max -> is_duration (from_secs n).
Proof.
  intros Hn. unfold is_duration, from_secs, as_secs. rewrite Z.mul_1_l, Z.mod_mul, Z.div_mul by lia. lia.
Qed.

Lemma duration_value_typed values key default minimum maximum d :
  0 <= minimum -> maximum <= u64_max -> duration_value values key default minimum maximum = Ok d -> is_duration d.
Proof.
  unfold duration_value. intros H0 Hm (n & _ & Hn)%result_bind_Ok.
  destruct (_ && _) eqn:Hr; [|done]. injection Hn as <-. apply from_secs_duration. lia.
Qed.

Record server_typed (s : ServerSettings) : Prop := {
  typed_clients : 1 <= settings_max_clients s <= 1024;
  typed_pending : 1 <= settings_max_pending s <= 256;
  typed_port : is_u16 (settings_port s);
  typed_listen : is_ipv4 (settings_listen s);
  typed_mtu : is_u16 (mtu (settings_config s));
  typed_lifetime : is_duration (max_session_lifetime s);
  typed_interval : is_duration (config_reload_interval s);
}.

Record client_typed (s : ClientSettings) : Prop := {
  typed_server : is_ipv4 (server_address s);
  typed_client_port : is_u16 (client_port s);
  typed_keepalive : is_duration (keepalive_interval s) /\ from_secs 5 <= keepalive_interval s <= from_secs 90;
  typed_dns : is_ipv4 (dns_server s);
  typed_client_mtu : is_u16 (mtu (client_config s));
}.

(** C37: Whatever text the configuration holds, the settings the programs accept are values of their
    machine types: ports and MTUs of [u16], addresses of [u32], intervals that are whole seconds
    of [u64], limits in their ranges; and the VPN network is a network with the server inside. *)
Theorem settings_typed values :
  (forall s, server_settings values = Ok s -> server_typed s) /\
  (forall s, client_settings values = Ok s -> client_typed s) /\
  (forall a text n p, vpn_settings values = Ok (a, text, (n, p)) ->
     is_ipv4 a /\ is_network n p /\ ipv4_in_cidr a n p = true).
Proof.
  split_and!.
  - intros s H. pose proof (server_settings_Ok _ _ H) as (Hc & Hp & _). unfold server_settings in H.
    next_check H n0 Hx. clear Hx. next_check H n1 Hx. clear Hx. next_check H p0 Hx. clear Hx. next_check H p1 Hx. clear Hx.
    next_check H port Hport. next_check H listen Hl. next_check H ca Hx. clear Hx.
    next_check H ocsp Hx. clear Hx. next_check H m Hm. next_check H verify Hx. clear Hx.
    next_check H broadcast Hx. clear Hx. next_check H multicast Hx. clear Hx.
    next_check H lifetime Hlife. next_check H interval Hi. injection H as <-.
    apply parse_setting_typed in Hport, Hm; [|done..]. apply parse_address_typed in Hl.
    apply duration_value_typed in Hlife, Hi; [|done..]. by split.
  - intros s H. unfold client_settings in H. next_check H server Hs. next_check H port Hport. next_check H n0 Hn.
    next_check H n1 Hr. next_check H v Hx. clear Hx. next_check H f Hx. clear Hx. next_check H dns Hd.
    next_check H ca Hx. clear Hx. next_check H ocsp Hx. clear Hx. next_check H m Hm. injection H as <-.
    apply parse_setting_typed in Hport, Hm, Hn; [|done..]. apply parse_address_typed in Hs, Hd.
    apply in_range_Ok in Hr as [-> Hr]. split; cbn; [done..| |done|done].
    split; [by apply from_secs_duration|unfold from_secs; lia].
  - intros a text n p H. unfold vpn_settings in H. next_check H a' Ha. next_check H net Hn.
    destruct (ipv4_in_cidr _ _ _) eqn:Hin; [|done]. injection H as <- <- ->.
    split; [by eapply parse_address_typed|]. split; [by eapply parse_ipv4_cidr_network|done].
Qed.

(** ** Examples *)
Definition example_system : System PlainDtls :=
  {| bind_control := Ok example_control; bind_udp := Ok tt; open_tun := Ok tt; configure_tun := Ok tt; host := Linux;
     key_metadata := Ok {| is_file := true; mode := 384 |}; tls_library := fun _ => CTX_SUCCESS;
     cookie_secret := Ok tt; acceptor := Ok (example_acceptor true); started_at := from_secs 1000 |}.
Definition example_values : gmap rstr rstr := {[str "ca_file" := str "ca.pem"]}.

(** The started server after one datagram. *)
Definition first_datagram (st : Started PlainDtls) : Server PlainDtls :=
  let v := initial_server st in
  let '(_, d, l, w) := handle_datagram (context st) (Ok (example_acceptor true)) (example_datagram [1])
                         (decrypt v) (sessions v) (world v) in
  v <| sessions := l |> <| decrypt := d |> <| world := w |>.

Lemma started_server_safe_witness :
  exists st, server_start example_system example_values example_entries = Ok st /\
    length (sessions (first_datagram st)) = 1%nat /\ (length (sessions (first_datagram st)) < 1280)%nat.
Proof.
  assert (match server_start example_system example_values example_entries with
          | Ok st => Nat.eqb (length (sessions (first_datagram st))) 1
          | Err _ => false
          end = true) as Hone by (vm_compute; reflexivity).
  destruct (server_start example_system example_values example_entries) as [st|e] eqn:Hs; [|discriminate].
  exists st. split; [reflexivity|]. split; [by apply Nat.eqb_eq|].
  apply (started_server_safe example_system example_values example_entries st (first_datagram st) Hs).
  apply rtc_once. unfold first_datagram.
  destruct (handle_datagram (context st) (Ok (example_acceptor true)) (example_datagram [1])
      (decrypt (initial_server st)) (sessions (initial_server st)) (world (initial_server st)))
      as [[[e d] l] w] eqn:Hd.
  by eapply step_datagram.
Defined.

Definition example_tls : TlsConfig :=
  {| config_server := true; certificate_file := str "cert.pem"; private_key_file := str "key.pem";
     ca_file := Some (str "ca.pem"); crl_file := None; ocsp_enabled := true; ocsp_url := None; mtu := 1200 |}.

(** A library without CRL and OCSP support. *)
Definition no_ocsp (c : ctx_call) : Z := match c with EnableOCSP _ => 0 | _ => 1 end.

Lemma dtls_new_complete_witness :
  exists before, (dtls_new no_ocsp Linux (Ok {| is_file := true; mode := 384 |}) example_tls).2 = before ++ [CTX_free] /\
    before `prefix_of` [Init; CTX_new true] ++ requested example_tls.
Proof.
  pose proof (dtls_new_complete no_ocsp Linux (Ok {| is_file := true; mode := 384 |}) example_tls _ _
    (surjective_pairing (dtls_new no_ocsp Linux (Ok {| is_file := true; mode := 384 |}) example_tls))) as [_ Hc].
  exact Hc.
Defined.
