(* ===== verification/Dtls.v ===== *)
(** * DTLS sessions over wolfSSL

    Models [Dtls] and [DtlsIo] of [src/lib.rs]: the wrapper around one wolfSSL session and
    the receive and send callbacks the library calls back into. The library itself is a
    parameter: each of its calls is a computation that may invoke the callbacks and ends
    with a result and a new library state. The file shows that the wrapper implements the
    interface the server threads rely on. *)

From S2P Require Import Prelude Text Net Config Queue DtlsApi Session.

Local Open Scope Z_scope.

Definition SUCCESS : Z := 1.
Definition ERROR_WANT_READ : Z := 2.
Definition ERROR_WANT_WRITE : Z := 3.
Definition SOCKET_ERROR : Z := -308.
Definition APP_DATA_READY : Z := -441.

(** ** The library *)

(** A call into the library: it ends, or invokes a callback and goes on with the answer. *)
Inductive wolf (Ssl A : Type) :=
| Done (result : A) (ssl : Ssl)
| CallRecv (size : Z) (go_on : Z * list Z -> wolf Ssl A)
| CallSend (data : list Z) (go_on : Z -> wolf Ssl A).
Arguments Done {Ssl A} _ _.
Arguments CallRecv {Ssl A} _ _.
Arguments CallSend {Ssl A} _ _.

(** The wolfSSL functions the program calls on a session. [Cert] is a peer certificate:
    its SHA-256 digest (status, bytes and length) and its alternative names in order. *)
Class WolfSSL (Ssl Cert : Type) := {
  wolfSSL_accept : Ssl -> wolf Ssl Z;
  wolfSSL_connect : Ssl -> wolf Ssl Z;
  wolfSSL_read : Ssl -> Z -> wolf Ssl (Z * list Z);
  wolfSSL_write : Ssl -> list Z -> wolf Ssl Z;
  wolfSSL_inject : Ssl -> list Z -> wolf Ssl Z;
  wolfDTLS_accept_stateless : Ssl -> wolf Ssl Z;
  wolfSSL_dtls_got_timeout : Ssl -> wolf Ssl Z;
  wolfSSL_dtls_get_current_timeout : Ssl -> Z;
  wolfSSL_get_error : Ssl -> Z -> Z;
  wolfSSL_dtls_set_peer : Ssl -> list Z -> Z -> Z * Ssl;
  wolfSSL_SSLDisableRead : Ssl -> Ssl;
  wolfSSL_get_peer_certificate : Ssl -> option Cert;
  wolfSSL_X509_digest : Cert -> Z * list Z * Z;
  wolfSSL_X509_altnames : Cert -> list (list Z);
}.

(** ** The I/O object the callbacks use *)

(** A socket descriptor: the kernel's answers to this object's coming calls, and what it
    has sent with them. A receive answers with a datagram or fails; a send with a count or a
    negative result. *)
Record Socket := { recv_answers : list (option (list Z)); send_answers : list Z; sent : list (list Z) }.

#[export] Instance eta_Socket : Eta Socket := fun s =>
  {| recv_answers := recv_answers s; send_answers := send_answers s; sent := sent s |}.

Record DtlsIo := {
  fd : Socket;
  io_peer : list Z;
  io_peer_size : Z;
  direct_receive : bool;
  connected_send : bool;
  incoming : list Packet;
  incoming_shared : option (Queue Packet);
  recv_pop : Z;
  recv_empty : Z;
  recv_oversize : Z;
  (** Whether [outgoing] is set; the queue and signal are the session's [Outgoing]. *)
  queued_send : bool;
}.

#[export] Instance eta_DtlsIo : Eta DtlsIo := fun io =>
  {| fd := fd io; io_peer := io_peer io; io_peer_size := io_peer_size io;
     direct_receive := direct_receive io; connected_send := connected_send io;
     incoming := incoming io; incoming_shared := incoming_shared io; recv_pop := recv_pop io;
     recv_empty := recv_empty io; recv_oversize := recv_oversize io; queued_send := queued_send io |}.

(** [DtlsIo::new], [DtlsIo::new_client], [DtlsIo::push], [DtlsIo::use_queued_send] *)
Definition io_new (fd : Socket) (peer : list Z) (peer_size : Z) : DtlsIo :=
  {| fd := fd; io_peer := peer; io_peer_size := peer_size; direct_receive := false;
     connected_send := false; incoming := []; incoming_shared := None; recv_pop := 0;
     recv_empty := 0; recv_oversize := 0; queued_send := false |}.
Definition io_new_client (fd : Socket) (peer : list Z) (peer_size : Z) : DtlsIo :=
  {| fd := fd; io_peer := peer; io_peer_size := peer_size; direct_receive := true;
     connected_send := true; incoming := []; incoming_shared := None; recv_pop := 0;
     recv_empty := 0; recv_oversize := 0; queued_send := false |}.
Definition io_push (packet : Packet) (io : DtlsIo) : DtlsIo := io <| incoming ::= fun q => q ++ [packet] |>.
Definition io_use_queued_send (io : DtlsIo) : DtlsIo := io <| queued_send := true |>.

Definition bump_u64 (n : Z) : Z := saturating_add_u64 n 1.

(** [size as usize] of a [c_int] *)
Definition as_usize (size : Z) : Z := size mod 2 ^ 64.

(** The receive callback: its result, and the bytes it put in the library's buffer. *)
Definition dtls_recv (size : Z) (io : DtlsIo) : (Z * list Z) * DtlsIo :=
  if direct_receive io then
    match recv_answers (fd io) with
    | Some data :: rest =>
        let data := take (Z.to_nat (as_usize size)) data in
        ((Z.of_nat (length data), data), io <| fd ::= fun s => s <| recv_answers := rest |> |>)
    | None :: rest => ((-2, []), io <| fd ::= fun s => s <| recv_answers := rest |> |>)
    | [] => ((-2, []), io)
    end
  else
    match incoming_shared io with
    | Some queue =>
        match try_peek queue with
        | (Err _, queue) => ((-2, []), io <| recv_empty ::= bump_u64 |> <| incoming_shared := Some queue |>)
        | (Ok front, queue) =>
            let packet := front_value front in
            if as_usize size <? Z.of_nat (length packet) then
              ((-1, []), io <| recv_oversize ::= bump_u64 |> <| incoming_shared := Some queue |>)
            else
              ((Z.of_nat (length packet), packet),
               io <| incoming_shared := Some queue |> <| recv_pop ::= bump_u64 |>)
        end
    | None =>
        match incoming io with
        | [] => ((-2, []), io <| recv_empty ::= bump_u64 |>)
        | packet :: rest =>
            let io := io <| incoming := rest |> in
            if as_usize size <? Z.of_nat (length packet) then ((-1, []), io <| recv_oversize ::= bump_u64 |>)
            else ((Z.of_nat (length packet), packet), io <| recv_pop ::= bump_u64 |>)
        end
    end.

(** The send callback, for the [size] bytes of [data]: a negative [size] has none and is not
    modelled. [connected_send] chooses [send] or [sendto] on the same socket. *)
Definition dtls_send (now : Instant) (data : list Z) (io : DtlsIo) (o : Outgoing)
    : Z * DtlsIo * Outgoing :=
  if queued_send io then
    match push {| dg_bytes := data; enqueued_at := now |} (tx o) with
    | (Err _, queue) => (-1, io, o <| tx := queue |>)
    | (Ok _, queue) =>
        (Z.of_nat (length data), io, o <| tx := queue |> <| signal ::= fun g => wrapping_add_u64 g 1 |>)
    end
  else
    match send_answers (fd io) with
    | [] => (-1, io, o)
    | result :: rest =>
        (if result <? 0 then -1 else result,
         io <| fd ::= fun s => s <| send_answers := rest |> <| sent ::= fun l => l ++ [data] |> |>, o)
    end.

(** ** The wrapper *)
Record Dtls (Ssl : Type) := {
  ssl : Ssl;
  dtls_io : option DtlsIo;
  server : bool;
  nonblocking : bool;
  last_read_error : Z;
}.
Arguments ssl {Ssl} _.
Arguments dtls_io {Ssl} _.
Arguments server {Ssl} _.
Arguments nonblocking {Ssl} _.
Arguments last_read_error {Ssl} _.

#[export] Instance eta_Dtls Ssl : Eta (Dtls Ssl) := fun d =>
  {| ssl := ssl d; dtls_io := dtls_io d; server := server d; nonblocking := nonblocking d;
     last_read_error := last_read_error d |}.

(** The error of every accessor of [self.io] before [set_io]. *)
Definition no_io : io_error := other "DTLS I/O is not initialized".

Section dtls.
Context {Ssl Cert : Type} `{WolfSSL Ssl Cert}.
(** The library's own callbacks, used before [set_io] installs the program's. *)
Context (embed_recv : Z -> Z * list Z) (embed_send : list Z -> Z).
Implicit Types (d : Dtls Ssl) (o : Outgoing).

(** Running a library call, with the callbacks acting on the session's I/O object. *)
Fixpoint run_wolf {A} (now : Instant) (m : wolf Ssl A) (io : option DtlsIo) (o : Outgoing)
    : A * Ssl * option DtlsIo * Outgoing :=
  match m with
  | Done a s => (a, s, io, o)
  | CallRecv size k =>
      match io with
      | Some io => let '(r, io) := dtls_recv size io in run_wolf now (k r) (Some io) o
      | None => run_wolf now (k (embed_recv size)) None o
      end
  | CallSend data k =>
      match io with
      | Some io => let '(r, io, o) := dtls_send now data io o in run_wolf now (k r) (Some io) o
      | None => run_wolf now (k (embed_send data)) None o
      end
  end.

Definition call {A} (f : Ssl -> wolf Ssl A) (now : Instant) d o : A * Dtls Ssl * Outgoing :=
  let '(a, s, io, o) := run_wolf now (f (ssl d)) (dtls_io d) o in
  (a, d <| ssl := s |> <| dtls_io := io |>, o).

(** [Err(io::Error::other(format!("{msg}: {error}")))] *)
Definition wolf_error (msg : string) (error : Z) : io_error :=
  Custom Other (str msg ++ str ": " ++ display_int error).

Definition handshake : dtls_op (Dtls Ssl) (io bool) := fun now d o =>
  let '(ret, d, o) := call (if server d then wolfSSL_accept else wolfSSL_connect) now d o in
  let error := wolfSSL_get_error (ssl d) ret in
  (if ret =? SUCCESS then Ok true
   else if (error =? ERROR_WANT_READ) || (error =? ERROR_WANT_WRITE)
           || (nonblocking d && (error =? SOCKET_ERROR)) then Ok false
   else Err (wolf_error "DTLS handshake failed" error), d, o).

(** [read_status] into a buffer of [size] bytes. *)
Definition read_status (size : Z) : dtls_op (Dtls Ssl) (io (DtlsIoResult (list Z))) := fun now d o =>
  let '((value, data), d, o) := call (fun s => wolfSSL_read s size) now d o in
  if 0 <? value then
    (Ok (Complete (take (Z.to_nat value) data)), d <| last_read_error := 0 |>, o)
  else
    let error := wolfSSL_get_error (ssl d) value in
    (if error =? ERROR_WANT_READ then Ok WantRead
     else if error =? ERROR_WANT_WRITE then Ok WantWrite
     else Err (wolf_error "wolfSSL read failed" error), d <| last_read_error := error |>, o).

(** [read]: the older interface, with [WouldBlock] for every retry. *)
Definition read (size : Z) : dtls_op (Dtls Ssl) (io (list Z)) := fun now d o =>
  let '((value, data), d, o) := call (fun s => wolfSSL_read s size) now d o in
  if 0 <=? value then (Ok (take (Z.to_nat value) data), d <| last_read_error := 0 |>, o)
  else
    let error := wolfSSL_get_error (ssl d) value in
    (if (error =? ERROR_WANT_READ) || (error =? ERROR_WANT_WRITE) || (error =? SOCKET_ERROR)
     then Err (Simple WouldBlock)
     else Err (wolf_error "wolfSSL I/O failed" error), d <| last_read_error := error |>, o).

Definition write_status (buffer : list Z) : dtls_op (Dtls Ssl) (io (DtlsIoResult Z)) := fun now d o =>
  let '(value, d, o) := call (fun s => wolfSSL_write s buffer) now d o in
  if 0 <? value then (Ok (Complete value), d, o)
  else
    let error := wolfSSL_get_error (ssl d) value in
    (if error =? ERROR_WANT_READ then Ok WantRead
     else if error =? ERROR_WANT_WRITE then Ok WantWrite
     else Err (wolf_error "wolfSSL write failed" error), d, o).

(** [io_result] and [write] *)
Definition io_result (value : Z) (s : Ssl) : io Z :=
  if 0 <=? value then Ok value
  else
    let error := wolfSSL_get_error s value in
    if (error =? ERROR_WANT_READ) || (error =? ERROR_WANT_WRITE) || (error =? SOCKET_ERROR)
    then Err (Simple WouldBlock)
    else Err (wolf_error "wolfSSL I/O failed" error).
Definition write (buffer : list Z) : dtls_op (Dtls Ssl) (io Z) := fun now d o =>
  let '(value, d, o) := call (fun s => wolfSSL_write s buffer) now d o in
  (io_result value (ssl d), d, o).

Definition inject (packet : list Z) : dtls_op (Dtls Ssl) (io bool) := fun now d o =>
  if i32_max <? Z.of_nat (length packet)
  then (Err (new_error InvalidInput "DTLS datagram is too large"), d, o)
  else
    let '(result, d, o) := call (fun s => wolfSSL_inject s packet) now d o in
    (if result =? SUCCESS then Ok true
     else if result =? APP_DATA_READY then Ok false
     else Err (wolf_error "wolfSSL inject failed" result), d, o).

Definition handle_timeout : dtls_op (Dtls Ssl) (io unit) := fun now d o =>
  let '(result, d, o) := call wolfSSL_dtls_got_timeout now d o in
  (if result =? SUCCESS then Ok tt
   else Err (wolf_error "DTLS retransmission failed" (wolfSSL_get_error (ssl d) result)), d, o).

Definition current_timeout d : Duration :=
  from_secs (Z.max (wolfSSL_dtls_get_current_timeout (ssl d)) 1).

Definition disable_callback_receive d : Dtls Ssl := d <| ssl ::= wolfSSL_SSLDisableRead |>.

(** [check] *)
Definition check (value : Z) : io unit :=
  if value =? SUCCESS then Ok tt else Err (other "wolfSSL peer setup failed").

Definition set_peer (peer : list Z) (peer_size : Z) d : io unit * Dtls Ssl :=
  let '(value, s) := wolfSSL_dtls_set_peer (ssl d) peer peer_size in
  (check value, d <| ssl := s |>).

(** An accessor of [self.io]: it fails before [set_io], and for a connected socket. *)
Definition with_queued_io (f : DtlsIo -> DtlsIo) d : io unit * Dtls Ssl :=
  match dtls_io d with
  | None => (Err no_io, d)
  | Some io =>
      if direct_receive io
      then (Err (other "cannot queue packets for a connected DTLS socket"), d)
      else (Ok tt, d <| dtls_io := Some (f io) |>)
  end.

Definition with_io (f : DtlsIo -> DtlsIo) d : io unit * Dtls Ssl :=
  match dtls_io d with
  | None => (Err no_io, d)
  | Some io => (Ok tt, d <| dtls_io := Some (f io) |>)
  end.

Definition push_incoming (packet : Packet) d : io unit * Dtls Ssl := with_queued_io (io_push packet) d.
Definition use_queued_receive d : io unit * Dtls Ssl :=
  with_io (fun io => io <| direct_receive := false |>) d.
Definition use_shared_receive_queue (queue : Queue Packet) d : io unit * Dtls Ssl :=
  with_io (fun io => io <| direct_receive := false |> <| incoming_shared := Some queue |>) d.
Definition use_queued_send d : io unit * Dtls Ssl := with_io io_use_queued_send d.

Definition queued_incoming_len d : nat :=
  match dtls_io d with
  | None => 0
  | Some io => match incoming_shared io with
               | Some queue => queue_len queue
               | None => length (incoming io)
               end
  end.

Definition set_incoming_peer (peer : list Z) (peer_size : Z) (packet : Packet) d : io unit * Dtls Ssl :=
  match set_peer peer peer_size d with
  | (Err e, d) => (Err e, d)
  | (Ok _, d) =>
      with_queued_io (fun io => io <| io_peer := peer |> <| io_peer_size := peer_size |>
                                   <| incoming := [packet] |>) d
  end.

(** The acceptor sends from the socket: its I/O object has no queue, so the outgoing side
    is untouched; [unused] stands for it. *)
Definition unused : Outgoing :=
  {| tx := {| capacity := 1; state := {| items := []; closed := true; generation := 0 |} |}; signal := 0 |}.

Definition accept_stateless d : io bool * Dtls Ssl :=
  if negb (server d) then (Err (other "stateless DTLS accept is only available to servers"), d)
  else
    let '(result, d, _) := call wolfDTLS_accept_stateless 0 d unused in
    (if result =? SUCCESS then Ok true
     else if result =? 0 then Ok false
     else Err (wolf_error "stateless DTLS cookie validation failed" (wolfSSL_get_error (ssl d) result)), d).

(** ** Certificates *)
Definition no_certificate : io_error := other "peer certificate unavailable".

Definition fingerprint d : io rstr :=
  match wolfSSL_get_peer_certificate (ssl d) with
  | None => Err no_certificate
  | Some cert =>
      let '(result, digest, length) := wolfSSL_X509_digest cert in
      if negb (result =? SUCCESS) || negb (length =? 32)
      then Err (other "unable to calculate certificate fingerprint")
      else Ok (fingerprint_text digest)
  end.

Definition peer_certificate_has_san_ip (expected : Ipv4Addr) d : io bool :=
  match wolfSSL_get_peer_certificate (ssl d) with
  | None => Err no_certificate
  | Some cert =>
      Ok (any (fun name => bool_decide ((from_utf8 name ≫= parse_ipv4) = Some expected))
            (wolfSSL_X509_altnames cert))
  end.

(** Reading the alternative names: the first one that is not text is an error. *)
Fixpoint alt_names (names : list (list Z)) : io (list rstr) :=
  match names with
  | [] => Ok []
  | name :: names =>
      text ← ok_or (from_utf8 name) (new_error InvalidData "client certificate SAN is not valid UTF-8");
      cons text <$> alt_names names
  end.

Definition peer_certificate_allows_source_ip (source : Ipv4Addr) d : io bool :=
  match wolfSSL_get_peer_certificate (ssl d) with
  | None => Err no_certificate
  | Some cert => names ← alt_names (wolfSSL_X509_altnames cert); certificate_source_policy_allows names source
  end.
End dtls.

(** ** The interface of the server threads *)

(** The calls return; the callers guard them with [panic_gate] all the same. *)
#[export] Instance Dtls_session {Ssl Cert} `{WolfSSL Ssl Cert}
    (embed_recv : Z -> Z * list Z) (embed_send : list Z -> Z) : DtlsSession (Dtls Ssl) := {
  DtlsApi.read_status size now d o :=
    let '(r, d, o) := read_status embed_recv embed_send size now d o in (Returned r, d, o);
  DtlsApi.write_status packet now d o :=
    let '(r, d, o) := write_status embed_recv embed_send packet now d o in (Returned r, d, o);
  DtlsApi.inject := inject embed_recv embed_send;
  DtlsApi.handshake now d o :=
    let '(r, d, o) := handshake embed_recv embed_send now d o in (Returned r, d, o);
  DtlsApi.handle_timeout := handle_timeout embed_recv embed_send;
  DtlsApi.current_timeout := current_timeout;
  DtlsApi.fingerprint d := (Returned (fingerprint d), d);
  DtlsApi.peer_certificate_has_san_ip expected d := (Returned (peer_certificate_has_san_ip expected d), d);
  DtlsApi.peer_certificate_allows_source_ip source d :=
    (Returned (peer_certificate_allows_source_ip source d), d);
  DtlsApi.disable_callback_receive := disable_callback_receive;
  DtlsApi.set_incoming_peer := set_incoming_peer;
  DtlsApi.accept_stateless d :=
    let '(r, d) := accept_stateless embed_recv embed_send d in (Returned r, d);
  DtlsApi.use_queued_send := use_queued_send;
}.

(** What the library received through the callback during a call. *)
Fixpoint received {Ssl A} (now : Instant) (m : wolf Ssl A) (io : DtlsIo) (o : Outgoing) : list (list Z) :=
  match m with
  | Done _ _ => []
  | CallRecv size k =>
      let '(r, io) := dtls_recv size io in
      (if 0 <=? r.1 then [r.2] else []) ++ received now (k r) io o
  | CallSend data k => let '(r, io, o) := dtls_send now data io o in received now (k r) io o
  end.

(** What is waiting to be received by a session that does not read the socket. *)
Definition waiting (io : DtlsIo) : list Packet :=
  match incoming_shared io with Some queue => items (state queue) | None => incoming io end.

Section callbacks.
Context {Ssl Cert : Type} `{WolfSSL Ssl Cert}.
Context (embed_recv : Z -> Z * list Z) (embed_send : list Z -> Z).

Lemma dtls_send_pushes now data io o : pushes (tx o) (tx (dtls_send now data io o).2).
Proof.
  unfold dtls_send. destruct (queued_send io); [|destruct (send_answers (fd io)); constructor].
  pose proof (pushes_step (tx o) {| dg_bytes := data; enqueued_at := now |} _ (pushes_refl _)) as Hp.
  by destruct (push _ (tx o)) as [[?|?] q].
Qed.

Lemma run_wolf_pushes {A} now (m : wolf Ssl A) io o :
  pushes (tx o) (tx (run_wolf embed_recv embed_send now m io o).2).
Proof.
  revert io o. induction m as [a s|size k IH|data k IH]; intros io o; cbn; [constructor| |].
  - destruct io as [io|]; [|apply IH]. destruct (dtls_recv size io). apply IH.
  - destruct io as [io|]; [|apply IH].
    pose proof (dtls_send_pushes now data io o) as Hp.
    destruct (dtls_send now data io o) as [[r io'] o']. eauto using pushes_trans.
Qed.

Lemma call_pushes {A} (f : Ssl -> wolf Ssl A) now d o :
  pushes (tx o) (tx (call embed_recv embed_send f now d o).2).
Proof.
  unfold call. pose proof (run_wolf_pushes now (f (ssl d)) (dtls_io d) o) as Hp.
  by destruct (run_wolf _ _ _ _ _ _) as [[[? ?] ?] ?].
Qed.

(** The datagrams that wait do so in front of nothing else: a receive takes the first. *)
Lemma dtls_recv_waiting size io :
  direct_receive io = false ->
  let '(r, io') := dtls_recv size io in
  direct_receive io' = false /\
  ((waiting io = [] /\ waiting io' = [] /\ r.1 = -2 /\
    recv_pop io' = recv_pop io /\ recv_oversize io' = recv_oversize io) \/
   exists packet, waiting io = packet :: waiting io' /\
     ((r = (Z.of_nat (length packet), packet) /\
       recv_pop io' = bump_u64 (recv_pop io) /\ recv_oversize io' = recv_oversize io) \/
      (r.1 = -1 /\ as_usize size < Z.of_nat (length packet) /\
       recv_pop io' = recv_pop io /\ recv_oversize io' = bump_u64 (recv_oversize io)))).
Proof.
  intros Hd. unfold dtls_recv, waiting. rewrite Hd.
  destruct (incoming_shared io) as [q|] eqn:Hs.
  - destruct (try_peek q) as [[f|e] q'] eqn:Hp;
      [|destruct (try_peek_Err _ _ _ Hp) as (-> & Hi & _); cbn; split; [done|]; left; by rewrite Hi].
    apply try_peek_Ok, pop_front_Some in Hp as (Hi & _). unfold front_value.
    destruct (_ <? _) eqn:Hc; cbn; (split; [done|]); right; exists (item f); (split; [done|]);
      [right|left]; [|done]. split_and!; [done|lia|done|done].
  - destruct (incoming io) as [|packet rest] eqn:Hi; cbn; [split; [done|]; left; by rewrite Hs, Hi|].
    destruct (_ <? _) eqn:Hc; cbn; rewrite Hs; (split; [done|]); right; exists packet; (split; [done|]);
      [right|left]; [|done]. split_and!; [done|lia|done|done].
Qed.

Lemma dtls_send_recv_side now data io o :
  let '(_, io', _) := dtls_send now data io o in
  direct_receive io' = direct_receive io /\ waiting io' = waiting io /\
  recv_pop io' = recv_pop io /\ recv_oversize io' = recv_oversize io.
Proof.
  unfold dtls_send. destruct (queued_send io).
  - by destruct (push _ _) as [[?|?] ?].
  - by destruct (send_answers (fd io)).
Qed.
End callbacks.

Section receives.
Context {Ssl Cert : Type} `{WolfSSL Ssl Cert}.
Context (embed_recv : Z -> Z * list Z) (embed_send : list Z -> Z).

(** [n] increments of a counter *)
Definition counted (before n after : Z) : Prop := after = Z.min (before + n) u64_max.

Lemma counted_bump c n after : counted (bump_u64 c) n after -> 0 <= n -> counted c (n + 1) after.
Proof. unfold counted, bump_u64, saturating_add_u64. lia. Qed.

Lemma run_wolf_received {A} now (m : wolf Ssl A) io o :
  direct_receive io = false -> recv_pop io <= u64_max -> recv_oversize io <= u64_max ->
  exists io' taken,
    (run_wolf embed_recv embed_send now m (Some io) o).1.2 = Some io' /\
    direct_receive io' = false /\
    waiting io = taken ++ waiting io' /\
    received now m io o `sublist_of` taken /\
    counted (recv_pop io) (Z.of_nat (length (received now m io o))) (recv_pop io') /\
    counted (recv_oversize io) (Z.of_nat (length taken) - Z.of_nat (length (received now m io o))) (recv_oversize io').
Proof.
  revert io o. unfold counted. induction m as [a s|size k IH|data k IH]; intros io o Hd Hp Ho; cbn.
  - exists io, []. cbn. split_and!; [done|done|done|constructor|lia|lia].
  - pose proof (dtls_recv_waiting size io Hd) as Hr. destruct (dtls_recv size io) as [r io1].
    destruct Hr as [Hd1 Hr].
    assert (bump_u64 (recv_pop io) <= u64_max /\ bump_u64 (recv_oversize io) <= u64_max) as [? ?]
      by (unfold bump_u64, saturating_add_u64; lia).
    destruct (IH r io1 o) as (io' & taken & Hrun & Hd' & Hw & Hsub & Hc1 & Hc2); [done| | |].
    1, 2: by destruct Hr as [(_ & _ & _ & E1 & E2)|(p & _ & [(_ & E1 & E2)|(_ & _ & E1 & E2)])];
      rewrite ?E1, ?E2.
    pose proof (sublist_length _ _ Hsub) as Hlen.
    exists io'. destruct Hr as [(E0 & E0' & Er & E1 & E2)|(p & E0 & [(-> & E1 & E2)|(Er & _ & E1 & E2)])].
    + exists taken. rewrite Er. cbn. rewrite E0, <-E0', Hw, <-E1, <-E2. done.
    + exists (p :: taken). cbn [fst snd]. rewrite (proj2 (Z.leb_le 0 _)) by lia. cbn [app length].
      rewrite E0, Hw. split_and!; [done|done|done|by constructor| |];
        rewrite E1, E2 in *; unfold bump_u64, saturating_add_u64 in *; lia.
    + exists (p :: taken). rewrite Er. cbn.
      rewrite E0, Hw. split_and!; [done|done|done|by constructor| |];
        rewrite E1, E2 in *; unfold bump_u64, saturating_add_u64 in *; lia.
  - pose proof (dtls_send_recv_side now data io o) as Hr.
    destruct (dtls_send now data io o) as [[r io1] o1]. destruct Hr as (E1 & E2 & E3 & E4).
    rewrite <-E2, <-E3, <-E4. apply IH; congruence.
Qed.
End receives.

Lemma hex_char_inj a b : 0 <= a < 16 -> 0 <= b < 16 -> hex_char a = hex_char b -> a = b.
Proof. unfold hex_char. destruct (a <? 10) eqn:Ha, (b <? 10) eqn:Hb; lia. Qed.

Lemma fingerprint_text_inj d1 d2 :
  Forall is_byte d1 -> Forall is_byte d2 -> fingerprint_text d1 = fingerprint_text d2 -> d1 = d2.
Proof.
  intros H1. revert d2. induction H1 as [|a d1 [Ha1 Ha2]%nibbles _ IH]; intros d2 H2.
  - destruct d2; [done|]. intros [=].
  - destruct H2 as [|b d2 [Hb1 Hb2]%nibbles H2]; [intros [=]|].
    intros Heq. change (hex_byte a ++ fingerprint_text d1 = hex_byte b ++ fingerprint_text d2) in Heq.
    injection Heq as E1 E2 E3. apply hex_char_inj in E1, E2; [|done..].
    f_equal; [|by apply IH]. rewrite (Z.div_mod a 16), (Z.div_mod b 16) by done. congruence.
Qed.

(** ** Properties *)

(** C35: The wrapper implements the interface of the server threads over any library: every
    operation of a session that reads, writes, injects, shakes hands or retransmits changes
    the session's outgoing queue by pushes alone, whatever the library calls back. *)
Theorem dtls_session_laws {Ssl Cert} `{WolfSSL Ssl Cert} embed_recv embed_send :
  @DtlsLaws (Dtls Ssl) (Dtls_session embed_recv embed_send).
Proof.
  constructor; unfold sends_only; intros;
    cbn [Dtls_session DtlsApi.read_status DtlsApi.write_status DtlsApi.inject
         DtlsApi.handshake DtlsApi.handle_timeout];
    unfold read_status, write_status, inject, handshake, handle_timeout;
    try match goal with |- context [i32_max <? ?n] => destruct (i32_max <? n); [constructor|] end;
    match goal with |- context [call ?r ?e ?f ?now ?d ?o] =>
      pose proof (call_pushes r e f now d o); destruct (call r e f now d o) as [[v ?] ?]
    end; cbn in *; try destruct v; by repeat (case_match; simplify_eq/=).
Qed.

(** A session that does not read the socket delivers datagrams to the library whole and
    in order. During a call that invokes the callbacks any number of times, the datagrams it
    consumes are the first ones that wait; those the library gets are a subsequence of them,
    each complete; the others did not fit the library's buffer and are dropped; and the two
    counters grow by exactly the number delivered and the number dropped. *)
Theorem call_receives_whole_datagrams {Ssl Cert A} `{WolfSSL Ssl Cert} embed_recv embed_send
    (f : Ssl -> wolf Ssl A) now (d : Dtls Ssl) o io :
  dtls_io d = Some io -> direct_receive io = false ->
  recv_pop io <= u64_max -> recv_oversize io <= u64_max ->
  exists io' taken,
    dtls_io (call embed_recv embed_send f now d o).1.2 = Some io' /\
    waiting io = taken ++ waiting io' /\
    received now (f (ssl d)) io o `sublist_of` taken /\
    let delivered := Z.of_nat (length (received now (f (ssl d)) io o)) in
    counted (recv_pop io) delivered (recv_pop io') /\
    counted (recv_oversize io) (Z.of_nat (length taken) - delivered) (recv_oversize io').
Proof.
  intros Hio Hd Hp Ho.
  destruct (run_wolf_received embed_recv embed_send now (f (ssl d)) io o Hd Hp Ho)
    as (io' & taken & Hrun & _ & Hrest).
  exists io', taken. split; [|exact Hrest]. unfold call. rewrite Hio.
  destruct (run_wolf _ _ _ _ _ _) as [[[? ?] ?] ?]. exact Hrun.
Qed.

(** The stateless acceptor answers one datagram at a time: after [set_incoming_peer]
    succeeds, [accept_stateless] can receive that datagram once and nothing else, whatever an
    earlier peer left behind, and it answers to that peer's address. *)
Theorem acceptor_sees_one_datagram {Ssl Cert} `{WolfSSL Ssl Cert} peer peer_size packet
    (d d' : Dtls Ssl) io :
  dtls_io d = Some io -> incoming_shared io = None ->
  recv_pop io <= u64_max -> recv_oversize io <= u64_max ->
  set_incoming_peer peer peer_size packet d = (Ok tt, d') ->
  exists io', dtls_io d' = Some io' /\ io_peer io' = peer /\ io_peer_size io' = peer_size /\
    received 0 (wolfDTLS_accept_stateless (ssl d')) io' unused `sublist_of` [packet].
Proof.
  intros Hio Hs Hp Ho. unfold set_incoming_peer, set_peer, with_queued_io, check.
  destruct (wolfSSL_dtls_set_peer _ _ _) as [value s]. destruct (value =? SUCCESS); [|done].
  cbn. rewrite Hio. destruct (direct_receive io) eqn:Hd; [done|]. intros [= <-]. cbn.
  eexists. split_and!; [done..|].
  destruct (run_wolf_received (fun _ => (-2, [])) (fun _ => -1) 0
    (wolfDTLS_accept_stateless s)
    (io <| io_peer := peer |> <| io_peer_size := peer_size |> <| incoming := [packet] |>) unused)
    as (io' & taken & _ & _ & Hw & Hsub & _); [done..|].
  unfold waiting in Hw at 1. cbn in Hw. rewrite Hs in Hw.
  cbn in Hsub. rewrite Hd in Hsub. etrans; [exact Hsub|]. rewrite Hw. by apply sublist_inserts_r.
Qed.

(** A fingerprint identifies a certificate digest: when two sessions report the same
    fingerprint the library computed the same 32 bytes for both, and what a session reports
    is already in the normal form of the configured bindings. *)
Theorem fingerprint_identifies_digest {Ssl Cert} `{WolfSSL Ssl Cert} (d1 d2 : Dtls Ssl) f :
  (forall cert result digest length', wolfSSL_X509_digest cert = (result, digest, length') ->
     Forall is_byte digest /\ length digest = 32%nat) ->
  fingerprint d1 = Ok f -> fingerprint d2 = Ok f ->
  normalize_sha256_fingerprint f = Ok f /\
  exists c1 c2, wolfSSL_get_peer_certificate (ssl d1) = Some c1 /\
    wolfSSL_get_peer_certificate (ssl d2) = Some c2 /\
    (wolfSSL_X509_digest c1).1.2 = (wolfSSL_X509_digest c2).1.2.
Proof.
  intros Hlib. unfold fingerprint.
  destruct (wolfSSL_get_peer_certificate (ssl d1)) as [c1|]; [|done].
  destruct (wolfSSL_get_peer_certificate (ssl d2)) as [c2|]; [|done].
  destruct (wolfSSL_X509_digest c1) as [[r1 g1] n1] eqn:H1, (wolfSSL_X509_digest c2) as [[r2 g2] n2] eqn:H2.
  destruct (_ || _); [done|]. destruct (_ || _); [done|]. intros [= <-] [= Heq].
  destruct (Hlib _ _ _ _ H1) as [Hb1 Hl1], (Hlib _ _ _ _ H2) as [Hb2 _]. split.
  - destruct (fingerprint_text_facts g1 Hb1) as (F1 & _ & F3 & F4). apply normalize_Ok.
    split_and!; [|unfold str_len; by rewrite F3, Hl1|done]. done.
  - exists c1, c2. rewrite H1, H2. split_and!; [done..|]. by apply fingerprint_text_inj.
Qed.

(** ** A library for the examples *)

(** It echoes: an accept reads a client hello and answers it with a cookie request, and a
    read returns the record it received; the acceptor lets in a hello that starts with 1.
    Every peer has the certificate whose digest is 32 bytes 171. *)
#[export] Instance echo_library : WolfSSL unit unit := {
  wolfSSL_accept s := CallRecv 1500 (fun r => CallSend (7 :: r.2) (fun n => Done (if 0 <? n then SUCCESS else -1) s));
  wolfSSL_connect s := CallSend [1] (fun n => Done (if 0 <? n then SUCCESS else -1) s);
  wolfSSL_read s size := CallRecv size (fun r => Done r s);
  wolfSSL_write s data := CallSend data (fun n => Done n s);
  wolfSSL_inject s data := Done SUCCESS s;
  wolfDTLS_accept_stateless s :=
    CallRecv 1500 (fun r => match r.2 with 1 :: _ => Done SUCCESS s | _ => CallRecv 1500 (fun _ => Done 0 s) end);
  wolfSSL_dtls_got_timeout s := CallSend [1] (fun _ => Done SUCCESS s);
  wolfSSL_dtls_get_current_timeout _ := 1;
  wolfSSL_get_error _ r := if r =? -2 then ERROR_WANT_READ else r;
  wolfSSL_dtls_set_peer s _ _ := (SUCCESS, s);
  wolfSSL_SSLDisableRead s := s;
  wolfSSL_get_peer_certificate _ := Some tt;
  wolfSSL_X509_digest _ := (SUCCESS, replicate 32 171, 32);
  wolfSSL_X509_altnames _ := [];
}.

Definition example_socket : Socket := {| recv_answers := []; send_answers := []; sent := [] |}.
Definition example_io : DtlsIo := (io_new example_socket [] 0) <| incoming := [[1; 2]; replicate 9 0; [3]] |>.
Definition example_dtls : Dtls unit :=
  {| ssl := tt; dtls_io := Some example_io; server := true; nonblocking := true; last_read_error := 0 |}.
Definition no_recv (_ : Z) : Z * list Z := (-2, []).
Definition no_send (_ : list Z) : Z := -1.

Lemma call_receives_whole_datagrams_witness :
  received 0 (CallRecv 4 (fun _ => CallRecv 4 (fun _ => Done 0 tt))) example_io unused = [[1; 2]] /\
  exists io' taken,
    dtls_io (call no_recv no_send (fun _ => CallRecv 4 (fun _ => CallRecv 4 (fun _ => Done 0 tt)))
               0 example_dtls unused).1.2 = Some io' /\
    [[1; 2]; replicate 9 0; [3]] = taken ++ waiting io' /\ [[1; 2]] `sublist_of` taken.
Proof.
  split; [reflexivity|].
  destruct (call_receives_whole_datagrams no_recv no_send
    (fun _ => CallRecv 4 (fun _ => CallRecv 4 (fun _ => Done 0 tt))) 0 example_dtls unused example_io)
    as (io' & taken & H1 & H2 & H3 & _); [reflexivity|reflexivity|discriminate|discriminate|].
  exists io', taken. split; [exact H1|]. split; [exact H2|exact H3].
Defined.

Lemma acceptor_sees_one_datagram_witness :
  exists io', dtls_io (set_incoming_peer [9] 16 [1; 5] example_dtls).2 = Some io' /\ io_peer io' = [9] /\
    received 0 (wolfDTLS_accept_stateless tt) io' unused `sublist_of` [[1; 5]].
Proof.
  destruct (acceptor_sees_one_datagram [9] 16 [1; 5] example_dtls
    (set_incoming_peer [9] 16 [1; 5] example_dtls).2 example_io)
    as (io' & H1 & H2 & _ & H3); [reflexivity|reflexivity|discriminate|discriminate|reflexivity|].
  exists io'. split; [exact H1|]. split; [exact H2|exact H3].
Defined.

Lemma fingerprint_identifies_digest_witness :
  normalize_sha256_fingerprint (fingerprint_text (replicate 32 171)) = Ok (fingerprint_text (replicate 32 171)).
Proof.
  apply (fingerprint_identifies_digest example_dtls example_dtls).
  - intros cert result digest length' [= <- <- <-]. split; [|reflexivity].
    apply (Forall_replicate is_byte 32). split; discriminate.
  - reflexivity.
  - reflexivity.
Defined.
