(* ===== verification/DtlsLife.v ===== *)
(** * The life of wolfSSL objects

    Models the operations of [Dtls] in [src/lib.rs] that create, connect and free foreign
    objects: [set_socket], [set_nonblocking], [set_peer], [set_io], [set_cookie_secret] and
    [Drop], with [create_stateless_acceptor] of [src/server/decrypt.rs] and the set-up in
    [connect] of [src/client/mod.rs], which put them together. *)

From S2P Require Import Prelude Text System.

Local Open Scope Z_scope.

Definition NULL : Z := 0.
Definition SSL_SUCCESS : Z := 1.

(** The fields of [Dtls] that own something: the addresses of the context, the session (null
    before [set_socket]) and the boxed [DtlsIo]. *)
Record Dtls := {
  ctx : Z;
  ssl : Z;
  io_box : option Z;
  is_server : bool;
  nonblocking : bool;
}.

#[export] Instance eta_Dtls : Eta Dtls := fun d =>
  {| ctx := ctx d; ssl := ssl d; io_box := io_box d; is_server := is_server d; nonblocking := nonblocking d |}.

Section life.
Context (system : history -> call -> answer) (dtls13 : bool).

Definition call_ (c : call) : eff history unit := ignore (perform system c).

(** What replacing the field [io] does to its old value. *)
Definition drop_io (io : option Z) : eff history unit :=
  match io with Some io => call_ (box_free io) | None => mret tt end.

(** [Dtls::new] gives a context, or fails. *)
Definition dtls_create (server : bool) : eff history Dtls :=
  made ← checked system (wolf_ctx server);
  mret {| ctx := ret made; ssl := NULL; io_box := None; is_server := server; nonblocking := false |}.

Definition set_socket (fd : Z) (d : Dtls) : eff history Dtls :=
  made ← perform system (wolf_new (ctx d));
  if ret made =? NULL then fail_with (other "wolfSSL_new failed")
  else
    done ← perform system (wolf_set_fd (ret made) fd);
    if negb (ret done =? SSL_SUCCESS) then
      _ ← call_ (wolf_free (ret made)); fail_with (other "wolfSSL_set_fd failed")
    else
      _ ← (if negb (ssl d =? NULL) then call_ (wolf_free (ssl d)) else mret tt);
      _ ← drop_io (io_box d);
      mret (d <| io_box := None |> <| ssl := ret made |>).

Definition set_nonblocking (nonblocking : bool) (d : Dtls) : eff history Dtls :=
  _ ← call_ (wolf_set_nonblock (ssl d) nonblocking);
  mret {| ctx := ctx d; ssl := ssl d; io_box := io_box d; is_server := is_server d; nonblocking := nonblocking |}.

Definition set_peer (peer : list Z) (peer_size : Z) (d : Dtls) : eff history Dtls :=
  done ← perform system (wolf_set_peer (ssl d) peer peer_size);
  if ret done =? SSL_SUCCESS then mret d else fail_with (other "wolfSSL peer setup failed").

Definition not_initialized : io_error := other "DTLS socket is not initialized".

Definition set_io (d : Dtls) : eff history Dtls :=
  if ssl d =? NULL then fail_with not_initialized
  else
    io ← perform system box_new;
    _ ← call_ (wolf_set_callbacks (ssl d));
    _ ← call_ (wolf_set_read_ctx (ssl d) (ret io));
    _ ← call_ (wolf_set_write_ctx (ssl d) (ret io));
    _ ← drop_io (io_box d);
    mret (d <| io_box := Some (ret io) |>).

Definition set_cookie_secret (secret : list Z) (d : Dtls) : eff history Dtls :=
  if ssl d =? NULL then fail_with not_initialized
  else if negb (is_server d) then fail_with (other "a DTLS cookie secret can only be set on a server")
  else if u32_max <? Z.of_nat (length secret) then fail_with (new_error InvalidInput "cookie secret is too long")
  else if Z.of_nat (length secret) =? 0 then fail_with (new_error InvalidInput "cookie secret must not be empty")
  else
    done ← perform system (wolf_set_cookie (ssl d) secret);
    if (if dtls13 then ret done =? SSL_SUCCESS else ret done =? 0) then mret d
    else fail_with (Custom Other (str "unable to set DTLS cookie secret: " ++ display_int (ret done))).

(** A handshake, read, write or retransmission: the library may call back into the box. *)
Definition use_session (d : Dtls) : eff history Dtls := _ ← call_ (wolf_io (ssl d)); mret d.

(** [Drop for Dtls], and then the drop of the field [io]. *)
Definition dtls_drop (d : Dtls) : eff history unit :=
  _ ← (if negb (ssl d =? NULL) then call_ (wolf_free (ssl d)) else mret tt);
  _ ← (if negb (ctx d =? NULL) then call_ (wolf_ctx_free (ctx d)) else mret tt);
  drop_io (io_box d).

(** An operation on a local [dtls] that is dropped when it fails with [?]. *)
Definition or_drop (op : Dtls -> eff history Dtls) (d : Dtls) : eff history Dtls :=
  guarded (dtls_drop d) (op d).

(** [create_stateless_acceptor] *)
Definition create_stateless_acceptor (fd : Z) (secret : list Z) : eff history Dtls :=
  d ← dtls_create true;
  d ← or_drop (set_socket fd) d;
  d ← set_nonblocking true d;
  d ← or_drop set_io d;
  or_drop (set_cookie_secret secret) d.

(** The set-up of [connect], before the handshake. *)
Definition connect_setup (fd : Z) (peer : list Z) (peer_size : Z) : eff history Dtls :=
  d ← dtls_create false;
  d ← or_drop (set_socket fd) d;
  d ← set_nonblocking true d;
  d ← or_drop (set_peer peer peer_size) d;
  or_drop set_io d.

(** Any use of a [Dtls] after its creation: an operation that fails leaves it as it was. *)
Inductive life_op :=
| Op_socket (fd : Z) | Op_nonblocking (b : bool) | Op_peer (peer : list Z) (peer_size : Z)
| Op_io | Op_cookie (secret : list Z) | Op_use.

Definition run_op (o : life_op) (d : Dtls) : eff history Dtls :=
  match o with
  | Op_socket fd => set_socket fd d
  | Op_nonblocking b => set_nonblocking b d
  | Op_peer p n => set_peer p n d
  | Op_io => set_io d
  | Op_cookie secret => set_cookie_secret secret d
  | Op_use => use_session d
  end.

Definition run_life_op (o : life_op) (d : Dtls) : eff history Dtls :=
  r ← outcome_of (run_op o d); mret (match r with Ok d => d | Err _ => d end).

Fixpoint run_life (ops : list life_op) (d : Dtls) : eff history unit :=
  match ops with
  | [] => dtls_drop d
  | o :: ops => d ← run_life_op o d; run_life ops d
  end.
End life.

(** ** The objects that exist *)

(** Contexts, sessions with the boxes their callbacks are given, and boxes. *)
Record heap := {
  contexts : gset Z;
  sessions : gmap Z (option Z * option Z);
  boxes : gset Z;
}.

Definition points_to (io : Z) (p : option Z * option Z) : Prop := p.1 = Some io \/ p.2 = Some io.
#[export] Instance points_to_dec io p : Decision (points_to io p).
Proof. unfold points_to. apply _. Defined.

(** The rules of the library and of ownership: nothing is freed twice or used after it was
    freed, a callback context is a live box, and a box is not freed while a session's callbacks
    may still be given it. A null session is ignored by the library. The state is [None] once
    an allocation returned the address of an object that exists. *)
Definition heap_step (st : option heap) (c : call) (a : answer) : option (option heap) :=
  match st with
  | None => Some None
  | Some h =>
      match c with
      | wolf_ctx _ =>
          Some (if ret a <? 0 then Some h else if decide (ret a = NULL \/ ret a ∈ contexts h) then None
                else Some {| contexts := {[ret a]} ∪ contexts h; sessions := sessions h; boxes := boxes h |})
      | wolf_ctx_free x =>
          if decide (x ∈ contexts h) then
            Some (Some {| contexts := contexts h ∖ {[x]}; sessions := sessions h; boxes := boxes h |})
          else None
      | wolf_new x =>
          if decide (x ∈ contexts h) then
            Some (if ret a =? NULL then Some h else if decide (is_Some (sessions h !! ret a)) then None
                  else Some {| contexts := contexts h; sessions := <[ret a := (None, None)]> (sessions h); boxes := boxes h |})
          else None
      | wolf_free s =>
          if decide (is_Some (sessions h !! s)) then
            Some (Some {| contexts := contexts h; sessions := delete s (sessions h); boxes := boxes h |})
          else None
      | wolf_set_fd s _ | wolf_set_callbacks s | wolf_set_cookie s _ =>
          if decide (is_Some (sessions h !! s)) then Some st else None
      | wolf_io s | wolf_set_nonblock s _ | wolf_set_peer s _ _ =>
          if decide (s = NULL \/ is_Some (sessions h !! s)) then Some st else None
      | wolf_set_read_ctx s io =>
          if decide (io ∈ boxes h) then
            p ← sessions h !! s;
            Some (Some {| contexts := contexts h; sessions := <[s := (Some io, p.2)]> (sessions h); boxes := boxes h |})
          else None
      | wolf_set_write_ctx s io =>
          if decide (io ∈ boxes h) then
            p ← sessions h !! s;
            Some (Some {| contexts := contexts h; sessions := <[s := (p.1, Some io)]> (sessions h); boxes := boxes h |})
          else None
      | box_new =>
          Some (if decide (ret a ∈ boxes h) then None
                else Some {| contexts := contexts h; sessions := sessions h; boxes := {[ret a]} ∪ boxes h |})
      | box_free io =>
          if decide (io ∈ boxes h /\ map_Forall (fun _ p => ~ points_to io p) (sessions h)) then
            Some (Some {| contexts := contexts h; sessions := sessions h; boxes := boxes h ∖ {[io]} |})
          else None
      | _ => None
      end
  end.

Definition empty_heap : heap := {| contexts := ∅; sessions := ∅; boxes := ∅ |}.

(** What a [Dtls] owns. *)
Definition heap_of (d : Dtls) : heap :=
  {| contexts := {[ctx d]};
     sessions := if ssl d =? NULL then ∅ else {[ssl d := (io_box d, io_box d)]};
     boxes := match io_box d with Some io => {[io]} | None => ∅ end |}.

Definition wf (d : Dtls) : Prop := ctx d <> NULL /\ (ssl d = NULL -> io_box d = None).

(** Programs branch between programs that only add calls. *)
Ltac grow :=
  intros; lazymatch goal with
  | |- grows (match _ with _ => _ end) => case_match; grow
  | |- grows (mbind _ _) => apply grows_bind; grow
  | |- grows (ignore _) => apply grows_ignore; grow
  | |- grows (outcome_of _) => apply grows_outcome; grow
  | |- grows (guarded _ _) => apply grows_guarded; grow
  | |- _ => auto with grows
  end.

Section life_proofs.
Context (system : history -> call -> answer) (dtls13 : bool).

Lemma drop_io_grows io : grows (drop_io system io).
Proof. unfold drop_io, call_. grow. Qed.

Lemma dtls_drop_grows d : grows (dtls_drop system d).
Proof. unfold dtls_drop, call_. pose proof drop_io_grows. grow. Qed.

Lemma run_op_grows o d : grows (run_op system dtls13 o d).
Proof.
  pose proof drop_io_grows.
  destruct o; cbn [run_op]; unfold set_socket, set_nonblocking, set_peer, set_io, set_cookie_secret, use_session, call_; grow.
Qed.

Abbreviation keeps := (keeps heap_step).

(** A [Dtls] and the objects agree, unless the allocator was at fault. *)
Definition owned (d : Dtls) (st : option heap) : Prop := st = None \/ st = Some (heap_of d) /\ wf d.
Definition op_post (d : Dtls) (r : io Dtls) (st : option heap) : Prop :=
  match r with Ok d' => owned d' st | Err _ => owned d st end.

Lemma corrupt_keeps {A} (m : eff history A) (post : _ -> _ -> Prop) :
  grows m -> (forall r, post r None) -> keeps None m post.
Proof.
  intros Hg Hp h r h' E. destruct (Hg h) as [calls Ec]. rewrite E in Ec. cbn in Ec. subst h'.
  exists calls, None. split_and!; [done| |done]. clear E. by induction calls as [|[c a] calls IH].
Qed.

Lemma owned_refl d : wf d -> owned d (Some (heap_of d)).
Proof. by right. Qed.

Lemma op_post_None d r : op_post d r None.
Proof. destruct r; by left. Qed.

Definition free_box (io : option Z) (h : heap) : heap :=
  match io with
  | Some io => {| contexts := contexts h; sessions := sessions h; boxes := boxes h ∖ {[io]} |}
  | None => h
  end.
Definition free_session (s : Z) (h : heap) : heap :=
  {| contexts := contexts h; sessions := delete s (sessions h); boxes := boxes h |}.
Definition put_session (s : Z) p (h : heap) : heap :=
  {| contexts := contexts h; sessions := <[s := p]> (sessions h); boxes := boxes h |}.

Lemma drop_io_bind {B} io h (f : unit -> eff history B) post :
  (forall b, io = Some b -> b ∈ boxes h /\ map_Forall (fun _ p => ~ points_to b p) (sessions h)) ->
  keeps (Some (free_box io h)) (f tt) post -> keeps (Some h) (u ← drop_io system io; f u) post.
Proof.
  intros Hio Hf. destruct io as [b|]; [|exact Hf]. eapply keeps_ignore_bind; [|exact Hf].
  intros a. cbn [heap_step]. by rewrite decide_True by (apply Hio; done).
Qed.

(** Freeing the session of a field that may be null. *)
Lemma free_session_bind {B} s h (f : unit -> eff history B) post :
  (s <> NULL -> is_Some (sessions h !! s)) ->
  (s = NULL -> keeps (Some h) (f tt) post) ->
  (s <> NULL -> keeps (Some (free_session s h)) (f tt) post) ->
  keeps (Some h) (u ← (if negb (s =? NULL) then call_ system (wolf_free s) else mret tt); f u) post.
Proof.
  intros Hs H0 H1. destruct (Z.eqb_spec s NULL) as [E|E]; [exact (H0 E)|]. cbn [negb]. unfold call_.
  eapply keeps_ignore_bind; [|exact (H1 E)]. intros a. cbn [heap_step]. by rewrite decide_True by auto.
Qed.

(** The session of a well-formed [Dtls] that has one. *)
Lemma heap_of_session d : ssl d <> NULL -> sessions (heap_of d) = {[ssl d := (io_box d, io_box d)]}.
Proof. intros Hs. unfold heap_of. cbn. by destruct (Z.eqb_spec (ssl d) NULL). Qed.

Lemma heap_of_fresh c s server nb :
  s <> NULL ->
  heap_of {| ctx := c; ssl := s; io_box := None; is_server := server; nonblocking := nb |} =
    {| contexts := {[c]}; sessions := {[s := (None, None)]}; boxes := ∅ |}.
Proof. intros Hs. unfold heap_of. cbn. by destruct (Z.eqb_spec s NULL). Qed.

(** What is left after the old session and box of [d] are freed next to a new session [s]. *)
Lemma replaced_heap d s :
  wf d -> s <> NULL -> sessions (heap_of d) !! s = None ->
  let h := put_session s (None, None) (heap_of d) in
  free_box (io_box d) (if ssl d =? NULL then h else free_session (ssl d) h) =
    {| contexts := {[ctx d]}; sessions := {[s := (None, None)]}; boxes := ∅ |}.
Proof.
  intros [_ Hio] Hs Hnone. cbn zeta. destruct (Z.eqb_spec (ssl d) NULL) as [E|E].
  - rewrite Hio by done. unfold heap_of, put_session. cbn. by rewrite E, Hio.
  - rewrite heap_of_session in Hnone by done. apply lookup_singleton_None in Hnone.
    unfold free_box, free_session, put_session. rewrite heap_of_session by done. cbn.
    rewrite delete_insert_ne, delete_singleton_eq by done. destruct (io_box d); f_equal; set_solver.
Qed.

Lemma set_socket_keeps fd d : wf d -> keeps (Some (heap_of d)) (set_socket system fd d) (op_post d).
Proof.
  intros Hwf. apply keeps_perform_bind. intros a. cbn [heap_step]. rewrite decide_True by (unfold heap_of; set_solver).
  eexists. split; [done|]. destruct (Z.eqb_spec (ret a) NULL) as [|Hs]; [by apply keeps_of_io, owned_refl|].
  case_decide as Hfree.
  { apply corrupt_keeps; [|apply op_post_None]. pose proof drop_io_grows. unfold call_. grow. }
  apply eq_None_not_Some in Hfree. apply keeps_perform_bind. intros b. cbn [heap_step].
  rewrite decide_True by (cbn; rewrite lookup_insert_eq; eauto). eexists. split; [done|].
  fold (put_session (ret a) (None, None) (heap_of d)).
  destruct (negb _).
  { eapply keeps_ignore_bind; [intros e; cbn [heap_step]; rewrite decide_True; [done|cbn; rewrite lookup_insert_eq; eauto]|].
    apply keeps_of_io. right. split; [|done]. cbn. rewrite delete_insert_id by done. f_equal. }
  assert (op_post d (Ok (d <| io_box := None |> <| ssl := ret a |>)) (Some
    {| contexts := {[ctx d]}; sessions := {[ret a := (None, None)]}; boxes := ∅ |})) as Hdone.
  { right. split; [f_equal; symmetry; by apply heap_of_fresh|]. by split; [apply Hwf|]. }
  pose proof (replaced_heap d (ret a) Hwf Hs Hfree) as Hrep. cbv zeta in Hrep.
  apply free_session_bind; intros Hssl.
  - cbn [put_session sessions]. rewrite heap_of_session by done. destruct (decide (ret a = ssl d)) as [->|]; [by rewrite lookup_insert_eq|].
    by rewrite lookup_insert_ne, lookup_singleton_eq.
  - rewrite Hssl in Hrep. rewrite Z.eqb_refl in Hrep. apply drop_io_bind; [|rewrite Hrep; by apply keeps_ret].
    intros x Hx. destruct Hwf as [_ Hio]. by rewrite Hio in Hx.
  - destruct (Z.eqb_spec (ssl d) NULL); [done|]. apply drop_io_bind; [|rewrite Hrep; by apply keeps_ret].
    intros x Hx. cbn [free_session put_session sessions boxes]. rewrite heap_of_session in * by done. apply lookup_singleton_None in Hfree. rewrite Hx.
    split; [set_solver|]. rewrite delete_insert_ne, delete_singleton_eq by done.
    apply map_Forall_insert; [done|]. split; [by intros [|]|apply map_Forall_empty].
Qed.

(** A call that any live (or null) session may make and that changes nothing. *)
Lemma session_call c d :
  wf d -> (forall a h, (ssl d = NULL \/ is_Some (sessions h !! ssl d)) -> heap_step (Some h) c a = Some (Some h)) ->
  forall a, heap_step (Some (heap_of d)) c a = Some (Some (heap_of d)).
Proof.
  intros Hwf Hc a. apply Hc. destruct (decide (ssl d = NULL)) as [|Hs]; [by left|right].
  rewrite heap_of_session, lookup_singleton_eq by done. eauto.
Qed.

Lemma live_session d : ssl d <> NULL -> is_Some (sessions (heap_of d) !! ssl d).
Proof. intros Hs. rewrite heap_of_session, lookup_singleton_eq by done. eauto. Qed.

Lemma set_nonblocking_keeps b d : wf d -> keeps (Some (heap_of d)) (set_nonblocking system b d) (op_post d).
Proof.
  intros Hwf. eapply keeps_ignore_bind; [apply session_call; [done|]|apply keeps_ret, (owned_refl _ Hwf)].
  intros a h Hs. cbn. by rewrite decide_True.
Qed.

Lemma use_session_keeps d : wf d -> keeps (Some (heap_of d)) (use_session system d) (op_post d).
Proof.
  intros Hwf. eapply keeps_ignore_bind; [apply session_call; [done|]|by apply keeps_ret, owned_refl].
  intros a h Hs. cbn. by rewrite decide_True.
Qed.

Lemma set_peer_keeps p n d : wf d -> keeps (Some (heap_of d)) (set_peer system p n d) (op_post d).
Proof.
  intros Hwf. apply keeps_perform_bind. intros a. exists (Some (heap_of d)). split.
  - apply session_call; [done|]. intros b h Hs. cbn. by rewrite decide_True.
  - destruct (_ =? _); [by apply keeps_ret, owned_refl|by apply keeps_of_io, owned_refl].
Qed.

Lemma set_cookie_secret_keeps secret d :
  wf d -> keeps (Some (heap_of d)) (set_cookie_secret system dtls13 secret d) (op_post d).
Proof.
  intros Hwf. unfold set_cookie_secret. destruct (Z.eqb_spec (ssl d) NULL) as [|Hs]; [by apply keeps_of_io, owned_refl|].
  do 3 (case_match; [by apply keeps_of_io, owned_refl|]).
  apply keeps_perform_bind. intros a. exists (Some (heap_of d)). split.
  - cbn [heap_step]. by rewrite decide_True by (by apply live_session).
  - case_match; [by apply keeps_ret, owned_refl|by apply keeps_of_io, owned_refl].
Qed.

Lemma set_io_keeps d : wf d -> keeps (Some (heap_of d)) (set_io system d) (op_post d).
Proof.
  intros Hwf. unfold set_io. destruct (Z.eqb_spec (ssl d) NULL) as [|Hs]; [by apply keeps_of_io, owned_refl|].
  apply keeps_perform_bind. intros a. cbn [heap_step]. eexists. split; [done|]. case_decide as Hfresh.
  { apply corrupt_keeps; [|apply op_post_None]. pose proof drop_io_grows. unfold call_. grow. }
  rewrite heap_of_session by done. set (h1 := {| contexts := contexts (heap_of d) |}). unfold call_.
  eapply keeps_ignore_bind.
  { intros b. cbn [heap_step]. by rewrite decide_True by (cbn; rewrite lookup_singleton_eq; eauto). }
  eapply keeps_ignore_bind.
  { intros b. cbn [heap_step]. rewrite decide_True by (cbn; set_solver). cbn [h1 sessions contexts boxes].
    rewrite lookup_singleton_eq. cbn [mbind option_bind snd]. by rewrite insert_singleton_eq. }
  eapply keeps_ignore_bind.
  { intros b. cbn [heap_step]. rewrite decide_True by (cbn; set_solver). cbn [sessions contexts boxes].
    rewrite lookup_singleton_eq. cbn [mbind option_bind fst]. by rewrite insert_singleton_eq. }
  eapply drop_io_bind.
  - intros x Hx. assert (x ∈ boxes (heap_of d)) as Hin by (unfold heap_of; cbn; rewrite Hx; set_solver).
    cbn [boxes sessions]. split; [set_solver|]. apply map_Forall_singleton. intros [[= E]|[= E]]; by subst x.
  - apply keeps_ret. right. split; [|by split; [apply Hwf|]]. unfold heap_of. cbn.
    destruct (Z.eqb_spec (ssl d) NULL); [done|]. f_equal. unfold free_box.
    assert (boxes (heap_of d) = match io_box d with Some x => {[x]} | None => ∅ end) as Hb by done.
    rewrite Hb in *. destruct (io_box d); cbn; f_equal; set_solver.
Qed.

Lemma run_op_keeps o d : wf d -> keeps (Some (heap_of d)) (run_op system dtls13 o d) (op_post d).
Proof.
  intros Hwf. destruct o; cbn [run_op]; auto using set_socket_keeps, set_nonblocking_keeps, set_peer_keeps,
    set_io_keeps, set_cookie_secret_keeps, use_session_keeps.
Qed.

(** *** Composition *)
Definition gone (st : option heap) : Prop := st = None \/ st = Some empty_heap.

Lemma owned_keeps {A} (m : eff history A) d st (post : _ -> _ -> Prop) :
  owned d st -> grows m -> (forall r, post r None) -> (wf d -> keeps (Some (heap_of d)) m post) -> keeps st m post.
Proof. intros [->|[-> Hwf]] Hg Hn Hk; [by apply corrupt_keeps|by apply Hk]. Qed.

Lemma dtls_drop_keeps d st : owned d st -> keeps st (dtls_drop system d) (fun _ => gone).
Proof.
  intros Ho. apply (owned_keeps _ d); [done|apply dtls_drop_grows|by left|]. intros Hwf. unfold dtls_drop.
  assert (forall h, contexts h = {[ctx d]} -> sessions h = ∅ -> boxes h = boxes (heap_of d) ->
    keeps (Some h) (_ ← (if negb (ctx d =? NULL) then call_ system (wolf_ctx_free (ctx d)) else mret tt);
                    drop_io system (io_box d)) (fun _ => gone)) as Hrest.
  { intros h Hc Hs Hb. destruct (Z.eqb_spec (ctx d) NULL) as [E|]; [by destruct Hwf|]. cbn [negb]. unfold call_.
    eapply keeps_ignore_bind.
    { intros a. cbn [heap_step]. by rewrite decide_True by (rewrite Hc; set_solver). }
    rewrite Hc, Hs, Hb. unfold drop_io. destruct (io_box d) as [x|] eqn:Hx; unfold heap_of; cbn [boxes]; rewrite Hx.
    - unfold call_. eapply keeps_ignore; [apply (keeps_perform _ _ _ _ (fun _ st' => st' = Some empty_heap))|by right].
      intros a. cbn [heap_step]. rewrite decide_True by (split; [set_solver|apply map_Forall_empty]).
      eexists. split; [done|]. cbn. unfold empty_heap. do 2 f_equal; set_solver.
    - apply keeps_ret. right. unfold empty_heap. do 2 f_equal; set_solver. }
  apply free_session_bind; intros Hs.
  - by apply live_session.
  - apply Hrest; [done| |done]. unfold heap_of. cbn. by rewrite Hs.
  - apply Hrest; [done| |done]. unfold free_session. rewrite heap_of_session by done. cbn. apply delete_singleton_eq.
Qed.

Lemma or_drop_keeps o d st :
  owned d st ->
  keeps st (or_drop system (run_op system dtls13 o) d) (fun r st' => match r with Ok d' => owned d' st' | Err _ => gone st' end).
Proof.
  intros Ho. eapply keeps_guarded.
  - eapply (owned_keeps _ d); [done|apply run_op_grows|apply op_post_None|apply run_op_keeps].
  - done.
  - intros error st' Ho'. by apply dtls_drop_keeps.
Qed.

Lemma run_life_keeps ops d st : owned d st -> keeps st (run_life system dtls13 ops d) (fun _ => gone).
Proof.
  revert d st. induction ops as [|o ops IH]; intros d st Ho; [by apply dtls_drop_keeps|]. cbn [run_life].
  eapply (keeps_bind _ _ _ _ (fun r st' => exists d', r = Ok d' /\ owned d' st')); [|by intros ? ? (? & ? & _)|].
  2:{ intros d' st' (d2 & [= <-] & Ho'). by apply IH. }
  unfold run_life_op. eapply (keeps_bind _ _ _ _ (fun r st' => exists r', r = Ok r' /\ op_post d r' st')).
  - eapply keeps_outcome; [|eauto].
    eapply (owned_keeps _ d); [done|apply run_op_grows|apply op_post_None|apply run_op_keeps].
  - by intros ? ? (? & ? & _).
  - intros r st' (r' & [= <-] & Hp). apply keeps_ret. destruct r as [d'|]; eexists; by (split; [done|]).
Qed.

Lemma set_nonblocking_next b d st :
  owned d st ->
  keeps st (set_nonblocking system b d) (fun r st' => exists d', r = Ok d' /\ owned d' st' /\ ssl d' = ssl d /\ io_box d' = io_box d).
Proof.
  intros Ho h r h' [= <- <-]. exists [(wolf_set_nonblock (ssl d) b, system h (wolf_set_nonblock (ssl d) b))], st.
  split; [done|]. destruct Ho as [->|[-> Hwf]].
  - split; [done|]. eexists. by split_and!; [|left| |].
  - assert (heap_step (Some (heap_of d)) (wolf_set_nonblock (ssl d) b) (system h (wolf_set_nonblock (ssl d) b)) = Some (Some (heap_of d))) as E.
    { apply session_call; [done|]. intros a h2 Hs. cbn. by rewrite decide_True. }
    cbn [follow]. rewrite E. split; [done|]. eexists. by split_and!; [|right| |].
Qed.

Lemma dtls_create_keeps server :
  keeps (Some empty_heap) (dtls_create system server) (fun r st => match r with Ok d => owned d st | Err _ => gone st end).
Proof.
  eapply (keeps_bind _ _ _ _ (fun r st => match r with
    | Ok a => st = None \/ st = Some {| contexts := {[ret a]}; sessions := ∅; boxes := ∅ |} /\ ret a <> NULL
    | Err _ => gone st end)).
  - apply keeps_checked. intros a. cbn [heap_step]. eexists. split; [done|]. destruct (ret a <? 0); [by right|].
    case_decide as Hd; [by left|right]. split; [|tauto]. unfold empty_heap. cbn. do 2 f_equal. set_solver.
  - done.
  - intros a st [->|[-> Hn]]; apply keeps_ret; [by left|]. right. by split.
Qed.
End life_proofs.

(** ** Properties *)

(** The two places where sessions are set up. *)
Inductive setup := Acceptor (fd : Z) (secret : list Z) | Connection (fd : Z) (peer : list Z) (peer_size : Z).

Definition set_up (system : history -> call -> answer) (dtls13 : bool) (s : setup) : eff history Dtls :=
  match s with
  | Acceptor fd secret => create_stateless_acceptor system dtls13 fd secret
  | Connection fd peer peer_size => connect_setup system fd peer peer_size
  end.

Abbreviation life := (keeps heap_step).

(** A [Dtls] or nothing. *)
Definition all_or_nothing (r : io Dtls) (st : option heap) : Prop :=
  match r with Ok d => owned d st | Err _ => gone st end.

Lemma set_up_keeps system dtls13 s : life (Some empty_heap) (set_up system dtls13 s) all_or_nothing.
Proof.
  assert (forall o d st, owned d st -> life st (or_drop system (run_op system dtls13 o) d) all_or_nothing) as Hop
    by (intros; by apply or_drop_keeps).
  assert (forall o d st (f : Dtls -> eff history Dtls), owned d st ->
    (forall d' st', owned d' st' -> life st' (f d') all_or_nothing) ->
    life st (d ← or_drop system (run_op system dtls13 o) d; f d) all_or_nothing) as Hnext.
  { intros o d st f Ho Hf. eapply keeps_bind; [by apply Hop|done|]. intros d' st' Ho'. by apply Hf. }
  destruct s as [fd secret|fd p n]; cbn [set_up]; (eapply keeps_bind; [apply dtls_create_keeps|done|]); intros d st Ho;
    apply (Hnext (Op_socket fd)); try done; intros d1 st1 Ho1;
    (eapply keeps_bind; [by apply set_nonblocking_next|by intros ? ? (? & ? & _)|]);
    intros d2 st2 (d2' & [= <-] & Ho2 & _).
  - apply (Hnext Op_io); [done|]. intros d3 st3 Ho3. by apply (Hop (Op_cookie secret)).
  - apply (Hnext (Op_peer p n)); [done|]. intros d3 st3 Ho3. by apply (Hop Op_io).
Qed.

(** What the operations leave in the fields. *)
Lemma or_drop_Ok system o d h d' h' :
  or_drop system o d h = (Ok d', h') -> o d h = (Ok d', h').
Proof. unfold or_drop, guarded. destruct (o d h) as [[]]; by intros [= <- <-]. Qed.

Lemma set_socket_Ok system fd d h d' h' : set_socket system fd d h = (Ok d', h') -> ssl d' <> NULL.
Proof.
  intros E. next_effect E a h1 Ha. destruct (Z.eqb_spec (ret a) NULL); [done|].
  next_effect E b h2 Hb. destruct (negb _); [by next_effect E u h3 Hu|].
  next_effect E u h3 Hu. next_effect E v h4 Hv. by injection E as <- <-.
Qed.

Lemma set_io_Ok system d h d' h' : set_io system d h = (Ok d', h') -> ssl d' = ssl d /\ is_Some (io_box d').
Proof.
  unfold set_io. destruct (ssl d =? NULL); [done|]. intros E. next_effect E a h1 Ha. 
  next_effect E u2 h2 Hu2. next_effect E u3 h3 Hu3. next_effect E u4 h4 Hu4. next_effect E u5 h5 Hu5.
  injection E as <- <-. eauto.
Qed.

Lemma set_cookie_secret_Ok system dtls13 secret d h d' h' :
  set_cookie_secret system dtls13 secret d h = (Ok d', h') -> d' = d /\ secret <> [] /\ is_server d = true.
Proof.
  unfold set_cookie_secret. destruct (ssl d =? NULL); [done|]. destruct (is_server d); [|done]. cbn [negb].
  destruct (_ <? _); [done|]. destruct (Z.eqb_spec (Z.of_nat (length secret)) 0) as [|Hne]; [done|].
  intros E. next_effect E a h1 Ha. assert (secret <> []) by (by destruct secret).
  destruct (if dtls13 then _ else _); [by injection E as <- <-|done].
Qed.

Lemma set_up_Ok system dtls13 s h d h' :
  set_up system dtls13 s h = (Ok d, h') -> ssl d <> NULL /\ is_Some (io_box d).
Proof.
  destruct s as [fd secret|fd p n]; intros E; next_effect E d0 h0 H0; next_effect E d1 h1 H1;
    apply or_drop_Ok, set_socket_Ok in H1; next_effect E d2 h2 H2; next_effect H2 u h2' Hu; injection H2 as <- <-;
    next_effect E d3 h3 H3; apply or_drop_Ok in H3, E.
  - apply set_cookie_secret_Ok in E as (-> & _ & _). apply set_io_Ok in H3 as [-> Hio]. done.
  - next_effect H3 a h4 Ha. destruct (_ =? _); [|done]. injection H3 as <- <-. apply set_io_Ok in E as [-> Hio]. done.
Qed.

(** C12: Ownership of foreign objects is right: setting up a session makes a complete one or
    leaves nothing behind, whichever step fails; and whatever is then done with it, in any
    order, failing or not, until it is dropped, nothing is freed twice or used after it was
    freed, the library's callbacks are only ever given a live box, and in the end every context,
    session and box has been freed. (Unless the allocator hands out an address in use.) *)
Theorem dtls_memory_safe system dtls13 s ops h :
  exists r calls st, set_up system dtls13 s h = (r, h ++ calls) /\ follow heap_step (Some empty_heap) calls = Some st /\
    match r with
    | Err _ => st = None \/ st = Some empty_heap
    | Ok d =>
        (st = None \/ st = Some (heap_of d)) /\ ssl d <> NULL /\ is_Some (io_box d) /\
        exists r' used st', run_life system dtls13 ops d (h ++ calls) = (r', (h ++ calls) ++ used) /\
          follow heap_step st used = Some st' /\ (st' = None \/ st' = Some empty_heap)
    end.
Proof.
  destruct (set_up system dtls13 s h) as [r h1] eqn:E.
  destruct (set_up_keeps _ _ _ _ _ _ E) as (calls & st & -> & Hf & Hp). exists r, calls, st. split_and!; [done..|].
  destruct r as [d|error]; [|done]. apply set_up_Ok in E as [Hs Hio]. split_and!; [|done..|].
  - by destruct Hp as [->|[-> _]]; [left|right].
  - destruct (run_life system dtls13 ops d (h ++ calls)) as [r' h2] eqn:E2.
    destruct (run_life_keeps _ _ _ _ _ Hp _ _ _ E2) as (used & st' & -> & Hf' & Hg). by exists r', used, st'.
Qed.

(** An allocator that never repeats itself, and a library whose calls succeed: the whole life
    of an acceptor and of a connection that is connected again. *)
Definition counting_library (h : history) (c : call) : answer :=
  match c with
  | wolf_ctx _ | wolf_new _ | box_new => answering (Z.of_nat (length h) + 1) []
  | wolf_set_fd _ _ | wolf_set_peer _ _ _ => answering SSL_SUCCESS []
  | _ => answering 0 []
  end.

Example connection_life :
  let '(r, h) := set_up counting_library false (Connection 3 [] 16) [] in
  match r with
  | Ok d => follow heap_step (Some empty_heap) (run_life counting_library false [Op_use; Op_io; Op_use; Op_socket 4; Op_io; Op_use] d h).2
              = Some (Some empty_heap)
  | Err _ => False
  end.
Proof. vm_compute. reflexivity. Qed.
