(* ===== verification/HostRun.v ===== *)
(** * The host around a run

    Composes what a run changes on the host: in [run_with_login] of [src/client/mod.rs] the TUN
    device, its configuration and the name servers; in [run] of [src/server.rs] the control
    socket, the TUN device and the forwarding rule. Each is a value whose [Drop] undoes it, but
    for the kernel's settings that come with the rule, which stay; the drops run in reverse order on every way out. Workers hold the device too, but they are
    joined before; those that a failing spawn leaves behind are the subject of [ClientStop]. *)

From Stdlib Require Import Ascii.
From S2P Require Import Prelude Text Net Config DtlsApi Session System Tun Guards Control ControlBind Startup.

Local Open Scope Z_scope.

(** ** What calls are about *)

Inductive subject := Descriptor | Addresses | Names | Firewall | LocalFile | Elsewhere.

#[export] Instance subject_eq_dec : EqDecision subject.
Proof. solve_decision. Defined.

Definition program_subject (program : rstr) : subject :=
  if decide (program ∈ [str "ip"; str "ifconfig"; str "route"; str "netsh"]) then Addresses
  else if decide (program ∈ [str "resolvectl"; str "networksetup"; str "powershell.exe"]) then Names
  else if decide (program ∈ [str "sysctl"; str "iptables"]) then Firewall
  else Elsewhere.

Definition subject_of (c : call) : subject :=
  match c with
  | sys_open _ _ | sys_socket _ _ _ | sys_close _ | sys_read _ _ | sys_write _ _ | sys_recvfrom _ _ | sys_peek _ _
  | sys_readv _ _ | sys_writev _ _ | sys_getfl _ | sys_setfl _ _ | sys_tunsetiff _ _ _
  | sys_ctl_info _ _ | sys_connect_ctl _ _ _ | sys_utun_name _ _ => Descriptor
  | run_status program _ | run_output program _ => program_subject program
  | fs_read _ | fs_create_dir _ | fs_create_new _ _ | fs_write_all _ _ | fs_remove_dir_all _
  | fs_connect _ | fs_exists _ | fs_remove_file _ | fs_bind _ | fs_getgrnam _ | fs_chown _ _ | fs_set_permissions _ _
  | fs_listener_nonblocking | fs_socket_pair | fs_wake_nonblocking _ => LocalFile
  | _ => Elsewhere
  end.

(** All the calls [m] makes are about [s]. *)
Definition about (s : subject) (calls : history) : Prop := Forall (fun '(c, _) => subject_of c = s) calls.
Definition makes {A} (s : subject) (m : eff history A) : Prop := forall h, exists calls, (m h).2 = h ++ calls /\ about s calls.

Create HintDb makes.

Section makes.
Context (system : history -> call -> answer) (s : subject).

Lemma makes_of_io {A} (r : io A) : makes s (of_io r).
Proof. intros h. exists []. rewrite app_nil_r. split; [done|constructor]. Qed.

Lemma makes_ret {A} (a : A) : makes s (mret a).
Proof. apply (makes_of_io (Ok a)). Qed.

Lemma makes_bind {A B} (m : eff history A) (f : A -> eff history B) :
  makes s m -> (forall a, makes s (f a)) -> makes s (m ≫= f).
Proof.
  intros Hm Hf h. rewrite eff_bind_run. destruct (Hm h) as (c1 & E1 & A1).
  destruct (m h) as [[a|error] h1]; cbn in E1; subst h1; [|by exists c1].
  destruct (Hf a (h ++ c1)) as (c2 & E2 & A2). exists (c1 ++ c2). rewrite E2, app_assoc. split; [done|by apply Forall_app].
Qed.

Lemma makes_ignore {A} (m : eff history A) : makes s m -> makes s (ignore m).
Proof. intros Hm h. apply Hm. Qed.

Lemma makes_guarded {A} (drop : eff history unit) (m : eff history A) : makes s drop -> makes s m -> makes s (guarded drop m).
Proof.
  intros Hd Hm h. unfold guarded. destruct (Hm h) as (c1 & E1 & A1).
  destruct (m h) as [[a|error] h1]; cbn in *; subst h1; [by exists c1|].
  destruct (Hd (h ++ c1)) as (c2 & E2 & A2). exists (c1 ++ c2). rewrite E2, app_assoc. split; [done|by apply Forall_app].
Qed.

Lemma makes_outcome {A} (m : eff history A) : makes s m -> makes s (outcome_of m).
Proof. intros Hm h. destruct (Hm h) as (c & E & Ha). exists c. unfold outcome_of. by destruct (m h). Qed.

Lemma makes_perform c : subject_of c = s -> makes s (perform system c).
Proof. intros Hc h. eexists. split; [done|]. by constructor. Qed.

Lemma makes_checked c : subject_of c = s -> makes s (checked system c).
Proof. intros Hc h. rewrite checked_run. eexists. split; [done|]. by constructor. Qed.

Lemma makes_run_command program arguments : program_subject program = s -> makes s (run_command system program arguments).
Proof. intros Hc h. rewrite run_command_run. eexists. split; [done|]. by constructor. Qed.
End makes.

#[export] Hint Resolve makes_of_io makes_ret makes_ignore makes_guarded makes_outcome makes_perform makes_checked makes_run_command : makes.

(** Calls about something else change neither the open descriptors, nor the firewall, nor the
    name servers. *)
Lemma about_descriptors s calls fds : about s calls -> s <> Descriptor -> descriptors fds calls = Some fds.
Proof.
  intros Ha Hs. induction Ha as [|[c a] calls Hc _ IH]; [done|]. unfold descriptors in *. cbn [follow].
  assert (fd_step fds c a = Some fds) as E by (unfold fd_step; destruct c; try done; subst; done).
  by rewrite E.
Qed.

Lemma about_settings before s calls h service :
  about s calls -> s <> Names -> Guards.settings before (h ++ calls) service = Guards.settings before h service.
Proof.
  intros Ha Hs. revert h. induction Ha as [|[c a] calls Hc _ IH]; intros h; [by rewrite app_nil_r|].
  rewrite cons_middle, app_assoc, IH, settings_snoc. unfold dns_effect.
  destruct c as []; try done. destruct arguments as [|flag [|service' servers]]; try done.
  destruct (decide _) as [[-> _]|]; [|done]. subst. by destruct Hs.
Qed.

Lemma about_rules g n0 s calls h : about s calls -> s <> Firewall -> rules g n0 (h ++ calls) = rules g n0 h.
Proof.
  intros Ha Hs. revert h. induction Ha as [|[c a] calls Hc _ IH]; intros h; [by rewrite app_nil_r|].
  rewrite cons_middle, app_assoc, IH. apply rules_other; intros ->; by destruct Hs.
Qed.

Lemma about_kernel s calls h : about s calls -> s <> Firewall -> kernel_settings (h ++ calls) = kernel_settings h.
Proof.
  intros Ha Hs. revert h. induction Ha as [|[c a] calls Hc _ IH]; intros h; [by rewrite app_nil_r|].
  rewrite cons_middle, app_assoc, IH. apply kernel_settings_other. unfold kernel_write.
  destruct c; try done. repeat (destruct arguments as [|? arguments]; try done).
  rewrite decide_False; [done|]. intros (-> & _). by destruct Hs.
Qed.

Lemma about_overridden os process interface server st s calls h :
  about s calls -> s <> Names ->
  overridden (override_call os process interface server) (revert_call os process interface) st (h ++ calls)
  = overridden (override_call os process interface server) (revert_call os process interface) st h.
Proof.
  intros Ha Hs. revert h. induction Ha as [|[c a] calls Hc _ IH]; intros h; [by rewrite app_nil_r|].
  rewrite cons_middle, app_assoc, IH, overridden_snoc. unfold override_effect. destruct (success a); [|done].
  rewrite !decide_False; [done| |]; intros ->; destruct Hs; rewrite <-Hc; unfold override_call, revert_call; by case_decide.
Qed.

(** ** What the parts call *)
Section parts.
Context (system : history -> call -> answer).

Lemma makes_tun_open os wintun name : makes Descriptor (tun_open system os wintun name).
Proof.
  destruct os; unfold tun_open, open_linux, open_utun, or_close;
    repeat (apply makes_bind; [auto with makes|intros ?]); auto with makes.
Qed.

Lemma makes_tun_drop t : makes Descriptor (tun_drop system t).
Proof. apply makes_ignore. auto with makes. Qed.

Lemma makes_configure_mtu os t mtu : makes Addresses (configure_mtu system os t mtu).
Proof. apply makes_bind; [auto with makes|intros ?]. destruct os; auto with makes. Qed.

Lemma makes_configure_ipv4 os t address peer network : makes Addresses (configure_ipv4 system os t address peer network).
Proof.
  apply makes_bind; [auto with makes|intros [network_address prefix]].
  destruct os; repeat first [by apply makes_run_command|apply makes_bind; [by apply makes_run_command|intros ?]].
Qed.

Lemma makes_dns_drop g : makes Names (dns_drop system g).
Proof.
  destruct g as [i|services|i c]; [by apply makes_ignore, makes_perform| |by apply makes_ignore, makes_perform].
  unfold dns_drop. induction (reverse services) as [|[service servers] l IH]; [apply makes_ret|].
  cbn [foldr]. apply makes_bind; [|done]. by apply makes_ignore, makes_perform.
Qed.

Lemma apply_services_about server services saved h saved' r h' :
  apply_services system server services saved h = (saved', (r, h')) -> exists calls, h' = h ++ calls /\ about Names calls.
Proof.
  revert saved h. induction services as [|service services IH]; intros saved h; cbn [apply_services].
  { intros [= _ _ <-]. exists []. rewrite app_nil_r. split; [done|constructor]. }
  unfold System.output. rewrite checked_run. set (a := system h _). set (h1 := h ++ [_]).
  assert (exists calls, h1 = h ++ calls /\ about Names calls) as (c1 & E1 & A1).
  { eexists. split; [done|]. by constructor. }
  rewrite E1. destruct (ret a <? 0); [intros [= _ _ <-]; eauto|]. destruct (success a); [|intros [= _ _ <-]; eauto].
  rewrite run_command_run. set (b := system _ _).
  assert (forall x, about Names x -> about Names (c1 ++ [(run_status (str "networksetup") [str "-setdnsservers"; service; server], b)] ++ x)) as A2.
  { intros x Hx. apply Forall_app. split; [done|]. by constructor. }
  rewrite <-app_assoc.
  destruct (ret b <? 0); [|destruct (ret b =? 0)]; try (intros [= _ _ <-]; eexists; split; [done|]; apply (A2 []); constructor).
  intros (c2 & -> & Hc2)%IH. rewrite <-!app_assoc. eexists. split; [done|]. by apply A2.
Qed.

Lemma makes_dns_apply os process interface server : makes Names (dns_apply system os process interface server).
Proof.
  destruct os; unfold dns_apply, System.output; apply makes_bind; auto with makes; intros a.
  - apply makes_bind; [|auto with makes]. apply makes_guarded; auto with makes.
  - unfold apply_listed. destruct (success a); [|apply makes_of_io]. intros h.
    destruct (apply_services system _ _ _ h) as [saved [r h']] eqn:E.
    apply apply_services_about in E as (c1 & -> & A1). destruct r as [u|error]; [by exists c1|].
    destruct (makes_dns_drop (MacosDns saved) (h ++ c1)) as (c2 & E2 & A2). exists (c1 ++ c2).
    rewrite E2, app_assoc. split; [done|]. by apply Forall_app.
Qed.
End parts.

(** ** The client *)

(** [m] with a value alive whose [Drop] is [drop], on every way out. *)
Definition finally {A} (drop : eff history unit) (m : eff history A) : eff history A := fun h =>
  let '(r, h) := m h in (r, (drop h).2).

Section client.
Context (system : history -> call -> answer).

(** [Drop for Tun]: on Windows the session is left to Wintun. *)
Definition device_drop (os : platform) (t : Tun) : eff history unit :=
  if decide (os = Windows) then mret tt else tun_drop system t.

(** [run_with_login] from the TUN device on; [connections] is the reconnection loop. *)
Definition client_host (os : platform) (wintun : Wintun) (process : Z) (s : ClientSettings) (values : gmap rstr rstr)
    (connections : Tun -> eff history unit) : eff history unit :=
  t ← tun_open system os wintun (value values (str "tun_name") (str "autobricks1"));
  finally (device_drop os t)
    (_ ← configure_mtu system os t (mtu (client_config s));
     _ ← configure_ipv4 system os t (value values (str "vpn_address") (str "10.8.1.2"))
           (value values (str "vpn_gateway") (str "10.8.1.1")) (value values (str "vpn_network") (str "10.8.1.0/24"));
     if force_dns s then
       g ← dns_apply system os process (tun_name t) (dns_server s);
       finally (dns_drop system g) (connections t)
     else connections t).
End client.

(** What the connections call is reading and writing packets of the device. *)
Definition uses_device {A} (t : Tun) (m : eff history A) : Prop :=
  forall h, exists calls, (m h).2 = h ++ calls /\
    Forall (fun '(c, _) => call_fd c = Some (tun_fd t) /\ forall fd, c <> sys_close fd) calls.

Lemma uses_device_makes {A} t (m : eff history A) : uses_device t m -> makes Descriptor m.
Proof.
  intros Hu h. destruct (Hu h) as (calls & E & Hc). exists calls. split; [done|].
  eapply Forall_impl; [exact Hc|]. intros [c a] [Hfd _]. by destruct c.
Qed.

Lemma keeps_uses_device {A} t (m : eff history A) :
  uses_device t m -> keeps fd_step [tun_fd t] m (fun _ fds => fds = [tun_fd t]).
Proof.
  intros Hu h r h' E. destruct (Hu h) as (calls & E' & Hc). rewrite E in E'. cbn in E'. subst h'.
  exists calls, [tun_fd t]. split_and!; [done| |done]. clear E.
  induction Hc as [|[c a] calls [Hfd Hn] _ IH]; [done|]. cbn [follow].
  assert (fd_step [tun_fd t] c a = Some [tun_fd t]) as ->; [|exact IH].
  unfold fd_step. rewrite Hfd, decide_True by (by left). destruct c; try done. by destruct (Hn fd).
Qed.

Lemma keeps_makes {A} s (m : eff history A) fds :
  makes s m -> s <> Descriptor -> keeps fd_step fds m (fun _ fds' => fds' = fds).
Proof.
  intros Hm Hs h r h' E. destruct (Hm h) as (calls & E' & Ha). rewrite E in E'. cbn in E'. subst h'.
  exists calls, fds. split_and!; [done|by eapply about_descriptors|done].
Qed.

Lemma keeps_finally {S A} (step : S -> call -> answer -> option S) st drop (m : eff history A) (mid post : _ -> _ -> Prop) :
  keeps step st m mid -> (forall r st', mid r st' -> keeps step st' drop (fun _ => post r)) ->
  keeps step st (finally drop m) post.
Proof.
  intros Hm Hd h r h'. unfold finally. destruct (m h) as [r1 h1] eqn:E. intros [= <- <-].
  apply Hm in E as (c1 & st1 & -> & D1 & P1). destruct (drop (h ++ c1)) as [r2 h2] eqn:E2.
  apply (Hd _ _ P1) in E2 as (c2 & st2 & -> & D2 & P2). exists (c1 ++ c2), st2.
  split; [by rewrite app_assoc|]. split; [|done]. by rewrite follow_app, D1.
Qed.

Lemma finally_inv {A} drop (m : eff history A) h r h' :
  finally drop m h = (r, h') -> exists h1, m h = (r, h1) /\ h' = (drop h1).2.
Proof. unfold finally. destruct (m h) as [r1 h1]. intros [= <- <-]. eauto. Qed.

Section client_lemmas.
Context (system : history -> call -> answer).

Lemma keeps_client_host os wintun process s values connections :
  os <> Windows -> (forall t, uses_device t (connections t)) ->
  keeps fd_step [] (client_host system os wintun process s values connections) (fun _ fds => fds = []).
Proof.
  intros Hos Hc. eapply (keeps_bind _ _ _ _ (fun r fds => fds = tun_fds r)).
  { destruct os; [apply keeps_open_linux|apply keeps_open_utun|done]. }
  { by intros error fds ->. }
  intros t fds ->. cbn [tun_fds]. eapply (keeps_finally _ _ _ _ (fun _ fds => fds = [tun_fd t])).
  - eapply keeps_bind; [eapply keeps_makes; [apply makes_configure_mtu|done]|done|]. intros u fds ->.
    eapply keeps_bind; [eapply keeps_makes; [apply makes_configure_ipv4|done]|done|]. intros u' fds ->.
    destruct (force_dns s); [|by apply keeps_uses_device].
    eapply keeps_bind; [eapply keeps_makes; [apply makes_dns_apply|done]|done|]. intros g fds ->.
    eapply keeps_finally; [by apply keeps_uses_device|]. intros r fds ->.
    eapply keeps_makes; [apply makes_dns_drop|done].
  - intros r fds ->. unfold device_drop. rewrite decide_False by done. apply keeps_close.
Qed.

End client_lemmas.

Lemma makes_device_drop system os t : makes Descriptor (device_drop system os t).
Proof. unfold device_drop. case_decide; [apply makes_ret|apply makes_tun_drop]. Qed.

(** *** What the parts of a run preserve *)
Section preserves.
Context (system : history -> call -> answer) (good : history -> Prop).

Definition preserves {A} (m : eff history A) : Prop := forall h, good h -> good (m h).2.

Lemma preserves_bind {A B} (m : eff history A) (f : A -> eff history B) h :
  preserves m -> (forall a, (m h).1 = Ok a -> preserves (f a)) -> good h -> good ((m ≫= f) h).2.
Proof.
  intros Hm Hf Hh. rewrite eff_bind_run. specialize (Hm h Hh).
  destruct (m h) as [[a|error] h1]; [|done]. by apply (Hf a).
Qed.

Lemma preserves_finally {A} drop (m : eff history A) : preserves m -> preserves drop -> preserves (finally drop m).
Proof. intros Hm Hd h Hh. unfold finally. specialize (Hm h Hh). destruct (m h) as [r h1]. by apply Hd. Qed.

Lemma preserves_guarded {A} drop (m : eff history A) : preserves m -> preserves drop -> preserves (guarded drop m).
Proof. intros Hm Hd h Hh. unfold guarded. specialize (Hm h Hh). destruct (m h) as [[a|error] h1]; [done|by apply Hd]. Qed.

(** What is known of [own] is not changed by calls about anything else. *)
Definition frames (own : subject) : Prop :=
  forall subject calls h, about subject calls -> subject <> own -> good h -> good (h ++ calls).

Lemma preserves_makes {A} own subject (m : eff history A) : frames own -> makes subject m -> subject <> own -> preserves m.
Proof. intros frame Hm Hs h Hh. destruct (Hm h) as (calls & -> & Ha). by eapply frame. Qed.

(** What the guard keeps, the run keeps. *)
Lemma preserves_client_host os wintun process s values connections h :
  frames Names -> (forall t, (tun_open system os wintun (value values (str "tun_name") (str "autobricks1")) h).1 = Ok t ->
     forall h1, good h1 -> let '(r, h2) := dns_apply system os process (tun_name t) (dns_server s) h1 in
     match r with
     | Ok g => forall calls, about Descriptor calls -> good (dns_drop system g (h2 ++ calls)).2
     | Err _ => good h2
     end) ->
  (forall t, uses_device t (connections t)) -> good h ->
  good (client_host system os wintun process s values connections h).2.
Proof.
  intros frame Hguard Hconn. apply preserves_bind; [by eapply preserves_makes; [exact frame|apply makes_tun_open|]|]. intros t Ht.
  apply preserves_finally.
  2:{ eapply preserves_makes; [exact frame|apply makes_device_drop|done]. }
  intros h1. apply preserves_bind; [by eapply preserves_makes; [exact frame|apply makes_configure_mtu|]|]. intros u _ h2.
  apply preserves_bind; [by eapply preserves_makes; [exact frame|apply makes_configure_ipv4|]|]. intros u' _.
  destruct (force_dns s); [|by eapply preserves_makes; [exact frame|exact (uses_device_makes t _ (Hconn t))|]].
  intros h3 H3. specialize (Hguard t Ht h3 H3). rewrite eff_bind_run.
  destruct (dns_apply _ _ _ _ _ h3) as [[g|error] h4]; [|done]. unfold finally.
  destruct (uses_device_makes _ _ (Hconn t) h4) as (calls & E & Ha). destruct (connections t h4) as [r h5].
  cbn in E. subst h5. by apply Hguard.
Qed.
End preserves.

(** ** The server *)
Section server.
Context (system : history -> call -> answer).

(** [ForwardingGuard] on the two platforms of the server. *)
Definition host_forwarding (fuel : nat) (os : platform) (interface network : rstr) (h : history)
    : option (io ForwardingGuard * history) :=
  if decide (os = Linux) then forwarding_enable system fuel interface network h
  else Some (Ok {| fg_interface := interface; fg_network := network |}, h).
Definition host_forwarding_drop (fuel : nat) (os : platform) (g : ForwardingGuard) (h : history) : option history :=
  if decide (os = Linux) then forwarding_drop system fuel g h else Some h.

(** Opening and configuring the device, after the checks of the settings; [udp] is how binding the
    UDP socket ends. *)
Definition server_device (os : platform) (wintun : Wintun) (s : ServerSettings) (values : gmap rstr rstr)
    (clients : list (rstr * rstr)) (udp : io unit) : eff history (Tun * rstr) :=
  _ ← of_io udp;
  vpn ← of_io (vpn_settings values);
  let '(vpn_address, vpn_network, _) := vpn in
  _ ← of_io (client_logins clients);
  _ ← of_io (validate_client_bindings clients vpn_address vpn_network);
  t ← tun_open system os wintun (value values (str "tun_name") (str "autobricks0"));
  guarded (device_drop system os t)
    (_ ← configure_mtu system os t (mtu (settings_config s));
     let text := value values (str "vpn_address") (str "10.8.1.1") in
     _ ← configure_ipv4 system os t text text vpn_network;
     mret (t, vpn_network)).

(** [server::run] once the control socket is bound. [serve] is what follows the forwarding rule;
    [handed]: the control thread was spawned, which drops the socket when it ends, before the
    other values are dropped. *)
Definition server_bound (fuel : nat) (os : platform) (wintun : Wintun) (s : ServerSettings) (values : gmap rstr rstr)
    (clients : list (rstr * rstr)) (udp : io unit) (handed : bool) (serve : Tun -> eff history unit) (h : history)
    : option (io unit * history) :=
  let drop_control := control_drop system (control_socket_path s) in
  match server_device os wintun s values clients udp h with
  | (Err error, h) => Some (Err error, (drop_control h).2)
  | (Ok (t, vpn_network), h) =>
      enabled ← host_forwarding fuel os (tun_name t) vpn_network h;
      match enabled with
      | (Err error, h) => Some (Err error, (drop_control (device_drop system os t h).2).2)
      | (Ok guard, h) =>
          let '(r, h) := (if handed then finally drop_control (serve t) else serve t) h in
          h ← host_forwarding_drop fuel os guard h;
          Some (r, if handed then (device_drop system os t h).2 else (drop_control (device_drop system os t h).2).2)
      end
  end.

Definition server_host (fuel : nat) (os : platform) (wintun : Wintun) (s : ServerSettings) (values : gmap rstr rstr)
    (clients : list (rstr * rstr)) (udp : io unit) (handed : bool) (serve : Tun -> eff history unit) (h : history)
    : option (io unit * history) :=
  match control_bind system (control_socket_path s) (control_socket_group s) h with
  | (Err error, h) => Some (Err error, h)
  | (Ok _, h) => server_bound fuel os wintun s values clients udp handed serve h
  end.

(** *** Lemmas *)
Lemma makes_control_bind path group : makes LocalFile (control_bind system path group).
Proof.
  unfold control_bind, check_unused, remove_stale, set_group.
  repeat first [by apply makes_checked|by apply makes_perform|apply makes_ret|apply makes_of_io|by apply makes_outcome, makes_checked
    |apply makes_bind; [|intros ?]|case_match].
Qed.

Lemma makes_control_drop path : makes LocalFile (control_drop system path).
Proof. apply makes_ignore. by apply makes_perform. Qed.

Lemma remove_rule_about fuel g h h' : remove_rule system fuel g h = Some h' -> exists calls, h' = h ++ calls /\ about Firewall calls.
Proof.
  revert h. induction fuel as [|fuel IH]; intros h; [done|]. cbn [remove_rule succeeds].
  destruct (success _); [|intros [= <-]; eexists; split; [done|by constructor]].
  destruct (success _).
  - intros (calls & -> & Ha)%IH. rewrite <-!app_assoc. eexists. split; [done|]. by repeat constructor.
  - intros [= <-]. rewrite <-app_assoc. eexists. split; [done|]. by repeat constructor.
Qed.
Lemma enable_about fuel interface network h r h' :
  forwarding_enable system fuel interface network h = Some (r, h') -> exists calls, h' = h ++ calls /\ about Firewall calls.
Proof.
  unfold forwarding_enable. set (m := _ ≫= _).
  assert (makes Firewall m) as Hm by (apply makes_bind; [by apply makes_run_command|intros ?; by apply makes_run_command]).
  destruct (Hm h) as (c1 & E1 & A1). destruct (m h) as [[u|error] h1]; cbn in E1; subst h1; [|by intros [= _ <-]; exists c1].
  destruct (remove_rule _ _ _ (h ++ c1)) as [h2|] eqn:E2; [|done]. apply remove_rule_about in E2 as (c2 & -> & A2). cbn [mbind option_bind].
  rewrite run_command_run. set (insert := (run_status _ _, _)).
  assert (about Firewall (c1 ++ c2 ++ [insert])) as A3
    by (apply Forall_app; split; [done|]; apply Forall_app; split; [done|by constructor]).
  rewrite <-!app_assoc. destruct (_ <? _); [|destruct (_ =? _)]; [|by intros [= _ <-]; eexists|];
    (destruct (remove_rule _ _ _ _) as [h3|] eqn:E3; [|done]; apply remove_rule_about in E3 as (c4 & -> & A4);
     intros [= _ <-]; rewrite <-!app_assoc; eexists; split; [done|];
     apply Forall_app; split; [done|]; apply Forall_app; split; [done|by constructor]).
Qed.

Lemma keeps_server_device wintun s values clients udp :
  keeps fd_step [] (server_device Linux wintun s values clients udp)
    (fun r fds => fds = if r is Ok (t, _) then [tun_fd t] else []).
Proof.
  unfold server_device. destruct udp as [u|error]; [|by apply keeps_of_io]. rewrite eff_of_ok.
  destruct (vpn_settings values) as [[[a net] net']|error]; [|by apply keeps_of_io]. rewrite eff_of_ok.
  destruct (client_logins clients) as [l|error]; [|by apply keeps_of_io]. rewrite eff_of_ok.
  destruct (validate_client_bindings _ _ _) as [b|error]; [|by apply keeps_of_io]. rewrite eff_of_ok.
  eapply keeps_bind; [apply keeps_open_linux|by intros error' fds ->|]. intros t fds ->. cbn [tun_fds].
  eapply (keeps_guarded _ _ _ _ (fun r fds => fds = [tun_fd t] /\ forall x, r = Ok x -> x.1 = t)).
  - eapply (keeps_bind _ _ _ _ (fun _ fds => fds = [tun_fd t])); [eapply keeps_makes; [apply makes_configure_mtu|done]|by split|]. intros v fds ->.
    eapply (keeps_bind _ _ _ _ (fun _ fds => fds = [tun_fd t])); [eapply keeps_makes; [apply makes_configure_ipv4|done]|by split|]. intros v' fds ->.
    apply keeps_ret. split; [done|]. by intros x [= <-].
  - intros [t' n] fds [-> Ht]. by rewrite <-(Ht _ eq_refl).
  - intros error fds [-> _]. unfold device_drop. rewrite decide_False by done. apply keeps_close.
Qed.

Lemma preserves_server_device good own wintun s values clients udp :
  frames good own -> own <> Descriptor -> own <> Addresses -> preserves good (server_device Linux wintun s values clients udp).
Proof.
  intros Hf Hd Ha. assert (forall A (r : io A), preserves good (of_io r)) as Hio by by intros A r h.
  unfold server_device. intros h. apply preserves_bind; [apply Hio|]. intros u _ h1.
  apply preserves_bind; [apply Hio|]. intros [[a net] net'] _ h2.
  apply preserves_bind; [apply Hio|]. intros l _ h3. apply preserves_bind; [apply Hio|]. intros b _ h4.
  apply preserves_bind; [eapply preserves_makes; [exact Hf|apply makes_tun_open|done]|]. intros t _.
  apply preserves_guarded; [|eapply preserves_makes; [exact Hf|apply makes_device_drop|done]]. intros h5.
  apply preserves_bind; [eapply preserves_makes; [exact Hf|apply makes_configure_mtu|done]|]. intros u1 _ h6.
  apply preserves_bind; [eapply preserves_makes; [exact Hf|apply makes_configure_ipv4|done]|]. intros u2 _. apply Hio.
Qed.
(** The last call about a local file. *)
Definition last_file_call (h : history) : option call :=
  foldl (fun last '(c, _) => if decide (subject_of c = LocalFile) then Some c else last) None h.

Lemma last_file_call_snoc h c a : last_file_call (h ++ [(c, a)]) = if decide (subject_of c = LocalFile) then Some c else last_file_call h.
Proof. unfold last_file_call. by rewrite foldl_app. Qed.

Lemma last_file_call_frames last : frames (fun h => last_file_call h = last) LocalFile.
Proof.
  intros subject calls h Ha Hs. revert h. induction Ha as [|[c a] calls Hc _ IH]; intros h Hh; [by rewrite app_nil_r|].
  rewrite cons_middle, app_assoc. apply IH. rewrite last_file_call_snoc, decide_False; [done|congruence].
Qed.

Lemma rules_frames g n0 n : frames (fun h => rules g n0 h = n) Firewall.
Proof. intros subject calls h Ha Hs Hh. by erewrite about_rules. Qed.

Lemma kernel_frames ks : frames (fun h => kernel_settings h = ks) Firewall.
Proof. intros subject calls h Ha Hs Hh. by rewrite (about_kernel subject). Qed.

(** What the end of a run leaves: the calls so far, with the open descriptors [fds], [n] copies of
    the rule, the kernel's settings [ks] written, and [path] removed last, if [removed]. *)
Record host_at (h0 : history) (ks : list rstr) (fds : list Z) (g : ForwardingGuard) (n0 n : nat) (path : rstr) (removed : bool) (h : history) : Prop := {
  at_calls : exists calls, h = h0 ++ calls /\ descriptors [] calls = Some fds;
  at_rules : rules g n0 h = n;
  at_kernel : kernel_settings h = ks;
  at_file : removed = true -> last_file_call h = Some (fs_remove_file path);
}.

Lemma host_at_makes {A} subject (m : eff history A) h0 ks fds g n0 n path removed h :
  host_at h0 ks fds g n0 n path removed h -> makes subject m ->
  subject <> Descriptor -> subject <> Firewall -> subject <> LocalFile -> host_at h0 ks fds g n0 n path removed (m h).2.
Proof.
  intros [(calls & -> & Hd) Hr Hk Hf] Hm H1 H2 H3. split.
  - destruct (Hm (h0 ++ calls)) as (c & -> & Ha). exists (calls ++ c). rewrite app_assoc. split; [done|].
    unfold descriptors in *. rewrite follow_app, Hd. by eapply about_descriptors.
  - by eapply (preserves_makes (fun h => rules g n0 h = n)); [apply rules_frames|exact Hm|done|].
  - by eapply (preserves_makes (fun h => kernel_settings h = ks)); [apply kernel_frames|exact Hm|done|].
  - intros Hrm. by eapply (preserves_makes (fun h => last_file_call h = _)); [apply last_file_call_frames|exact Hm|done|apply Hf].
Qed.

Lemma host_at_drop_control h0 ks fds g n0 n path removed h :
  host_at h0 ks fds g n0 n path removed h -> host_at h0 ks fds g n0 n path true (control_drop system path h).2.
Proof.
  intros [(calls & -> & Hd) Hr Hk Hf]. unfold control_drop, ignore. rewrite perform_run. cbn [snd]. split.
  - eexists. rewrite <-app_assoc. split; [done|]. unfold descriptors in *. rewrite follow_app, Hd. done.
  - by rewrite rules_other.
  - by rewrite kernel_settings_other.
  - intros _. by rewrite last_file_call_snoc.
Qed.

(** A computation about descriptors, which follows their protocol. *)
Lemma host_at_device {A} (m : eff history A) h0 ks fds fds' g n0 n path removed h :
  host_at h0 ks fds g n0 n path removed h -> makes Descriptor m -> keeps fd_step fds m (fun _ st => st = fds') ->
  host_at h0 ks fds' g n0 n path removed (m h).2.
Proof.
  intros [(calls & -> & Hd) Hr Hks Hf] Hm Hk. split.
  - destruct (m (h0 ++ calls)) as [r h'] eqn:E. destruct (Hk _ _ _ E) as (c & st & -> & Hc & ->). exists (calls ++ c).
    rewrite app_assoc. split; [done|]. unfold descriptors in *. by rewrite follow_app, Hd.
  - by eapply (preserves_makes (fun h => rules g n0 h = n)); [apply rules_frames|exact Hm|done|].
  - by eapply (preserves_makes (fun h => kernel_settings h = ks)); [apply kernel_frames|exact Hm|done|].
  - intros Hrm. by eapply (preserves_makes (fun h => last_file_call h = _)); [apply last_file_call_frames|exact Hm|done|apply Hf].
Qed.

(** Calls about the firewall. *)
Lemma host_at_firewall calls h0 ks ks' fds g n0 n n' path removed h :
  host_at h0 ks fds g n0 n path removed h -> about Firewall calls -> rules g n0 (h ++ calls) = n' ->
  kernel_settings (h ++ calls) = ks' -> host_at h0 ks' fds g n0 n' path removed (h ++ calls).
Proof.
  intros [(c & -> & Hd) Hr Hk Hf] Ha Hn Hks. split; [|done|done|].
  - exists (c ++ calls). rewrite app_assoc. split; [done|]. unfold descriptors in *. rewrite follow_app, Hd. by eapply about_descriptors.
  - intros Hrm. by apply (last_file_call_frames _ Firewall); [|done|apply Hf].
Qed.

Lemma host_at_drop_device t h0 ks g n0 n path removed h :
  host_at h0 ks [tun_fd t] g n0 n path removed h -> host_at h0 ks [] g n0 n path removed (device_drop system Linux t h).2.
Proof.
  intros Hh. eapply host_at_device; [exact Hh|apply makes_device_drop|].
  unfold device_drop. rewrite decide_False by done. apply keeps_close.
Qed.
(** The end of a server whose rule is in force. *)
Lemma host_served fuel t g n0 path (handed : bool) (serve : eff history unit) h0 ks h :
  host_at h0 ks [tun_fd t] g n0 1 path false h -> uses_device t serve ->
  iptables_sound g n0 system -> iptables_works g n0 system -> (1 < fuel)%nat ->
  exists r h1 h2, (if handed then finally (control_drop system path) serve else serve) h = (r, h1) /\
    host_forwarding_drop fuel Linux g h1 = Some h2 /\
    host_at h0 ks [] g n0 0 path true
      (if handed then (device_drop system Linux t h2).2 else (control_drop system path (device_drop system Linux t h2).2).2).
Proof.
  intros Hh Hu Hsound Hworks Hfuel.
  assert (exists r h1, (if handed then finally (control_drop system path) serve else serve) h = (r, h1) /\
    host_at h0 ks [tun_fd t] g n0 1 path handed h1) as (r & h1 & E & H1).
  { pose proof (host_at_device serve _ _ _ _ _ _ _ _ _ _ Hh (uses_device_makes _ _ Hu) (keeps_uses_device _ _ Hu)) as Hd.
    destruct handed; [|destruct (serve h) as [r h1]; eauto].
    unfold finally. destruct (serve h) as [r h1]. eexists _, _. split; [done|]. by eapply host_at_drop_control. }
  exists r, h1. unfold host_forwarding_drop, forwarding_drop. rewrite decide_True by done.
  destruct (remove_rule_ends g n0 system fuel h1 Hsound) as (calls & E2 & _ & _ & Hz); [by rewrite (at_rules _ _ _ _ _ _ _ _ _ H1)|].
  exists (h1 ++ calls). split; [done|]. split; [done|]. pose proof (remove_rule_kernel _ _ _ _ _ E2) as Hkernel.
  rewrite (at_kernel _ _ _ _ _ _ _ _ _ H1) in Hkernel.
  apply remove_rule_about in E2 as (calls' & <-%app_inv_head & Ha).
  pose proof (host_at_firewall calls _ _ _ _ _ _ _ _ _ _ _ H1 Ha (Hz Hworks) Hkernel) as H2.
  destruct handed; [by apply host_at_drop_device|]. by eapply host_at_drop_control, host_at_drop_device.
Qed.
Lemma server_device_at wintun s values clients udp h0 ks g n0 n path h :
  host_at h0 ks [] g n0 n path false h ->
  let '(r, h1) := server_device Linux wintun s values clients udp h in
  host_at h0 ks (match r with Ok (t, _) => [tun_fd t] | Err _ => [] end) g n0 n path false h1.
Proof.
  intros [(calls & -> & Hd) Hr Hk _].
  pose proof (preserves_server_device _ _ wintun s values clients udp (rules_frames g n0 n) ltac:(done) ltac:(done) _ Hr) as Hr1.
  pose proof (preserves_server_device _ _ wintun s values clients udp (kernel_frames ks) ltac:(done) ltac:(done) _ Hk) as Hk1.
  destruct (server_device Linux wintun s values clients udp (h0 ++ calls)) as [r h1] eqn:E.
  destruct (keeps_server_device wintun s values clients udp _ _ _ E) as (c & fds & -> & Hc & ->).
  split; [|done..]. exists (calls ++ c). rewrite app_assoc. split; [done|]. unfold descriptors in *. rewrite follow_app, Hd. exact Hc.
Qed.

(** What a run whose device is [device] and whose result is [r] leaves of the kernel's settings. *)
Definition kernel_left (device : io (Tun * rstr)) (r : io unit) (written : list rstr) : Prop :=
  let intended := if device is Ok (t, _) then [forwarding_on; redirects_off (tun_name t)] else [] in
  written `prefix_of` intended /\ (is_ok r = true -> written = intended).

Lemma server_bound_at fuel wintun s values clients udp handed serve h0 ks g n0 n h :
  (forall t, uses_device t (serve t)) -> (1 < fuel)%nat -> host_at h0 ks [] g n0 n (control_socket_path s) false h ->
  (forall t net, (server_device Linux wintun s values clients udp h).1 = Ok (t, net) ->
     {| fg_interface := tun_name t; fg_network := net |} = g /\ iptables_sound g n0 system /\ iptables_works g n0 system /\ (n < fuel)%nat) ->
  exists r n' written h1, server_bound fuel Linux wintun s values clients udp handed serve h = Some (r, h1) /\
    host_at h0 (ks ++ written) [] g n0 n' (control_socket_path s) true h1 /\ (n' = 0%nat \/ r <> Ok tt /\ n' = n) /\
    kernel_left (server_device Linux wintun s values clients udp h).1 r written.
Proof.
  intros Hserve Hfuel Hh Hipt. unfold server_bound. pose proof (server_device_at wintun s values clients udp _ _ _ _ _ _ _ Hh) as H1.
  destruct (server_device _ _ _ _ _ _ h) as [[[t net]|error] h1]; cbn [fst] in *.
  2:{ eexists _, n, [], _. rewrite (right_id_L [] (++)). split; [done|]. split; [by eapply host_at_drop_control|].
      split; [by right|by split]. }
  destruct (Hipt t net eq_refl) as (Hg & Hsound & Hworks & Hn).
  destruct (forwarding_rule_lifecycle system n0 (tun_name t) net fuel h1) as (r2 & calls & E & _ & Hrules & _); [by rewrite Hg| |].
  { rewrite Hg. by rewrite (at_rules _ _ _ _ _ _ _ _ _ H1). }
  rewrite Hg in Hrules. specialize (Hrules Hworks). unfold host_forwarding. rewrite decide_True by done. rewrite E. cbn [mbind option_bind].
  destruct (enable_kernel _ _ _ _ _ _ _ E) as (written & Hkernel & Hpre & Hall). rewrite (at_kernel _ _ _ _ _ _ _ _ _ H1) in Hkernel.
  apply enable_about in E as (calls' & <-%app_inv_head & Ha).
  destruct r2 as [g'|error].
  - destruct Hrules as [-> Hone]. pose proof (host_at_firewall calls _ _ _ _ _ _ _ _ _ _ _ H1 Ha Hone Hkernel) as H2.
    destruct (host_served fuel t g n0 (control_socket_path s) handed (serve t) _ _ _ H2 (Hserve t) Hsound Hworks Hfuel) as (r & h3 & h4 & -> & E4 & H4).
    rewrite E4. cbn [mbind option_bind]. eexists _, 0%nat, written, _. split; [done|]. split; [exact H4|]. split; [by left|].
    split; [done|]. intros _. by apply Hall.
  - assert (exists n', rules g n0 (h1 ++ calls) = n' /\ (n' = 0%nat \/ n' = n)) as (n' & Hn' & Hor).
    { destruct Hrules as [->|Hsys]; [by exists 0%nat; auto|]. exists n. split; [|by right].
      rewrite <-(at_rules _ _ _ _ _ _ _ _ _ H1). clear -Hsys. revert h1. induction Hsys as [|[c a] calls [settings ->] _ IH]; intros h1; [by rewrite app_nil_r|].
      rewrite cons_middle, app_assoc, IH. by apply rules_other. }
    eexists _, n', written, _. split; [done|]. split; [|split; [destruct Hor as [->| ->]; [by left|by right]|by split]].
    eapply host_at_drop_control, host_at_drop_device. by eapply host_at_firewall.
Qed.
End server.

(** *** The name servers of a client *)

(** [P] holds of the calls since [h]. *)
Definition since (h : history) (P : history -> Prop) (h1 : history) : Prop := exists calls, h1 = h ++ calls /\ P calls.

Lemma since_run h' calls h P : h' = h ++ calls -> since h P h' -> P calls.
Proof. intros -> (c & <-%app_inv_head & HP). done. Qed.

Lemma since_start h (P : history -> Prop) : P [] -> since h P h.
Proof. exists []. by rewrite app_nil_r. Qed.

Lemma since_more h (P : history -> Prop) h1 c :
  (forall calls, P calls -> P (calls ++ c)) -> since h P h1 -> since h P (h1 ++ c).
Proof. intros Hm (calls & -> & HP). exists (calls ++ c). rewrite app_assoc. split; [done|by apply Hm]. Qed.

(** The VPN's name server is not in force, or ending that has failed. *)
Definition reverted (set clear : call) (h calls : history) : Prop :=
  overridden set clear false (h ++ calls) = false \/ exists a, (clear, a) ∈ calls /\ success a = false.

Lemma reverted_about process interface server s h c1 c2 :
  let set := override_call Linux process interface server in
  let clear := revert_call Linux process interface in
  about s c2 -> s <> Names -> reverted set clear h c1 -> reverted set clear h (c1 ++ c2).
Proof.
  intros set clear Ha Hs [Hr|(a & Hin & Hf)].
  - left. rewrite app_assoc. subst set clear. by erewrite about_overridden.
  - right. exists a. split; [set_solver|done].
Qed.

Lemma restored_about before servers service s h c1 c2 :
  about s c2 -> s <> Names -> restored before servers service h c1 -> restored before servers service h (c1 ++ c2).
Proof.
  intros Ha Hs [Hr|(a & Hin & Hf)].
  - left. rewrite app_assoc. by erewrite about_settings.
  - right. exists a. split; [set_solver|done].
Qed.

(** The guard's calls between, as they are seen from [h]. *)
Lemma failed_stays (c : call) (c1 c2 : history) :
  (exists a, (c, a) ∈ c1 /\ success a = false) -> exists a, (c, a) ∈ c1 ++ c2 /\ success a = false.
Proof. intros (a & Hin & Hf). exists a. split; [set_solver|done]. Qed.

Lemma dns_apply_grows system os process interface server h r h' :
  dns_apply system os process interface server h = (r, h') -> exists calls, h' = h ++ calls.
Proof. intros E. destruct (makes_dns_apply system os process interface server h) as (c & Ec & _). rewrite E in Ec. by exists c. Qed.

Lemma macos_guard_restores system before process interface server h service h1 :
  networksetup_reports before system -> Guards.settings before h service <> [str "Empty"] ->
  let good := since h (restored before (Guards.settings before h service) service h) in
  good h1 ->
  let '(r, h2) := dns_apply system Macos process interface server h1 in
  match r with
  | Ok g => forall calls, about Descriptor calls -> good (dns_drop system g (h2 ++ calls)).2
  | Err _ => good h2
  end.
Proof.
  intros Hrep Hne good (c1 & -> & Hr1).
  destruct (macos_dns_restored before system process interface server (h ++ c1) Hrep) as (r & c2 & E & Hr2).
  rewrite E. destruct Hr1 as [Hr1|Hf].
  - rewrite <-Hr1 in Hne. destruct r as [g|error].
    + intros c3 Ha. destruct Hr2 as [_ Hr2]. destruct (Hr2 c3) as (dropped & -> & Hr3); [intros s; by erewrite about_settings|].
      exists (c1 ++ c2 ++ c3 ++ dropped). rewrite !app_assoc. split; [done|]. specialize (Hr3 service Hne).
      rewrite Hr1 in Hr3. rewrite <-!(app_assoc h) in Hr3. apply restored_app in Hr3. by rewrite <-!app_assoc in Hr3 |- *.
    + exists (c1 ++ c2). rewrite app_assoc. split; [done|]. apply restored_app. rewrite <-Hr1. by apply Hr2.
  - destruct r as [g|error].
    + intros c3 _. destruct (dns_drop_calls system g (((h ++ c1) ++ c2) ++ c3)) as [dropped ->].
      exists (c1 ++ c2 ++ c3 ++ dropped). rewrite !app_assoc. split; [done|]. right. rewrite <-!app_assoc. by apply failed_stays.
    + exists (c1 ++ c2). rewrite app_assoc. split; [done|]. right. by apply failed_stays.
Qed.

Lemma linux_guard_reverts system process interface server h h1 :
  let set := override_call Linux process interface server in
  let clear := revert_call Linux process interface in
  let good := since h (reverted set clear h) in
  good h1 ->
  let '(r, h2) := dns_apply system Linux process interface server h1 in
  match r with
  | Ok g => forall calls, about Descriptor calls -> good (dns_drop system g (h2 ++ calls)).2
  | Err _ => good h2
  end.
Proof.
  intros set clear good (c1 & -> & Hr1). destruct (dns_apply _ _ _ _ _ (h ++ c1)) as [r h2] eqn:E.
  destruct Hr1 as [Hr1|Hf].
  - destruct (dns_override_reverts Linux process interface server system (h ++ c1) ltac:(done) Hr1) as (r' & c2 & E' & Hr2).
    rewrite E in E'. injection E' as <- ->. destruct r as [g|error].
    + intros c3 _. destruct Hr2 as [_ Hr2]. destruct (Hr2 (((h ++ c1) ++ c2) ++ c3)) as (a & -> & Ha).
      fold set clear in Ha |- *. exists (c1 ++ c2 ++ c3 ++ [(clear, a)]). rewrite !app_assoc. split; [done|].
      destruct (success a) eqn:Hs; [left; rewrite !app_assoc; by apply Ha|]. right. exists a. split; [set_solver|done].
    + exists (c1 ++ c2). rewrite app_assoc. split; [done|]. destruct Hr2 as [Hr2|(a & Hin & Ha)]; [left; by rewrite app_assoc|].
      right. exists a. split; [set_solver|done].
  - destruct (dns_apply_grows _ _ _ _ _ _ _ _ E) as [c2 ->]. destruct r as [g|error].
    + intros c3 _. destruct (dns_drop_calls system g (((h ++ c1) ++ c2) ++ c3)) as [dropped ->].
      exists (c1 ++ c2 ++ c3 ++ dropped). rewrite !app_assoc. split; [done|]. right. rewrite <-!app_assoc. by apply failed_stays.
    + exists (c1 ++ c2). rewrite app_assoc. split; [done|]. right. by apply failed_stays.
Qed.

(** ** Properties *)



(** ** Witnesses *)

(** Reading and writing packets is using the device. *)
Lemma uses_device_bind {A B} t (m : eff history A) (f : A -> eff history B) :
  uses_device t m -> (forall a, uses_device t (f a)) -> uses_device t (m ≫= f).
Proof.
  intros Hm Hf h. rewrite eff_bind_run. destruct (Hm h) as (c1 & E1 & A1).
  destruct (m h) as [[a|error] h1]; cbn in E1; subst h1; [|by exists c1].
  destruct (Hf a (h ++ c1)) as (c2 & E2 & A2). exists (c1 ++ c2). rewrite E2, app_assoc. split; [done|by apply Forall_app].
Qed.

Lemma uses_device_checked system t c :
  call_fd c = Some (tun_fd t) -> (forall fd, c <> sys_close fd) -> uses_device t (checked system c).
Proof. intros Hc Hn h. rewrite checked_run. eexists. split; [done|]. by constructor. Qed.

Lemma uses_device_of_io {A} t (r : io A) : uses_device t (of_io r).
Proof. intros h. exists []. rewrite app_nil_r. split; [done|constructor]. Qed.

Lemma uses_device_use_all system t us : uses_device t (use_all system t us).
Proof.
  induction us as [|u us IH]; [apply (uses_device_of_io t (Ok tt))|]. apply uses_device_bind; [|done].
  destruct u as [size|packet]; intros h; [apply (uses_device_bind t (checked system _))|apply (uses_device_bind t (of_io _))];
    try apply uses_device_of_io; try (intros a; apply uses_device_bind; [|intros b; apply uses_device_of_io]);
    try (by apply uses_device_checked).
  intros a. cbv beta. destruct (macos_header t); [destruct (_ || _)|]; apply (uses_device_of_io t).
Qed.

(** A Linux host with a free control path and three stale rules. *)
Definition linux_host (h : history) (c : call) : answer :=
  match c with
  | fs_connect _ => {| ret := -1; errno := 111; out := []; from := []; from_len := 0; shown := [] |}
  | sys_open _ _ => answering 7 []
  | sys_tunsetiff _ name _ => answering 0 (bytes "vpn0")
  | sys_read _ n => answering 2 [69; 0]
  | sys_write _ data => answering (Z.of_nat (length data)) []
  | _ => stale_iptables h c
  end.
Definition host_values : gmap rstr rstr :=
  {[str "ca_file" := str "ca.pem"; str "vpn_network" := str "10.8.0.0/24"; str "vpn_address" := str "10.8.0.1"]}.
Definition host_settings : io ServerSettings := server_settings host_values.
Definition host_traffic (t : Tun) : eff history unit := use_all linux_host t [Uses_read 1500; Uses_write [69]].


Definition client_values : gmap rstr rstr := {[str "ca_file" := str "ca.pem"; str "force_dns" := str "yes"]}.

