(* ===== verification/Launcher.v ===== *)
(** * The launchers and the library's C interface

    Models [parse_arguments], [run] and [launch] of [src/bin/common/mod.rs] and the exported
    functions of [src/lib.rs] they call through the dynamic library. Loading the library is
    left to the environment. *)

From S2P Require Import Prelude Text DtlsApi.

Local Open Scope Z_scope.

(** ** Arguments *)

Inductive Command := Help | Run (config : rstr) (user password : option rstr).

(** [str::trim_start_matches]: the prefix is removed as often as it is there. [fuel] bounds
    the number of times; the length of the text is enough. *)
Fixpoint trim_start_loop (fuel : nat) (p s : rstr) : rstr :=
  match fuel with
  | O => s
  | S fuel => match strip_prefix p s with Some rest => trim_start_loop fuel p rest | None => s end
  end.
Definition trim_start_matches (p s : rstr) : rstr := trim_start_loop (length s) p s.

(** The options read so far. *)
Record Options := { config : option rstr; user : option rstr; password : option rstr }.
#[export] Instance eta_Options : Eta Options := fun o =>
  {| config := config o; user := user o; password := password o |}.

Definition once {T} (slot : option T) (name : string) : result rstr unit :=
  match slot with Some _ => Err (str name ++ str " may only be specified once") | None => Ok tt end.

(** What [--name=value] holds. *)
Definition inline_value (name : string) (argument : rstr) : rstr :=
  trim_start_matches (str name ++ str "=") argument.
Definition is_inline (name : string) (argument : rstr) : bool :=
  starts_with (str name ++ str "=") argument.

Definition non_empty (v message : rstr) : result rstr rstr := if decide (v = []) then Err message else Ok v.

(** The next argument, as the value of [argument]. *)
Definition set_config (o : Options) (v : rstr) : result rstr Options :=
  v ← non_empty v (str "--config path must not be empty"); Ok (o <| config := Some v |>).

Definition set_login (argument v : rstr) (o : Options) : result rstr Options :=
  v ← non_empty v (argument ++ str " must not be empty");
  let slot := if decide (argument = str "--user") then user o else password o in
  _ ← (match slot with Some _ => Err (argument ++ str " may only be specified once") | None => Ok tt end);
  Ok (if decide (argument = str "--user") then o <| user := Some v |> else o <| password := Some v |>).

(** The loop over the arguments: [None] is [--help]. *)
Fixpoint parse_loop (client : bool) (arguments : list rstr) (o : Options)
    : result rstr (option Options) :=
  match arguments with
  | [] => Ok (Some o)
  | argument :: rest =>
      if decide (argument = str "-h" \/ argument = str "--help") then Ok None
      else if decide (argument = str "-c" \/ argument = str "--config") then
        _ ← once (config o) "--config";
        match rest with
        | [] => Err (argument ++ str " requires a file path")
        | v :: rest => o ← set_config o v; parse_loop client rest o
        end
      else if is_inline "--config" argument then
        _ ← once (config o) "--config";
        o ← set_config o (inline_value "--config" argument);
        parse_loop client rest o
      else if client && bool_decide (argument = str "--user" \/ argument = str "--pass") then
        match rest with
        | [] => Err (argument ++ str " requires a value")
        | v :: rest => o ← set_login argument v o; parse_loop client rest o
        end
      else if client && is_inline "--user" argument then
        _ ← once (user o) "--user";
        v ← non_empty (inline_value "--user" argument) (str "--user must not be empty");
        parse_loop client rest (o <| user := Some v |>)
      else if client && is_inline "--pass" argument then
        _ ← once (password o) "--pass";
        v ← non_empty (inline_value "--pass" argument) (str "--pass must not be empty");
        parse_loop client rest (o <| password := Some v |>)
      else Err (str "unknown argument: " ++ argument)
  end.

Definition default_config : rstr := str "config/client.ini".

Definition parse_arguments (arguments : list rstr) (client : bool) : result rstr Command :=
  parsed ← parse_loop client arguments {| config := None; user := None; password := None |};
  match parsed with
  | None => Ok Help
  | Some o =>
      if negb (Bool.eqb (bool_decide (is_Some (user o))) (bool_decide (is_Some (password o))))
      then Err (str "--user and --pass must be provided together")
      else
        config ← (if client then Ok (from_option id default_config (config o))
                  else ok_or (config o) (str "missing required option: --config <FILE>"));
        Ok (Run config (user o) (password o))
  end.

(** ** The library's exported functions *)

(** A C string: [None] is a null pointer; the bytes before the terminating NUL. *)
Definition c_str := option (list Z).

Definition run_from_ffi (config_path : c_str) (runner : rstr -> outcome (io unit)) : Z :=
  match config_path with
  | None => 2
  | Some path =>
      match from_utf8 path with
      | Some ((_ :: _) as path) =>
          match runner path with
          | Returned (Ok _) => 0
          | Returned (Err _) => 1
          | Panicked _ => 3
          end
      | _ => 2
      end
  end.

(** [client::run_with_login] and [server::run] are parameters. *)
Section library.
Context (run_with_login : rstr -> option (rstr * rstr) -> outcome (io unit)).
Context (server_run : rstr -> outcome (io unit)).

Definition autobricks_vpn_client_run (config_path : c_str) : Z :=
  run_from_ffi config_path (fun path => run_with_login path None).

Definition autobricks_vpn_client_run_with_login (config_path user password : c_str) : Z :=
  match user, password with
  | Some user, Some password =>
      match from_utf8 user, from_utf8 password with
      | Some user, Some password =>
          run_from_ffi config_path (fun path => run_with_login path (Some (user, password)))
      | _, _ => 2
      end
  | _, _ => 2
  end.

Definition autobricks_vpn_server_run (config_path : c_str) : Z := run_from_ffi config_path server_run.

(** ** The launchers *)

(** [CString::new] *)
Definition c_string (s : rstr) (message : string) : io (list Z) :=
  if decide (0%N ∈ s) then Err (new_error InvalidInput message) else Ok (as_bytes s).

(** [run]; [loaded] is how loading the library and finding its symbol ends. *)
Definition launcher_run (client : bool) (loaded : io unit) (config : rstr) (login : option (rstr * rstr))
    : io unit :=
  _ ← loaded;
  config ← c_string config "config path contains NUL";
  status ← (match login with
            | Some (user, password) =>
                user ← c_string user "login ID contains NUL";
                password ← c_string password "password contains NUL";
                Ok (autobricks_vpn_client_run_with_login (Some config) (Some user) (Some password))
            | None =>
                Ok (if client then autobricks_vpn_client_run (Some config)
                    else autobricks_vpn_server_run (Some config))
            end);
  if status =? 0 then Ok tt
  else Err (Custom Other (str "VPN library returned status " ++ display_int status)).

(** [launch]: the exit code of the process. *)
Definition launch (client : bool) (loaded : io unit) (arguments : list rstr) : Z :=
  match parse_arguments arguments client with
  | Ok Help => 0
  | Ok (Run config user password) =>
      let login := match user, password with Some u, Some p => Some (u, p) | _, _ => None end in
      match launcher_run client loaded config login with
      | Ok _ => 0
      | Err _ => 1
      end
  | Err _ => 2
  end.
End library.

(** ** Lemmas *)

(** A value that is text and not empty. *)
Definition text (s : rstr) : Prop := s <> [] /\ Forall is_scalar s.
Definition given (o : option rstr) : Prop := from_option text True o.

(** What the options of a command line satisfy. *)
Record options_ok (client : bool) (o : Options) : Prop := {
  ok_config : given (config o);
  ok_user : given (user o);
  ok_password : given (password o);
  ok_server : client = false -> user o = None /\ password o = None;
}.

Lemma non_empty_text v m v' : Forall is_scalar v -> non_empty v m = Ok v' -> v' = v /\ text v.
Proof. unfold non_empty, text. intros Hs. case_decide; [done|]. by intros [= <-]. Qed.

Lemma trim_start_loop_scalars fuel p s : Forall is_scalar s -> Forall is_scalar (trim_start_loop fuel p s).
Proof.
  revert s. induction fuel as [|fuel IH]; intros s Hs; [done|]. cbn.
  destruct (strip_prefix p s) as [rest|] eqn:Hp; [|done]. apply strip_prefix_Some in Hp as ->.
  apply IH. by apply Forall_app in Hs as [_ Hs].
Qed.

Lemma set_config_ok client v o o' :
  Forall is_scalar v -> options_ok client o -> set_config o v = Ok o' -> options_ok client o'.
Proof.
  intros Hs [H1 H2 H3 H4] (v1 & [-> Hv]%non_empty_text & [= <-])%result_bind_Ok; [|done]. by split.
Qed.

Lemma set_login_ok a v o o' :
  Forall is_scalar v -> options_ok true o -> set_login a v o = Ok o' -> options_ok true o'.
Proof.
  intros Hs [H1 H2 H3 H4] (v1 & [-> Hv]%non_empty_text & (_ & _ & Ho)%result_bind_Ok)%result_bind_Ok; [|done].
  destruct (decide (a = str "--user")); injection Ho as <-; by split.
Qed.

Lemma parse_loop_ok client arguments o o' :
  Forall (Forall is_scalar) arguments -> options_ok client o ->
  parse_loop client arguments o = Ok (Some o') -> options_ok client o'.
Proof.
  remember (length arguments) as n eqn:Hn. revert arguments o Hn.
  induction n as [n IH] using lt_wf_ind. intros [|argument rest] o Hn Hs Hok; cbn [parse_loop].
  { by intros [= <-]. }
  apply Forall_cons in Hs as [Ha Hs].
  assert (forall rest' o1, (length rest' < n)%nat -> Forall (Forall is_scalar) rest' -> options_ok client o1 ->
    parse_loop client rest' o1 = Ok (Some o') -> options_ok client o') as Hgo by (intros; by eapply IH).
  assert (length rest < n)%nat as Hlt by (cbn in Hn; lia). clear IH Hn.
  assert (forall name, Forall is_scalar (inline_value name argument)) as Hin by (intros; by apply trim_start_loop_scalars).
  case_decide; [done|]. case_decide.
  { intros (_ & _ & Hp)%result_bind_Ok. destruct rest as [|v rest]; [done|]. apply Forall_cons in Hs as [Hv Hs].
    apply result_bind_Ok in Hp as (o1 & Ho & Hp). cbn in Hlt. apply Hgo in Hp; [done|lia|done|].
    by eapply set_config_ok; [|done|exact Ho]. }
  destruct (is_inline "--config" argument).
  { intros (_ & _ & (o1 & Ho & Hp)%result_bind_Ok)%result_bind_Ok. apply Hgo in Hp; [done..|]. by eapply set_config_ok; [|done|exact Ho]. }
  destruct client; cbn [andb]; [|done]. case_bool_decide.
  { destruct rest as [|v rest]; [done|]. apply Forall_cons in Hs as [Hv Hs]. intros (o1 & Ho & Hp)%result_bind_Ok.
    cbn in Hlt. apply Hgo in Hp; [done|lia|done|]. by eapply set_login_ok; [|done|exact Ho]. }
  destruct (is_inline "--user" argument); [|destruct (is_inline "--pass" argument); [|done]];
    intros (_ & _ & (v & [-> Hv]%non_empty_text & Hp)%result_bind_Ok)%result_bind_Ok; try done;
    (apply Hgo in Hp; [done..|]); destruct Hok; by split.
Qed.

Lemma bool_decide_ext_iff (P Q : Prop) (dP : Decision P) (dQ : Decision Q) :
  bool_decide P = bool_decide Q -> (P <-> Q).
Proof. intros He. rewrite <-(bool_decide_eq_true P), He. apply bool_decide_eq_true. Qed.

(** A command that runs: a path, and a complete login or none. *)
Lemma parse_arguments_Run client arguments c u p :
  Forall (Forall is_scalar) arguments -> parse_arguments arguments client = Ok (Run c u p) ->
  text c /\ given u /\ given p /\ (is_Some u <-> is_Some p) /\ (client = false -> u = None /\ p = None).
Proof.
  unfold parse_arguments. intros Hs ([o|] & Hp & Hc)%result_bind_Ok; [|done].
  apply parse_loop_ok in Hp; [|done|by split]. destruct Hp as [H1 H2 H3 H4].
  destruct (Bool.eqb_spec (bool_decide (is_Some (user o))) (bool_decide (is_Some (password o)))) as [He|]; [|done].
  cbn [negb] in Hc. apply result_bind_Ok in Hc as (c' & Hc & [= -> <- <-]). split; [|split_and!; [done|done| |done]].
  - destruct client; [injection Hc as <-|apply ok_or_Ok in Hc]; unfold given in H1;
      destruct (config o) as [v|]; cbn in *; try done; [|by injection Hc as <-].
    split; [done|]. apply (bool_decide_unpack _). vm_compute. exact I.
  - by eapply bool_decide_ext_iff.
Qed.

Lemma c_string_Ok s m v : c_string s m = Ok v <-> 0%N ∉ s /\ v = as_bytes s.
Proof. unfold c_string. case_decide; naive_solver. Qed.

(** The C strings of a command line reach the library as they are. *)
Lemma run_from_ffi_zero c runner :
  text c -> run_from_ffi (Some (as_bytes c)) runner = 0 <-> runner c = Returned (Ok tt).
Proof.
  intros [Hc Hs]. unfold run_from_ffi. rewrite from_utf8_as_bytes by done. destruct c as [|x c]; [done|].
  destruct (runner (x :: c)) as [[[]|e]|pl]; by split.
Qed.

(** What a command line starts. *)
Definition started (rwl : rstr -> option (rstr * rstr) -> outcome (io unit)) (srv : rstr -> outcome (io unit))
    (client : bool) (c : rstr) (login : option (rstr * rstr)) : outcome (io unit) :=
  match login with
  | Some _ => rwl c login
  | None => if client then rwl c None else srv c
  end.

Definition no_nul (login : option (rstr * rstr)) : Prop :=
  match login with Some (u, p) => 0%N ∉ u /\ 0%N ∉ p | None => True end.

Lemma launcher_run_Ok rwl srv client loaded c login :
  text c -> from_option (fun l => text l.1 /\ text l.2) True login ->
  launcher_run rwl srv client loaded c login = Ok tt <->
    loaded = Ok tt /\ 0%N ∉ c /\ no_nul login /\ started rwl srv client c login = Returned (Ok tt).
Proof.
  intros Hc Hl. unfold launcher_run. destruct loaded as [[]|e]; [|naive_solver]. cbn [mbind result_bind].
  rewrite result_bind_Ok. setoid_rewrite c_string_Ok.
  assert (forall s,
    ((if s =? 0 then Ok tt else Err (Custom Other (str "VPN library returned status " ++ display_int s))) = Ok tt :> io unit
     <-> s = 0)) as Hz.
  { intros s. destruct (Z.eqb_spec s 0); naive_solver. }
  destruct login as [[u p]|]; cbn [no_nul started].
  - destruct Hl as [[Hu Hus] [Hp Hps]]. setoid_rewrite result_bind_Ok.
    setoid_rewrite result_bind_Ok. setoid_rewrite c_string_Ok. setoid_rewrite result_bind_Ok. setoid_rewrite c_string_Ok.
    rewrite <-(run_from_ffi_zero c (fun path => rwl path (Some (u, p)))) by done.
    split.
    + intros (? & [? ->] & st & (? & [? ->] & ? & [? ->] & [= <-]) & Hst).
      rewrite Hz in Hst. unfold autobricks_vpn_client_run_with_login in Hst.
      cbn [fst snd] in *. rewrite !from_utf8_as_bytes in Hst by done. done.
    + intros (_ & Hnc & [Hnu Hnp] & Hst). eexists. split; [done|]. eexists. split.
      { eexists. split; [done|]. eexists. split; [done|]. reflexivity. }
      rewrite Hz. unfold autobricks_vpn_client_run_with_login. cbn [fst snd] in *.
      by rewrite !from_utf8_as_bytes.
  - assert (started rwl srv client c None = Returned (Ok tt) <->
      (if client then autobricks_vpn_client_run rwl (Some (as_bytes c))
       else autobricks_vpn_server_run srv (Some (as_bytes c))) = 0) as Hs.
    { destruct client; symmetry; [apply (run_from_ffi_zero c (fun path => rwl path None))|apply run_from_ffi_zero]; done. }
    cbn [started] in Hs. rewrite Hs. split.
    + intros (? & [? ->] & Hst). cbn [mbind result_bind] in Hst. by apply Hz in Hst.
    + intros (_ & Hnc & _ & Hst). eexists. split; [done|]. by apply Hz.
Qed.

(** ** Properties *)

(** What the exit code says. For arguments that are text, a launcher exits with 0 exactly
    when it printed its help, or the library was loaded, no argument it uses holds a NUL, and
    the client or server, started with exactly the given path and login, returned success; it
    exits with 2 exactly for arguments that it does not understand. Every other end, a panic
    in the library included, is neither. *)
Theorem launch_exit_code rwl srv client loaded arguments :
  Forall (Forall is_scalar) arguments ->
  let code := launch rwl srv client loaded arguments in
  (code = 0 <->
   parse_arguments arguments client = Ok Help \/
   exists c u p, parse_arguments arguments client = Ok (Run c u p) /\
     let login := match u, p with Some u, Some p => Some (u, p) | _, _ => None end in
     loaded = Ok tt /\ 0%N ∉ c /\ no_nul login /\ started rwl srv client c login = Returned (Ok tt)) /\
  (code = 2 <-> exists message, parse_arguments arguments client = Err message) /\
  (0 <= code <= 2).
Proof.
  intros Hs. cbv zeta. unfold launch. destruct (parse_arguments arguments client) as [[|c u p]|m] eqn:Hp.
  - naive_solver lia.
  - destruct (parse_arguments_Run _ _ _ _ _ Hs Hp) as (Hc & Hu & Hpw & _).
    set (login := match u, p with Some u, Some p => Some (u, p) | _, _ => None end).
    assert (from_option (fun l => text l.1 /\ text l.2) True login) as Hl by (by destruct u, p).
    pose proof (launcher_run_Ok rwl srv client loaded c login Hc Hl) as Hr.
    destruct (launcher_run rwl srv client loaded c login) as [[]|e]; split_and!; try lia.
    + split; [|done]. intros _. right. exists c, u, p. split; [done|]. by apply Hr.
    + split; [lia|]. by intros [m ?].
    + split; [lia|]. intros [?|(c' & u' & p' & [= <- <- <-] & H)]; [done|]. by apply Hr in H.
    + split; [lia|]. by intros [m ?].
  - split_and!; try lia; naive_solver lia.
Qed.

Lemma launch_exit_code_witness :
  launch (fun path login => Returned (if bool_decide (login = Some (str "alice", str "--x")) then Ok tt
                                      else Err (other "denied")))
    (fun _ => Panicked None) true (Ok tt) [str "--user=alice"; str "--pass"; str "--x"] = 0.
Proof.
  apply launch_exit_code.
  - apply (bool_decide_unpack _). vm_compute. exact I.
  - right. exists default_config, (Some (str "alice")), (Some (str "--x")). split; [reflexivity|].
    cbv zeta. split; [reflexivity|]. split; [apply (bool_decide_unpack _); vm_compute; exact I|].
    split; [split; apply (bool_decide_unpack _); vm_compute; exact I|]. reflexivity.
Defined.

(** An inline value loses every copy of the option's own prefix: [trim_start_matches] is not
    [strip_prefix]. *)
Lemma inline_value_strips_repeatedly :
  parse_arguments [str "--user=alice"; str "--pass=--pass=secret"] true =
    Ok (Run default_config (Some (str "alice")) (Some (str "secret"))) /\
  parse_arguments [str "--user=alice"; str "--pass"; str "--pass=secret"] true =
    Ok (Run default_config (Some (str "alice")) (Some (str "--pass=secret"))).
Proof. by vm_compute. Qed.
