(* ===== verification/Loader.v ===== *)
(** * Loading the library

    Models [library_path], [DynamicLibrary] and [run] of [src/bin/common/mod.rs]: how a
    launcher finds the library, opens it, calls into it, and when it closes it. *)

From Stdlib Require Import Ascii.
From S2P Require Import Prelude Text DtlsApi Launcher System Tun.

Local Open Scope Z_scope.

Section loader.
Context (system : history -> call -> answer) (os : platform).

Definition library_name : string :=
  match os with
  | Windows => "autobricks_vpn.dll"
  | Macos => "libautobricks_vpn.dylib"
  | Linux => "libautobricks_vpn.so"
  end.

(** [Path::join] with a plain name. *)
Definition separator : list Z := match os with Windows => [92] | _ => bytes "/" end.
Definition join (directory name : list Z) : list Z :=
  if bool_decide (directory = [] \/ last directory = last separator) then directory ++ name
  else directory ++ separator ++ name.

(** The variable is set when the answer is one. The answer to [current_exe] is the directory
    the program is in, and one when its path has none. *)
Definition library_path : eff history (list Z) :=
  override ← perform system env_library;
  if ret override =? 1 then mret (out override)
  else
    executable ← checked system current_exe;
    if ret executable =? 1 then fail_with (other "launcher executable has no parent directory")
    else mret (join (out executable) (bytes library_name)).

(** [dynamic_loader_error] *)
Definition dynamic_loader_error : eff history rstr :=
  error ← perform system dl_error;
  mret (if ret error =? 0 then str "dynamic loader error" else from_utf8_lossy (out error)).

(** [DynamicLibrary::open] on Unix, which refuses a NUL in the path, and on Windows, where it
    ends the path. *)
Definition unix_open (path : list Z) : eff history Z :=
  if existsb (Z.eqb 0) path then fail_with (new_error InvalidInput "library path contains NUL")
  else
    opened ← perform system (dl_open path);
    if ret opened =? 0 then error ← dynamic_loader_error; fail_with (Custom Other error)
    else mret (ret opened).

Definition windows_open (path : list Z) : eff history Z :=
  opened ← perform system (dl_open path);
  if ret opened =? 0 then fail_with (Os (errno opened)) else mret (ret opened).

Definition library_open (path : list Z) : eff history Z :=
  match os with Windows => windows_open path | _ => unix_open path end.

(** [DynamicLibrary::symbol], for a name without NUL. *)
Definition unix_symbol (handle : Z) (name : list Z) : eff history Z :=
  _ ← perform system dl_error;
  symbol ← perform system (dl_sym handle name);
  error ← perform system dl_error;
  if negb (ret error =? 0) then fail_with (Custom Other (from_utf8_lossy (out error)))
  else if ret symbol =? 0 then fail_with (other "dynamic symbol address is null")
  else mret (ret symbol).

Definition windows_symbol (handle : Z) (name : list Z) : eff history Z :=
  symbol ← perform system (dl_sym handle name);
  if ret symbol =? 0 then fail_with (Os (errno symbol)) else mret (ret symbol).

Definition library_symbol (handle : Z) (name : list Z) : eff history Z :=
  match os with Windows => windows_symbol handle name | _ => unix_symbol handle name end.

(** [Drop for DynamicLibrary] *)
Definition library_drop (handle : Z) : eff history unit := ignore (perform system (dl_close handle)).

Definition symbol_name (client : bool) : list Z :=
  if client then bytes "autobricks_vpn_client_run" else bytes "autobricks_vpn_server_run".

(** The part of [run] with the library open; the returned status. *)
Definition run_open (client : bool) (config : rstr) (login : option (rstr * rstr)) (handle : Z) : eff history Z :=
  config ← of_io (c_string config "config path contains NUL");
  match login with
  | Some (user, password) =>
      run ← library_symbol handle (bytes "autobricks_vpn_client_run_with_login");
      user ← of_io (c_string user "login ID contains NUL");
      password ← of_io (c_string password "password contains NUL");
      status ← perform system (dl_call run config (Some (user, password)));
      mret (ret status)
  | None =>
      run ← library_symbol handle (symbol_name client);
      status ← perform system (dl_call run config None);
      mret (ret status)
  end.

(** [run]: the library is closed on the early returns, and forgotten after the call. *)
Definition loader_run (client : bool) (config : rstr) (login : option (rstr * rstr)) : eff history unit :=
  path ← library_path;
  handle ← library_open path;
  status ← guarded (library_drop handle) (run_open client config login handle);
  if status =? 0 then mret tt
  else fail_with (Custom Other (str "VPN library returned status " ++ display_int status)).
End loader.

(** ** The library's life *)
Inductive library_state := Unloaded | Loaded (handle : Z) | Found (handle symbol : Z) | Ran | Closed.

(** A symbol is looked up in, and called from, an open library; it is closed at most once, and
    not once its code has run: the handlers it installed stay valid. *)
Definition library_step (st : library_state) (c : call) (a : answer) : option library_state :=
  match st, c with
  | (Unloaded | Loaded _ | Found _ _), dl_error | Unloaded, (env_library | current_exe) => Some st
  | Unloaded, dl_open _ => Some (if ret a =? 0 then Unloaded else Loaded (ret a))
  | Loaded handle, dl_sym handle' _ =>
      if decide (handle' = handle) then Some (Found handle (ret a)) else None
  | Found _ symbol, dl_call symbol' _ _ =>
      if decide (symbol' = symbol /\ symbol <> 0) then Some Ran else None
  | (Loaded handle | Found handle _), dl_close handle' =>
      if decide (handle' = handle) then Some Closed else None
  | _, _ => None
  end.

Section loader_proofs.
Context (system : history -> call -> answer) (os : platform).
Abbreviation keeps := (keeps library_step).

Lemma library_path_keeps : keeps Unloaded (library_path system os) (fun _ st => st = Unloaded).
Proof.
  apply keeps_perform_bind. intros a. exists Unloaded. split; [done|].
  destruct (ret a =? 1); [by apply keeps_ret|].
  eapply (keeps_bind _ _ _ _ (fun _ st => st = Unloaded)); [apply keeps_checked; by eexists|done|].
  intros b st ->. destruct (ret b =? 1); [by apply keeps_of_io|by apply keeps_ret].
Qed.

Lemma library_open_keeps path :
  keeps Unloaded (library_open system os path) (fun r st => st = match r with Ok handle => Loaded handle | Err _ => Unloaded end).
Proof.
  assert (forall error : eff history rstr, keeps Unloaded error (fun _ st => st = Unloaded) ->
    keeps Unloaded (e ← error; fail_with (Custom Other e)) (fun r st => st = match r with Ok handle => Loaded handle | Err _ => Unloaded end)) as Hfail.
  { intros error He. eapply (keeps_bind _ _ _ _ (fun _ st => st = Unloaded)); [done|done|]. intros e st ->. by apply keeps_of_io. }
  assert (keeps Unloaded (dynamic_loader_error system) (fun _ st => st = Unloaded)) as Herr.
  { apply keeps_perform_bind. intros a. exists Unloaded. split; [done|]. by apply keeps_ret. }
  unfold library_open, unix_open, windows_open. destruct os; [destruct (existsb _ _); [by apply keeps_of_io|]..|];
    apply keeps_perform_bind; intros a; cbn [library_step]; (eexists; split; [done|]);
    (destruct (ret a =? 0); [|by apply keeps_ret]); [by apply Hfail..|by apply keeps_of_io].
Qed.

Definition symbol_post (handle : Z) (r : io Z) (st : library_state) : Prop :=
  match r with Ok symbol => symbol <> 0 /\ st = Found handle symbol | Err _ => exists s, st = Found handle s end.

Lemma library_symbol_keeps handle name : keeps (Loaded handle) (library_symbol system os handle name) (symbol_post handle).
Proof.
  assert (forall {B} (f : answer -> eff history B) post, (forall a, keeps (Found handle (ret a)) (f a) post) ->
    keeps (Loaded handle) (a ← perform system (dl_sym handle name); f a) post) as Hsym.
  { intros B f post Hf. apply keeps_perform_bind. intros a. cbn [library_step]. rewrite decide_True by done. eauto. }
  assert (forall st {B} (f : answer -> eff history B) post, (st = Loaded handle \/ exists s, st = Found handle s) ->
    (forall a, keeps st (f a) post) -> keeps st (a ← perform system dl_error; f a) post) as Herr.
  { intros st B f post Hst Hf. apply keeps_perform_bind. intros a. exists st. split; [|apply Hf].
    by destruct Hst as [->|[s ->]]. }
  unfold library_symbol, unix_symbol, windows_symbol. destruct os.
  1, 2: apply Herr; [by left|]; intros _; apply Hsym; intros a; apply Herr; [eauto|]; intros b;
    (destruct (negb _); [apply keeps_of_io; by eexists|]);
    (destruct (Z.eqb_spec (ret a) 0); [apply keeps_of_io; by eexists|by apply keeps_ret]).
  apply Hsym. intros a. destruct (Z.eqb_spec (ret a) 0); [apply keeps_of_io; by eexists|by apply keeps_ret].
Qed.

Definition run_post (handle : Z) (r : io Z) (st : library_state) : Prop :=
  match r with Ok _ => st = Ran | Err _ => st = Loaded handle \/ exists s, st = Found handle s end.

Lemma run_open_keeps client config login handle :
  keeps (Loaded handle) (run_open system os client config login handle) (run_post handle).
Proof.
  assert (forall name args, keeps (Loaded handle)
    (run ← library_symbol system os handle name; a ← perform system (dl_call run args.1 args.2); mret (ret a)) (run_post handle)) as Hrun.
  { intros name [c l]. eapply keeps_bind; [apply library_symbol_keeps|intros ? ? [s ->]; right; eauto|].
    intros run st [Hne ->]. apply keeps_perform_bind. intros a. cbn [library_step]. rewrite decide_True by done.
    eexists. split; [done|]. by apply keeps_ret. }
  unfold run_open. destruct (c_string config _) as [c|e]; [rewrite eff_of_ok|by apply keeps_of_io; left].
  destruct login as [[u p]|]; [|apply (Hrun _ (c, None))].
  destruct (c_string u _) as [u'|e] eqn:Hu, (c_string p _) as [p'|e'] eqn:Hp.
  { apply (Hrun _ (c, Some (u', p'))). }
  all: eapply keeps_bind; [apply library_symbol_keeps|intros ? ? [s ->]; right; eauto|];
    intros run st [_ ->]; apply keeps_of_io; right; eauto.
Qed.

Lemma loader_run_keeps client config login :
  keeps Unloaded (loader_run system os client config login) (fun r st =>
    match r with Ok _ => st = Ran | Err _ => st = Unloaded \/ st = Closed \/ st = Ran end).
Proof.
  eapply keeps_bind; [apply library_path_keeps|by intros; left|]. intros path st ->.
  eapply keeps_bind; [apply library_open_keeps|by intros ? ? ->; left|]. intros handle st ->.
  eapply (keeps_bind _ _ _ _ (fun r st => match r with Ok _ => st = Ran | Err _ => st = Closed end)).
  - eapply keeps_guarded; [apply run_open_keeps|done|]. intros error st Hst.
    eapply (keeps_ignore _ _ _ (fun _ st => st = Closed)); [|done]. apply keeps_perform. intros a. exists Closed.
    split; [|done]. destruct Hst as [->|[s ->]]; cbn; by rewrite decide_True.
  - by intros; right; left.
  - intros status st ->. destruct (_ =? _); [by apply keeps_ret|by apply keeps_of_io; right; right].
Qed.
End loader_proofs.

(** ** Properties *)

(** Finding the library and the function of a run. *)
Definition needed_symbol (client : bool) (login : option (rstr * rstr)) : list Z :=
  match login with Some _ => bytes "autobricks_vpn_client_run_with_login" | None => symbol_name client end.
Definition loads (system : history -> call -> answer) (os : platform) (client : bool) (login : option (rstr * rstr))
    : eff history unit :=
  path ← library_path system os;
  handle ← library_open system os path;
  _ ← library_symbol system os handle (needed_symbol client login);
  mret tt.

(** The library's functions behind the addresses. *)
Definition serves_library (system : history -> call -> answer) (rwl : rstr -> option (rstr * rstr) -> outcome (io unit))
    (srv : rstr -> outcome (io unit)) (client : bool) : Prop :=
  forall h symbol config login, ret (system h (dl_call symbol config login)) =
    match login with
    | Some (user, password) => autobricks_vpn_client_run_with_login rwl (Some config) (Some user) (Some password)
    | None => if client then autobricks_vpn_client_run rwl (Some config) else autobricks_vpn_server_run srv (Some config)
    end.

Lemma bind_run_1 {A B} (m : eff history A) (f : A -> eff history B) h :
  ((m ≫= f) h).1 = match m h with (Ok a, h) => (f a h).1 | (Err error, _) => Err error end.
Proof. rewrite eff_bind_run. by destruct (m h) as [[]]. Qed.

(** A run goes as the launcher's rules say: it succeeds exactly when the library and the
    function were found, the arguments can be passed, and the function returned zero. And the
    library's life is right: calls go through a symbol of the open library, every early
    return closes it, and once its code has run it stays loaded. *)
Theorem loader_refines_launcher system os rwl srv client config login h :
  serves_library system rwl srv client ->
  let r := loader_run system os client config login h in
  (r.1 = Ok tt <-> launcher_run rwl srv client (loads system os client login h).1 config login = Ok tt) /\
  exists calls st, r.2 = h ++ calls /\ follow library_step Unloaded calls = Some st /\
    (r.1 = Ok tt -> st = Ran) /\ (st = Unloaded \/ st = Closed \/ st = Ran).
Proof.
  intros Hs r. split.
  2:{ destruct r as [r' h'] eqn:E. destruct (loader_run_keeps _ _ _ _ _ _ _ _ E) as (calls & st & -> & Hf & Hp).
      exists calls, st. split_and!; [done..| |]; destruct r' as [[]|]; naive_solver. }
  unfold r, loader_run, loads, launcher_run. rewrite !bind_run_1.
  destruct (library_path system os h) as [[path|e] h1]; [|done]. rewrite !bind_run_1.
  destruct (library_open system os path h1) as [[handle|e] h2]; [|done]. rewrite !bind_run_1.
  unfold guarded, run_open.
  destruct (c_string config _) as [c|e]; [rewrite eff_of_ok|by destruct (library_symbol _ _ _ _ _) as [[]]].
  unfold needed_symbol. destruct login as [[u p]|].
  - rewrite !eff_bind_run. destruct (library_symbol _ _ _ _ h2) as [[symbol|e] h3]; [|done].
    destruct (c_string u _) as [u'|e]; [|done]. rewrite eff_of_ok.
    destruct (c_string p _) as [p'|e]; [|done]. rewrite eff_of_ok.
    rewrite eff_bind_run, perform_run, !eff_ret_run, Hs. cbn. by destruct (_ =? _).
  - rewrite !eff_bind_run. destruct (library_symbol _ _ _ _ h2) as [[symbol|e] h3]; [|done].
    rewrite eff_bind_run, perform_run, !eff_ret_run, Hs. cbn. by destruct (_ =? _).
Qed.

(** A library at its usual place whose client ends with an error when it gets no login. *)
Definition example_client (path : rstr) (login : option (rstr * rstr)) : outcome (io unit) :=
  Returned (match login with Some _ => Ok tt | None => Err (other "login") end).
Definition example_loader (h : history) (c : call) : answer :=
  match c with
  | current_exe => answering 0 (bytes "/opt/vpn")
  | dl_open _ => answering 77 []
  | dl_sym _ _ => answering 88 []
  | dl_call _ config login =>
      answering (match login with
                 | Some (user, password) => autobricks_vpn_client_run_with_login example_client (Some config) (Some user) (Some password)
                 | None => autobricks_vpn_client_run example_client (Some config)
                 end) []
  | _ => answering 0 []
  end.

Lemma loader_refines_launcher_witness :
  let r := loader_run example_loader Linux true (str "c.ini") (Some (str "alice", str "secret")) [] in
  r.1 = Ok tt /\
  (r.1 = Ok tt <-> launcher_run example_client (fun _ => Returned (Ok tt)) true
     (loads example_loader Linux true (Some (str "alice", str "secret")) []).1 (str "c.ini") (Some (str "alice", str "secret")) = Ok tt) /\
  exists calls st, r.2 = [] ++ calls /\ follow library_step Unloaded calls = Some st /\
    (r.1 = Ok tt -> st = Ran) /\ (st = Unloaded \/ st = Closed \/ st = Ran).
Proof.
  split; [vm_compute; reflexivity|].
  apply (loader_refines_launcher example_loader Linux example_client (fun _ => Returned (Ok tt)) true (str "c.ini")
    (Some (str "alice", str "secret")) []).
  intros h symbol config [[user password]|]; reflexivity.
Defined.
