(* ===== verification/ClientAuth.v ===== *)
(** * The client's handshake and login

    Models [make_login_credentials], [cached_login], [read_auth_response], [authenticate]
    and [connect] of [src/client/mod.rs]. The clock readings and what the kernel answers to
    [wait_for_udp] are a list of turns, one per reading; a function that runs out of turns
    has not ended, and its result is [None]. *)

From S2P Require Import Prelude Text Net Config DtlsApi Session Decrypt DecryptOk Dtls.

Local Open Scope Z_scope.

Record LoginCredentials := { login_id : list Z; login_password : list Z }.

Definition make_login_credentials (id password : rstr) : io LoginCredentials :=
  if bool_decide (id = []) || (128 <? str_len id) || bool_decide (0%N ∈ id)
     || bool_decide (password = []) || (128 <? str_len password) || bool_decide (0%N ∈ password)
  then Err (new_error InvalidInput "invalid login input")
  else Ok {| login_id := as_bytes id; login_password := as_bytes password |}.

(** The login message of [authenticate]. *)
Definition login_message (credentials : LoginCredentials) : list Z :=
  AUTH_LOGIN_PREFIX ++ login_id credentials ++ [0] ++ login_password credentials.

(** [prompts] are the lines the user types; the end of the input is the error
    [read_login_field] gives. *)
Definition read_prompt (prompts : list (io rstr)) : io rstr * list (io rstr) :=
  match prompts with
  | [] => (Err (new_error UnexpectedEof "login input ended"), [])
  | answer :: prompts => (answer, prompts)
  end.

Definition cached_login (cache : option LoginCredentials) (prompts : list (io rstr))
    : io LoginCredentials * option LoginCredentials * list (io rstr) :=
  match cache with
  | Some credentials => (Ok credentials, cache, prompts)
  | None =>
      match read_prompt prompts with
      | (Err e, prompts) => (Err e, None, prompts)
      | (Ok id, prompts) =>
          match read_prompt prompts with
          | (Err e, prompts) => (Err e, None, prompts)
          | (Ok password, prompts) =>
              match make_login_credentials id password with
              | Err e => (Err e, None, prompts)
              | Ok credentials => (Ok credentials, Some credentials, prompts)
              end
          end
      end
  end.

(** A reading of the clock, whether the client still runs then, and the answer of the
    [wait_for_udp] that follows. *)
Record Turn := { turn_now : Instant; turn_running : bool; turn_wait : io bool }.

(** What the client uses of a DTLS session that is connected to its socket. *)
Class ClientDtls (D : Type) := {
  client_handshake : D -> io bool * D;
  client_timeout : D -> Duration;
  client_handle_timeout : D -> io unit * D;
  client_read : Z -> D -> io (list Z) * D;
  client_write : list Z -> D -> io Z * D;
  client_has_san_ip : Ipv4Addr -> D -> io bool;
}.

Section auth.
Context {D : Type} `{ClientDtls D}.
Implicit Types (d : D) (env : list Turn).

(** What ends the wait for a frame: a frame that is not empty, or an error. *)
Definition frame_or_error (r : io (list Z)) : option (io (list Z)) :=
  match r with
  | Ok [] => None
  | Ok frame => Some (Ok frame)
  | Err error => if decide (kind error = WouldBlock) then None else Some (Err error)
  end.

Fixpoint read_auth_loop (deadline : Instant) env d : option (io (list Z) * D * list Turn) :=
  let '(r, d) := client_read 512 d in
  match frame_or_error r with
  | Some r => Some (r, d, env)
  | None =>
      match env with
      | [] => None
      | t :: env =>
          if deadline <=? turn_now t then Some (Err (new_error TimedOut "login response timed out"), d, env)
          else match turn_wait t with
               | Err error => Some (Err error, d, env)
               | Ok _ => read_auth_loop deadline env d
               end
      end
  end.

Definition read_auth_response (timeout : Duration) env d : option (io (list Z) * D * list Turn) :=
  match env with
  | [] => None
  | t :: env => read_auth_loop (turn_now t + timeout) env d
  end.

(** The loop that sends the login message. *)
Fixpoint send_login (frame : list Z) (deadline : Instant) env d : option (io unit * D * list Turn) :=
  match client_write frame d with
  | (Ok written, d) =>
      if written =? Z.of_nat (length frame) then Some (Ok tt, d, env)
      else Some (Err (other "partial login message"), d, env)
  | (Err error, d) =>
      if decide (kind error = WouldBlock) then
        match env with
        | [] => None
        | t :: env =>
            if deadline <=? turn_now t then Some (Err (new_error TimedOut "login send timed out"), d, env)
            else match turn_wait t with
                 | Err error => Some (Err error, d, env)
                 | Ok _ => send_login frame deadline env d
                 end
        end
      else Some (Err error, d, env)
  end.

(** The login cache and the lines still to be typed go through a login. *)
Abbreviation login_state := (option LoginCredentials * list (io rstr))%type.

Definition denied (msg : string) : io_error := new_error PermissionDenied msg.

(** After the challenge: the message and the verdict. *)
Definition answer_challenge (credentials : LoginCredentials) env d : option (io unit * D * list Turn) :=
  match env with
  | [] => None
  | t :: env =>
      '(r, d, env) ← send_login (login_message credentials) (turn_now t + from_secs 10) env d;
      match r with
      | Err error => Some (Err error, d, env)
      | Ok _ =>
          '(r, d, env) ← read_auth_response (from_secs 10) env d;
          Some (match r with
                | Err error => Err error
                | Ok value =>
                    if bool_decide (value = AUTH_OK) then Ok tt
                    else if bool_decide (value = AUTH_FAILED) then Err (denied "login failed")
                    else Err (denied "invalid login response")
                end, d, env)
      end
  end.

Definition authenticate env d (login : login_state) : option (io unit * D * list Turn * login_state) :=
  '(r, d, env) ← read_auth_response (from_secs 10) env d;
  match r with
  | Err error => Some (Err error, d, env, login)
  | Ok response =>
      if bool_decide (response = AUTH_OK) then Some (Ok tt, d, env, login)
      else if negb (bool_decide (response = AUTH_REQUIRED))
      then Some (Err (denied "invalid login challenge"), d, env, login)
      else
        match cached_login login.1 login.2 with
        | (Err error, cache, prompts) => Some (Err error, d, env, (cache, prompts))
        | (Ok credentials, cache, prompts) =>
            '(r, d, env) ← answer_challenge credentials env d;
            Some (r, d, env, (cache, prompts))
        end
  end.

(** The handshake loop of [connect]; [Ok false] is a shutdown. *)
Fixpoint handshake_loop (deadline : Instant) env d : option (io bool * D * list Turn) :=
  match env with
  | [] => None
  | t :: env =>
      if negb (turn_running t) then Some (Ok false, d, env)
      else
        match client_handshake d with
        | (Err error, d) => Some (Err error, d, env)
        | (Ok true, d) => Some (Ok true, d, env)
        | (Ok false, d) =>
            let remaining := saturating_duration_since deadline (turn_now t) in
            if remaining =? 0 then Some (Err (new_error TimedOut "DTLS handshake timed out"), d, env)
            else
              match turn_wait t with
              | Err error => Some (Err error, d, env)
              | Ok true => handshake_loop deadline env d
              | Ok false =>
                  match client_handle_timeout d with
                  | (Err error, d) => Some (Err error, d, env)
                  | (Ok _, d) => handshake_loop deadline env d
                  end
              end
        end
  end.

(** The rest of [connect]: a shutdown meanwhile, the server's address, the login. *)
Definition after_handshake (server : Ipv4Addr) (verify_server_san_ip : bool) env d (login : login_state)
    : option (io unit * D * list Turn * login_state) :=
  match env with
  | [] => None
  | t :: env =>
      if negb (turn_running t)
      then Some (Err (new_error Interrupted "client shutdown requested"), d, env, login)
      else
        match (if verify_server_san_ip then client_has_san_ip server d else Ok true) with
        | Err error => Some (Err error, d, env, login)
        | Ok false =>
            Some (Err (Custom PermissionDenied
                         (str "server certificate SAN IP does not match " ++ display_ipv4 server)),
                  d, env, login)
        | Ok true => authenticate env d login
        end
  end.

(** [connect] from the first ClientHello on. *)
Definition connect_session (server : Ipv4Addr) (verify_server_san_ip : bool) env d (login : login_state)
    : option (io unit * D * list Turn * login_state) :=
  match env with
  | [] => None
  | t :: env =>
      '(r, d, env) ← handshake_loop (turn_now t + from_secs 30) env d;
      match r with
      | Err error => Some (Err error, d, env, login)
      | Ok false => Some (Err (new_error Interrupted "client shutdown requested"), d, env, login)
      | Ok true => after_handshake server verify_server_san_ip env d login
      end
  end.
End auth.

(** ** Lemmas *)

Lemma nul_in_bytes (s : rstr) : 0 ∈ as_bytes s -> 0%N ∈ s.
Proof.
  unfold as_bytes. intros (c & Hc & Hin)%list_elem_of_bind. assert (c = 0%N) as ->; [|done].
  unfold utf8_char in Hc. cbv zeta in Hc.
  pose proof (Z.mod_pos_bound (Z.of_N c) 64). pose proof (Z.mod_pos_bound (Z.of_N c / 64) 64).
  pose proof (Z.mod_pos_bound (Z.of_N c / 4096) 64).
  assert (forall k, 0 < k -> 0 <= Z.of_N c / k) by (intros; apply Z.div_pos; lia).
  repeat case_match; rewrite ?elem_of_cons in Hc; 
    destruct_or?; try (by apply elem_of_nil in Hc); try lia;
    match goal with E : 0 = ?k + Z.of_N c / ?m |- _ =>
      assert (0 <= Z.of_N c / m) by auto with lia; lia end.
Qed.

Lemma make_login_credentials_Ok id password c :
  make_login_credentials id password = Ok c ->
  c = {| login_id := as_bytes id; login_password := as_bytes password |} /\
  0 ∉ as_bytes id /\ (length (as_bytes id) <= 128)%nat /\ (length (as_bytes password) <= 128)%nat.
Proof.
  unfold make_login_credentials. destruct (_ || _) eqn:Hc; [done|]. intros [= <-].
  rewrite !orb_false_iff, !bool_decide_eq_false in Hc. destruct Hc as (((((_ & H1) & H2) & _) & H3) & _).
  unfold str_len in *. split_and!; [done|by intros ?%nul_in_bytes|lia|lia].
Qed.

(** The clock as a list of turns reads it: each reading is at most [gap] after the previous
    one, the first after [start]. *)
Fixpoint clock (gap : Duration) (start : Instant) (env : list Turn) : Prop :=
  match env with
  | [] => True
  | t :: env => start <= turn_now t <= start + gap /\ clock gap (turn_now t) env
  end.

(** The last reading. *)
Fixpoint end_time (start : Instant) (env : list Turn) : Instant :=
  match env with [] => start | t :: env => end_time (turn_now t) env end.

Section termination.
Context {D : Type} `{ClientDtls D} (gap : Duration).
Implicit Types (d : D) (env : list Turn).

(** A step that has ended no later than [limit] leaves the readings after it. *)
Definition ended {A} (limit last : Instant) (o : option (A * D * list Turn)) : Prop :=
  exists r d env start, o = Some (r, d, env) /\ clock gap start env /\ start <= limit /\ end_time start env = last.

Lemma ended_mono {A} limit limit' last (o : option (A * D * list Turn)) :
  limit <= limit' -> ended limit last o -> ended limit' last o.
Proof. intros Hl (r & d & env & start & ? & ? & ? & ?). exists r, d, env, start. split_and!; (done || lia). Qed.

Lemma ended_now {A} (r : A) d env start limit last :
  clock gap start env -> start <= limit -> end_time start env = last ->
  ended limit last (Some (r, d, env)).
Proof. intros. by exists r, d, env, start. Qed.

Lemma read_auth_loop_ends deadline start env d :
  0 <= gap -> clock gap start env -> start < deadline <= end_time start env ->
  ended (deadline + gap) (end_time start env) (read_auth_loop deadline env d).
Proof.
  intros Hg. revert start d. induction env as [|t env IH]; intros start d Hc He; [cbn in He; lia|].
  cbn [read_auth_loop]. destruct (client_read 512 d) as [r d1].
  destruct (frame_or_error r) as [r'|]; [by apply ended_now with start; [done|lia|]|].
  destruct Hc as [Ht Hc]. cbn [end_time] in *.
  destruct (Z.leb_spec deadline (turn_now t)); [by apply ended_now with (turn_now t); [done|lia|]|].
  destruct (turn_wait t); [apply IH; [done|lia]|by apply ended_now with (turn_now t); [done|lia|]].
Qed.

Lemma send_login_ends frame deadline start env d :
  0 <= gap -> clock gap start env -> start < deadline <= end_time start env ->
  ended (deadline + gap) (end_time start env) (send_login frame deadline env d).
Proof.
  intros Hg. revert start d. induction env as [|t env IH]; intros start d Hc He; [cbn in He; lia|].
  cbn [send_login]. destruct (client_write frame d) as [[n|e] d1].
  { destruct (n =? _); by apply ended_now with start; [done|lia|]. }
  destruct (decide (kind e = WouldBlock)); [|by apply ended_now with start; [done|lia|]].
  destruct Hc as [Ht Hc]. cbn [end_time] in *.
  destruct (Z.leb_spec deadline (turn_now t)); [by apply ended_now with (turn_now t); [done|lia|]|].
  destruct (turn_wait t); [apply IH; [done|lia]|by apply ended_now with (turn_now t); [done|lia|]].
Qed.

Lemma handshake_loop_ends deadline start env d :
  0 <= gap -> clock gap start env -> start < deadline <= end_time start env ->
  ended (deadline + gap) (end_time start env) (handshake_loop deadline env d).
Proof.
  intros Hg. revert start d. induction env as [|t env IH]; intros start d Hc He; [cbn in He; lia|].
  cbn [handshake_loop]. destruct Hc as [Ht Hc]. cbn [end_time] in *.
  assert (forall A (r : A) d, ended (deadline + gap) (end_time (turn_now t) env) (Some (r, d, env))) as Hnow
    by (intros A r d'; by apply ended_now with (turn_now t); [done|lia|]).
  destruct (negb (turn_running t)); [apply Hnow|].
  destruct (client_handshake d) as [[[|]|e] d1]; [apply Hnow| |apply Hnow].
  destruct (Z.eqb_spec (saturating_duration_since deadline (turn_now t)) 0) as [|Hrem]; [apply Hnow|].
  unfold saturating_duration_since in Hrem.
  destruct (turn_wait t) as [[|]|e]; [apply IH; [done|lia]| |apply Hnow].
  destruct (client_handle_timeout d1) as [[?|?] d2]; [apply IH; [done|lia]|apply Hnow].
Qed.

Lemma read_auth_response_ends timeout start env d :
  0 <= gap -> 0 < timeout -> clock gap start env -> start + timeout + gap <= end_time start env ->
  ended (start + timeout + 2 * gap) (end_time start env) (read_auth_response timeout env d).
Proof.
  intros Hg Ht Hc He. destruct env as [|t env]; [cbn in He; lia|]. destruct Hc as [Hn Hc]. cbn [end_time] in *.
  eapply ended_mono; [|apply read_auth_loop_ends; [done|done|lia]]. lia.
Qed.

(** Sequencing: what follows a step that has ended starts from the clock it leaves. *)
Lemma ended_bind {A B} limit limit' last (o : option (A * D * list Turn))
    (f : A * D * list Turn -> option (B * D * list Turn)) :
  ended limit last o ->
  (forall r d env start, clock gap start env -> start <= limit -> end_time start env = last ->
     ended limit' last (f (r, d, env))) ->
  ended limit' last (o ≫= f).
Proof. intros (r & d & env & start & -> & Hc & Hs & He) Hf. by apply (Hf r d env start). Qed.

Lemma answer_challenge_ends c start env d :
  0 <= gap -> clock gap start env -> start + from_secs 20 + 4 * gap <= end_time start env ->
  ended (start + from_secs 20 + 4 * gap) (end_time start env) (answer_challenge c env d).
Proof.
  intros Hg Hc He. unfold from_secs in *. destruct env as [|t env]; [cbn in He; lia|].
  destruct Hc as [Hn Hc]. unfold answer_challenge. cbn [end_time] in *.
  eapply ended_bind; [apply send_login_ends; [done|done|unfold from_secs in *; lia]|].
  intros r d1 env1 start1 Hc1 Hs1 He1. destruct r as [|e]; [|apply ended_now with start1; (done || unfold from_secs in *; lia)].
  eapply ended_bind.
  { rewrite <-He1. apply read_auth_response_ends; [done|unfold from_secs; lia|done|unfold from_secs in *; lia]. }
  intros r2 d2 env2 start2 Hc2 Hs2 He2. apply ended_now with start2; [done|unfold from_secs in *; lia|done].
Qed.

Lemma authenticate_ends start env d login :
  0 <= gap -> clock gap start env -> start + from_secs 30 + 6 * gap <= end_time start env ->
  is_Some (authenticate env d login).
Proof.
  intros Hg Hc He. unfold authenticate, from_secs in *.
  destruct (read_auth_response_ends (10 * 1000000000) start env d)
    as (r & d1 & env1 & start1 & -> & Hc1 & Hs1 & He1); [done|lia|done|lia|].
  cbn [mbind option_bind]. destruct r as [response|e]; [|by eexists].
  repeat (case_match; [by eexists|]).
  destruct (cached_login _ _) as [[[c|e] cache] prompts]; [|by eexists].
  destruct (answer_challenge_ends c start1 env1 d1) as (r2 & d2 & env2 & start2 & -> & _);
    [done|done|unfold from_secs; lia|]. by eexists.
Qed.
End termination.

Lemma connect_session_inv {D} `{ClientDtls D} server verify env (d : D) login d' env' login' :
  connect_session server verify env d login = Some (Ok tt, d', env', login') ->
  exists t env0 d0 env1,
    handshake_loop (turn_now t + from_secs 30) env0 d = Some (Ok true, d0, env1) /\
    (verify = true -> client_has_san_ip server d0 = Ok true) /\
    exists env2, authenticate env2 d0 login = Some (Ok tt, d', env', login').
Proof.
  unfold connect_session. destruct env as [|t env]; [done|].
  destruct (handshake_loop _ env d) as [[[[[|]|e] d0] env1]|] eqn:Hh; cbn [mbind option_bind]; [|done..].
  unfold after_handshake. destruct env1 as [|t1 env2]; [done|].
  destruct (negb (turn_running t1)); [done|]. intros Hc.
  exists t, env, d0, (t1 :: env2). split; [done|].
  destruct verify; [destruct (client_has_san_ip server d0) as [[|]|] eqn:Hs; [|done..]|]; (split; [done|by exists env2]).
Qed.

Lemma frame_or_error_Ok r frame : frame_or_error r = Some (Ok frame) -> r = Ok frame.
Proof.
  unfold frame_or_error. destruct r as [[|b l]|e]; [done|by intros [= <-]|]. by destruct (decide _).
Qed.

Lemma read_auth_response_Ok {D} `{ClientDtls D} timeout env (d : D) frame d' env' :
  read_auth_response timeout env d = Some (Ok frame, d', env') ->
  exists d0, client_read 512 d0 = (Ok frame, d').
Proof.
  unfold read_auth_response. destruct env as [|t env]; [done|]. generalize (turn_now t + timeout). intros deadline.
  revert d. induction env as [|t' env IH]; intros d; cbn [read_auth_loop];
    destruct (client_read 512 d) as [r d1] eqn:Hr; destruct (frame_or_error r) as [r'|] eqn:Hf; try done.
  1, 2: intros [= -> -> <-]; exists d; by rewrite Hr, (frame_or_error_Ok _ _ Hf).
  destruct (_ <=? _); [done|]. destruct (turn_wait t'); [apply IH|done].
Qed.

(** The handshake loop ends with a handshake that is complete. *)
Lemma handshake_loop_true {D} `{ClientDtls D} deadline env (d : D) d' env' :
  handshake_loop deadline env d = Some (Ok true, d', env') ->
  exists d0, client_handshake d0 = (Ok true, d').
Proof.
  revert d. induction env as [|t env IH]; intros d; cbn [handshake_loop]; [done|].
  destruct (negb _); [done|]. destruct (client_handshake d) as [[[|]|e] d1] eqn:Hh; [|..|done].
  - intros [= -> ->]. by exists d.
  - destruct (_ =? 0); [done|]. destruct (turn_wait t) as [[|]|]; [apply IH| |done].
    destruct (client_handle_timeout d1) as [[|] d2]; [apply IH|done].
Qed.

Lemma cached_login_spec cache prompts r cache' prompts' :
  cached_login cache prompts = (r, cache', prompts') ->
  prompts' `suffix_of` prompts /\
  match cache with
  | Some c => r = Ok c /\ cache' = Some c /\ prompts' = prompts
  | None => forall c, r = Ok c <-> cache' = Some c
  end.
Proof.
  unfold cached_login. destruct cache as [c|]; [by intros [= <- <- <-]|].
  unfold read_prompt. destruct prompts as [|[id|e] prompts]; [intros [= <- <- <-]| |intros [= <- <- <-]].
  - split; [done|]. naive_solver.
  - destruct prompts as [|[pw|e] prompts]; [intros [= <- <- <-]| |intros [= <- <- <-]].
    + split; [by exists [Ok id]|]. naive_solver.
    + destruct (make_login_credentials id pw); intros [= <- <- <-];
        (split; [by exists [Ok id; Ok pw]|]; naive_solver).
    + split; [by exists [Ok id; Err e]|]. naive_solver.
  - split; [by exists [Err e]|]. naive_solver.
Qed.

Lemma nul_split (a b a' b' : list Z) :
  0 ∉ a -> 0 ∉ a' -> a ++ [0] ++ b = a' ++ [0] ++ b' -> a = a' /\ b = b'.
Proof.
  revert a'. induction a as [|x a IH]; intros [|y a'] Ha Ha'; cbn; rewrite ?not_elem_of_cons in *.
  - by intros [= ->].
  - intros [= <- _]. naive_solver.
  - intros [= -> _]. naive_solver.
  - intros [= -> Heq]. destruct (IH a') as [-> ->]; [naive_solver..|done].
Qed.

(** The program's sessions, connected to a socket: nothing is queued. *)
#[export] Instance Dtls_client {Ssl Cert} `{WolfSSL Ssl Cert}
    (embed_recv : Z -> Z * list Z) (embed_send : list Z -> Z) : ClientDtls (Dtls Ssl) := {
  client_handshake d := (Dtls.handshake embed_recv embed_send 0 d unused).1;
  client_timeout := Dtls.current_timeout;
  client_handle_timeout d := (Dtls.handle_timeout embed_recv embed_send 0 d unused).1;
  client_read size d := (Dtls.read embed_recv embed_send size 0 d unused).1;
  client_write frame d := (Dtls.write embed_recv embed_send frame 0 d unused).1;
  client_has_san_ip := Dtls.peer_certificate_has_san_ip;
}.

(** The login state after a series of connections. *)
Definition run_attempts {D} `{ClientDtls D} (server : Ipv4Addr) (verify : bool)
    (attempts : list (list Turn * D)) (login : option LoginCredentials * list (io rstr))
    : option LoginCredentials * list (io rstr) :=
  foldl (fun login a => match connect_session server verify a.1 a.2 login with
                        | Some (_, login') => login'
                        | None => login
                        end) login attempts.

Lemma authenticate_cached {D} `{ClientDtls D} env (d : D) c prompts r d' env' login' :
  authenticate env d (Some c, prompts) = Some (r, d', env', login') -> login' = (Some c, prompts).
Proof.
  unfold authenticate. destruct (read_auth_response _ env d) as [[[[frame|e] d1] env1]|]; [|by intros [= <- <- <- <-]|done].
  cbn [mbind option_bind cached_login fst snd]. case_bool_decide; [by intros [= <- <- <- <-]|].
  case_bool_decide; [|by intros [= <- <- <- <-]]. cbn [negb].
  destruct (answer_challenge c env1 d1) as [[[? ?] ?]|]; [|done]. by intros [= <- <- <- <-].
Qed.

Lemma connect_session_cached {D} `{ClientDtls D} server verify env (d : D) c prompts r d' env' login' :
  connect_session server verify env d (Some c, prompts) = Some (r, d', env', login') ->
  login' = (Some c, prompts).
Proof.
  unfold connect_session, after_handshake. destruct env as [|t env]; [done|].
  destruct (handshake_loop _ env d) as [[[[[|]|e] d1] env1]|]; cbn [mbind option_bind];
    [|by intros [= <- <- <- <-]..|done].
  destruct env1 as [|t1 env1]; [done|]. destruct (negb _); [by intros [= <- <- <- <-]|].
  destruct (if verify then _ else _) as [[|]|]; [apply authenticate_cached|by intros [= <- <- <- <-]..].
Qed.

(** ** Properties *)

(** C13: Client and server agree on logins. The message a client sends for the credentials the
    user typed is accepted by the server's login check exactly when the configuration has the
    same ID and the same password for the session's address; and it is at most 512 bytes, so
    it fits the server's read buffer. *)
Theorem login_end_to_end {D} `{DtlsSession D} id password c logins (s : Session D) w :
  make_login_credentials id password = Ok c -> login_attempted s = false -> authenticated s = false ->
  (length (login_message c) <= 512)%nat /\
  (authenticated (handle_login logins (login_message c) s w).1.2 = true <->
   exists id' password', logins !! address s = Some (id', password') /\
     as_bytes id = as_bytes id' /\ as_bytes password = as_bytes password').
Proof.
  intros (-> & Hnul & Hi & Hp)%make_login_credentials_Ok Hl Ha. unfold login_message. cbn [login_id login_password].
  split; [rewrite !length_app; vm_compute (length AUTH_LOGIN_PREFIX); cbn [length]; lia|].
  unfold handle_login. rewrite Hl. change (address (s <| login_attempted := true |>)) with (address s).
  set (m := AUTH_LOGIN_PREFIX ++ _). destruct (logins !! address s) as [[id' pw']|] eqn:Hlg.
  - destruct (login_matches m id' pw') eqn:Hm; cbn.
    + split; [|done]. intros _. exists id', pw'. split; [done|].
      apply login_matches_spec in Hm as [Heq%app_inv_head Hnul'].
      by apply nul_split.
    + rewrite Ha. split; [done|]. intros (id0 & pw0 & [= <- <-] & H1 & H2).
      assert (login_matches m id' pw' = true); [|congruence]. apply login_matches_spec.
      unfold m. rewrite H1, H2. split; [done|]. by rewrite <-H1.
  - cbn. rewrite Ha. split; [done|]. by intros (? & ? & ? & _).
Qed.

(** C18: [connect] always ends. Whatever the session and the network do, the client has either
    a verdict or an error once the clock has passed the handshake's 30 seconds and the
    login's three waits of 10, up to the steps between two readings of the clock. *)
Theorem connect_ends {D} `{ClientDtls D} gap start env server verify (d : D) login :
  0 <= gap -> clock gap start env -> start + from_secs 60 + 9 * gap <= end_time start env ->
  is_Some (connect_session server verify env d login).
Proof.
  intros Hg Hc He. unfold connect_session, from_secs in *.
  destruct env as [|t env]; [cbn in He; lia|]. destruct Hc as [Hn Hc]. cbn [end_time] in He.
  destruct (handshake_loop_ends gap (turn_now t + 30 * 1000000000) (turn_now t) env d)
    as (r & d1 & env1 & start1 & -> & Hc1 & Hs1 & He1); [done|done|lia|].
  cbn [mbind option_bind]. destruct r as [[|]|e]; [|by eexists..].
  unfold after_handshake. destruct env1 as [|t1 env1]; [cbn in He1; lia|].
  destruct Hc1 as [Hn1 Hc1]. cbn [end_time] in He1.
  repeat (case_match; [by eexists|]). destruct (if verify then _ else _) as [[|]|]; [|by eexists..].
  apply (authenticate_ends gap (turn_now t1)); [done|done|unfold from_secs; lia].
Qed.

(** C17: A connection is only used after the server said so: when [connect] succeeds, the
    handshake completed, the server's certificate names the address the client connected to
    if that is asked for, and the last message the client read is the acceptance. *)
Theorem connect_sound {D} `{ClientDtls D} server verify env (d : D) login d' env' login' :
  connect_session server verify env d login = Some (Ok tt, d', env', login') ->
  exists d0 d1 d2,
    client_handshake d0 = (Ok true, d1) /\ (verify = true -> client_has_san_ip server d1 = Ok true) /\
    client_read 512 d2 = (Ok AUTH_OK, d').
Proof.
  intros (t & env0 & d1 & env1 & (d0 & Hh)%handshake_loop_true & Hv & env2 & Ha)%connect_session_inv.
  exists d0, d1. unfold authenticate in Ha.
  destruct (read_auth_response _ env2 d1) as [[[[frame|e] d2] env3]|] eqn:Hr; [|done..].
  cbn [mbind option_bind] in Ha. case_bool_decide as Hok.
  { subst. injection Ha as <- <- <-. destruct (read_auth_response_Ok _ _ _ _ _ _ Hr) as [d3 ?]. by exists d3. }
  case_bool_decide; [|done]. cbn [negb] in Ha.
  destruct (cached_login _ _) as [[[c|e] cache] prompts]; [|done]. unfold answer_challenge in Ha.
  destruct env3 as [|t3 env3]; [done|].
  destruct (send_login _ _ env3 d2) as [[[[u|e] d3] env4]|]; [|done..]. cbn [mbind option_bind] in Ha.
  destruct (read_auth_response _ env4 d3) as [[[[v|e] d4] env5]|] eqn:Hr2; [|done..].
  cbn [mbind option_bind] in Ha. repeat case_bool_decide; [|done..]. injection Ha as <- <- <-. subst v.
  destruct (read_auth_response_Ok _ _ _ _ _ _ Hr2) as [d5 ?]. by exists d5.
Qed.

(** The user is asked once. When a series of connections has cached credentials, they are
    the ones every later connection uses, and not a line more is read from the user. *)
Theorem login_asked_once {D} `{ClientDtls D} server verify (before after : list (list Turn * D)) prompts c :
  (run_attempts server verify before (None, prompts)).1 = Some c ->
  run_attempts server verify (before ++ after) (None, prompts) =
    run_attempts server verify before (None, prompts).
Proof.
  unfold run_attempts. rewrite foldl_app. destruct (foldl _ _ before) as [cache left]. cbn [fst]. intros ->.
  induction after as [|[env d] after IH]; [done|]. cbn [foldl fst snd].
  destruct (connect_session server verify env d (Some c, left)) as [[[[r d'] env'] login']|] eqn:Hc; [|done].
  apply connect_session_cached in Hc as ->. exact IH.
Qed.

(** A session for the examples: its handshake completes at once, it reads what the script
    holds, and every write is taken whole. *)
Definition Scripted := list (io (list Z)).
#[export] Instance scripted_client : ClientDtls Scripted := {
  client_handshake d := (Ok true, d);
  client_timeout _ := from_secs 1;
  client_handle_timeout d := (Ok tt, d);
  client_read _ d := match d with [] => (Err (Simple WouldBlock), []) | r :: d => (r, d) end;
  client_write frame d := (Ok (Z.of_nat (length frame)), d);
  client_has_san_ip _ _ := Ok true;
}.

Definition turn (s : Z) : Turn := {| turn_now := from_secs s; turn_running := true; turn_wait := Ok true |}.
Definition accepting : Scripted := [Err (Simple WouldBlock); Ok AUTH_REQUIRED; Ok AUTH_OK].

Lemma login_end_to_end_witness :
  authenticated (handle_login {[UNSPECIFIED := (str "alice", str "secret")]}
    (login_message {| login_id := as_bytes (str "alice"); login_password := as_bytes (str "secret") |})
    (example_session 1 2 []) example_world).1.2 = true.
Proof.
  apply (login_end_to_end (str "alice") (str "secret")); [reflexivity..|].
  exists (str "alice"), (str "secret"). split; [reflexivity|]. split; reflexivity.
Defined.

Lemma connect_ends_witness :
  is_Some (connect_session 0 true (turn <$> seqZ 1 70) ([] : Scripted) (None, [])).
Proof.
  apply (connect_ends (from_secs 1) 0).
  - discriminate.
  - vm_compute. repeat (split; [split; discriminate|]). exact I.
  - vm_compute. discriminate.
Defined.

Lemma connect_sound_witness :
  exists d0 d1 d2 : Scripted,
    client_handshake d0 = (Ok true, d1) /\ (true = true -> client_has_san_ip 0 d1 = Ok true) /\
    client_read 512 d2 = (Ok AUTH_OK, []).
Proof.
  apply (connect_sound 0 true (turn <$> seqZ 1 10) accepting (None, [Ok (str "alice"); Ok (str "secret")]) []
    (turn <$> seqZ 8 3)
    (Some {| login_id := as_bytes (str "alice"); login_password := as_bytes (str "secret") |}, [])).
  vm_compute. reflexivity.
Defined.

Lemma login_asked_once_witness :
  run_attempts 0 true ([(turn <$> seqZ 1 10, accepting)] ++ [(turn <$> seqZ 1 10, accepting)])
    (None, [Ok (str "alice"); Ok (str "secret"); Ok (str "mallory")]) =
  (Some {| login_id := as_bytes (str "alice"); login_password := as_bytes (str "secret") |},
   [Ok (str "mallory")]).
Proof.
  etransitivity.
  - apply (login_asked_once 0 true [(turn <$> seqZ 1 10, accepting)] [(turn <$> seqZ 1 10, accepting)] _
      {| login_id := as_bytes (str "alice"); login_password := as_bytes (str "secret") |}).
    vm_compute. reflexivity.
  - vm_compute. reflexivity.
Defined.
