(* ===== verification/Terminal.v ===== *)
(** * Asking for the login

    Models [read_login_field] of [src/client/mod.rs], which turns the terminal's echo off while
    a password is typed, and its use in [cached_login]. *)

From S2P Require Import Prelude Text ClientAuth System.

Local Open Scope Z_scope.

(** [termios] as a list that starts with the local flags. *)
Definition ECHO : Z := 8.
Definition quiet (attributes : list Z) : list Z :=
  match attributes with flags :: rest => Z.land flags (Z.lnot ECHO) :: rest | [] => [] end.

Definition is_line_end (c : N) : bool := ((c =? 13) || (c =? 10))%N.

Section terminal.
Context (system : history -> call -> answer).

(** The attributes to put back, when the echo was turned off. *)
Definition hide_echo (hidden : bool) : eff history (option (list Z)) :=
  if hidden then
    original ← perform system term_getattr;
    if ret original =? 0 then
      changed ← perform system (term_setattr (quiet (out original)));
      mret (if ret changed =? 0 then Some (out original) else None)
    else mret None
  else mret None.

Definition restore_echo (terminal : option (list Z)) : eff history unit :=
  match terminal with
  | Some original =>
      _ ← ignore (perform system (term_setattr original));
      ignore (perform system (stderr_write [10%N]))
  | None => mret tt
  end.

(** [io::stdin().read_line(&mut input)], the number of bytes and the line. *)
Definition read_line : eff history (Z * rstr) :=
  line ← checked system stdin_line;
  match from_utf8 (out line) with
  | Some input => mret (ret line, input)
  | None => fail_with (new_error InvalidData "stream did not contain valid UTF-8")
  end.

Definition read_login_field (prompt : rstr) (hidden : bool) : eff history rstr :=
  _ ← ignore (perform system (stderr_write prompt));
  _ ← checked system stderr_flush;
  terminal ← hide_echo hidden;
  result ← outcome_of read_line;
  _ ← restore_echo terminal;
  result ← of_io result;
  let '(count, input) := result in
  if count =? 0 then fail_with (new_error UnexpectedEof "login input ended")
  else mret (trim_end_by is_line_end input).

(** [cached_login(cache, read_login_field)]: the credentials, and the new cache. *)
Definition ask_login (cache : option LoginCredentials) : eff history (LoginCredentials * option LoginCredentials) :=
  match cache with
  | Some credentials => mret (credentials, cache)
  | None =>
      id ← read_login_field (str "Login ID: ") false;
      password ← read_login_field (str "Password: ") true;
      credentials ← of_io (make_login_credentials id password);
      mret (credentials, Some credentials)
  end.
End terminal.

(** ** The terminal's attributes *)

(** After the calls [h], when they were [before]; setting them succeeds with zero. *)
Definition attribute_effect (attributes : list Z) (ca : call * answer) : list Z :=
  match ca.1 with
  | term_setattr new => if ret ca.2 =? 0 then new else attributes
  | _ => attributes
  end.
Definition attributes (before : list Z) (h : history) : list Z := foldl attribute_effect before h.

Lemma attributes_app before h1 h2 : attributes before (h1 ++ h2) = attributes (attributes before h1) h2.
Proof. apply foldl_app. Qed.

(** What is documented of the two calls: a successful query tells the attributes in force, and
    the attributes that were in force can be set again. *)
Record terminal_ok (before : list Z) (system : history -> call -> answer) : Prop := {
  query_tells : forall h, ret (system h term_getattr) = 0 -> out (system h term_getattr) = attributes before h;
  restoring_works : forall h1 h2, ret (system h2 (term_setattr (attributes before h1))) = 0;
}.

Definition echo_off (attributes : list Z) : Prop := match attributes with flags :: _ => Z.testbit flags 3 = false | [] => True end.

Lemma quiet_off attributes : echo_off (quiet attributes).
Proof.
  destruct attributes as [|flags rest]; [done|]. unfold quiet, echo_off. rewrite Z.land_spec, Z.lnot_spec by lia.
  apply andb_false_r.
Qed.

(** Where the one call that satisfies [P] is. *)
Lemma split_unique {A} (P : A -> Prop) l1 x l2 pre y post :
  Forall (fun z => ~ P z) l1 -> Forall (fun z => ~ P z) l2 -> P y -> l1 ++ x :: l2 = pre ++ y :: post -> pre = l1.
Proof.
  intros H1 H2 Hy. revert pre. induction H1 as [|z l1 Hz H1 IH]; intros [|z' pre] E; cbn in E; simplify_eq; try done.
  - exfalso. rewrite Forall_forall in H2. apply (H2 y); [set_solver|done].
  - f_equal. by apply IH.
Qed.

Definition reads_line (ca : call * answer) : Prop := ca.1 = stdin_line.

Section terminal_proofs.
Context (system : history -> call -> answer) (before : list Z) (Hok : terminal_ok before system).

(** The line is read between hiding and restoring. *)
Definition hidden_state (hidden : bool) (h h' : history) (terminal : option (list Z)) : Prop :=
  match terminal with
  | Some original => original = attributes before h /\ echo_off (attributes before h') /\ hidden = true
  | None => attributes before h' = attributes before h
  end.

Lemma hide_echo_spec hidden h :
  exists terminal calls, hide_echo system hidden h = (Ok terminal, h ++ calls) /\
    hidden_state hidden h (h ++ calls) terminal /\ Forall (fun ca => ~ reads_line ca) calls /\
    (hidden = true -> terminal = None ->
       Exists (fun '(c, a) => (c = term_getattr \/ exists t, c = term_setattr t) /\ ret a <> 0) calls).
Proof.
  destruct hidden; [|by exists None, []; rewrite app_nil_r]. unfold hide_echo. rewrite eff_bind_run, perform_run.
  set (a := system h term_getattr). destruct (Z.eqb_spec (ret a) 0) as [Ha|Ha].
  - rewrite eff_bind_run, perform_run, eff_ret_run, <-app_assoc. set (b := system _ (term_setattr _)).
    eexists _, _. split; [done|]. unfold hidden_state. rewrite !attributes_app. cbn [attributes foldl app attribute_effect fst snd].
    destruct (Z.eqb_spec (ret b) 0).
    + split; [|by split; [by repeat constructor|]]. split_and!; [by apply Hok|apply quiet_off|done].
    + split; [done|]. split; [by repeat constructor|]. intros _ _. apply Exists_cons_tl, Exists_cons_hd. eauto.
  - exists None, [(term_getattr, a)]. split; [done|]. split; [unfold hidden_state; by rewrite attributes_app|].
    split; [by repeat constructor|]. intros _ _. apply Exists_cons_hd. by split; [left|].
Qed.

Lemma restore_echo_spec hidden h0 h h1 terminal :
  hidden_state hidden h0 h terminal -> attributes before h1 = attributes before h ->
  exists calls, restore_echo system terminal h1 = (Ok tt, h1 ++ calls) /\
    Forall (fun ca => ~ reads_line ca) calls /\ attributes before (h1 ++ calls) = attributes before h0.
Proof.
  destruct terminal as [original|]; cbn; intros Hs Hh.
  - destruct Hs as (-> & _ & _). eexists [_; _].
    split; [rewrite eff_bind_run; unfold ignore; rewrite !perform_run; cbn [snd]; by rewrite <-app_assoc|]. split; [by repeat constructor|]. rewrite attributes_app. cbn.
    by rewrite (restoring_works _ _ Hok).
  - exists []. rewrite app_nil_r. split; [done|]. split; [done|]. congruence.
Qed.

Lemma read_line_run h :
  exists r, outcome_of (read_line system) h = (Ok r, h ++ [(stdin_line, system h stdin_line)]).
Proof.
  unfold outcome_of, read_line. rewrite eff_bind_run, checked_run. destruct (_ <? _); [eauto|].
  destruct (from_utf8 _); eauto.
Qed.
End terminal_proofs.

(** The terminal is left as it was found, whether the line was read, the input ended or the
    read failed; and a hidden line is read with the echo off, unless the terminal could not
    be asked or set. *)
Theorem login_echo_restored before system prompt hidden h :
  terminal_ok before system ->
  exists r calls, read_login_field system prompt hidden h = (r, h ++ calls) /\
    attributes before (h ++ calls) = attributes before h /\
    forall pre line post, calls = pre ++ (stdin_line, line) :: post ->
      if hidden then echo_off (attributes before (h ++ pre)) \/
                     Exists (fun '(c, a) => (c = term_getattr \/ exists t, c = term_setattr t) /\ ret a <> 0) pre
      else attributes before (h ++ pre) = attributes before h.
Proof.
  intros Hok. unfold read_login_field. rewrite eff_bind_run. unfold ignore at 1. rewrite perform_run. cbn [snd].
  set (h1 := h ++ _). rewrite eff_bind_run, checked_run. set (f := system h1 stderr_flush).
  set (pre1 := [(stderr_write prompt, system h (stderr_write prompt)); (stderr_flush, f)]).
  replace (h1 ++ [(stderr_flush, f)]) with (h ++ pre1) by (unfold h1; by rewrite <-app_assoc).
  assert (Forall (fun ca => ~ reads_line ca) pre1) as Hn1 by (by repeat constructor).
  assert (attributes before (h ++ pre1) = attributes before h) as Ha1 by (by rewrite attributes_app).
  destruct (ret f <? 0).
  { exists (Err (Os (errno f))), pre1. split_and!; [done|done|]. intros pre line post E. exfalso.
    rewrite Forall_forall in Hn1. apply (Hn1 (stdin_line, line)); [rewrite E; set_solver|done]. }
  rewrite eff_bind_run.
  destruct (hide_echo_spec system before Hok hidden (h ++ pre1)) as (terminal & c2 & -> & Hh & Hn2 & Hnone).
  rewrite eff_bind_run. destruct (read_line_run system ((h ++ pre1) ++ c2)) as [r ->].
  set (line := system _ stdin_line). rewrite eff_bind_run.
  destruct (restore_echo_spec system before Hok hidden (h ++ pre1) _ (((h ++ pre1) ++ c2) ++ [(stdin_line, line)]) terminal Hh)
    as (c3 & -> & Hn3 & Ha3); [by rewrite attributes_app|].
  set (h4 := (((h ++ pre1) ++ c2) ++ [(stdin_line, line)]) ++ c3) in *.
  assert (exists r', (result ← of_io r; let '(count, input) := result in
     if count =? 0 then fail_with (new_error UnexpectedEof "login input ended") else mret (trim_end_by is_line_end input))
     h4 = (r', h4)) as [r' Er].
  { destruct r as [[count input]|e]; [|by eexists]. rewrite eff_of_ok. destruct (count =? 0); by eexists. }
  assert (h4 = h ++ ((pre1 ++ c2) ++ (stdin_line, line) :: c3)) as Eh by (unfold h4; by rewrite <-!app_assoc).
  exists r', ((pre1 ++ c2) ++ (stdin_line, line) :: c3). rewrite <-Eh. split; [exact Er|]. split; [congruence|].
  intros pre line' post Ep.
  apply (split_unique reads_line) in Ep; [|by apply Forall_app|done|done]. subst pre. rewrite app_assoc.
  destruct hidden.
  - destruct terminal as [original|]; [left; apply Hh|]. right. apply Exists_app. right. by apply Hnone.
  - destruct terminal as [original|]; [by destruct Hh as (_ & _ & ?)|]. cbn in Hh. congruence.
Qed.

Lemma trim_start_by_spec P s : exists start, s = start ++ trim_start_by P s /\ Forall (fun c => P c = true) start.
Proof.
  induction s as [|c s (start & E & Hs)]; [by exists []|]. cbn. destruct (P c) eqn:Hc; [|by exists []].
  exists (c :: start). split; [cbn; by f_equal|by constructor].
Qed.

Lemma trim_end_by_spec P s : exists ending, s = trim_end_by P s ++ ending /\ Forall (fun c => P c = true) ending.
Proof.
  destruct (trim_start_by_spec P (reverse s)) as (start & E & Hs). exists (reverse start). split; [|by apply Forall_reverse].
  unfold trim_end_by. by rewrite <-reverse_app, <-E, reverse_involutive.
Qed.

(** A typed line loses its line end and nothing else; the end of the input is an error. *)
Theorem login_field_is_line system prompt hidden h text h' :
  read_login_field system prompt hidden h = (Ok text, h') ->
  exists line ending, (stdin_line, line) ∈ h' /\ from_utf8 (out line) = Some (text ++ ending) /\
    0 < ret line /\ Forall (fun c => is_line_end c = true) ending.
Proof.
  unfold read_login_field. intros E. next_effect E u1 h1 H1. next_effect E u2 h2 H2. next_effect E terminal h3 H3.
  next_effect E res h4 H4. next_effect E u5 h5 H5. next_effect E r h6 H6.
  unfold outcome_of in H4. destruct (read_line system h3) as [r0 h4'] eqn:Er. injection H4 as <- <-.
  destruct r0 as [[count input]|error]; [|done]. injection H6 as <- <-.
  destruct (Z.eqb_spec count 0); [done|]. injection E as <- <-.
  next_effect Er line h7 H7. apply checked_Ok in H7 as (Hl & Hpos & ->).
  destruct (from_utf8 (out line)) as [input'|] eqn:Hu; [|done]. injection Er as <- <- <-.
  assert (exists c, h5 = (h3 ++ [(stdin_line, line)]) ++ c) as [c ->].
  { destruct terminal as [original|]; [|injection H5 as <-; exists []; by rewrite app_nil_r].
    unfold restore_echo in H5. rewrite eff_bind_run in H5. unfold ignore in H5. rewrite !perform_run in H5.
    injection H5 as _ <-. rewrite <-app_assoc. eauto. }
  destruct (trim_end_by_spec is_line_end input') as (ending & Es & Hend).
  exists line, ending. split_and!; [set_solver|by rewrite Hu, Es at 1|lia|done].
Qed.

(** The cached login over the terminal is the cached login over the lines it gives. *)
Theorem ask_login_refines system cache h :
  exists prompts, (ask_login system cache h).1 =
    match cached_login cache prompts with
    | (Ok credentials, cache, _) => Ok (credentials, cache)
    | (Err error, _, _) => Err error
    end /\
  (prompts = [] \/
   exists h1, prompts = [(read_login_field system (str "Login ID: ") false h).1;
                         (read_login_field system (str "Password: ") true h1).1]).
Proof.
  destruct cache as [credentials|]; [exists []; split; [done|by left]|]. unfold ask_login. rewrite eff_bind_run.
  destruct (read_login_field system (str "Login ID: ") false h) as [r1 h1] eqn:E1.
  exists [r1; (read_login_field system (str "Password: ") true h1).1]. split; [|right; by exists h1].
  destruct r1 as [id|error]; [|done]. rewrite eff_bind_run.
  destruct (read_login_field system _ true h1) as [[password|error] h2]; [|done]. cbn.
  by destruct (make_login_credentials id password).
Qed.

(** ** Witnesses *)

(** A terminal on which a password is typed. *)
Definition typing (h : history) (c : call) : answer :=
  match c with
  | term_getattr => answering 0 (attributes [0x8a3b; 1] h)
  | stdin_line => answering 7 (bytes "secret" ++ [10])
  | _ => answering 0 []
  end.

Lemma typing_ok : terminal_ok [0x8a3b; 1] typing.
Proof. by split. Qed.

Lemma login_echo_restored_witness :
  exists r calls, read_login_field typing (str "Password: ") true [] = (r, [] ++ calls) /\
    attributes [0x8a3b; 1] ([] ++ calls) = attributes [0x8a3b; 1] [] /\
    forall pre line post, calls = pre ++ (stdin_line, line) :: post ->
      if true then echo_off (attributes [0x8a3b; 1] ([] ++ pre)) \/
                   Exists (fun '(c, a) => (c = term_getattr \/ exists t, c = term_setattr t) /\ ret a <> 0) pre
      else attributes [0x8a3b; 1] ([] ++ pre) = attributes [0x8a3b; 1] [].
Proof. apply (login_echo_restored [0x8a3b; 1] typing (str "Password: ") true []). exact typing_ok. Defined.

Lemma login_field_is_line_witness :
  exists line ending, (stdin_line, line) ∈ (read_login_field typing (str "Password: ") true []).2 /\
    from_utf8 (out line) = Some (str "secret" ++ ending) /\ 0 < ret line /\
    Forall (fun c => is_line_end c = true) ending.
Proof. apply (login_field_is_line typing (str "Password: ") true [] (str "secret")). vm_compute. reflexivity. Defined.
