(* ===== verification/ClientLoop.v ===== *)
(** * The client's established connection

    Models the rest of [src/client/mod.rs] — the keepalive and liveness rules and the loop of
    [run_connection], and the reconnection loop of [run_with_login] — and the loops of the
    client's worker threads in [src/client/]. Each worker's turn is a function of the objects
    the threads share; a turn that holds the front of a queue during a system call is split
    at that call, so that other threads can push meanwhile. The diagnostic counters are left
    out. *)

From S2P Require Import Prelude Text Net Queue DtlsApi Session.

Local Open Scope Z_scope.

(** ** Liveness *)
Definition SERVER_LIVENESS_TIMEOUT : Duration := from_secs 23.
Definition HEALTH_PROBE_INTERVAL : Duration := from_secs 20.
Definition HEALTH_PROBE_RETRY_INTERVAL : Duration := from_secs 1.
Definition RETRY_DELAY : Duration := from_secs 3.
Definition QUEUE_CAPACITY : nat := 512.

Definition effective_keepalive_interval (configured : Duration) : Duration :=
  Z.min configured HEALTH_PROBE_INTERVAL.

Definition reconnect_delay (error : io_error) : Duration :=
  if decide (kind error = TimedOut) then 0 else RETRY_DELAY.

(** The local variables of [run_connection]'s loop. *)
Record Health := { last_keepalive : Instant; last_probe : Instant; probing : bool }.

#[export] Instance eta_Health : Eta Health := fun h =>
  {| last_keepalive := last_keepalive h; last_probe := last_probe h; probing := probing h |}.

(** The decision of one turn at [now], when the server was last heard at [activity]: the
    server is given up ([None]), or a keepalive is to be sent or not. *)
Definition health_turn (keepalive_interval : Duration) (activity now : Instant) (h : Health)
    : option (bool * Health) :=
  let server_idle := elapsed now activity in
  if SERVER_LIVENESS_TIMEOUT <=? server_idle then None
  else
    let h := if server_idle <? HEALTH_PROBE_INTERVAL then h <| probing := false |> else h in
    let probe_due := (HEALTH_PROBE_INTERVAL <=? server_idle)
                     && (negb (probing h) || (HEALTH_PROBE_RETRY_INTERVAL <=? elapsed now (last_probe h))) in
    let keepalive_due := negb (probing h) && (keepalive_interval <=? elapsed now (last_keepalive h)) in
    if probe_due || keepalive_due then
      let h := h <| last_keepalive := now |> in
      Some (true, if probe_due then h <| probing := true |> <| last_probe := now |> else h)
    else Some (false, h).

(** ** What the client's threads share *)
Record Client (D : Type) := {
  running : bool;                     (** [RUNNING] *)
  active : bool;
  errors : list io_error;             (** the error channel *)
  encrypted_rx : Queue Packet;
  raw_tx : Queue Packet;
  tun_write : Queue Packet;
  enc_tx : Queue EncryptedDatagram;
  udp_write_progress : Z;
  dtls_progress : Z;
  session : D;
  last_server_activity : Instant;
  encrypted_drops : Z;
  plain_drops : Z;
  clock : Instant;                    (** what [Instant::now] reads in this step *)
}.
Arguments running {D} _.
Arguments active {D} _.
Arguments errors {D} _.
Arguments encrypted_rx {D} _.
Arguments raw_tx {D} _.
Arguments tun_write {D} _.
Arguments enc_tx {D} _.
Arguments udp_write_progress {D} _.
Arguments dtls_progress {D} _.
Arguments session {D} _.
Arguments last_server_activity {D} _.
Arguments encrypted_drops {D} _.
Arguments plain_drops {D} _.
Arguments clock {D} _.

#[export] Instance eta_Client D : Eta (Client D) := fun c =>
  {| running := running c; active := active c; errors := errors c; encrypted_rx := encrypted_rx c; raw_tx := raw_tx c;
     tun_write := tun_write c; enc_tx := enc_tx c; udp_write_progress := udp_write_progress c;
     dtls_progress := dtls_progress c; session := session c;
     last_server_activity := last_server_activity c; encrypted_drops := encrypted_drops c;
     plain_drops := plain_drops c; clock := clock c |}.

(** [ClientQueues::new], in the order of its fields. *)
Definition client_queue {T} : io (Queue T) :=
  map_err (fun _ => other "queue capacity must be greater than zero") (queue_new QUEUE_CAPACITY).

Definition client_queues_new : io (Queue Packet * Queue Packet * Queue Packet * Queue EncryptedDatagram) :=
  encrypted_rx ← client_queue;
  raw_tx ← client_queue;
  tun_write ← client_queue;
  enc_tx ← client_queue;
  Ok (encrypted_rx, raw_tx, tun_write, enc_tx).

(** How a worker's turn ends: the loop goes on, goes on once [dtls_progress] has left the
    observed value, or is over. *)
Inductive turn_end := GoOn | WaitProgress (observed : Z) | Over.

Section workers.
Context {D : Type} `{DtlsSession D}.
Implicit Types (c : Client D).

Definition notify c : Client D := c <| dtls_progress ::= fun g => wrapping_add_u64 g 1 |>.

(** The condition of every worker's loop. *)
Definition alive c : bool := running c && active c.

(** [active.store(false)] and then [errors.send(error)]. *)
Definition fail (error : io_error) c : Client D := c <| active := false |> <| errors ::= fun l => l ++ [error] |>.

(** An operation on the session, which sends through the client's queue. *)
Definition with_session {A} (op : dtls_op D A) c : A * Client D :=
  let '(a, d, o) := op (clock c) (session c) {| tx := enc_tx c; signal := udp_write_progress c |} in
  (a, c <| session := d |> <| enc_tx := tx o |> <| udp_write_progress := signal o |>).

(** *** [client/udp_read.rs]: the loop over [socket.recv] after the socket was ready. *)
Fixpoint udp_read_loop (answers : list (io Packet)) c : turn_end * Client D :=
  match answers with
  | [] => (GoOn, c)
  | Ok packet :: answers =>
      match push packet (encrypted_rx c) with
      | (Ok dropped, queue) =>
          let c := c <| encrypted_rx := queue |> in
          let c := if dropped is Some _ then c <| encrypted_drops ::= fun n => wrapping_add_u64 n 1 |> else c in
          udp_read_loop answers (notify c)
      | (Err _, queue) => (Over, c <| encrypted_rx := queue |>)
      end
  | Err error :: answers =>
      if decide (kind error = WouldBlock) then (GoOn, c)
      else if decide (kind error = Interrupted) then udp_read_loop answers c
      else (Over, fail error c <| encrypted_rx ::= close |>)
  end.

Definition udp_read_turn (ready : io bool) (answers : list (io Packet)) c : turn_end * Client D :=
  match ready with
  | Ok false => (GoOn, c)
  | Ok true => udp_read_loop answers c
  | Err error => (Over, fail error c <| encrypted_rx ::= close |>)
  end.

(** *** [client/tun_read.rs]: [polled] is [None] when the poll times out. *)
Definition tun_read_turn (polled : option (io unit)) (read : io Packet) c : turn_end * Client D :=
  match polled with
  | None => (GoOn, c)
  | Some (Err error) =>
      if decide (kind error = Interrupted) then (GoOn, c)
      else (Over, fail error c <| raw_tx ::= close |>)
  | Some (Ok _) =>
      match read with
      | Ok [] => (GoOn, c)
      | Ok packet =>
          match push packet (raw_tx c) with
          | (Ok (Some _), queue) =>
              (GoOn, c <| raw_tx := queue |> <| plain_drops ::= fun n => wrapping_add_u64 n 1 |>)
          | (Ok None, queue) => (GoOn, c <| raw_tx := queue |>)
          | (Err _, queue) => (Over, c <| raw_tx := queue |>)
          end
      | Err error =>
          if decide (kind error = WouldBlock \/ kind error = Interrupted) then (GoOn, c)
          else (Over, fail error c <| raw_tx ::= close |>)
      end
  end.

(** *** [client/encrypt.rs]: whether the worker removes the packet it holds. *)
Definition encrypt_process (packet : Packet) c : bool * Client D :=
  if negb (active c) then (true, c)
  else
    let '(r, c) := with_session (write_status packet) c in
    match panic_gate (str "client DTLS write worker") r with
    | Ok (Complete _) => (true, c)
    | Ok WantRead | Ok WantWrite => (false, c)
    | Err error => (true, fail error c <| encrypted_rx ::= close |>)
    end.

(** *** [client/decrypt.rs] *)
Record DecryptLocal := { pending : option Packet; drain : bool }.

(** What a turn does to datagrams and packets, in order. *)
Inductive event :=
| Took (datagram : Packet)      (** off the receive queue *)
| Injected (datagram : Packet)  (** accepted by the session *)
| Read (packet : Packet)        (** decrypted *)
| Queued (packet : Packet).     (** to the TUN writer *)

(** The part of a turn that reads: [None] goes on to the datagrams. *)
Definition decrypt_read (observed : Z) (l : DecryptLocal) c
    : list event * option turn_end * DecryptLocal * Client D :=
  if negb (drain l) then ([], None, l, c)
  else
    let '(r, c) := with_session (read_status 2048) c in
    match panic_gate (str "client DTLS read worker") r with
    | Ok (Complete ((_ :: _) as plain)) =>
        let c := c <| last_server_activity := clock c |> in
        if is_keepalive_packet plain then ([Read plain], Some GoOn, l, c)
        else if ipv4_packet_addresses plain is Some _ then
          match push plain (tun_write c) with
          | (Ok _, queue) => ([Read plain; Queued plain], Some GoOn, l, c <| tun_write := queue |>)
          | (Err _, queue) => ([Read plain], Some Over, l, c <| tun_write := queue |>)
          end
        else ([Read plain], Some GoOn, l, c)
    | Ok WantRead | Ok (Complete []) => ([], None, {| pending := pending l; drain := false |}, notify c)
    | Ok WantWrite => ([], Some (WaitProgress observed), l, c)
    | Err error => ([], Some Over, l, fail error c)
    end.

(** The datagram the turn works on. *)
Definition decrypt_next (observed : Z) (l : DecryptLocal) c
    : list event * result turn_end Packet * Client D :=
  match pending l with
  | Some packet => ([], Ok packet, c)
  | None =>
      match try_pop (encrypted_rx c) with
      | (Ok packet, queue) => ([Took packet], Ok packet, c <| encrypted_rx := queue |>)
      | (Err Closed, queue) => ([], Err Over, c <| encrypted_rx := queue |>)
      | (Err Empty, queue) => ([], Err (WaitProgress observed), c <| encrypted_rx := queue |>)
      end
  end.

Definition decrypt_inject (packet : Packet) (draining : bool) c : list event * turn_end * DecryptLocal * Client D :=
  match with_session (inject packet) c with
  | (Ok true, c) => ([Injected packet], GoOn, {| pending := None; drain := true |}, c)
  | (Ok false, c) => ([], GoOn, {| pending := Some packet; drain := true |}, c)
  | (Err error, c) => ([], Over, {| pending := Some packet; drain := draining |}, fail error c)
  end.

Definition decrypt_turn (l : DecryptLocal) c : list event * turn_end * DecryptLocal * Client D :=
  if negb (alive c) then ([], Over, l, c)
  else
    let observed := dtls_progress c in
    let '(es1, e, l, c) := decrypt_read observed l c in
    match e with
    | Some e => (es1, e, l, c)
    | None =>
        let '(es2, next, c) := decrypt_next observed l c in
        match next with
        | Err e => (es1 ++ es2, e, l, c)
        | Ok packet =>
            let '(es3, e, l, c) := decrypt_inject packet (drain l) c in
            (es1 ++ es2 ++ es3, e, l, c)
        end
    end.

(** *** [client/tun_write.rs] and [client/udp_write.rs]: the turn up to the system call,
    which reserves the front of the queue, and what follows the call's answer. *)
Definition writer_begin {T} (alive : bool) (q : Queue T)
    : option (result turn_end (QueueFront T) * Queue T) :=
  if negb alive then Some (Err Over, q)
  else
    match peek q with
    | None => None
    | Some (None, q) => Some (Err Over, q)
    | Some (Some front, q) => Some (Ok front, q)
    end.

(** The second look at the flags, with the front reserved. *)
Definition writer_checked {T} (alive : bool) (front : QueueFront T) (q : Queue T)
    : result turn_end (QueueFront T) * Queue T :=
  if alive then (Ok front, q) else (Err Over, front_drop front q).

Definition tun_write_end (front : QueueFront Packet) (answer : io Z) c : turn_end * Client D :=
  match answer with
  | Ok written =>
      if written =? Z.of_nat (length (front_value front)) then (GoOn, c)
      else (Over, fail (Custom WriteZero
                          (str "partial TUN write: " ++ display_uint written ++ str "/"
                           ++ display_uint (Z.of_nat (length (front_value front))) ++ str " bytes")) c
                    <| tun_write ::= front_drop front |>)
  | Err error =>
      if decide (kind error = Interrupted \/ kind error = WouldBlock)
      then (GoOn, c <| tun_write ::= front_drop front |>)
      else (Over, fail error c <| tun_write ::= front_drop front |>)
  end.

Definition udp_write_end (front : QueueFront EncryptedDatagram) (answer : io Z) c : turn_end * Client D :=
  let len := Z.of_nat (length (dg_bytes (front_value front))) in
  if from_secs 2 <=? elapsed (clock c) (enqueued_at (front_value front)) then (GoOn, notify c)
  else
    match answer with
    | Ok written =>
        if written =? len then (GoOn, notify c)
        else (Over, fail (Custom WriteZero
                            (str "partial UDP datagram write: " ++ display_uint written ++ str "/"
                             ++ display_uint len ++ str " bytes")) c <| enc_tx ::= front_drop front |>)
    | Err error =>
        if decide (kind error = Interrupted \/ kind error = WouldBlock)
        then (GoOn, c <| enc_tx ::= front_drop front |>)
        else (Over, fail error c <| enc_tx ::= front_drop front |>)
    end.
End workers.

(** ** The loop of [run_connection] and the errors of its workers *)

(** A worker that fails clears [active] and then sends its error: two steps, between which
    the supervisor runs on. *)
Inductive worker := Works | Failing (error : io_error) | Failed (error : io_error).

(** Where the supervisor is: at the loop's condition, waiting for an error in the body, or
    done. *)
Inductive supervisor := AtCondition | InBody | Returned (r : io unit).

Record Connection := {
  conn_running : bool;
  conn_active : bool;
  conn_errors : list io_error;
  conn_worker : worker;
  conn_supervisor : supervisor;
}.

#[export] Instance eta_Connection : Eta Connection := fun s =>
  {| conn_running := conn_running s; conn_active := conn_active s; conn_errors := conn_errors s;
     conn_worker := conn_worker s; conn_supervisor := conn_supervisor s |}.

Definition timed_out : io_error := new_error TimedOut "server did not respond to keepalive".

Inductive conn_step : Connection -> Connection -> Prop :=
| worker_clears s error :
    conn_worker s = Works ->
    conn_step s (s <| conn_worker := Failing error |> <| conn_active := false |>)
| worker_sends s error :
    conn_worker s = Failing error ->
    conn_step s (s <| conn_worker := Failed error |> <| conn_errors ::= fun l => l ++ [error] |>)
| shutdown s : conn_step s (s <| conn_running := false |>)
| supervisor_enters s :
    conn_supervisor s = AtCondition -> conn_running s && conn_active s = true ->
    conn_step s (s <| conn_supervisor := InBody |>)
| supervisor_leaves s :
    conn_supervisor s = AtCondition -> conn_running s && conn_active s = false ->
    conn_step s (s <| conn_supervisor := Returned (Ok tt) |>)
| supervisor_gives_up s :
    conn_supervisor s = InBody ->
    conn_step s (s <| conn_supervisor := Returned (Err timed_out) |>)
| supervisor_receives s error rest :
    conn_supervisor s = InBody -> conn_errors s = error :: rest ->
    conn_step s (s <| conn_supervisor := Returned (Err error) |> <| conn_errors := rest |>)
| supervisor_waited s :
    conn_supervisor s = InBody -> conn_errors s = [] ->
    conn_step s (s <| conn_supervisor := AtCondition |>).

Definition connected_now : Connection :=
  {| conn_running := true; conn_active := true; conn_errors := []; conn_worker := Works;
     conn_supervisor := AtCondition |}.

(** ** The loop of [run_with_login]: what [RUNNING] is before each attempt and how the
    attempt ends; the delays slept, and the result, [None] while the loop still runs. *)
Fixpoint reconnect_loop (attempts : list (bool * io unit)) : list Duration * option (io unit) :=
  match attempts with
  | [] => ([], None)
  | (false, _) :: _ => ([], Some (Ok tt))
  | (true, Ok _) :: _ => ([], Some (Ok tt))
  | (true, Err error) :: attempts =>
      if decide (kind error = PermissionDenied) then ([], Some (Err error))
      else
        let delay := reconnect_delay error in
        let '(sleeps, r) := reconnect_loop attempts in
        (if delay =? 0 then sleeps else delay :: sleeps, r)
  end.

(** ** Lemmas: the decrypt worker *)

Definition takes (es : list event) : list Packet :=
  omap (fun e => match e with Took p => Some p | _ => None end) es.
Definition injections (es : list event) : list Packet :=
  omap (fun e => match e with Injected p => Some p | _ => None end) es.
Definition reads (es : list event) : list Packet :=
  omap (fun e => match e with Read p => Some p | _ => None end) es.
Definition queued (es : list event) : list Packet :=
  omap (fun e => match e with Queued p => Some p | _ => None end) es.

(** What goes to the TUN device. *)
Definition forwardable (p : Packet) : bool :=
  negb (is_keepalive_packet p) && bool_decide (is_Some (ipv4_packet_addresses p)).

Section decrypt_runs.
Context {D : Type} `{DtlsSession D}.

(** The worker's turns, with whatever the other threads make of the shared objects in
    between; the flag tells whether the loop is still running. *)
Inductive decrypt_run : list event -> bool -> DecryptLocal -> Prop :=
| run_start : decrypt_run [] true {| pending := None; drain := false |}
| run_turn es l (c : Client D) es' e l' c' :
    decrypt_run es true l -> decrypt_turn l c = (es', e, l', c') ->
    decrypt_run (es ++ es') (if e is Over then false else true) l'.

Lemma decrypt_read_spec observed l (c : Client D) es e l' c' :
  decrypt_read observed l c = (es, e, l', c') ->
  takes es = [] /\ injections es = [] /\ pending l' = pending l /\
  queued es `prefix_of` retain forwardable (reads es) /\
  (e <> Some Over -> queued es = retain forwardable (reads es)).
Proof.
  unfold decrypt_read, forwardable, retain. destruct (drain l); cbn [negb]; [|by intros [= <- <- <- <-]].
  destruct (with_session _ c) as [r c1]. destruct (panic_gate _ r) as [[[|b p]| |]|error].
  - by intros [= <- <- <- <-].
  - set (plain := b :: p). destruct (is_keepalive_packet plain) eqn:Hk.
    { intros [= <- <- <- <-]. cbn [takes injections reads queued omap list_omap].
      rewrite filter_cons, Hk. cbn [negb andb]. rewrite decide_False by auto. split_and!; done. }
    destruct (ipv4_packet_addresses plain) as [a|] eqn:Ha.
    + destruct (push plain _) as [[?|?] q]; intros [= <- <- <- <-];
        cbn [takes injections reads queued omap list_omap];
        rewrite filter_cons, Hk, Ha, bool_decide_eq_true_2 by eauto; cbn [negb andb];
        rewrite decide_True by done; split_and!; try done. by apply prefix_nil.
    + intros [= <- <- <- <-]. cbn [takes injections reads queued omap list_omap].
      rewrite filter_cons, Hk, Ha, bool_decide_eq_false_2 by (intros [? ?]; done). cbn [negb andb].
      rewrite decide_False by auto. split_and!; done.
  - by intros [= <- <- <- <-].
  - by intros [= <- <- <- <-].
  - intros [= <- <- <- <-]. split_and!; try done.
Qed.

Lemma decrypt_next_spec observed l (c : Client D) es r c' :
  decrypt_next observed l c = (es, r, c') ->
  injections es = [] /\ reads es = [] /\ queued es = [] /\
  match r with
  | Ok p => option_list (pending l) ++ takes es = [p]
  | Err e => takes es = [] /\ pending l = None
  end.
Proof.
  unfold decrypt_next. destruct (pending l) as [p|]; [by intros [= <- <- <-]|].
  by destruct (try_pop _) as [[p|[|]] q]; intros [= <- <- <-].
Qed.

Lemma decrypt_inject_spec p b (c : Client D) es e l' c' :
  decrypt_inject p b c = (es, e, l', c') ->
  takes es = [] /\ reads es = [] /\ queued es = [] /\ [p] = injections es ++ option_list (pending l').
Proof.
  unfold decrypt_inject. by destruct (with_session _ c) as [[[|]|error] c1]; intros [= <- <- <- <-].
Qed.

Lemma decrypt_turn_spec l (c : Client D) es e l' c' :
  decrypt_turn l c = (es, e, l', c') ->
  option_list (pending l) ++ takes es = injections es ++ option_list (pending l') /\
  queued es `prefix_of` retain forwardable (reads es) /\
  (e <> Over -> queued es = retain forwardable (reads es)).
Proof.
  unfold decrypt_turn. destruct (negb _).
  { intros [= <- <- <- <-]. cbn. by rewrite (right_id_L [] (++)). }
  destruct (decrypt_read _ l c) as [[[es1 e1] l1] c1] eqn:Hr.
  destruct (decrypt_read_spec _ _ _ _ _ _ _ Hr) as (H1 & H2 & H3 & H4 & H5). destruct e1 as [e1|].
  { intros [= <- <- <- <-]. rewrite H1, H2, H3, (right_id_L [] (++)). split_and!; [done|done|].
    intros He. apply H5. congruence. }
  specialize (H5 ltac:(done)).
  destruct (decrypt_next _ l1 c1) as [[es2 next] c2] eqn:Hn.
  destruct (decrypt_next_spec _ _ _ _ _ _ Hn) as (N1 & N2 & N3 & N4).
  destruct next as [p|e2].
  - destruct (decrypt_inject p _ c2) as [[[es3 e3] l3] c3] eqn:Hi.
    destruct (decrypt_inject_spec _ _ _ _ _ _ _ Hi) as (I1 & I2 & I3 & I4).
    intros [= <- <- <- <-]. unfold takes, injections, reads, queued in *. rewrite !omap_app.
    rewrite H1, H2, N1, N2, N3, I1, I2, I3, H5, !(right_id_L [] (++)), <-H3. cbn [app]. rewrite N4, <-I4. done.
  - destruct N4 as [N4 N5]. intros [= <- <- <- <-]. unfold takes, injections, reads, queued in *. rewrite !omap_app.
    rewrite H1, H2, N1, N2, N3, N4, H5, !(right_id_L [] (++)), <-H3, N5. done.
Qed.
End decrypt_runs.

(** ** Lemmas: the supervisor *)

Definition worker_error (w : worker) : option io_error :=
  match w with Works => None | Failing e | Failed e => Some e end.

(** What is known of a connection's states. *)
Record conn_inv (s : Connection) : Prop := {
  inv_active : conn_active s = bool_decide (worker_error (conn_worker s) = None);
  inv_errors : forall e, e ∈ conn_errors s -> worker_error (conn_worker s) = Some e;
  inv_result : forall r, conn_supervisor s = Returned r ->
    match r with
    | Ok _ => conn_running s = false \/ is_Some (worker_error (conn_worker s))
    | Err e => e = timed_out \/ worker_error (conn_worker s) = Some e
    end;
}.

Lemma conn_step_inv s s' : conn_inv s -> conn_step s s' -> conn_inv s'.
Proof.
  intros [Ha He Hr] Hstep.
  destruct Hstep as [s error Hw|s error Hw|s|s Hp Hc|s Hp Hc|s Hp|s error rest Hp Hq|s Hp Hq];
    split; cbn in *; rewrite ?Hw in *; cbn in *; try done.
  - intros e Hin. by specialize (He e Hin).
  - intros [?|e] Hret; [by right|]. destruct (Hr _ Hret) as [|[=]]. by left.
  - intros e [Hin|Hin%list_elem_of_singleton]%elem_of_app; [by apply He|congruence].
  - intros [?|e] Hret; specialize (Hr _ Hret); cbn in Hr; [by left|done].
  - intros r [= <-]. rewrite Ha in Hc. destruct (conn_running s); [right|by left].
    cbn in Hc. apply bool_decide_eq_false in Hc. by apply not_eq_None_Some.
  - intros r [= <-]. by left.
  - intros e Hin. apply He. rewrite Hq. by right.
  - intros r [= <-]. right. apply He. rewrite Hq. by left.
Qed.

Lemma conn_reachable_inv s : rtc conn_step connected_now s -> conn_inv s.
Proof.
  assert (forall s1 s2, rtc conn_step s1 s2 -> conn_inv s1 -> conn_inv s2) as Hall
    by (induction 1; eauto using conn_step_inv).
  intros Hr. apply (Hall _ _ Hr). split; cbn; [done|by intros e ?%elem_of_nil|done].
Qed.

(** ** Lemmas: liveness *)

(** The supervisor's turns at the instants [ts] while the server, last heard at [activity],
    stays silent: whether it is given up, and when keepalives were sent. *)
Fixpoint silent_run (interval : Duration) (activity : Instant) (ts : list Instant) (h : Health)
    (sent : list Instant) : bool * list Instant :=
  match ts with
  | [] => (false, sent)
  | t :: ts =>
      match health_turn interval activity t h with
      | None => (true, sent)
      | Some (send, h) => silent_run interval activity ts h (if send then sent ++ [t] else sent)
      end
  end.

(** Instants in order, each at most [gap] after the one before. *)
Fixpoint paced (gap : Duration) (start : Instant) (ts : list Instant) : Prop :=
  match ts with
  | [] => True
  | t :: ts => start <= t <= start + gap /\ paced gap t ts
  end.

Lemma silent_run_sent interval activity ts h sent x :
  x ∈ sent -> x ∈ (silent_run interval activity ts h sent).2.
Proof.
  revert h sent. induction ts as [|t ts IH]; intros h sent Hx; cbn; [done|].
  destruct (health_turn _ _ t h) as [[send h']|]; [|done]. apply IH. destruct send; [|done].
  apply elem_of_app. by left.
Qed.

(** While it is probing, the last probe was sent less than a second ago. *)
Lemma probing_run interval activity gap start ts h sent sent' :
  0 <= gap <= from_secs 1 -> paced gap start ts ->
  activity + from_secs 20 <= start < activity + from_secs 23 ->
  probing h = true -> start - last_probe h < from_secs 1 -> last_probe h <= start -> last_probe h ∈ sent ->
  silent_run interval activity ts h sent = (true, sent') ->
  exists p, p ∈ sent' /\ activity + from_secs 22 - gap < p < activity + from_secs 23.
Proof.
  intros Hg. revert start h sent. induction ts as [|t ts IH]; intros start h sent Hp Hs Hpr Hl Hle Hin; [done|].
  cbn [silent_run paced] in *. destruct Hp as [Ht Hp].
  unfold health_turn, SERVER_LIVENESS_TIMEOUT, HEALTH_PROBE_INTERVAL, HEALTH_PROBE_RETRY_INTERVAL,
    elapsed, saturating_duration_since, from_secs in *.
  destruct (Z.leb_spec (23 * 1000000000) (Z.max 0 (t - activity))).
  - intros [= <-]. exists (last_probe h). split; [done|lia].
  - destruct (Z.ltb_spec (Z.max 0 (t - activity)) (20 * 1000000000)); [lia|].
    destruct (Z.leb_spec (20 * 1000000000) (Z.max 0 (t - activity))); [|lia].
    rewrite Hpr. cbn [andb orb negb]. rewrite orb_false_r.
    destruct (Z.leb_spec (1 * 1000000000) (Z.max 0 (t - last_probe h))).
    + apply (IH t); cbn; try done; try lia. apply elem_of_app. right. by left.
    + apply (IH t); cbn; try done; lia.
Qed.

(** ** Properties *)

(** C24: A server is not given up unheard. Whenever the client's turns are at most [gap] apart
    (the loop waits a tenth of a second) and a silent server is given up, a keepalive was sent
    within [gap] of the 20th second of silence and another one in the last second (plus [gap])
    before the 23rd, which are different probes for any [gap] under a second. *)
Theorem silent_server_probed interval activity gap start ts h sent :
  0 <= gap < from_secs 1 -> paced gap start ts ->
  activity <= start < activity + from_secs 20 -> probing h = false ->
  silent_run interval activity ts h [] = (true, sent) ->
  exists first last, first ∈ sent /\ last ∈ sent /\ first < last /\
    activity + from_secs 20 <= first <= activity + from_secs 20 + gap /\
    activity + from_secs 22 - gap < last < activity + from_secs 23.
Proof.
  intros Hg. generalize (@nil Instant). revert start h. 
  induction ts as [|t ts IH]; intros start h acc Hp Hs Hpr; [done|].
  cbn [silent_run paced] in *. destruct Hp as [Ht Hp].
  destruct (health_turn interval activity t h) as [[send h']|] eqn:Hh;
    unfold health_turn, SERVER_LIVENESS_TIMEOUT, HEALTH_PROBE_INTERVAL, HEALTH_PROBE_RETRY_INTERVAL,
      elapsed, saturating_duration_since, from_secs in *;
    (destruct (Z.leb_spec (23 * 1000000000) (Z.max 0 (t - activity))) as [Hlive|Hlive]; [lia|]);
    [|by destruct (_ || _) in Hh].
  destruct (Z.ltb_spec (Z.max 0 (t - activity)) (20 * 1000000000)) as [Hlt|Hge].
  - destruct (Z.leb_spec (20 * 1000000000) (Z.max 0 (t - activity))); [lia|].
    cbn [andb orb negb probing set_field] in Hh.
    apply (IH t); [done|lia|]. by destruct (interval <=? _) in Hh; injection Hh as <- <-.
  - destruct (Z.leb_spec (20 * 1000000000) (Z.max 0 (t - activity))); [|lia].
    rewrite Hpr in Hh. cbn [andb orb negb] in Hh. injection Hh as <- <-. intros Hrun.
    pose proof (silent_run_sent interval activity ts (h <| last_keepalive := t |> <| probing := true |> <| last_probe := t |>)
      (acc ++ [t]) t) as Hin. cbn in Hin. rewrite Hrun in Hin. cbn [snd] in Hin.
    assert (t ∈ acc ++ [t]) as Hacc by (apply elem_of_app; right; by left).
    destruct (probing_run interval activity gap t ts (h <| last_keepalive := t |> <| probing := true |> <| last_probe := t |>)
      (acc ++ [t]) sent) as (p & Hp1 & Hp2); cbn; try done; unfold from_secs; try lia.
    exists t, p. unfold from_secs in Hp2. split_and!; try done; try lia. by apply Hin.
Qed.

(** The decrypt worker neither loses, repeats nor reorders datagrams, and only tunnel
    packets reach the TUN device. Whatever the other threads do between its turns: the
    datagrams it took off the receive queue are those the session accepted, in order, plus
    the one it still holds; and the packets given to the TUN writer are, in order, the
    decrypted ones that are well-formed IPv4 packets and no keepalives, all of them as long
    as the worker runs. *)
Theorem decrypt_worker_order {D} `{DtlsSession D} es alive l :
  decrypt_run es alive l ->
  takes es = injections es ++ option_list (pending l) /\
  queued es `prefix_of` retain forwardable (reads es) /\
  (alive = true -> queued es = retain forwardable (reads es)).
Proof.
  induction 1 as [|es l c es' e l' c' _ (IH1 & IH2 & IH3) Ht]; [done|].
  specialize (IH3 eq_refl). destruct (decrypt_turn_spec _ _ _ _ _ _ Ht) as (H1 & H2 & H3).
  unfold takes, injections, reads, queued in *. rewrite !omap_app, IH1, IH3, <-!(assoc_L (++)), H1.
  unfold retain in *. rewrite filter_app. split_and!; [done|by apply prefix_app|].
  intros Ha. f_equal. apply H3. by destruct e.
Qed.

(** How a connection ends. When [run_connection] returns an error, the server was given up
    or a worker reported that error; when it returns success, the client was told to stop or
    a worker has failed. *)
Theorem connection_result s r :
  rtc conn_step connected_now s -> conn_supervisor s = Returned r ->
  match r with
  | Ok _ => conn_running s = false \/ is_Some (worker_error (conn_worker s))
  | Err e => e = timed_out \/ worker_error (conn_worker s) = Some e
  end.
Proof. intros Hr Hret. by apply (inv_result s (conn_reachable_inv s Hr)). Qed.

(** The error of a worker can be lost: [active] is cleared before the error is sent, and the
    supervisor that looks at the flag leaves its loop without reading the channel. The
    connection then counts as ended in order, and the client exits instead of reconnecting. *)
Theorem connection_error_lost error :
  exists s, rtc conn_step connected_now s /\ conn_running s = true /\ conn_worker s = Failed error /\
    conn_errors s = [error] /\ conn_supervisor s = Returned (Ok tt) /\
    forall attempts, reconnect_loop ((conn_running s, Ok tt) :: attempts) = ([], Some (Ok tt)).
Proof.
  exists {| conn_running := true; conn_active := false; conn_errors := [error];
            conn_worker := Failed error; conn_supervisor := Returned (Ok tt) |}.
  split; [|done].
  eapply rtc_l; [by apply (worker_clears _ error)|]. cbn.
  eapply rtc_l; [by apply supervisor_leaves|]. cbn.
  eapply rtc_l; [by apply (worker_sends _ error)|]. apply rtc_refl.
Qed.

(** ** Examples *)
Definition example_client_world : Client PlainDtls := {|
  running := true; active := true; errors := [];
  encrypted_rx := queue_of QUEUE_CAPACITY [[1; 2; 3]; [4]]; raw_tx := queue_of QUEUE_CAPACITY [];
  tun_write := queue_of QUEUE_CAPACITY []; enc_tx := queue_of QUEUE_CAPACITY [];
  udp_write_progress := 0; dtls_progress := 0; session := {| inbox := []; plain_fingerprint := []; plain_source_ok := true |}; last_server_activity := 0;
  encrypted_drops := 0; plain_drops := 0; clock := 0 |}.
Definition example_turn := decrypt_turn {| pending := None; drain := false |} example_client_world.

Lemma decrypt_worker_order_witness :
  takes example_turn.1.1.1 = [[1; 2; 3]] /\
  takes example_turn.1.1.1 = injections example_turn.1.1.1 ++ option_list (pending example_turn.1.2).
Proof.
  split; [reflexivity|].
  destruct (decrypt_worker_order (D := PlainDtls) example_turn.1.1.1 true example_turn.1.2) as [Hr _];
    [|exact Hr].
  apply (run_turn [] {| pending := None; drain := false |} example_client_world example_turn.1.1.1 GoOn example_turn.1.2 example_turn.2); [apply run_start|].
  vm_compute. reflexivity.
Defined.

Definition given_up : Connection := connected_now <| conn_supervisor := Returned (Err timed_out) |>.

Lemma connection_result_witness :
  timed_out = timed_out \/ worker_error (conn_worker given_up) = Some timed_out.
Proof.
  apply (connection_result given_up (Err timed_out)).
  - eapply rtc_l; [apply supervisor_enters; reflexivity|].
    eapply rtc_l; [apply supervisor_gives_up; reflexivity|]. apply rtc_refl.
  - reflexivity.
Defined.

Definition half_seconds : list Instant := (fun n => n * 500000000) <$> seqZ 1 50.

Lemma silent_server_probed_witness :
  exists first last,
    first ∈ (silent_run (from_secs 20) 0 half_seconds {| last_keepalive := 0; last_probe := 0; probing := false |} []).2 /\
    last ∈ (silent_run (from_secs 20) 0 half_seconds {| last_keepalive := 0; last_probe := 0; probing := false |} []).2 /\
    first < last.
Proof.
  destruct (silent_server_probed (from_secs 20) 0 500000000 0 half_seconds
    {| last_keepalive := 0; last_probe := 0; probing := false |}
    (silent_run (from_secs 20) 0 half_seconds {| last_keepalive := 0; last_probe := 0; probing := false |} []).2)
    as (first & last & H1 & H2 & H3 & _).
  - split; [discriminate|reflexivity].
  - vm_compute. repeat (split; [split; discriminate|]). exact I.
  - split; [discriminate|reflexivity].
  - reflexivity.
  - vm_compute. reflexivity.
  - exists first, last. split; [exact H1|]. split; [exact H2|exact H3].
Defined.
