(* ===== verification/ClientTunnel.v ===== *)
(** * Packets through the client

    Composes the worker turns of [ClientLoop] into one step relation: the client of
    [src/client/mod.rs] with its six workers over four queues and one DTLS session, in every
    interleaving. What enters and leaves each stage is recorded, so that the client as a whole can
    be compared with its specification: two pipelines that may lose packets but neither reorder,
    repeat nor invent any. *)

From S2P Require Import Prelude Text Net Queue DtlsApi Session ClientLoop.

Local Open Scope Z_scope.

(** ** One stage *)

(** What a queue does for one consumer: of the items [pushed], in their order, some were
    [consumed], then come those the consumer has reserved, then those in the queue; and nothing
    is missing while the queue is open and was never offered more than it holds. *)
Section pipe.
Context {T : Type}.
Implicit Types (q : Queue T) (pushed consumed held : list T).

Record pipe pushed consumed held q : Prop := {
  pipe_ok : queue_ok q;
  pipe_order : consumed ++ held ++ items (state q) `sublist_of` pushed;
  pipe_all : is_closed q = false -> (length pushed <= capacity q)%nat ->
    consumed ++ held ++ items (state q) = pushed;
}.

(** What a push of these items adds. *)
Definition accepted q (l : list T) : list T := if is_closed q then [] else l.

Fixpoint push_all (l : list T) q : Queue T :=
  match l with [] => q | x :: l => push_all l (push x q).2 end.

Lemma pushes_push_all q q' : pushes q q' -> exists l, q' = push_all l q.
Proof.
  induction 1 as [q|q x q' _ [l IH]].
  - exists []. reflexivity.
  - exists (x :: l). exact IH.
Qed.

Lemma pipe_new c q : queue_new c = Ok q -> pipe [] [] [] q.
Proof. intros (Hok & Hi & _)%queue_new_ok. split; [done|by rewrite Hi|by rewrite Hi]. Qed.

Lemma pipe_push pushed consumed held q x :
  pipe pushed consumed held q -> pipe (pushed ++ accepted q [x]) consumed held (push x q).2.
Proof.
  intros [Hok Ho Ha]. unfold accepted. destruct (is_closed q) eqn:Hc in |- *.
  { rewrite push_closed, (right_id_L [] (++)) by done. by split. }
  destruct (push_open q x Hc Hok) as (d & _ & Hi & Hd & _ & Hc' & Hcap).
  split; [by apply push_ok|..].
  - transitivity (consumed ++ held ++ items (state q) ++ [x]).
    + rewrite Hi. apply sublist_app; [done|]. apply sublist_app; [done|]. by apply sublist_inserts_l.
    + rewrite !app_assoc, <-(app_assoc consumed). by apply sublist_app.
  - rewrite Hcap, length_app. cbn [length]. intros _ Hl. rewrite <-(Ha Hc) by lia.
    destruct Hd as [[-> _]|(y & -> & Hfull)]; [cbn in Hi; by rewrite <-Hi, !app_assoc|].
    rewrite <-(Ha Hc) in Hl by lia. rewrite !length_app in Hl. unfold queue_len in Hfull. lia.
Qed.

Lemma pipe_push_all l pushed consumed held q :
  pipe pushed consumed held q -> pipe (pushed ++ accepted q l) consumed held (push_all l q).
Proof.
  revert pushed q. induction l as [|x l IH]; intros pushed q Hp; cbn.
  { unfold accepted. by destruct (is_closed q); rewrite (right_id_L [] (++)). }
  pose proof (IH _ _ (pipe_push _ _ _ _ x Hp)) as H. unfold accepted in *.
  destruct (push_frame q x) as [Hc _]. rewrite Hc in H. rewrite <-app_assoc in H. by destruct (is_closed q).
Qed.

Lemma pipe_pop_front pushed consumed q x q' :
  pop_front q = (Some x, q') -> pipe pushed consumed [] q -> pipe pushed consumed [x] q'.
Proof.
  intros (Hi & Hc & Hcap & _)%pop_front_Some [(H0 & Hl & Hz) Ho Ha]. rewrite Hi in *. cbn [app] in *.
  split; [|done|by rewrite Hc, Hcap]. unfold queue_ok, queue_len in *. rewrite Hi, Hcap, Hc in *. cbn in Hl.
  split_and!; [lia|lia|]. by intros ?%Hz.
Qed.

Lemma pipe_peek pushed consumed q f q' :
  peek q = Some (Some f, q') -> pipe pushed consumed [] q -> pipe pushed consumed [item f] q'.
Proof.
  unfold peek. destruct (waits q); [done|]. destruct (is_closed q); [done|].
  destruct (pop_front q) as [[x|] q1] eqn:Hp; [|done]. intros [= <- <-]. by apply pipe_pop_front.
Qed.

Lemma pipe_consume pushed consumed x q : pipe pushed consumed [x] q -> pipe pushed (consumed ++ [x]) [] q.
Proof. intros [? Ho Ha]. split; rewrite <-?app_assoc; done. Qed.

Lemma pipe_drop pushed consumed f q : pipe pushed consumed [item f] q -> pipe pushed consumed [] (front_drop f q).
Proof.
  intros [Hok Ho Ha]. destruct (is_closed q) eqn:Hc in |- *.
  - unfold front_drop. rewrite Hc. split; [done| |congruence].
    etransitivity; [|exact Ho]. apply sublist_app; [done|]. by apply sublist_inserts_l.
  - destruct (front_drop_open q f Hc Hok) as (lost & Hi & Hd & _ & Hc' & Hcap).
    cbn [app] in *. split; cbn [app].
    + destruct Hok as (H0 & Hl & Hz). apply (f_equal length) in Hi. rewrite length_app in Hi. cbn in Hi.
      unfold queue_ok, queue_len in *. rewrite Hcap, Hc'. split_and!; [done| |done].
      destruct Hd as [[-> ?]|[(y & ->) ?]]; cbn in Hi; lia.
    + etransitivity; [|exact Ho]. rewrite Hi. apply sublist_app; [done|]. by apply sublist_inserts_r.
    + rewrite Hcap. intros _ Hl. rewrite <-(Ha Hc Hl), Hi.
      destruct Hd as [[-> _]|[_ Hfull]]; [by rewrite (right_id_L [] (++))|].
      rewrite <-(Ha Hc Hl) in Hl. rewrite length_app in Hl. cbn in Hl. unfold queue_len in Hfull. lia.
Qed.

Lemma pipe_close pushed consumed held q : pipe pushed consumed held q -> pipe pushed consumed held (close q).
Proof.
  intros [(H0 & Hl & Hz) Ho Ha]. destruct (close_spec q) as (Hc & Hcap & [[_ ->]|(_ & Hi & _)]); [by split|].
  split; [|rewrite Hi|congruence].
  - unfold queue_ok, queue_len. rewrite Hcap, Hi. cbn. split_and!; [done|lia|done].
  - etransitivity; [|exact Ho]. do 2 (apply sublist_app; [done|]). apply sublist_nil_l.
Qed.
End pipe.

Create HintDb pipe.
#[export] Hint Resolve pipe_push pipe_push_all pipe_close pipe_drop pipe_consume : pipe.

(** ** The client *)

Inductive tunnel_thread := UdpReader | TunReader | DecryptWorker | TunWriter | EncryptWorker | UdpWriter.

(** A worker that reserves the front of a queue: it has it, and has then looked at the flags again. *)
Inductive writer_at (T : Type) := Idle | Reserved (front : QueueFront T) | Calling (front : QueueFront T).
Arguments Idle {T}.
Arguments Reserved {T} _.
Arguments Calling {T} _.

Definition held {T} (w : writer_at T) : list T :=
  match w with Idle => [] | Reserved f | Calling f => [item f] end.

Inductive decrypt_at := AtCheck | AtRead (observed : Z) | AtNext (observed : Z) | AtInject (datagram : Packet) | AtWait (observed : Z).

(** What has passed each point: accepted by [raw_tx], taken off it, and sent by the session; put
    into [enc_tx] by the session, taken off it, and sent over UDP; accepted by [encrypted_rx] and
    by the session; decrypted, accepted by [tun_write], and written to the TUN device. *)
Record Log := {
  plain_in : list Packet;
  plain_taken : list Packet;
  plain_out : list Packet;
  cipher_out : list EncryptedDatagram;
  cipher_taken : list EncryptedDatagram;
  udp_out : list EncryptedDatagram;
  udp_in : list Packet;
  injected : list Packet;
  decrypted : list Packet;
  tun_in : list Packet;
  tun_out : list Packet;
}.

#[export] Instance eta_Log : Eta Log := fun g =>
  {| plain_in := plain_in g; plain_taken := plain_taken g; plain_out := plain_out g; cipher_out := cipher_out g;
     cipher_taken := cipher_taken g; udp_out := udp_out g; udp_in := udp_in g; injected := injected g;
     decrypted := decrypted g; tun_in := tun_in g; tun_out := tun_out g |}.

Definition add {A} (l' l : list A) : list A := l ++ l'.

Record Tunnel (D : Type) := {
  client : Client D;
  over : list tunnel_thread;             (** the workers that have ended *)
  receiving : bool;                      (** the UDP reader is between two [recv]s *)
  position : decrypt_at;
  local : DecryptLocal;
  encrypting : writer_at Packet;
  encrypt_stop : bool;                   (** the stop flag of the encrypt worker *)
  tun_writing : writer_at Packet;
  udp_writing : writer_at EncryptedDatagram;
  log : Log;
}.
Arguments client {D} _.
Arguments over {D} _.
Arguments receiving {D} _.
Arguments position {D} _.
Arguments local {D} _.
Arguments encrypting {D} _.
Arguments encrypt_stop {D} _.
Arguments tun_writing {D} _.
Arguments udp_writing {D} _.
Arguments log {D} _.

#[export] Instance eta_Tunnel D : Eta (Tunnel D) := fun t =>
  {| client := client t; over := over t; receiving := receiving t; position := position t; local := local t;
     encrypting := encrypting t; encrypt_stop := encrypt_stop t; tun_writing := tun_writing t;
     udp_writing := udp_writing t; log := log t |}.

Section tunnel.
Context {D : Type} `{DtlsSession D}.
Implicit Types (t : Tunnel D) (c : Client D).

Definition finish (th : tunnel_thread) (e : turn_end) t : Tunnel D :=
  if e is Over then t <| over ::= cons th |> else t.

(** Where the decrypt worker goes on after a part of its turn. *)
Definition decrypt_goes (e : turn_end) t : Tunnel D :=
  match e with
  | GoOn => t <| position := AtCheck |>
  | WaitProgress observed => t <| position := AtWait observed |>
  | Over => finish DecryptWorker Over t
  end.

(** What a turn of the TUN reader queues, if the queue is open. *)
Definition tun_packet (polled : option (io unit)) (read : io Packet) : list Packet :=
  match polled, read with Some (Ok _), Ok ((_ :: _) as packet) => [packet] | _, _ => [] end.

(** What the encrypt worker's call sends: the session took all of the packet. *)
Definition written (packet : Packet) c : list Packet :=
  if negb (active c) then []
  else
    match panic_gate (str "client DTLS write worker") (with_session (write_status packet) c).1 with
    | Ok (Complete n) => if n =? Z.of_nat (length packet) then [packet] else []
    | _ => []
    end.

Definition wrote {T} (len : T -> nat) (front : QueueFront T) (answer : io Z) : bool :=
  if answer is Ok n then n =? Z.of_nat (len (front_value front)) else false.

(** The datagram is too old to be sent. *)
Definition too_old (front : QueueFront EncryptedDatagram) c : bool :=
  from_secs 2 <=? elapsed (clock c) (enqueued_at (front_value front)).

(** Each step of a worker is one of its turn's functions; [sent] are the datagrams that the
    session's send callback pushes meanwhile. First the workers from the TUN device to the
    network: the TUN reader, the encrypt worker and the UDP writer. *)
Inductive outgoing_step t : Tunnel D -> Prop :=
| Tun_reads polled read e c :
    TunReader ∉ over t -> alive (client t) = true -> tun_read_turn polled read (client t) = (e, c) ->
    outgoing_step t (finish TunReader e (t <| client := c |>
      <| log ::= fun g => g <| plain_in ::= add (accepted (raw_tx (client t)) (tun_packet polled read)) |> |>))
| Encrypt_takes front q :
    EncryptWorker ∉ over t -> encrypt_stop t = false -> encrypting t = Idle ->
    peek (raw_tx (client t)) = Some (Some front, q) ->
    outgoing_step t (t <| client ::= fun c => c <| raw_tx := q |> |> <| encrypting := Reserved front |>)
| Encrypt_ends :
    encrypting t = Idle -> encrypt_stop t = true \/ is_closed (raw_tx (client t)) = true ->
    outgoing_step t (finish EncryptWorker Over t)
| Encrypt_checks front :
    encrypting t = Reserved front ->
    outgoing_step t (if encrypt_stop t
            then finish EncryptWorker Over (t <| client ::= fun c => c <| raw_tx ::= front_drop front |> |> <| encrypting := Idle |>)
            else t <| encrypting := Calling front |>)
| Encrypt_calls front taken c sent :
    encrypting t = Calling front -> encrypt_process (front_value front) (client t) = (taken, c) ->
    enc_tx c = push_all sent (enc_tx (client t)) ->
    outgoing_step t (t <| client := if taken then c else c <| raw_tx ::= front_drop front |> |> <| encrypting := Idle |>
      <| log ::= fun g => g <| plain_out ::= add (written (front_value front) (client t)) |>
           <| plain_taken ::= add (if taken then [front_pop front] else []) |>
           <| cipher_out ::= add (accepted (enc_tx (client t)) sent) |> |>)
| Udp_reserves r q :
    UdpWriter ∉ over t -> udp_writing t = Idle -> writer_begin (alive (client t)) (enc_tx (client t)) = Some (r, q) ->
    outgoing_step t (let t := t <| client ::= fun c => c <| enc_tx := q |> |> in
            match r with Ok front => t <| udp_writing := Reserved front |> | Err e => finish UdpWriter e t end)
| Udp_checks front r q :
    udp_writing t = Reserved front -> writer_checked (alive (client t)) front (enc_tx (client t)) = (r, q) ->
    outgoing_step t (let t := t <| client ::= fun c => c <| enc_tx := q |> |> in
            match r with
            | Ok front => t <| udp_writing := Calling front |>
            | Err e => finish UdpWriter e (t <| udp_writing := Idle |>)
            end)
| Udp_writes front answer e c :
    udp_writing t = Calling front -> udp_write_end front answer (client t) = (e, c) ->
    let sent := wrote (fun d => length (dg_bytes d)) front answer in
    outgoing_step t (finish UdpWriter e (t <| client := c |> <| udp_writing := Idle |>
      <| log ::= fun g => g
           <| udp_out ::= add (if negb (too_old front (client t)) && sent then [front_pop front] else []) |>
           <| cipher_taken ::= add (if too_old front (client t) || sent then [front_pop front] else []) |> |>)).

(** From the network to the TUN device: the UDP reader, the decrypt worker and the TUN writer. *)
Inductive incoming_step t : Tunnel D -> Prop :=
| Udp_waits ready e c :
    UdpReader ∉ over t -> receiving t = false -> alive (client t) = true ->
    udp_read_turn ready [] (client t) = (e, c) ->
    incoming_step t (finish UdpReader e (t <| client := c |> <| receiving := if ready is Ok true then true else false |>))
| Udp_receives answer e c :
    UdpReader ∉ over t -> receiving t = true -> udp_read_loop [answer] (client t) = (e, c) ->
    incoming_step t (finish UdpReader e (t <| client := c |>
      <| receiving := if answer is Err error then negb (bool_decide (kind error = WouldBlock)) else true |>
      <| log ::= fun g => g <| udp_in ::= add (if answer is Ok packet then accepted (encrypted_rx (client t)) [packet] else []) |> |>))
| Decrypt_checks :
    DecryptWorker ∉ over t -> position t = AtCheck ->
    incoming_step t (if alive (client t) then t <| position := AtRead (dtls_progress (client t)) |> else finish DecryptWorker Over t)
| Decrypt_reads observed es e l c sent :
    DecryptWorker ∉ over t -> position t = AtRead observed ->
    decrypt_read observed (local t) (client t) = (es, e, l, c) -> enc_tx c = push_all sent (enc_tx (client t)) ->
    incoming_step t (let t := t <| client := c |> <| local := l |>
              <| log ::= fun g => g <| decrypted ::= add (reads es) |> <| tun_in ::= add (queued es) |>
                   <| cipher_out ::= add (accepted (enc_tx (client t)) sent) |> |> in
            if e is Some e then decrypt_goes e t else t <| position := AtNext observed |>)
| Decrypt_takes observed es r c :
    DecryptWorker ∉ over t -> position t = AtNext observed ->
    decrypt_next observed (local t) (client t) = (es, r, c) ->
    incoming_step t (let t := t <| client := c |> in
            match r with Ok packet => t <| position := AtInject packet |> | Err e => decrypt_goes e t end)
| Decrypt_injects packet es e l c sent :
    DecryptWorker ∉ over t -> position t = AtInject packet ->
    decrypt_inject packet (drain (local t)) (client t) = (es, e, l, c) -> enc_tx c = push_all sent (enc_tx (client t)) ->
    incoming_step t (decrypt_goes e (t <| client := c |> <| local := l |> <| position := AtCheck |>
      <| log ::= fun g => g <| injected ::= add (injections es) |>
           <| cipher_out ::= add (accepted (enc_tx (client t)) sent) |> |>))
| Decrypt_wakes observed :
    position t = AtWait observed -> dtls_progress (client t) <> observed -> incoming_step t (t <| position := AtCheck |>)
| Tun_reserves r q :
    TunWriter ∉ over t -> tun_writing t = Idle -> writer_begin (alive (client t)) (tun_write (client t)) = Some (r, q) ->
    incoming_step t (let t := t <| client ::= fun c => c <| tun_write := q |> |> in
            match r with Ok front => t <| tun_writing := Reserved front |> | Err e => finish TunWriter e t end)
| Tun_checks front r q :
    tun_writing t = Reserved front -> writer_checked (alive (client t)) front (tun_write (client t)) = (r, q) ->
    incoming_step t (let t := t <| client ::= fun c => c <| tun_write := q |> |> in
            match r with
            | Ok front => t <| tun_writing := Calling front |>
            | Err e => finish TunWriter e (t <| tun_writing := Idle |>)
            end)
| Tun_writes front answer e c :
    tun_writing t = Calling front -> tun_write_end front answer (client t) = (e, c) ->
    incoming_step t (finish TunWriter e (t <| client := c |> <| tun_writing := Idle |>
      <| log ::= fun g => g <| tun_out ::= add (if wrote length front answer then [front_pop front] else []) |> |>)).

(** [run_connection] itself, signals, and time. *)
Inductive supervisor_step t : Tunnel D -> Prop :=
| Keepalive d q :
    push KEEPALIVE_PACKET (raw_tx (client t)) = (Ok d, q) ->
    supervisor_step t (t <| client ::= fun c => c <| raw_tx := q |> |> <| log ::= fun g => g <| plain_in ::= add [KEEPALIVE_PACKET] |> |>)
| Deactivates : supervisor_step t (t <| client ::= fun c => c <| active := false |> |>)
| Closes_rx : supervisor_step t (t <| client ::= fun c => c <| encrypted_rx ::= close |> |>)
| Closes_raw : supervisor_step t (t <| client ::= fun c => c <| raw_tx ::= close |> |>)
| Closes_tun : supervisor_step t (t <| client ::= fun c => c <| tun_write ::= close |> |>)
| Closes_enc : supervisor_step t (t <| client ::= fun c => c <| enc_tx ::= close |> |>)
| Notifies : supervisor_step t (t <| client ::= notify |>)
| Stops_encrypt : supervisor_step t (t <| encrypt_stop := true |>)
| Signalled : supervisor_step t (t <| client ::= fun c => c <| running := false |> |>)
| Passes now : supervisor_step t (t <| client ::= fun c => c <| clock := now |> |>).

Definition step t t' : Prop := outgoing_step t t' \/ incoming_step t t' \/ supervisor_step t t'.

(** The client when its workers were just spawned. *)
Definition tunnel_started t : Prop :=
  client_queues_new = Ok (encrypted_rx (client t), raw_tx (client t), tun_write (client t), enc_tx (client t)) /\
  position t = AtCheck /\ local t = {| pending := None; drain := false |} /\
  encrypting t = Idle /\ tun_writing t = Idle /\ udp_writing t = Idle /\
  log t = {| plain_in := []; plain_taken := []; plain_out := []; cipher_out := []; cipher_taken := []; udp_out := [];
             udp_in := []; injected := []; decrypted := []; tun_in := []; tun_out := [] |}.

(** The datagram the decrypt worker has in hand. *)
Definition in_hand t : list Packet :=
  if position t is AtInject datagram then [datagram] else option_list (pending (local t)).

(** ** Invariant *)
Record tunnel_inv t : Prop := {
  inv_raw : pipe (plain_in (log t)) (plain_taken (log t)) (held (encrypting t)) (raw_tx (client t));
  inv_enc : pipe (cipher_out (log t)) (cipher_taken (log t)) (held (udp_writing t)) (enc_tx (client t));
  inv_rx : pipe (udp_in (log t)) (injected (log t)) (in_hand t) (encrypted_rx (client t));
  inv_tun : pipe (tun_in (log t)) (tun_out (log t)) (held (tun_writing t)) (tun_write (client t));
  inv_plain : plain_out (log t) `sublist_of` plain_taken (log t);
  inv_udp : udp_out (log t) `sublist_of` cipher_taken (log t);
  inv_forwarded : tun_in (log t) `sublist_of` retain forwardable (decrypted (log t));
  inv_all_forwarded : DecryptWorker ∉ over t -> tun_in (log t) = retain forwardable (decrypted (log t));
}.

(** ** Lemmas: what each turn does to the queues *)

(** The queues of [c'] are those of [c] but for those named. *)
Definition same_rx c c' : Prop := encrypted_rx c' = encrypted_rx c.
Definition same_raw c c' : Prop := raw_tx c' = raw_tx c.
Definition same_tun c c' : Prop := tun_write c' = tun_write c.
Definition same_enc c c' : Prop := enc_tx c' = enc_tx c.

Lemma pipe_push_result {T} pushed consumed held (q : Queue T) x r q' :
  push x q = (r, q') -> pipe pushed consumed held q -> pipe (pushed ++ accepted q [x]) consumed held q'.
Proof. intros Hp Hi. apply (pipe_push _ _ _ _ x) in Hi. by rewrite Hp in Hi. Qed.

Lemma pipe_nothing {T} pushed consumed held (q : Queue T) l q' :
  l = [] -> pipe pushed consumed held q' -> pipe (pushed ++ accepted q l) consumed held q'.
Proof. intros ->. unfold accepted. by destruct (is_closed q); rewrite (right_id_L [] (++)). Qed.

Lemma tun_read_turn_queues polled read c e c' pushed consumed held :
  tun_read_turn polled read c = (e, c') ->
  same_rx c c' /\ same_tun c c' /\ same_enc c c' /\
  (pipe pushed consumed held (raw_tx c) ->
   pipe (pushed ++ accepted (raw_tx c) (tun_packet polled read)) consumed held (raw_tx c')).
Proof.
  unfold tun_read_turn, tun_packet.
  destruct polled as [[[]|error]|]; [destruct read as [[|b packet]|error]| |];
    repeat case_decide; try destruct (push _ _) as [[[?|]|?] q] eqn:Hp; intros [= <- <-]; split_and!; try done;
    cbn; intros Hi; try (apply pipe_nothing; [done|]); eauto using pipe_push_result with pipe.
Qed.

Lemma udp_read_queues ready answers c e c' pushed consumed held :
  (answers = [] /\ udp_read_turn ready [] c = (e, c') \/
   exists answer, answers = [answer] /\ udp_read_loop [answer] c = (e, c')) ->
  same_raw c c' /\ same_tun c c' /\ same_enc c c' /\
  (pipe pushed consumed held (encrypted_rx c) ->
   pipe (pushed ++ (if head answers is Some (Ok packet) then accepted (encrypted_rx c) [packet] else []))
     consumed held (encrypted_rx c')).
Proof.
  intros [[-> E]|(answer & -> & E)]; revert E; cbn.
  - destruct ready as [[]|error]; intros [= <- <-]; split_and!; try done; rewrite (right_id_L [] (++)); cbn; auto with pipe.
  - destruct answer as [packet|error].
    + destruct (push packet _) as [[[d|]|d] q] eqn:Hp; intros [= <- <-]; split_and!; try done; cbn; intros Hi;
        by eapply pipe_push_result.
    + repeat case_decide; intros [= <- <-]; split_and!; try done; rewrite (right_id_L [] (++)); cbn; auto with pipe.
Qed.

Lemma with_session_queues {A} (op : dtls_op D A) c a c' :
  with_session op c = (a, c') -> same_rx c c' /\ same_raw c c' /\ same_tun c c'.
Proof. unfold with_session. destruct (op _ _ _) as [[? ?] ?]. by intros [= <- <-]. Qed.

Lemma decrypt_read_queues observed l c es e l' c' pushed consumed held :
  decrypt_read observed l c = (es, e, l', c') ->
  same_rx c c' /\ same_raw c c' /\ pending l' = pending l /\
  (pipe pushed consumed held (tun_write c) -> pipe (pushed ++ queued es) consumed held (tun_write c')).
Proof.
  unfold decrypt_read. destruct (negb _).
  { intros [= <- <- <- <-]. split_and!; try done. cbn. by rewrite (right_id_L [] (++)). }
  destruct (with_session _ c) as [r c1] eqn:Hw. apply with_session_queues in Hw as (H1 & H2 & H3).
  unfold same_rx, same_raw, same_tun in *.
  assert (pipe pushed consumed held (tun_write c) -> pipe (pushed ++ []) consumed held (tun_write c1)) as Hsame
    by (by rewrite H3, (right_id_L [] (++))).
  destruct (panic_gate _ r) as [[[|b p]| |]|error]; try (intros [= <- <- <- <-]; by split_and!).
  set (plain := b :: p). destruct (is_keepalive_packet plain); [intros [= <- <- <- <-]; by split_and!|].
  destruct (ipv4_packet_addresses plain); [|intros [= <- <- <- <-]; by split_and!].
  cbn [tun_write set_field]. destruct (push plain _) as [[d|d] q] eqn:Hp; intros [= <- <- <- <-]; split_and!; try done; cbn.
  - intros Hi. rewrite <-H3 in Hi. destruct (is_closed (tun_write c1)) eqn:Hc; [by rewrite push_closed in Hp|].
    pose proof (pipe_push_result _ _ _ _ _ _ _ Hp Hi) as Hq. unfold accepted in Hq. by rewrite Hc in Hq.
  - intros Hi. rewrite <-H3 in Hi. destruct (is_closed (tun_write c1)) eqn:Hc.
    + rewrite push_closed in Hp by done. injection Hp as _ <-. by rewrite (right_id_L [] (++)).
    + destruct (push_open _ plain Hc) as (d' & Hp' & _); [apply Hi|]. rewrite Hp in Hp'. done.
Qed.

Lemma decrypt_next_queues observed l c es r c' pushed consumed :
  decrypt_next observed l c = (es, r, c') ->
  same_raw c c' /\ same_tun c c' /\ same_enc c c' /\
  (pipe pushed consumed (option_list (pending l)) (encrypted_rx c) ->
   pipe pushed consumed (if r is Ok packet then [packet] else option_list (pending l)) (encrypted_rx c')).
Proof.
  unfold decrypt_next. destruct (pending l) as [packet|]; [by intros [= <- <- <-]|].
  destruct (try_pop _) as [[packet|[|]] q] eqn:Hp; intros [= <- <- <-]; split_and!; try done; cbn; intros Hi.
  - apply try_pop_Ok in Hp. by eapply pipe_pop_front.
  - by apply try_pop_Err in Hp as (-> & _).
  - by apply try_pop_Err in Hp as (-> & _).
Qed.

Lemma decrypt_inject_queues packet b c es e l' c' pushed consumed :
  decrypt_inject packet b c = (es, e, l', c') ->
  same_raw c c' /\ same_tun c c' /\
  (pipe pushed consumed [packet] (encrypted_rx c) ->
   pipe pushed (consumed ++ injections es) (option_list (pending l')) (encrypted_rx c')).
Proof.
  unfold decrypt_inject. destruct (with_session _ c) as [r c1] eqn:Hw. apply with_session_queues in Hw as (H1 & H2 & H3).
  unfold same_raw, same_tun, same_rx in *.
  destruct r as [[]|error]; intros [= <- <- <- <-]; split_and!; try done; cbn; rewrite ?H1, ?(right_id_L [] (++));
    auto with pipe.
Qed.

Lemma encrypt_process_queues packet c taken c' pushed consumed held :
  encrypt_process packet c = (taken, c') ->
  same_raw c c' /\ same_tun c c' /\ (pipe pushed consumed held (encrypted_rx c) -> pipe pushed consumed held (encrypted_rx c')).
Proof.
  unfold encrypt_process. destruct (negb _); [by intros [= <- <-]|].
  destruct (with_session _ c) as [r c1] eqn:Hw. apply with_session_queues in Hw as (H1 & H2 & H3).
  unfold same_raw, same_tun, same_rx in *.
  destruct (panic_gate _ r) as [[| |]|]; intros [= <- <-]; split_and!; try done; cbn; rewrite H1; auto with pipe.
Qed.

Lemma encrypt_process_written packet c taken c' :
  encrypt_process packet c = (taken, c') -> written packet c `sublist_of` (if taken then [packet] else []).
Proof.
  unfold encrypt_process, written. destruct (negb _); [intros [= <- <-]; apply sublist_nil_l|].
  destruct (with_session _ c) as [r c1]. cbn [fst].
  destruct (panic_gate _ r) as [[n| |]|]; intros [= <- <-]; try apply sublist_nil_l.
  destruct (_ =? _); [done|apply sublist_nil_l].
Qed.
End tunnel.

Lemma writer_begin_queues {T} alive (q : Queue T) r q' pushed consumed :
  writer_begin alive q = Some (r, q') -> pipe pushed consumed [] q ->
  pipe pushed consumed (if r is Ok f then [item f] else []) q'.
Proof.
  unfold writer_begin. destruct (negb alive); [by intros [= <- <-]|].
  destruct (peek q) as [[[f|] q1]|] eqn:Hp; [| |done]; intros [= <- <-] Hi; [by eapply pipe_peek|].
  revert Hp. unfold peek. destruct (waits q); [done|]. destruct (is_closed q); [by intros [= <-]|].
  destruct (pop_front q) as [[x|] q2] eqn:Hf; [done|]. intros [= <-]. revert Hf. unfold pop_front.
  destruct (items (state q)); [by intros [= <-]|done].
Qed.

Lemma writer_checked_queues {T} alive f (q : Queue T) r q' pushed consumed :
  writer_checked alive f q = (r, q') -> pipe pushed consumed [item f] q ->
  match r with Ok f' => f' = f /\ pipe pushed consumed [item f] q' | Err _ => pipe pushed consumed [] q' end.
Proof. unfold writer_checked. destruct alive; intros [= <- <-]; auto with pipe. Qed.

Section writers.
Context {D : Type} `{DtlsSession D}.
Implicit Types (c : Client D).

Lemma tun_write_end_queues f answer c e c' pushed consumed :
  tun_write_end f answer c = (e, c') ->
  same_rx c c' /\ same_raw c c' /\ same_enc c c' /\
  (pipe pushed consumed [item f] (tun_write c) ->
   pipe pushed (consumed ++ (if wrote length f answer then [item f] else [])) [] (tun_write c')).
Proof.
  unfold tun_write_end, wrote. destruct answer as [n|error].
  - destruct (n =? _); intros [= <- <-]; split_and!; try done; cbn; rewrite ?(right_id_L [] (++)); auto with pipe.
  - case_decide; intros [= <- <-]; split_and!; try done; cbn; rewrite (right_id_L [] (++)); auto with pipe.
Qed.

Lemma udp_write_end_queues f answer c e c' pushed consumed :
  udp_write_end f answer c = (e, c') ->
  same_rx c c' /\ same_raw c c' /\ same_tun c c' /\
  (pipe pushed consumed [item f] (enc_tx c) ->
   pipe pushed (consumed ++ (if too_old f c || wrote (fun d => length (dg_bytes d)) f answer then [item f] else []))
     [] (enc_tx c')).
Proof.
  unfold udp_write_end, wrote, too_old. destruct (from_secs 2 <=? _).
  { intros [= <- <-]. split_and!; try done. cbn. auto with pipe. }
  destruct answer as [n|error].
  - destruct (n =? _); intros [= <- <-]; split_and!; try done; cbn; rewrite ?(right_id_L [] (++)); auto with pipe.
  - case_decide; intros [= <- <-]; split_and!; try done; cbn; rewrite (right_id_L [] (++)); auto with pipe.
Qed.

(** ** Lemmas: the invariant *)

(** A state with the same client queues, reservations and log. *)
Lemma finish_inv th e (t : Tunnel D) : tunnel_inv t -> tunnel_inv (finish th e t).
Proof. intros []. destruct e; split; cbn; auto. set_solver. Qed.

Lemma pushed_inv sent pushed consumed held (q q' : Queue EncryptedDatagram) :
  q' = push_all sent q -> pipe pushed consumed held q -> pipe (pushed ++ accepted q sent) consumed held q'.
Proof. intros ->. apply pipe_push_all. Qed.

(** The invariant of a state whose queues are those of the one before up to [E]s. *)
Ltac same_queues := unfold same_rx, same_raw, same_tun, same_enc in *.

Lemma outgoing_step_inv (t t' : Tunnel D) : tunnel_inv t -> outgoing_step t t' -> tunnel_inv t'.
Proof.
  intros Hi Hs. pose proof Hi as [Hraw Henc Hrx Htun Hplain Hudp Hfwd Hall].
  destruct Hs as [polled read e c Ho Ha E|front q Ho Hstop Hen Hp|Hen Hend|front Hen|front taken c sent Hen E Hsent
    |r q Ho Hw E|front r q Hw E|front answer e c Hw E sent]; rewrite ?Hen, ?Hw in *; cbn [held] in *.
  - pose proof (tun_read_turn_queues _ _ _ _ _ (plain_in (log t)) (plain_taken (log t)) (held (encrypting t)) E) as (E1 & E2 & E3 & Hq).
    apply finish_inv. same_queues. split; cbn; rewrite ?E1, ?E2, ?E3; auto.
  - split; cbn; auto. by eapply pipe_peek.
  - by apply finish_inv.
  - destruct (encrypt_stop t); [apply finish_inv|]; split; cbn; auto with pipe.
  - pose proof (encrypt_process_queues _ _ _ _ (udp_in (log t)) (injected (log t)) (in_hand t) E) as (E1 & E2 & Hq).
    pose proof (encrypt_process_written _ _ _ _ E) as Hwr. same_queues.
    destruct taken; split; cbn; rewrite ?E1, ?E2; auto.
    + by apply pipe_consume.
    + by apply pushed_inv.
    + by apply sublist_app.
    + unfold add. rewrite (right_id_L [] (++)). auto with pipe.
    + by apply pushed_inv.
    + by apply sublist_app.
  - pose proof (writer_begin_queues _ _ _ _ _ _ E Henc) as Hq.
    destruct r as [f|e]; [|apply finish_inv]; split; cbn; rewrite ?Hw; auto.
  - pose proof (writer_checked_queues _ _ _ _ _ _ _ E Henc) as Hq.
    destruct r as [f|e]; [destruct Hq as [-> Hq]|apply finish_inv]; split; cbn; auto.
  - pose proof (udp_write_end_queues _ _ _ _ _ (cipher_out (log t)) (cipher_taken (log t)) E) as (E1 & E2 & E3 & Hq).
    apply finish_inv. same_queues. split; cbn; rewrite ?E1, ?E2, ?E3; auto.
    subst sent. destruct (too_old front _), (wrote _ front answer); cbn; unfold add;
      (apply sublist_app; [done|]); try done; apply sublist_nil_l.
Qed.

Lemma incoming_step_inv (t t' : Tunnel D) : tunnel_inv t -> incoming_step t t' -> tunnel_inv t'.
Proof.
  intros Hi Hs. pose proof Hi as [Hraw Henc Hrx Htun Hplain Hudp Hfwd Hall]. unfold in_hand in Hrx.
  destruct Hs as [ready e c Ho Hr Ha E|answer e c Ho Hr E|Ho Hp|observed es e l c sent Ho Hp E Hsent|observed es r c Ho Hp E
    |packet es e l c sent Ho Hp E Hsent|observed Hp Hd|r q Ho Hw E|front r q Hw E|front answer e c Hw E];
    rewrite ?Hp, ?Hw in *; cbn [held] in *.
  - destruct (udp_read_queues ready [] (client t) e c (udp_in (log t)) (injected (log t)) (in_hand t)) as (E1 & E2 & E3 & Hq); [by left|].
    apply finish_inv. same_queues. cbn in Hq. rewrite (right_id_L [] (++)) in Hq. split; cbn; rewrite ?E1, ?E2, ?E3; auto.
  - destruct (udp_read_queues (Ok true) [answer] (client t) e c (udp_in (log t)) (injected (log t)) (in_hand t))
      as (E1 & E2 & E3 & Hq); [by right; exists answer|].
    apply finish_inv. same_queues. split; cbn; rewrite ?E1, ?E2, ?E3; auto.
  - destruct (alive _); [|by apply finish_inv]. split; cbn; auto.
  - pose proof (decrypt_read_queues _ _ _ _ _ _ _ (tun_in (log t)) (tun_out (log t)) (held (tun_writing t)) E) as (E1 & E2 & E3 & Hq).
    destruct (decrypt_read_spec _ _ _ _ _ _ _ E) as (_ & _ & _ & Hpre & Hfull). same_queues.
    assert (e <> Some Over -> tun_in (log t) ++ queued es = retain forwardable (decrypted (log t) ++ reads es)) as Hg
      by (intros He; by rewrite retain_app, Hfull, Hall).
    assert (tun_in (log t) ++ queued es `sublist_of` retain forwardable (decrypted (log t) ++ reads es)) as Hf
      by (rewrite retain_app; destruct Hpre as [k ->]; apply sublist_app; [done|by apply sublist_inserts_r]).
    destruct e as [[| |]|]; cbn; try (split; cbn; rewrite ?E1, ?E2; unfold in_hand; cbn; rewrite ?Hp, ?E3; auto; solve [by apply pushed_inv|set_solver]).
  - pose proof (decrypt_next_queues _ _ _ _ _ _ (udp_in (log t)) (injected (log t)) E) as (E1 & E2 & E3 & Hq). same_queues.
    destruct r as [packet|[| |]]; cbn; split; cbn; rewrite ?E1, ?E2, ?E3; unfold in_hand; cbn; rewrite ?Hp; auto.
  - pose proof (decrypt_inject_queues _ _ _ _ _ _ _ (udp_in (log t)) (injected (log t)) E) as (E1 & E2 & Hq). same_queues.
    destruct e as [| |]; cbn; split; cbn; rewrite ?E1, ?E2; unfold in_hand; cbn; auto; by apply pushed_inv.
  - split; cbn; auto.
  - pose proof (writer_begin_queues _ _ _ _ _ _ E Htun) as Hq.
    destruct r as [f|e]; [|apply finish_inv]; split; cbn; rewrite ?Hw; auto.
  - pose proof (writer_checked_queues _ _ _ _ _ _ _ E Htun) as Hq.
    destruct r as [f|e]; [destruct Hq as [-> Hq]|apply finish_inv]; split; cbn; auto.
  - pose proof (tun_write_end_queues _ _ _ _ _ (tun_in (log t)) (tun_out (log t)) E) as (E1 & E2 & E3 & Hq).
    apply finish_inv. same_queues. split; cbn; rewrite ?E1, ?E2, ?E3; auto.
Qed.

Lemma supervisor_step_inv (t t' : Tunnel D) : tunnel_inv t -> supervisor_step t t' -> tunnel_inv t'.
Proof.
  intros [Hraw Henc Hrx Htun Hplain Hudp Hfwd Hall] Hs. destruct Hs as [d q Hp| | | | | | | | |]; split; cbn; auto with pipe.
  destruct (is_closed (raw_tx (client t))) eqn:Hc; [by rewrite push_closed in Hp|].
  pose proof (pipe_push_result _ _ _ _ _ _ _ Hp Hraw) as Hq. unfold accepted in Hq. by rewrite Hc in Hq.
Qed.

Lemma client_queues_new_Ok (rx raw tunw : Queue Packet) (enc : Queue EncryptedDatagram) :
  client_queues_new = Ok (rx, raw, tunw, enc) ->
  queue_new QUEUE_CAPACITY = Ok rx /\ queue_new QUEUE_CAPACITY = Ok raw /\ queue_new QUEUE_CAPACITY = Ok tunw /\
  queue_new QUEUE_CAPACITY = Ok enc.
Proof. by intros [= <- <- <- <-]. Qed.

Lemma tunnel_started_inv (t : Tunnel D) : tunnel_started t -> tunnel_inv t.
Proof.
  intros ((Hrx & Hraw & Htun & Henc)%client_queues_new_Ok & Hp & Hl & He & Ht & Hu & Hg).
  split; rewrite ?Hg, ?He, ?Ht, ?Hu; unfold in_hand; rewrite ?Hp, ?Hl; cbn; try done; by eapply pipe_new.
Qed.

Lemma tunnel_reachable_inv (t0 t : Tunnel D) : tunnel_started t0 -> rtc step t0 t -> tunnel_inv t.
Proof.
  intros Hs%tunnel_started_inv Hr. induction Hr as [t|t1 t2 t3 Hstep _ IH]; [done|]. apply IH.
  destruct Hstep as [Hstep|[Hstep|Hstep]]; eauto using outgoing_step_inv, incoming_step_inv, supervisor_step_inv.
Qed.
End writers.

(** ** What the session sends

    The datagrams [sent] that the steps of the workers mention exist, whatever the session does:
    no step is ruled out by them. *)
Section sends.
Context {D : Type} `{DtlsLaws D}.
Implicit Types (c : Client D).

Lemma with_session_sends {A} (op : dtls_op D A) c :
  sends_only op -> exists sent, enc_tx (with_session op c).2 = push_all sent (enc_tx c).
Proof.
  intros Hop. specialize (Hop (clock c) (session c) {| tx := enc_tx c; signal := udp_write_progress c |}).
  unfold with_session. destruct (op _ _ _) as [[a d] o]. by apply pushes_push_all in Hop.
Qed.

Lemma decrypt_read_sends observed l c :
  exists sent, enc_tx (decrypt_read observed l c).2 = push_all sent (enc_tx c).
Proof.
  unfold decrypt_read. destruct (negb _); [by exists []|].
  destruct (with_session_sends (read_status 2048) c) as [sent E]; [apply read_status_sends|]. exists sent.
  destruct (with_session _ c) as [r c1]. cbn [snd] in E.
  destruct (panic_gate _ r) as [[[|b p]| |]|error]; try done.
  destruct (is_keepalive_packet _); [done|]. destruct (ipv4_packet_addresses _); [|done].
  by destruct (push _ _) as [[|] q].
Qed.

Lemma decrypt_inject_sends packet b c :
  exists sent, enc_tx (decrypt_inject packet b c).2 = push_all sent (enc_tx c).
Proof.
  unfold decrypt_inject. destruct (with_session_sends (inject packet) c) as [sent E]; [apply inject_sends|]. exists sent.
  by destruct (with_session _ c) as [[[]|] c1].
Qed.

Lemma encrypt_process_sends packet c :
  exists sent, enc_tx (encrypt_process packet c).2 = push_all sent (enc_tx c).
Proof.
  unfold encrypt_process. destruct (negb _); [by exists []|].
  destruct (with_session_sends (write_status packet) c) as [sent E]; [apply write_status_sends|]. exists sent.
  destruct (with_session _ c) as [r c1]. by destruct (panic_gate _ r) as [[| |]|].
Qed.
End sends.

(** ** Properties *)

(** C10: The client as a whole refines two pipelines that may lose packets but neither reorder,
    repeat nor invent any. Whatever its six workers, the session and the network do in any
    interleaving: what the session sends are packets read from the TUN device and keepalives, in
    their order; what goes out over UDP are the session's datagrams, in their order; what the
    session is fed are received datagrams, in their order; and what is written to the TUN device
    are decrypted packets that are IPv4 and no keepalives, in their order. Towards the TUN device
    losses are only those of full or closed queues: while a queue is open and was offered no more
    than it holds, each received datagram was given to the session or still waits for that, and
    each packet to forward, while the decrypt worker runs, was written or still waits for that. *)
Theorem client_tunnel_order {D} `{DtlsSession D} (t0 t : Tunnel D) :
  tunnel_started t0 -> rtc step t0 t ->
  plain_out (log t) `sublist_of` plain_in (log t) /\
  udp_out (log t) `sublist_of` cipher_out (log t) /\
  injected (log t) `sublist_of` udp_in (log t) /\
  tun_out (log t) `sublist_of` retain forwardable (decrypted (log t)) /\
  (is_closed (encrypted_rx (client t)) = false ->
   (length (udp_in (log t)) <= capacity (encrypted_rx (client t)))%nat ->
   injected (log t) ++ in_hand t ++ items (state (encrypted_rx (client t))) = udp_in (log t)) /\
  (is_closed (tun_write (client t)) = false -> DecryptWorker ∉ over t ->
   (length (retain forwardable (decrypted (log t))) <= capacity (tun_write (client t)))%nat ->
   tun_out (log t) ++ held (tun_writing t) ++ items (state (tun_write (client t))) = retain forwardable (decrypted (log t))).
Proof.
  intros Hs Hr. destruct (tunnel_reachable_inv _ _ Hs Hr) as [[_ Hraw _] [_ Henc _] [_ Hrx Hrx'] [_ Htun Htun'] Hp Hu Hf Hall].
  split_and!; [| | | |exact Hrx'|].
  - etransitivity; [exact Hp|]. etransitivity; [|exact Hraw]. by apply sublist_inserts_r.
  - etransitivity; [exact Hu|]. etransitivity; [|exact Henc]. by apply sublist_inserts_r.
  - etransitivity; [|exact Hrx]. by apply sublist_inserts_r.
  - etransitivity; [|exact Hf]. etransitivity; [|exact Htun]. by apply sublist_inserts_r.
  - intros Hc Ho Hl. rewrite <-(Hall Ho) in Hl |- *. by apply Htun'.
Qed.

(** ** Examples *)
Definition tunnel_example : Tunnel PlainDtls :=
  {| client := {| running := true; active := true; errors := []; encrypted_rx := queue_of QUEUE_CAPACITY [];
                  raw_tx := queue_of QUEUE_CAPACITY []; tun_write := queue_of QUEUE_CAPACITY [];
                  enc_tx := queue_of QUEUE_CAPACITY []; udp_write_progress := 0; dtls_progress := 0;
                  session := {| inbox := []; plain_fingerprint := []; plain_source_ok := true |};
                  last_server_activity := 0; encrypted_drops := 0; plain_drops := 0; clock := 0 |};
     over := []; receiving := false; position := AtCheck; local := {| pending := None; drain := false |};
     encrypting := Idle; encrypt_stop := false; tun_writing := Idle; udp_writing := Idle;
     log := {| plain_in := []; plain_taken := []; plain_out := []; cipher_out := []; cipher_taken := []; udp_out := [];
               udp_in := []; injected := []; decrypted := []; tun_in := []; tun_out := [] |} |}.

(** One packet from the TUN device to the session. *)
Lemma tunnel_example_run :
  exists t, rtc step tunnel_example t /\ plain_out (log t) = [[69; 0]] /\ plain_in (log t) = [[69; 0]].
Proof.
  eexists. split; [|split].
  - eapply rtc_l; [left; eapply (Tun_reads _ (Some (Ok tt)) (Ok [69; 0])); [by apply not_elem_of_nil|reflexivity..]|].
    eapply rtc_l; [left; eapply Encrypt_takes; [by apply not_elem_of_nil|reflexivity..]|].
    eapply rtc_l; [left; eapply Encrypt_checks; reflexivity|].
    eapply rtc_l; [left; eapply (Encrypt_calls _ _ _ _ [{| dg_bytes := [69; 0]; enqueued_at := 0 |}]); reflexivity|]. apply rtc_refl.
  - reflexivity.
  - reflexivity.
Qed.

Lemma client_tunnel_order_witness :
  exists t : Tunnel PlainDtls, plain_out (log t) = [[69; 0]] /\ plain_out (log t) `sublist_of` plain_in (log t).
Proof.
  destruct tunnel_example_run as (t & Hr & Ho & _). exists t. split; [exact Ho|].
  apply (client_tunnel_order tunnel_example t); [|exact Hr]. repeat split.
Defined.
