(* ===== verification/TunWrite.v ===== *)
(** * The server's TUN writer

    Models [src/server/tun_write.rs]: a thread that writes a queue of packets to the TUN device.
    [server.rs] does not declare the module, and the decrypt worker writes to the device itself
    ([Decrypt.v]); the thread is modelled with its queue, other threads pushing to and closing
    it and clearing the flags at any time. *)

From S2P Require Import Prelude Text Net Queue DtlsApi Session ClientLoop ClientTunnel.

Local Open Scope Z_scope.

(** ** The thread *)

(** Where it is: at the loop's condition, with a reserved packet, in [write_packet], in the poll
    after a write that has to be retried, or at its end. *)
Inductive tun_writer_at :=
| Looping | Reserving (front : QueueFront Packet) | Writing (front : QueueFront Packet) | Polling | Ended.

(** The packets offered to the queue, taken from it for good, and written whole are history. *)
Record TunWriter := {
  writer_running : bool;
  writer_active : bool;
  writer_queue : Queue Packet;
  writer_errors : list io_error;
  writer_position : tun_writer_at;
  offered : list Packet;
  taken : list Packet;
  whole : list Packet;
}.

#[export] Instance eta_TunWriter : Eta TunWriter := fun t =>
  {| writer_running := writer_running t; writer_active := writer_active t; writer_queue := writer_queue t;
     writer_errors := writer_errors t; writer_position := writer_position t; offered := offered t;
     taken := taken t; whole := whole t |}.

Implicit Types (t : TunWriter) (front : QueueFront Packet).

Definition keep_writing t : bool := writer_running t && writer_active t.

(** The end of the thread, with [StopOnDrop]. *)
Definition tun_writer_ends t : TunWriter := t <| writer_active := false |> <| writer_position := Ended |>.

(** What the thread does with the answer of [write_packet]: a packet that was written, in whole
    or in part, leaves the queue, as does one the device has no room for; another goes back. *)
Definition tun_write_answer front (answer : io Z) t : TunWriter :=
  match answer with
  | Ok written =>
      t <| writer_position := Looping |> <| taken ::= fun l => l ++ [front_pop front] |>
        <| whole ::= fun l => l ++ (if written =? Z.of_nat (length (front_value front)) then [front_pop front] else []) |>
  | Err error =>
      match classify_tun_error error with
      | Retry => t <| writer_queue ::= front_drop front |> <| writer_position := Polling |>
      | DropPacket => t <| writer_position := Looping |> <| taken ::= fun l => l ++ [front_pop front] |>
      | Fatal =>
          tun_writer_ends (t <| writer_queue ::= front_drop front |> <| writer_errors ::= fun l => l ++ [error] |>)
      end
  end.

Inductive tun_writer_step t : TunWriter -> Prop :=
| Writer_stops : writer_position t = Looping -> keep_writing t = false -> tun_writer_step t (tun_writer_ends t)
| Writer_reserves o q :
    writer_position t = Looping -> keep_writing t = true -> peek (writer_queue t) = Some (o, q) ->
    tun_writer_step t (let t := t <| writer_queue := q |> in
      match o with Some front => t <| writer_position := Reserving front |> | None => tun_writer_ends t end)
| Writer_checks front :
    writer_position t = Reserving front ->
    tun_writer_step t (if keep_writing t then t <| writer_position := Writing front |>
                   else tun_writer_ends (t <| writer_queue ::= front_drop front |>))
| Writer_writes front answer : writer_position t = Writing front -> tun_writer_step t (tun_write_answer front answer t)
| Writer_polled : writer_position t = Polling -> tun_writer_step t (t <| writer_position := Looping |>)
(* the other threads *)
| Offers packet r q :
    push packet (writer_queue t) = (r, q) ->
    tun_writer_step t (t <| writer_queue := q |> <| offered ::= fun l => l ++ accepted (writer_queue t) [packet] |>)
| Closes : tun_writer_step t (t <| writer_queue ::= close |>)
| Signals : tun_writer_step t (t <| writer_running := false |>)
| Deactivated : tun_writer_step t (t <| writer_active := false |>).

(** ** Invariant *)
Definition reserved t : list Packet :=
  match writer_position t with Reserving front | Writing front => [item front] | _ => [] end.

Record writer_inv t : Prop := {
  writer_pipe : pipe (offered t) (taken t) (reserved t) (writer_queue t);
  writer_whole : whole t `sublist_of` taken t;
  writer_error : writer_errors t <> [] -> writer_position t = Ended;
  writer_ended : writer_position t = Ended -> writer_active t = false;
}.

Definition writer_started t : Prop :=
  exists capacity, queue_new capacity = Ok (writer_queue t) /\ writer_position t = Looping /\ writer_errors t = [] /\
    offered t = [] /\ taken t = [] /\ whole t = [].

Lemma writer_started_inv t : writer_started t -> writer_inv t.
Proof.
  intros (c & Hq & Hp & He & Ho & Ht & Hw). split; unfold reserved; rewrite ?Hp, ?He, ?Ho, ?Ht, ?Hw; try done.
  by eapply pipe_new.
Qed.

Lemma writer_answer_inv front answer t :
  writer_position t = Writing front -> writer_inv t -> writer_inv (tun_write_answer front answer t).
Proof.
  intros Hp [Hpipe Hw He _]. unfold reserved in Hpipe. rewrite Hp in Hpipe.
  assert (writer_errors t = []) as Hnil by (destruct (writer_errors t); [done|]; by rewrite Hp in He; discriminate He).
  unfold tun_write_answer. destruct answer as [written|error].
  - split; cbn; [by apply pipe_consume| |by rewrite Hnil|done]. apply sublist_app; [done|]. by destruct (_ =? _); [|apply sublist_nil_l].
  - destruct (classify_tun_error error); split; unfold reserved; cbn; rewrite ?Hnil; try done; auto with pipe.
    by apply sublist_inserts_r.
Qed.

Lemma tun_writer_step_inv t t' : writer_inv t -> tun_writer_step t t' -> writer_inv t'.
Proof.
  intros Hinv Hs. destruct Hs as [Hp Hk|o q Hp Hk Hpeek|front Hp|front answer Hp|Hp|packet r q Hpush| | |];
    [| | |by apply writer_answer_inv|..]; destruct Hinv as [Hpipe Hw He Hend].
  - split; cbn; try done. unfold reserved in *. by rewrite Hp in Hpipe.
  - assert (writer_errors t = []) as Hnil by (destruct (writer_errors t); [done|]; by rewrite Hp in He; discriminate He).
    unfold reserved in Hpipe. rewrite Hp in Hpipe.
    destruct o as [front|]; split; unfold reserved; cbn; rewrite ?Hnil; try done; [by eapply pipe_peek|].
    unfold peek in Hpeek. destruct (waits _) eqn:Hwt; [done|].
    destruct (is_closed (writer_queue t)) eqn:Hc; [by injection Hpeek as <-|].
    unfold pop_front in Hpeek. unfold waits, queue_is_empty, queue_len in Hwt. rewrite Hc in Hwt.
    destruct (items (state (writer_queue t))); [|done]. by rewrite bool_decide_true in Hwt.
  - assert (writer_errors t = []) as Hnil by (destruct (writer_errors t); [done|]; by rewrite Hp in He; discriminate He).
    unfold reserved in Hpipe. rewrite Hp in Hpipe.
    destruct (keep_writing t); split; unfold reserved; cbn; rewrite ?Hnil; try done; auto with pipe.
  - unfold reserved in Hpipe. rewrite Hp in Hpipe, He. by split; cbn; [|..|intros E%He; discriminate E|].
  - split; cbn; try done. by eapply pipe_push_result.
  - split; cbn; auto with pipe.
  - by split.
  - split; cbn; auto.
Qed.

Lemma writer_reachable_inv t0 t : writer_started t0 -> rtc tun_writer_step t0 t -> writer_inv t.
Proof.
  intros Hs%writer_started_inv Hr. induction Hr as [t|t1 t2 t3 Hstep _ IH]; [done|]. apply IH. by eapply tun_writer_step_inv.
Qed.

(** What reaches the device are packets that were offered, each once and in their order; a
    packet that is neither written nor dropped by the device waits in the queue, as long as
    that is open and was not offered more than it holds; and an error other than one to retry
    or a full device ends the thread and clears [active]. *)
Theorem tun_writer_order t0 t :
  writer_started t0 -> rtc tun_writer_step t0 t ->
  whole t `sublist_of` offered t /\
  (is_closed (writer_queue t) = false -> (length (offered t) <= capacity (writer_queue t))%nat ->
     taken t ++ reserved t ++ items (state (writer_queue t)) = offered t) /\
  (writer_errors t <> [] -> writer_position t = Ended /\ writer_active t = false).
Proof.
  intros Hs Hr. destruct (writer_reachable_inv _ _ Hs Hr) as [[Hok Ho Ha] Hw He Hend].
  split_and!; [|exact Ha|auto]. etrans; [exact Hw|]. etrans; [|exact Ho]. by apply sublist_inserts_r.
Qed.

(** ** Witness *)
Definition writer_example (queue : list Packet) (at_ : tun_writer_at) (off tak who : list Packet) : TunWriter :=
  {| writer_running := true; writer_active := true; writer_queue := queue_of 4 queue; writer_errors := [];
     writer_position := at_; offered := off; taken := tak; whole := who |}.

Lemma tun_writer_order_witness :
  exists t, rtc tun_writer_step (writer_example [] Looping [] [] []) t /\ whole t = [[69; 1]] /\
    whole t `sublist_of` offered t.
Proof.
  eexists. match goal with |- ?P /\ ?Q /\ ?R => assert P as Hr end.
  - eapply rtc_l; [eapply (Offers _ [69; 1]); reflexivity|]. eapply rtc_l; [eapply Writer_reserves; reflexivity|].
    eapply rtc_l; [eapply Writer_checks; reflexivity|]. eapply rtc_l; [eapply (Writer_writes _ _ (Ok 2)); reflexivity|].
    apply rtc_refl.
  - split; [exact Hr|]. split; [reflexivity|].
    refine (proj1 (tun_writer_order _ _ _ Hr)). exists 4%nat. by repeat split.
Defined.
