(* ===== verification/ClientStop.v ===== *)
(** * A connection's threads

    Models the life of the client's worker threads in [run_connection] ([src/client/mod.rs]):
    they are spawned one by one, work until a flag or a closed queue stops them, and are joined.
    As in [ServerStop], one step is one access to shared state, what a thread does between them is
    free, and the generation is not bounded. *)

From S2P Require Import Prelude Text.

Local Open Scope Z_scope.

(** ** Shared state *)

(** [RUNNING] and [active]; which of [ClientQueues] are closed; the generation of
    [dtls_progress]; the stop flag of the encrypt worker's [QueueWorker]. *)
Record Shared := {
  running : bool;
  active : bool;
  rx_closed : bool;
  raw_closed : bool;
  tun_write_closed : bool;
  enc_closed : bool;
  progress : Z;
  stop : bool;
}.

#[export] Instance eta_Shared : Eta Shared := fun s =>
  {| running := running s; active := active s; rx_closed := rx_closed s; raw_closed := raw_closed s;
     tun_write_closed := tun_write_closed s; enc_closed := enc_closed s; progress := progress s; stop := stop s |}.

Definition going (s : Shared) : bool := running s && active s.
Definition clear (s : Shared) : Shared := s <| active := false |>.
Definition close_rx (s : Shared) : Shared := s <| rx_closed := true |>.
Definition close_raw (s : Shared) : Shared := s <| raw_closed := true |>.
Definition notify (s : Shared) : Shared := s <| progress ::= Z.add 1 |>.

(** ** The threads *)

(** The UDP reader. Its wait for a datagram takes at most 100 milliseconds. The steps marked
    [true] are those that can repeat while nobody closes the queue. *)
Inductive udp_reader_pc := U_check | U_wait | U_receive | U_notify | U_send | U_close | U_done.

Inductive udp_reader_step : bool -> udp_reader_pc -> Shared -> udp_reader_pc -> Shared -> Prop :=
| U_go s : going s = true -> udp_reader_step false U_check s U_wait s
| U_stop s : going s = false -> udp_reader_step false U_check s U_done s
| U_timeout s : udp_reader_step false U_wait s U_check s
| U_ready s : udp_reader_step false U_wait s U_receive s
| U_wait_fails s : udp_reader_step false U_wait s U_send (clear s)
| U_receives s : rx_closed s = false -> udp_reader_step true U_receive s U_notify s
| U_closed s : rx_closed s = true -> udp_reader_step false U_receive s U_done s
| U_notifies s : udp_reader_step false U_notify s U_receive (notify s)
| U_empty s : udp_reader_step false U_receive s U_check s
| U_receive_fails s : udp_reader_step false U_receive s U_send (clear s)
| U_sends s : udp_reader_step false U_send s U_close s
| U_closes s : udp_reader_step false U_close s U_done (close_rx s).

(** The TUN reader. The device is in blocking mode, so that a read after a spurious readiness waits
    for the next packet: then no step is made, and the thread is not at its end. *)
Inductive tun_reader_pc := T_check | T_poll | T_read | T_send | T_close | T_done.

Inductive tun_reader_step : tun_reader_pc -> Shared -> tun_reader_pc -> Shared -> Prop :=
| T_go s : going s = true -> tun_reader_step T_check s T_poll s
| T_stop s : going s = false -> tun_reader_step T_check s T_done s
| T_timeout s : tun_reader_step T_poll s T_check s
| T_ready s : tun_reader_step T_poll s T_read s
| T_poll_fails s : tun_reader_step T_poll s T_send (clear s)
| T_queues s : raw_closed s = false -> tun_reader_step T_read s T_check s
| T_closed s : raw_closed s = true -> tun_reader_step T_read s T_done s
| T_nothing s : tun_reader_step T_read s T_check s
| T_read_fails s : tun_reader_step T_read s T_send (clear s)
| T_sends s : tun_reader_step T_send s T_close s
| T_closes s : tun_reader_step T_close s T_done (close_raw s).

(** The decrypt worker: whether it drains the session, and whether it holds a datagram, are the
    variables [drain] and [pending] of its loop. [want_write]: the session may answer a read
    with [WantWrite]. *)
Inductive decrypt_pc :=
| D_check (drain pending : bool) | D_observe (drain pending : bool)
| D_read (observed : Z) (pending : bool) | D_notify (observed : Z) (pending : bool)
| D_next (observed : Z) (pending : bool) | D_inject
| D_wait (observed : Z) (drain pending : bool) | D_send | D_done.

Inductive decrypt_step (want_write : bool) : decrypt_pc -> Shared -> decrypt_pc -> Shared -> Prop :=
| D_go d p s : going s = true -> decrypt_step want_write (D_check d p) s (D_observe d p) s
| D_stop d p s : going s = false -> decrypt_step want_write (D_check d p) s D_done s
| D_observes_drain p s : decrypt_step want_write (D_observe true p) s (D_read (progress s) p) s
| D_observes_next p s : decrypt_step want_write (D_observe false p) s (D_next (progress s) p) s
| D_reads o p s : decrypt_step want_write (D_read o p) s (D_check true p) s
| D_tun_closed o p s : tun_write_closed s = true -> decrypt_step want_write (D_read o p) s D_done s
| D_drained o p s : decrypt_step want_write (D_read o p) s (D_notify o p) s
| D_notifies o p s : decrypt_step want_write (D_notify o p) s (D_next o p) (notify s)
| D_wants_write o p s : want_write = true -> decrypt_step want_write (D_read o p) s (D_wait o true p) s
| D_read_fails o p s : decrypt_step want_write (D_read o p) s D_send (clear s)
| D_has_pending o s : decrypt_step want_write (D_next o true) s D_inject s
| D_takes o s : rx_closed s = false -> decrypt_step want_write (D_next o false) s D_inject s
| D_empty o s : rx_closed s = false -> decrypt_step want_write (D_next o false) s (D_wait o false false) s
| D_closed o s : rx_closed s = true -> decrypt_step want_write (D_next o false) s D_done s
| D_injected s : decrypt_step want_write D_inject s (D_check true false) s
| D_full s : decrypt_step want_write D_inject s (D_check true true) s
| D_inject_fails s : decrypt_step want_write D_inject s D_send (clear s)
| D_wakes o d p s : progress s <> o -> decrypt_step want_write (D_wait o d p) s (D_check d p) s
| D_sends s : decrypt_step want_write D_send s D_done s.

(** The TUN writer and the UDP writer, over a queue that is [closed] or not: they hold the front
    of the queue during the system call, and the UDP writer [notifies] after one that succeeds. *)
Inductive writer_pc := W_check | W_peek | W_recheck | W_call | W_poll | W_notify | W_send | W_done.

Inductive writer_step (closed : Shared -> bool) (notifies : bool) : writer_pc -> Shared -> writer_pc -> Shared -> Prop :=
| W_go s : going s = true -> writer_step closed notifies W_check s W_peek s
| W_stop s : going s = false -> writer_step closed notifies W_check s W_done s
| W_front s : closed s = false -> writer_step closed notifies W_peek s W_recheck s
| W_closed s : closed s = true -> writer_step closed notifies W_peek s W_done s
| W_still s : going s = true -> writer_step closed notifies W_recheck s W_call s
| W_stopped s : going s = false -> writer_step closed notifies W_recheck s W_done s
| W_wrote s : writer_step closed notifies W_call s (if notifies then W_notify else W_check) s
| W_notified s : writer_step closed notifies W_notify s W_check (notify s)
| W_interrupted s : writer_step closed notifies W_call s W_check s
| W_would_block s : writer_step closed notifies W_call s W_poll s
| W_polled s : writer_step closed notifies W_poll s W_check s
| W_fails s : writer_step closed notifies W_call s W_send (clear s)
| W_sends s : writer_step closed notifies W_send s W_done s.

(** The encrypt worker, a [QueueWorker] of [spawn_scan_peek]: it looks at its own stop flag only,
    and what it is called with succeeds at once when [active] is clear. *)
Inductive encrypt_pc := E_check | E_peek | E_recheck | E_process | E_write | E_send | E_close | E_done.

Inductive encrypt_step : bool -> encrypt_pc -> Shared -> encrypt_pc -> Shared -> Prop :=
| E_go s : stop s = false -> encrypt_step false E_check s E_peek s
| E_stop s : stop s = true -> encrypt_step false E_check s E_done s
| E_front s : raw_closed s = false -> encrypt_step true E_peek s E_recheck s
| E_closed s : raw_closed s = true -> encrypt_step false E_peek s E_done s
| E_still s : stop s = false -> encrypt_step false E_recheck s E_process s
| E_stopped s : stop s = true -> encrypt_step false E_recheck s E_done s
| E_skips s : active s = false -> encrypt_step false E_process s E_check s
| E_works s : active s = true -> encrypt_step false E_process s E_write s
| E_writes s : encrypt_step false E_write s E_check s
| E_fails s : encrypt_step false E_write s E_send (clear s)
| E_sends s : encrypt_step false E_send s E_close s
| E_closes s : encrypt_step false E_close s E_check (close_rx s).

(** The workers, in the order of [run_connection]'s spawns. *)
Inductive thread := UdpReader | TunReader | Decrypt | TunWriter | Encrypt | UdpWriter.

#[export] Instance thread_eq_dec : EqDecision thread.
Proof. solve_decision. Defined.

(** The thread of [run_connection]: the spawns, its loop, the clean-up and the joins; or, when a
    spawn fails, the drop of the [QueueWorker] it already has. *)
Inductive main_pc :=
| M_spawn (th : thread) | M_drop_stop | M_drop_close | M_drop_join | M_failed
| M_check | M_body | M_clear | M_close_rx | M_close_raw | M_close_tun_write | M_close_enc | M_notify
| M_join (th : thread) | M_stop | M_done.

(** A worker is [None] until it is spawned. *)
Record Threads := {
  main : main_pc;
  udp_reader : option udp_reader_pc;
  tun_reader : option tun_reader_pc;
  decrypt : option decrypt_pc;
  tun_writer : option writer_pc;
  encrypt : option encrypt_pc;
  udp_writer : option writer_pc;
  shared : Shared;
}.

#[export] Instance eta_Threads : Eta Threads := fun t =>
  {| main := main t; udp_reader := udp_reader t; tun_reader := tun_reader t; decrypt := decrypt t;
     tun_writer := tun_writer t; encrypt := encrypt t; udp_writer := udp_writer t; shared := shared t |}.

Definition spawn (th : thread) (t : Threads) : Threads :=
  match th with
  | UdpReader => t <| udp_reader := Some U_check |>
  | TunReader => t <| tun_reader := Some T_check |>
  | Decrypt => t <| decrypt := Some (D_check false false) |>
  | TunWriter => t <| tun_writer := Some W_check |>
  | Encrypt => t <| encrypt := Some E_check |>
  | UdpWriter => t <| udp_writer := Some W_check |>
  end.

Definition ended (th : thread) (t : Threads) : Prop :=
  match th with
  | UdpReader => udp_reader t = Some U_done
  | TunReader => tun_reader t = Some T_done
  | Decrypt => decrypt t = Some D_done
  | TunWriter => tun_writer t = Some W_done
  | Encrypt => encrypt t = Some E_done
  | UdpWriter => udp_writer t = Some W_done
  end.

Definition after_spawn (th : thread) : main_pc :=
  match th with
  | UdpReader => M_spawn TunReader
  | TunReader => M_spawn Decrypt
  | Decrypt => M_spawn TunWriter
  | TunWriter => M_spawn Encrypt
  | Encrypt => M_spawn UdpWriter
  | UdpWriter => M_check
  end.

Definition after_join (th : thread) : main_pc :=
  match th with
  | Decrypt => M_stop
  | Encrypt => M_join UdpReader
  | UdpReader => M_join TunReader
  | TunReader => M_join TunWriter
  | TunWriter => M_join UdpWriter
  | UdpWriter => M_done
  end.

(** What [run_connection] returns with after a failing [try_clone] or spawn: the locals are
    dropped, of which only the encrypt worker's handle does something. *)
Definition after_failed_spawn (t : Threads) : main_pc := if encrypt t is Some _ then M_drop_stop else M_failed.

Inductive main_step (t : Threads) : Threads -> Prop :=
| M_spawns th : main t = M_spawn th -> main_step t (spawn th t <| main := after_spawn th |>)
| M_spawn_fails th : main t = M_spawn th -> main_step t (t <| main := after_failed_spawn t |>)
| M_drop_stops : main t = M_drop_stop -> main_step t (t <| main := M_drop_close |> <| shared ::= fun s => s <| stop := true |> |>)
| M_drop_closes : main t = M_drop_close -> main_step t (t <| main := M_drop_join |> <| shared ::= close_raw |>)
| M_drop_joins : main t = M_drop_join -> ended Encrypt t -> main_step t (t <| main := M_failed |>)
| M_enters : main t = M_check -> going (shared t) = true -> main_step t (t <| main := M_body |>)
| M_leaves : main t = M_check -> going (shared t) = false -> main_step t (t <| main := M_clear |>)
| M_waited : main t = M_body -> main_step t (t <| main := M_check |>)
| M_breaks : main t = M_body -> main_step t (t <| main := M_clear |>)
| M_clears : main t = M_clear -> main_step t (t <| main := M_close_rx |> <| shared ::= clear |>)
| M_closes_rx : main t = M_close_rx -> main_step t (t <| main := M_close_raw |> <| shared ::= close_rx |>)
| M_closes_raw : main t = M_close_raw -> main_step t (t <| main := M_close_tun_write |> <| shared ::= close_raw |>)
| M_closes_tun_write : main t = M_close_tun_write ->
    main_step t (t <| main := M_close_enc |> <| shared ::= fun s => s <| tun_write_closed := true |> |>)
| M_closes_enc : main t = M_close_enc ->
    main_step t (t <| main := M_notify |> <| shared ::= fun s => s <| enc_closed := true |> |>)
| M_notifies : main t = M_notify -> main_step t (t <| main := M_join Decrypt |> <| shared ::= notify |>)
| M_stops : main t = M_stop -> main_step t (t <| main := M_join Encrypt |> <| shared ::= fun s => s <| stop := true |> |>)
| M_joins th : main t = M_join th -> ended th t -> main_step t (t <| main := after_join th |>).

(** Any thread moves; the flag marks the steps that can repeat until a queue is closed. *)
Inductive step (want_write : bool) (t : Threads) : bool -> Threads -> Prop :=
| Main t' : main_step t t' -> step want_write t false t'
| Step_udp_reader b pc pc' s : udp_reader t = Some pc -> udp_reader_step b pc (shared t) pc' s ->
    step want_write t b (t <| udp_reader := Some pc' |> <| shared := s |>)
| Step_tun_reader pc pc' s : tun_reader t = Some pc -> tun_reader_step pc (shared t) pc' s ->
    step want_write t false (t <| tun_reader := Some pc' |> <| shared := s |>)
| Step_decrypt pc pc' s : decrypt t = Some pc -> decrypt_step want_write pc (shared t) pc' s ->
    step want_write t false (t <| decrypt := Some pc' |> <| shared := s |>)
| Step_tun_writer pc pc' s : tun_writer t = Some pc -> writer_step tun_write_closed false pc (shared t) pc' s ->
    step want_write t false (t <| tun_writer := Some pc' |> <| shared := s |>)
| Step_encrypt b pc pc' s : encrypt t = Some pc -> encrypt_step b pc (shared t) pc' s ->
    step want_write t b (t <| encrypt := Some pc' |> <| shared := s |>)
| Step_udp_writer pc pc' s : udp_writer t = Some pc -> writer_step enc_closed true pc (shared t) pc' s ->
    step want_write t false (t <| udp_writer := Some pc' |> <| shared := s |>).

Definition signal (t : Threads) : Threads := t <| shared ::= fun s => s <| running := false |> |>.

(** [run_connection] before its first spawn. *)
Definition connected : Threads :=
  {| main := M_spawn UdpReader; udp_reader := None; tun_reader := None; decrypt := None; tun_writer := None;
     encrypt := None; udp_writer := None;
     shared := {| running := true; active := true; rx_closed := false; raw_closed := false; tun_write_closed := false;
                  enc_closed := false; progress := 0; stop := false |} |}.

Inductive reachable (want_write : bool) : Threads -> Prop :=
| Connected : reachable want_write connected
| Steps t b t' : reachable want_write t -> step want_write t b t' -> reachable want_write t'
| Signalled t : reachable want_write t -> reachable want_write (signal t).

(** [n] steps, [k] of which are marked. *)
Inductive run (want_write : bool) : nat -> nat -> Threads -> Threads -> Prop :=
| Run_nil t : run want_write 0 0 t t
| Run_cons n k b t t' t'' :
    step want_write t b t' -> run want_write n k t' t'' -> run want_write (S n) (if b then S k else k) t t''.

(** ** Invariant *)

Definition order (th : thread) : nat :=
  match th with UdpReader => 0 | TunReader => 1 | Decrypt => 2 | TunWriter => 3 | Encrypt => 4 | UdpWriter => 5 end.

(** How far the clean-up has come; 0 before there is a connection. *)
Definition stage (pc : main_pc) : nat :=
  match pc with
  | M_spawn _ | M_drop_stop | M_drop_close | M_drop_join | M_failed => 0
  | M_check | M_body => 1
  | M_clear => 2 | M_close_rx => 3 | M_close_raw => 4 | M_close_tun_write => 5 | M_close_enc => 6 | M_notify => 7
  | M_join Decrypt => 8 | M_stop => 9 | M_join Encrypt => 10 | M_join UdpReader => 11 | M_join TunReader => 12
  | M_join TunWriter => 13 | M_join UdpWriter => 14 | M_done => 15
  end.

(** How many workers have been spawned for certain. *)
Definition spawned (pc : main_pc) : nat :=
  match pc with M_spawn th => order th | M_drop_stop | M_drop_close | M_drop_join | M_failed => 0 | _ => 6 end.

Definition is_spawned (th : thread) (t : Threads) : Prop :=
  match th with
  | UdpReader => is_Some (udp_reader t)
  | TunReader => is_Some (tun_reader t)
  | Decrypt => is_Some (decrypt t)
  | TunWriter => is_Some (tun_writer t)
  | Encrypt => is_Some (encrypt t)
  | UdpWriter => is_Some (udp_writer t)
  end.

(** When a worker has been joined. *)
Definition joined (th : thread) : nat :=
  match th with Decrypt => 9 | Encrypt => 11 | UdpReader => 12 | TunReader => 13 | TunWriter => 14 | UdpWriter => 15 end.

(** What the decrypt worker saw is not from the future; if it sleeps, a notification that comes
    after the clean-up's closes is still to come or has woken it. *)
Definition decrypt_inv (notified : bool) (generation : Z) (pc : option decrypt_pc) : Prop :=
  match pc with
  | Some (D_read o _ | D_notify o _ | D_next o _) => o <= generation
  | Some (D_wait o _ _) => if notified then o < generation else o <= generation
  | _ => True
  end.

Record inv (t : Threads) : Prop := {
  inv_spawned : forall th, (order th < spawned (main t))%nat -> is_spawned th t;
  inv_cleared : (3 <= stage (main t))%nat -> active (shared t) = false;
  inv_rx : (4 <= stage (main t))%nat -> rx_closed (shared t) = true;
  inv_raw : (5 <= stage (main t))%nat -> raw_closed (shared t) = true;
  inv_tun_write : (6 <= stage (main t))%nat -> tun_write_closed (shared t) = true;
  inv_enc : (7 <= stage (main t))%nat -> enc_closed (shared t) = true;
  inv_decrypt : decrypt_inv (bool_decide (8 <= stage (main t))%nat) (progress (shared t)) (decrypt t);
  inv_stopped : (10 <= stage (main t))%nat -> stop (shared t) = true;
  inv_joined : forall th, (joined th <= stage (main t))%nat -> ended th t;
}.

(** What a worker's step may do to the shared state. *)
Record grown (s s' : Shared) : Prop := {
  grown_running : running s' = running s;
  grown_active : active s = false -> active s' = false;
  grown_rx : rx_closed s = true -> rx_closed s' = true;
  grown_raw : raw_closed s = true -> raw_closed s' = true;
  grown_tun_write : tun_write_closed s' = tun_write_closed s;
  grown_enc : enc_closed s' = enc_closed s;
  grown_progress : progress s <= progress s';
  grown_stop : stop s' = stop s;
}.

Lemma udp_reader_grown b pc s pc' s' : udp_reader_step b pc s pc' s' -> grown s s'.
Proof. destruct 1; split; cbn; try done; lia. Qed.

Lemma tun_reader_grown pc s pc' s' : tun_reader_step pc s pc' s' -> grown s s'.
Proof. destruct 1; split; cbn; try done; lia. Qed.

Lemma conn_decrypt_grown w pc s pc' s' : decrypt_step w pc s pc' s' -> grown s s'.
Proof. destruct 1; split; cbn; try done; lia. Qed.

Lemma conn_writer_grown c n pc s pc' s' : writer_step c n pc s pc' s' -> grown s s'.
Proof. destruct 1; split; cbn; try done; lia. Qed.

Lemma conn_encrypt_grown b pc s pc' s' : encrypt_step b pc s pc' s' -> grown s s'.
Proof. destruct 1; split; cbn; try done; lia. Qed.

Lemma decrypt_inv_grows notified g g' pc : decrypt_inv notified g pc -> g <= g' -> decrypt_inv notified g' pc.
Proof. destruct pc as [[]|]; cbn; try done; destruct notified; lia. Qed.

(** A worker's step keeps what the invariant says of the others. *)
Lemma conn_grown_keeps t s : inv t -> grown (shared t) s -> inv (t <| shared := s |>).
Proof.
  intros [] []. split; cbn.
  - intros th Hth. specialize (inv_spawned0 th Hth). by destruct th.
  - auto.
  - auto.
  - auto.
  - intros Hst. rewrite grown_tun_write0. auto.
  - intros Hst. rewrite grown_enc0. auto.
  - by eapply decrypt_inv_grows.
  - intros Hst. rewrite grown_stop0. auto.
  - intros th Hth. specialize (inv_joined0 th Hth). by destruct th.
Qed.

Lemma decrypt_step_inv pc s pc' s' notified :
  decrypt_step false pc s pc' s' -> (rx_closed s = false -> notified = false) ->
  decrypt_inv notified (progress s) (Some pc) -> decrypt_inv notified (progress s') (Some pc').
Proof. destruct 1; cbn; intros Hn Hi; try done; try lia. by rewrite Hn. Qed.

(** A worker moved by [Hs]: the invariant of the others, and of its own spawn and join. *)
Ltac worker_moves Hi Hg Hs :=
  pose proof (conn_grown_keeps _ _ Hi Hg) as []; split; cbn in *; auto;
  try match goal with
  | |- forall th, (order th < _)%nat -> _ =>
      let th := fresh "th" in let Hth := fresh "Hth" in intros th Hth;
      match goal with H : forall th, (order th < _)%nat -> _ |- _ => specialize (H th Hth) end;
      destruct th; cbn in *; eauto
  | |- forall th, (joined th <= _)%nat -> _ =>
      let th := fresh "th" in let Hth := fresh "Hth" in intros th Hth;
      match goal with H : forall th, (joined th <= _)%nat -> _ |- _ => specialize (H th Hth) end;
      destruct th; cbn in *; auto; exfalso; simplify_eq; inversion Hs
  end.

Lemma worker_step_inv t b t' : inv t -> step false t b t' -> main_step t t' \/ inv t'.
Proof.
  intros Hi Hs. destruct Hs as [t' Hm|b pc pc' s Hpc Hs|pc pc' s Hpc Hs|pc pc' s Hpc Hs|pc pc' s Hpc Hs|b pc pc' s Hpc Hs|pc pc' s Hpc Hs];
    [by left|right..].
  - pose proof (udp_reader_grown _ _ _ _ _ Hs) as Hg. worker_moves Hi Hg Hs.
  - pose proof (tun_reader_grown _ _ _ _ Hs) as Hg. worker_moves Hi Hg Hs.
  - pose proof (conn_decrypt_grown _ _ _ _ _ Hs) as Hg. worker_moves Hi Hg Hs.
    eapply decrypt_step_inv; [exact Hs| |rewrite <-Hpc; apply Hi].
    intros Hrx. apply bool_decide_eq_false. intros Hst. rewrite (inv_rx _ Hi) in Hrx; [done|lia].
  - pose proof (conn_writer_grown _ _ _ _ _ _ Hs) as Hg. worker_moves Hi Hg Hs.
  - pose proof (conn_encrypt_grown _ _ _ _ _ Hs) as Hg. worker_moves Hi Hg Hs.
  - pose proof (conn_writer_grown _ _ _ _ _ _ Hs) as Hg. worker_moves Hi Hg Hs.
Qed.

Lemma decrypt_inv_notified g g' pc : decrypt_inv false g pc -> g < g' -> decrypt_inv true g' pc.
Proof. destruct pc as [[]|]; cbn; try done; lia. Qed.

Lemma main_step_inv t t' : inv t -> main_step t t' -> inv t'.
Proof.
  intros Hi Hm. destruct Hi. destruct t as [m u r d w e v sh].
  inversion Hm as [th H|th H|H|H|H|H|H|H|H|H|H|H|H|H|H|H|th H]; cbn in *; subst;
    unfold after_failed_spawn in *; cbn in *; try destruct th; try destruct e; clear Hm.
  all: split; cbn in *; try (intros; lia); auto with lia.
  all: try (eapply decrypt_inv_notified; [eassumption|lia]).
  all: intros th Hth; pose proof (inv_spawned0 th) as Hsp; pose proof (inv_joined0 th) as Hj;
    destruct th; cbn in *; eauto with lia; lia.
Qed.

Lemma conn_threads_inv t : reachable false t -> inv t.
Proof.
  induction 1 as [|t b t' _ IH Hs|t _ IH].
  - split; cbn; try (intros; lia); intros th Hth; destruct th; cbn in *; lia.
  - destruct (worker_step_inv _ _ _ IH Hs); [by eapply main_step_inv|done].
  - by destruct IH; split; cbn; auto.
Qed.

(** ** Progress *)

(** How many steps a thread may still make once a flag is cleared, those apart that the marked
    steps add. *)
Definition udp_reader_left (pc : udp_reader_pc) : nat :=
  match pc with U_done => 0 | U_check | U_close => 1 | U_send => 2 | U_receive => 3 | U_notify | U_wait => 4 end.
Definition tun_reader_left (pc : tun_reader_pc) : nat :=
  match pc with T_done => 0 | T_check | T_close => 1 | T_send => 2 | T_read => 3 | T_poll => 4 end.
Definition decrypt_left (pc : decrypt_pc) : nat :=
  match pc with
  | D_done => 0 | D_check _ _ | D_send => 1 | D_wait _ _ _ | D_inject => 2 | D_next _ _ => 3 | D_notify _ _ => 4
  | D_read _ _ => 5 | D_observe _ _ => 6
  end.
Definition writer_left (pc : writer_pc) : nat :=
  match pc with W_done => 0 | W_check | W_send => 1 | W_notify | W_poll => 2 | W_call => 3 | W_recheck => 4 | W_peek => 5 end.
Definition encrypt_left (pc : encrypt_pc) : nat :=
  match pc with
  | E_done => 0 | E_peek => 1 | E_check => 2 | E_close => 3 | E_send => 4 | E_write => 5 | E_process => 6 | E_recheck => 7
  end.
Definition main_left (pc : main_pc) : nat :=
  match pc with M_body => 15 | M_check => 14 | pc => 15 - stage pc end.

Definition steps_left (t : Threads) : nat :=
  (main_left (main t) + from_option udp_reader_left 0%nat (udp_reader t) + from_option tun_reader_left 0%nat (tun_reader t)
  + from_option decrypt_left 0%nat (decrypt t) + from_option writer_left 0%nat (tun_writer t)
  + from_option encrypt_left 0%nat (encrypt t) + from_option writer_left 0%nat (udp_writer t))%nat.

Lemma steps_left_bound t : (1 <= stage (main t))%nat -> (steps_left t <= 46)%nat.
Proof.
  intros Hst. unfold steps_left.
  assert (main_left (main t) <= 15)%nat by (destruct (main t); cbn in *; lia).
  assert (from_option udp_reader_left 0 (udp_reader t) <= 4)%nat by (destruct (udp_reader t) as [[]|]; cbn; lia).
  assert (from_option tun_reader_left 0 (tun_reader t) <= 4)%nat by (destruct (tun_reader t) as [[]|]; cbn; lia).
  assert (from_option decrypt_left 0 (decrypt t) <= 6)%nat by (destruct (decrypt t) as [[]|]; cbn; lia).
  assert (forall w, from_option writer_left 0 w <= 5)%nat as Hw by (intros [[]|]; cbn; lia).
  assert (from_option encrypt_left 0 (encrypt t) <= 7)%nat by (destruct (encrypt t) as [[]|]; cbn; lia).
  pose proof (Hw (tun_writer t)). pose proof (Hw (udp_writer t)). lia.
Qed.

Lemma going_grown s s' : grown s s' -> going s = false -> going s' = false.
Proof.
  unfold going. intros [] Hg. rewrite grown_running0. destruct (running s); cbn in *; auto.
Qed.

(** What every step keeps once the connection is to end. *)
Lemma step_keeps t b t' :
  inv t -> step false t b t' -> (1 <= stage (main t))%nat -> going (shared t) = false ->
  (1 <= stage (main t'))%nat /\ going (shared t') = false /\
  (rx_closed (shared t) = true -> rx_closed (shared t') = true) /\
  (raw_closed (shared t) = true -> raw_closed (shared t') = true).
Proof.
  intros Hi Hs Hst Hg. destruct Hs as [t' Hm|b pc pc' s Hpc Hs|pc pc' s Hpc Hs|pc pc' s Hpc Hs|pc pc' s Hpc Hs|b pc pc' s Hpc Hs|pc pc' s Hpc Hs]; cbn.
  - destruct t as [m u r d w e v sh]. unfold going in *.
    inversion Hm as [th H|th H|H|H|H|H|H|H|H|H|H|H|H|H|H|H|th H]; cbn in *; subst; cbn in *; try lia;
      rewrite ?andb_false_r; try destruct th; cbn; split_and!; auto; try lia.
  - pose proof (udp_reader_grown _ _ _ _ _ Hs) as G. split_and!; [done|by eapply going_grown|apply G..].
  - pose proof (tun_reader_grown _ _ _ _ Hs) as G. split_and!; [done|by eapply going_grown|apply G..].
  - pose proof (conn_decrypt_grown _ _ _ _ _ Hs) as G. split_and!; [done|by eapply going_grown|apply G..].
  - pose proof (conn_writer_grown _ _ _ _ _ _ Hs) as G. split_and!; [done|by eapply going_grown|apply G..].
  - pose proof (conn_encrypt_grown _ _ _ _ _ Hs) as G. split_and!; [done|by eapply going_grown|apply G..].
  - pose proof (conn_writer_grown _ _ _ _ _ _ Hs) as G. split_and!; [done|by eapply going_grown|apply G..].
Qed.

Lemma conn_step_decreases t b t' :
  (1 <= stage (main t))%nat -> going (shared t) = false -> step false t b t' ->
  (1 + steps_left t' <= steps_left t + if b then 7 else 0)%nat /\
  (b = true -> rx_closed (shared t) = false \/ raw_closed (shared t) = false).
Proof.
  intros Hst Hg Hs. destruct t as [m u r d w e v sh]. cbn in *. unfold steps_left.
  destruct Hs as [t' Hm|b pc pc' s Hpc Hs|pc pc' s Hpc Hs|pc pc' s Hpc Hs|pc pc' s Hpc Hs|b pc pc' s Hpc Hs|pc pc' s Hpc Hs]; cbn in *; subst.
  - split; [|done]. inversion Hm as [th H|th H|H|H|H|H|H|H|H|H|H|H|H|H|H|H|th H]; cbn in *; subst; cbn in *; try lia; try congruence.
    all: try destruct th; cbn; lia.
  - split; [|inversion Hs; subst; auto; discriminate]. inversion Hs; subst; cbn; try congruence; lia.
  - split; [|done]. inversion Hs; subst; cbn; try congruence; lia.
  - split; [|done]. inversion Hs; subst; cbn; try congruence; lia.
  - split; [|done]. inversion Hs; subst; cbn; try congruence; lia.
  - split; [|inversion Hs; subst; auto; discriminate]. inversion Hs; subst; cbn; try congruence; lia.
  - split; [|done]. inversion Hs; subst; cbn; try congruence; lia.
Qed.

(** *** A worker that has not ended can move *)
Lemma udp_reader_enabled s pc : going s = false -> pc = U_done \/ exists pc' s', udp_reader_step false pc s pc' s'.
Proof. destruct pc; eauto 6 using udp_reader_step. Qed.

Lemma tun_reader_enabled s pc : going s = false -> pc = T_done \/ exists pc' s', tun_reader_step pc s pc' s'.
Proof. destruct pc; eauto 6 using tun_reader_step. Qed.

Lemma writer_enabled closed notifies s pc :
  going s = false -> closed s = true -> pc = W_done \/ exists pc' s', writer_step closed notifies pc s pc' s'.
Proof. destruct pc; eauto 6 using writer_step. Qed.

Lemma encrypt_enabled s pc : raw_closed s = true -> pc = E_done \/ exists pc' s', encrypt_step false pc s pc' s'.
Proof. destruct pc, (stop s) eqn:?, (active s) eqn:?; eauto 6 using encrypt_step. Qed.

Lemma decrypt_enabled s pc :
  going s = false -> rx_closed s = true -> decrypt_inv true (progress s) (Some pc) ->
  pc = D_done \/ exists pc' s', decrypt_step false pc s pc' s'.
Proof.
  destruct pc as [|[]| | |o []| | | |]; cbn; eauto 6 using decrypt_step.
  intros _ _ Ho. right. do 2 eexists. apply D_wakes. lia.
Qed.

(** While a worker is to be joined, it can move or has ended; before that, the clean-up can go on. *)
Lemma worker_enabled t th :
  inv t -> (8 <= stage (main t))%nat -> going (shared t) = false ->
  ended th t \/ exists t', step false t false t'.
Proof.
  intros Hi Hst Hg. pose proof (inv_spawned _ Hi th) as Hsp.
  assert (spawned (main t) = 6%nat) as E by (destruct (main t); cbn in *; lia). rewrite E in Hsp.
  destruct th; cbn in *; specialize (Hsp ltac:(lia)) as [pc Hpc]; rewrite Hpc.
  - destruct (udp_reader_enabled (shared t) pc Hg) as [->|(? & ? & ?)]; [by left|right; eexists; by eapply Step_udp_reader].
  - destruct (tun_reader_enabled (shared t) pc Hg) as [->|(? & ? & ?)]; [by left|right; eexists; by eapply Step_tun_reader].
  - pose proof (inv_decrypt _ Hi) as Hd. rewrite bool_decide_eq_true_2, Hpc in Hd by done.
    destruct (decrypt_enabled (shared t) pc Hg) as [->|(? & ? & ?)];
      [apply (inv_rx _ Hi); lia|done|by left|right; eexists; by eapply Step_decrypt].
  - destruct (writer_enabled tun_write_closed false (shared t) pc Hg) as [->|(? & ? & ?)];
      [apply (inv_tun_write _ Hi); lia|by left|right; eexists; by eapply Step_tun_writer].
  - destruct (encrypt_enabled (shared t) pc) as [->|(? & ? & ?)];
      [apply (inv_raw _ Hi); lia|by left|right; eexists; by eapply Step_encrypt].
  - destruct (writer_enabled enc_closed true (shared t) pc Hg) as [->|(? & ? & ?)];
      [apply (inv_enc _ Hi); lia|by left|right; eexists; by eapply Step_udp_writer].
Qed.

Lemma main_enabled t :
  (1 <= stage (main t))%nat -> going (shared t) = false ->
  (exists t', main_step t t') \/ (exists th, main t = M_join th) \/ main t = M_done.
Proof. intros Hst Hg. destruct (main t) eqn:Hm; cbn in Hst; try lia; eauto 6 using main_step. Qed.

Definition all_done (t : Threads) : Prop := main t = M_done /\ forall th, ended th t.

Lemma conn_step_enabled t :
  inv t -> (1 <= stage (main t))%nat -> going (shared t) = false -> all_done t \/ exists t', step false t false t'.
Proof.
  intros Hi Hst Hg. destruct (main_enabled _ Hst Hg) as [[t' Hm]|[[th Hm]|Hm]].
  - right. eexists. by apply Main.
  - destruct (worker_enabled t th Hi) as [He|]; [rewrite Hm; destruct th; cbn; lia|done| |by right].
    right. eexists. by eapply Main, M_joins.
  - left. split; [done|]. intros th. apply (inv_joined _ Hi). rewrite Hm. destruct th; cbn; lia.
Qed.

(** The two queues whose workers can go on until they are closed. *)
Definition inputs_closed (t : Threads) : bool := rx_closed (shared t) && raw_closed (shared t).

Lemma run_inv n k t t' :
  run false n k t t' -> inv t -> (1 <= stage (main t))%nat -> going (shared t) = false ->
  (n + steps_left t' <= steps_left t + 7 * k)%nat /\ (inputs_closed t = true -> k = 0%nat) /\
  inv t' /\ (1 <= stage (main t'))%nat /\ going (shared t') = false.
Proof.
  induction 1 as [t|n k b t t1 t2 Hs Hr IH]; intros Hi Hst Hg; [split_and!; auto; lia|].
  destruct (step_keeps _ _ _ Hi Hs Hst Hg) as (Hst1 & Hg1 & Hrx & Hraw).
  destruct (conn_step_decreases _ _ _ Hst Hg Hs) as [Hd Hb].
  assert (inv t1) as Hi1 by (destruct (worker_step_inv _ _ _ Hi Hs); [by eapply main_step_inv|done]).
  destruct (IH Hi1 Hst1 Hg1) as (Hn & Hk & Hrest). split_and!; [destruct b; lia| |apply Hrest..].
  unfold inputs_closed in *. intros [Hc1 Hc2]%andb_true_iff. destruct b.
  - destruct Hb as [Hb|Hb]; congruence.
  - apply Hk. by rewrite Hrx, Hraw.
Qed.

(** ** Properties *)

(** C9: A connection that is to end does end: from any state of an established connection in which
    a signal or a failing worker has cleared a flag, whatever its threads are doing, at most 46
    steps happen, and 7 more for each datagram the UDP reader still receives and each packet the
    encrypt worker still takes, of which there are none once both queues are closed; up to that,
    the clean-up can always go on. It is only when all workers have ended and are joined that no
    step is left, so no worker sleeps through the end. This holds as long as no read of the
    session is answered with [WantWrite], which the client's send callback never causes; and a
    system call counts as a step, so that each one returns is assumed, also of a read or write
    of the TUN device, which is in blocking mode ([Platform.device_blocking_mode]). *)
Theorem client_shutdown_completes t n k t' :
  reachable false t -> (1 <= stage (main t))%nat -> going (shared t) = false -> run false n k t t' ->
  (n + steps_left t' <= steps_left t + 7 * k <= 46 + 7 * k)%nat /\
  (inputs_closed t = true -> k = 0%nat) /\
  (inputs_closed t' = true \/ exists t'', main_step t' t'') /\
  (all_done t' \/ exists t'', step false t' false t'').
Proof.
  intros Hr Hst Hg Hn. destruct (run_inv _ _ _ _ Hn (conn_threads_inv _ Hr) Hst Hg) as (H1 & H2 & Hi & Hst' & Hg').
  split_and!; [done| |done| |by apply conn_step_enabled].
  - pose proof (steps_left_bound t Hst). lia.
  - assert ((5 <= stage (main t'))%nat -> inputs_closed t' = true) as Hc.
    { intros Hc. unfold inputs_closed. rewrite (inv_rx _ Hi), (inv_raw _ Hi); [done|lia..]. }
    destruct (main_enabled _ Hst' Hg') as [|[[th Hm]|Hm]]; [by right|left; apply Hc; rewrite Hm..];
      [by destruct th; cbn; lia|by cbn; lia].
Qed.

(** ** Runs *)

(** One more step, by [tac], of the run to the state in [H]. *)
Ltac advance H tac := eapply Steps in H; [|tac]; cbn in H.
Ltac main_does H c := advance H ltac:(apply Main; eapply c; (reflexivity || exact I)).
Ltac decrypt_does H c := advance H ltac:(eapply Step_decrypt; [reflexivity|eapply c; reflexivity]).

(** All workers were just spawned. *)
Definition established : Threads :=
  {| main := M_check; udp_reader := Some U_check; tun_reader := Some T_check; decrypt := Some (D_check false false);
     tun_writer := Some W_check; encrypt := Some E_check; udp_writer := Some W_check; shared := shared connected |}.

Lemma established_reachable want_write : reachable want_write established.
Proof.
  pose proof (Connected want_write) as H. unfold connected in H. do 6 main_does H M_spawns. exact H.
Qed.

(** That no read is answered with [WantWrite] is needed: the decrypt worker reads the generation
    it will wait for after it has looked at the flags. If the clean-up happens in
    between and the session then wants to write, it waits for a notification that was the last
    one, and [run_connection] never returns. *)
Theorem want_write_sleeps_through :
  exists t o p, reachable true t /\ main t = M_join Decrypt /\ decrypt t = Some (D_wait o true p) /\
    progress (shared t) = o /\ forall b t', ~ step true t b t'.
Proof.
  pose proof (established_reachable true) as H. unfold established, connected in H. cbn in H.
  decrypt_does H D_go. decrypt_does H D_observes_next. decrypt_does H D_takes.
  advance H ltac:(eapply Step_decrypt; [reflexivity|apply D_injected]). decrypt_does H D_go.
  apply Signalled in H. unfold signal in H. cbn in H.
  main_does H M_leaves. main_does H M_clears. main_does H M_closes_rx. main_does H M_closes_raw.
  main_does H M_closes_tun_write. main_does H M_closes_enc. main_does H M_notifies.
  advance H ltac:(eapply Step_decrypt; [reflexivity|apply D_observes_drain]).
  decrypt_does H D_wants_write.
  advance H ltac:(eapply Step_udp_reader; [reflexivity|by apply U_stop]).
  advance H ltac:(eapply Step_tun_reader; [reflexivity|by apply T_stop]).
  advance H ltac:(eapply Step_tun_writer; [reflexivity|by apply W_stop]).
  advance H ltac:(eapply Step_udp_writer; [reflexivity|by apply W_stop]).
  advance H ltac:(eapply Step_encrypt; [reflexivity|by apply E_go]).
  advance H ltac:(eapply Step_encrypt; [reflexivity|by apply E_closed]).
  do 3 eexists. split; [exact H|]. split_and!; [reflexivity..|].
  intros b t' Hs. inversion Hs as [? Hm|? ? ? ? E E'|? ? ? E E'|? ? ? E E'|? ? ? E E'|? ? ? ? E E'|? ? ? E E']; cbn in *;
    simplify_eq; [|by inversion E'..].
  inversion Hm as [th E|th E|E|E|E|E|E|E|E|E|E|E|E|E|E|E|th E]; cbn in *; simplify_eq. done.
Qed.

(** When a spawn fails, [run_connection] returns with [active] still set, and the workers it has
    already spawned stay: here the two readers, which nobody joins. The TUN reader takes packets
    off the device, away from the next connection, into a queue that nobody empties. *)
Theorem failed_spawn_leaks :
  exists t, reachable false t /\ main t = M_failed /\ going (shared t) = true /\
    decrypt t = None /\ encrypt t = None /\ tun_reader t = Some T_check /\
    exists t', run false 2 0 t t' /\ tun_reader t' = Some T_read /\ raw_closed (shared t') = false /\
      run false 1 0 t' t.
Proof.
  pose proof (Connected false) as H. unfold connected in H.
  do 2 main_does H M_spawns. main_does H M_spawn_fails.
  eexists. split; [exact H|]. split_and!; [reflexivity..|]. eexists. split_and!.
  - eapply (Run_cons _ _ _ false); [eapply Step_tun_reader; [reflexivity|by apply T_go]|].
    eapply (Run_cons _ _ _ false); [eapply Step_tun_reader; [reflexivity|by apply T_ready]|]. apply Run_nil.
  - reflexivity.
  - reflexivity.
  - eapply (Run_cons _ _ _ false); [eapply Step_tun_reader; [reflexivity|by apply T_queues]|]. apply Run_nil.
Qed.

(** ** Examples *)

(** A signal while the decrypt worker and the encrypt worker sleep. *)
Definition interrupted : Threads :=
  established <| decrypt := Some (D_wait 0 false false) |> <| encrypt := Some E_peek |> <| main := M_check |>
    <| shared := (shared connected) <| running := false |> |>.

Lemma interrupted_reachable : reachable false interrupted.
Proof.
  pose proof (established_reachable false) as H. unfold established, connected in H. cbn in H.
  decrypt_does H D_go. decrypt_does H D_observes_next. decrypt_does H D_empty.
  advance H ltac:(eapply Step_encrypt; [reflexivity|by apply E_go]). by apply Signalled in H.
Qed.

Lemma client_shutdown_completes_witness :
  (0 + steps_left interrupted <= steps_left interrupted + 0 <= 46)%nat /\
  (all_done interrupted \/ exists t'', step false interrupted false t'').
Proof.
  destruct (client_shutdown_completes interrupted 0 0 interrupted) as (H1 & _ & _ & H2);
    [exact interrupted_reachable|apply le_n|reflexivity|apply Run_nil|]. split; [exact H1|exact H2].
Defined.
