(* ===== verification/EndToEnd.v ===== *)
(** * The tunnel from end to end

    Puts the server of [ServerTunnel.v] and a client of [ClientTunnel.v] together: what leaves
    the TUN device at one end against what entered it at the other. Between them are DTLS and
    the network, which the program only uses; what is assumed of them is [dtls_channel]. *)

From S2P Require Import Prelude Text Net Queue DtlsApi Session Encrypt Decrypt DecryptOk Control Server ServerTunnel Startup.
From S2P Require Import ClientLoop ClientTunnel.

Local Open Scope Z_scope.

(** What a DTLS session promises of the records its reader accepts: each was sent by the other
    end, and none is accepted twice. On a network that keeps the order they are also in order. *)
Definition dtls_channel (ordered : bool) (sent received : list Packet) : Prop :=
  if ordered then received `sublist_of` sent else received ⊆+ sent.

Lemma channel_submseteq ordered sent received : dtls_channel ordered sent received -> received ⊆+ sent.
Proof. destruct ordered; [apply sublist_submseteq|done]. Qed.

Lemma channel_sublist ordered sent received received' :
  received' `sublist_of` received -> dtls_channel ordered sent received -> dtls_channel ordered sent received'.
Proof.
  destruct ordered; cbn; intros Hs Hc; [by etrans|]. etrans; [by apply sublist_submseteq|done].
Qed.

Lemma channel_grow ordered sent sent' received :
  sent `sublist_of` sent' -> dtls_channel ordered sent received -> dtls_channel ordered sent' received.
Proof.
  destruct ordered; cbn; intros Hs Hc; [by etrans|]. etrans; [done|by apply sublist_submseteq].
Qed.

Lemma channel_retain ordered P sent received :
  dtls_channel ordered sent received -> dtls_channel ordered (retain P sent) (retain P received).
Proof. destruct ordered; [apply retain_sublist_mono|apply retain_submseteq]. Qed.

(** ** The server's side, for the client of one address *)
Section server_side.
Implicit Types (a : Ipv4Addr) (p : Past).

(** What was decrypted from its authenticated sessions, and written into its sessions. *)
Definition read_from a p : list Packet :=
  snd <$> retain (fun e => (e.1.1 =? a) && e.1.2) (plain_read p).
Definition sent_to a p : list Packet := snd <$> retain (fun e => e.1 =? a) (plain_sent p).

(** What the TUN device took whole, with this source. *)
Definition delivered_from a p : list Packet :=
  fst <$> retain (fun r => r.2 && bool_decide (ipv4_source r.1 = Some a)) (tun_results p).
End server_side.

(** ** The client's side: all its connections *)

(** A run of the client's workers over one connection. *)
Definition client_run {D} `{DtlsSession D} (t : Tunnel D) : Prop :=
  exists t0, tunnel_started t0 /\ rtc ClientTunnel.step t0 t.

Section client_side.
Context {D : Type}.
Implicit Types (ts : list (Tunnel D)).
Definition tun_entered ts : list Packet := ts ≫= (fun t => plain_in (log t)).
Definition client_sent ts : list Packet := ts ≫= (fun t => plain_out (log t)).
Definition client_read ts : list Packet := ts ≫= (fun t => decrypted (log t)).
Definition tun_left ts : list Packet := ts ≫= (fun t => tun_out (log t)).
End client_side.

Lemma client_runs_order {D} `{DtlsSession D} (ts : list (Tunnel D)) :
  Forall client_run ts ->
  client_sent ts `sublist_of` tun_entered ts /\ tun_left ts `sublist_of` retain forwardable (client_read ts).
Proof.
  unfold client_sent, tun_entered, tun_left, client_read.
  induction 1 as [|t ts (t0 & Hs & Hr) _ [IH1 IH2]]; [done|]. cbn [mbind list_bind].
  destruct (tunnel_reachable_inv _ _ Hs Hr) as [[_ Hraw _] _ _ [_ Htun _] Hp _ Hf _]. split.
  - apply sublist_app; [|exact IH1]. etrans; [exact Hp|]. etrans; [|exact Hraw]. by apply sublist_inserts_r.
  - rewrite retain_app. apply sublist_app; [|exact IH2].
    etrans; [|exact Hf]. etrans; [|exact Htun]. by apply sublist_inserts_r.
Qed.

(** ** Lemmas *)
Section ends.
Context (ctx : DecryptContext).

Lemma forwarded_source a by_client packet :
  forwarded ctx (a, by_client, packet) = true -> by_client = true /\ ipv4_source packet = Some a /\ tunnelled packet = true.
Proof.
  unfold forwarded, ipv4_source, tunnelled, ipv4_destination.
  destruct (ipv4_packet_addresses packet) as [[source destination]|]; [|by rewrite andb_false_r].
  rewrite !andb_true_iff, Z.eqb_eq. intros [[-> _] [-> _]]. split_and!; [done|done|]. by apply bool_decide_eq_true.
Qed.

(** What the TUN device took from a client was decrypted from that client's sessions. *)
Lemma delivered_read a (p : Past) :
  (tun_results p).*1 = snd <$> retain (forwarded ctx) (plain_read p) ->
  delivered_from a p `sublist_of` retain tunnelled (read_from a p).
Proof.
  unfold delivered_from, read_from. generalize (tun_results p). induction (plain_read p) as [|[[b c] packet] es IH]; intros rs.
  { intros ->%fmap_nil_inv. done. }
  rewrite retain_cons. destruct (forwarded ctx (b, c, packet)) eqn:Hf.
  - destruct rs as [|[packet' ok] rs]; [done|]. cbn [fmap list_fmap app fst snd]. intros [= -> Hrs].
    destruct (forwarded_source _ _ _ Hf) as (-> & Hsrc & Ht). rewrite !retain_cons. cbn [fst snd].
    rewrite !fmap_app, retain_app. apply sublist_app; [|by apply IH]. rewrite Hsrc, andb_true_r.
    destruct (Z.eqb_spec b a) as [->|Hne].
    + change (retain tunnelled [(a, true, packet)].*2) with (retain tunnelled [packet]). rewrite retain_cons, Ht.
      rewrite bool_decide_true by done. destruct ok; [done|apply sublist_nil_l].
    + rewrite bool_decide_false by congruence. by rewrite andb_false_r.
  - cbn [app]. intros Hrs. rewrite retain_cons, fmap_app, retain_app. apply sublist_inserts_l. by apply IH.
Qed.

(** Of one address only. *)
Lemma addressed_to a (packets : list Packet) :
  snd <$> retain (fun e => e.1 =? a) (addressed ctx packets) =
    retain (fun p => bool_decide (unicast (routing_of ctx) p = Some a)) packets.
Proof.
  induction packets as [|p ps IH]; [done|]. unfold addressed in *. rewrite retain_cons. cbn [omap list_omap].
  destruct (unicast (routing_of ctx) p) as [b|] eqn:E; cbn [fmap option_fmap option_map].
  - rewrite retain_cons, fmap_app, IH. cbn [fst]. f_equal. destruct (Z.eqb_spec b a) as [->|Hne].
    + by rewrite bool_decide_true.
    + rewrite bool_decide_false by congruence. done.
  - rewrite bool_decide_false by done. exact IH.
Qed.

Lemma unicasts_to a (es : list (Ipv4Addr * Packet)) :
  snd <$> retain (fun e => e.1 =? a) (unicasts ctx es) =
    retain (fun p => bool_decide (is_Some (unicast (routing_of ctx) p))) (snd <$> retain (fun e => e.1 =? a) es).
Proof.
  induction es as [|e es IH]; [done|]. unfold unicasts in *. rewrite !(retain_cons _ e), retain_app, !fmap_app, IH, retain_app.
  f_equal. destruct (bool_decide _) eqn:Hb, (e.1 =? a) eqn:Ha; rewrite ?retain_cons, ?Ha; cbn [app fmap list_fmap]; 
    rewrite ?retain_cons, ?Hb; done.
Qed.

(** The unicast packets of one address are tunnelled. *)
Lemma sent_unicast a (es : list (Ipv4Addr * Packet)) :
  retain (fun q => bool_decide (unicast (routing_of ctx) q = Some a)) (snd <$> retain (fun e => e.1 =? a) es) `sublist_of`
    retain (fun q => bool_decide (is_Some (unicast (routing_of ctx) q)))
      (snd <$> retain (fun e => e.1 =? a) (retain (fun e => tunnelled e.2) es)).
Proof.
  induction es as [|[b q] es IH]; [done|].
  rewrite !(retain_cons _ (b, q)), (retain_app (fun e => e.1 =? a)), !fmap_app, !retain_app. apply sublist_app; [|exact IH].
  cbn [fst snd]. destruct (b =? a) eqn:Hb; [|apply sublist_nil_l]. cbn [fmap list_fmap snd]. rewrite retain_cons.
  case_bool_decide as Hu; [|apply sublist_nil_l].
  rewrite (unicast_tunnelled (routing_of ctx) q) by eauto. rewrite retain_cons. cbn [fst]. rewrite Hb.
  change (snd <$> [(b, q)] ++ _) with [q]. by rewrite retain_cons, bool_decide_true by eauto.
Qed.

Lemma forwardable_tunnelled packet : forwardable packet = true -> tunnelled packet = true.
Proof.
  unfold forwardable, tunnelled, ipv4_destination. intros [_ [x Hx]%bool_decide_eq_true]%andb_true_iff.
  apply bool_decide_eq_true. rewrite Hx. by eexists.
Qed.
End ends.

(** A server that was started is one the theorem is about. *)
Lemma started_server_fresh {D} (sys : System D) values clients st :
  server_start sys values clients = Ok st ->
  fresh_server (initial_server st) /\ (1 <= max_clients (context st))%nat /\ (1 <= max_pending_handshakes (context st))%nat.
Proof.
  intros Hst. pose proof Hst as (Hset & _ & _ & _ & _ & Hmc & Hmp & _ & Hs & _)%server_start_Ok.
  destruct (server_settings_Ok _ _ Hset) as (H1 & H2 & _). split; [|lia]. split; [exact Hs|].
  by apply server_start_world in Hst as [t [q ->]].
Qed.

(** ** Properties *)

(** C1: The tunnel from end to end. Let the server run in any interleaving from its start, and the
    client of the VPN address [a] over any number of connections, each in any interleaving.
    Provided DTLS keeps its promise between the two, what the server's TUN device takes with
    the source [a] are packets that entered the client's TUN device, none more often than it
    entered, and in the same order when the network keeps the order; what the client gives
    its own TUN device are packets the server took from its TUN device that are addressed to
    [a], or broadcasts or multicasts that are forwarded; and none addressed to [a] arrives
    more often than it was taken. *)
Theorem tunnel_end_to_end {D D'} `{DtlsLaws D} `{DtlsSession D'} ordered ctx life va n i
    (v0 v : Server D) (ts : list (Tunnel D')) a :
  (1 <= max_clients ctx)%nat -> (1 <= max_pending_handshakes ctx)%nat ->
  fresh_server v0 -> rtc (Server.step ctx life va n i) v0 v -> Forall client_run ts ->
  let p := past (world v) in
  dtls_channel ordered (client_sent ts) (read_from a p) ->
  dtls_channel ordered (sent_to a p) (client_read ts) ->
  dtls_channel ordered (retain tunnelled (tun_entered ts)) (delivered_from a p) /\
  (forall packet, packet ∈ tun_left ts -> packet ∈ tun_routed p /\ may_reach (routing_of ctx) a packet) /\
  retain (fun q => bool_decide (unicast (routing_of ctx) q = Some a)) (tun_left ts) ⊆+
    retain (fun q => bool_decide (unicast (routing_of ctx) q = Some a)) (tun_routed p).
Proof.
  intros Hmc Hmp Hf Hr Hts p Hup Hdown.
  destruct (fresh_carries _ _ _ _ _ _ _ Hmc Hmp Hf Hr) as [Hin Huni Hrt]. fold p in Hin, Huni, Hrt.
  destruct (client_runs_order ts Hts) as [Hent Hleft].
  assert (tun_left ts ⊆+ retain forwardable (sent_to a p)) as Hcl.
  { etrans; [apply sublist_submseteq, Hleft|]. apply retain_submseteq. by eapply channel_submseteq. }
  split_and!.
  - eapply channel_sublist; [by apply (delivered_read ctx)|]. apply channel_retain. by eapply channel_grow.
  - intros packet Hq. eapply elem_of_submseteq in Hcl; [|exact Hq].
    apply elem_of_retain in Hcl as [Hfw Hs]. unfold sent_to in Hs.
    apply list_elem_of_fmap in Hs as ([b q] & -> & [Hb%Z.eqb_eq Hs]%elem_of_retain). cbn in Hb, Hfw. subst b.
    rewrite Forall_forall in Hrt. apply (Hrt (a, q)). apply elem_of_app. left. apply elem_of_retain.
    split; [by apply forwardable_tunnelled|exact Hs].
  - etrans; [by apply retain_submseteq|]. rewrite <-(addressed_to ctx a (tun_routed p)).
    etrans; [apply sublist_submseteq, retain_sublist_mono, retain_sublist|].
    etrans; [|apply fmap_submseteq, retain_submseteq, Huni].
    rewrite unicasts_to. unfold carried. rewrite retain_app, fmap_app, retain_app. apply submseteq_inserts_r.
    apply sublist_submseteq. exact (sent_unicast ctx a (plain_sent p)).
Qed.

(** ** An example: a packet each way *)

(** The state of a run so far, computed. *)
Ltac compute_state :=
  match goal with |- rtc _ ?t _ => let t' := eval lazy in t in change t with t' end.

(** The client's TUN device gives [packet]: it is read, and goes through the encrypt worker. *)
Ltac client_sends packet :=
  eapply rtc_l; [left; eapply (Tun_reads _ (Some (Ok tt)) (Ok packet)); [by apply not_elem_of_nil|reflexivity..]|]; compute_state;
  eapply rtc_l; [left; eapply Encrypt_takes; [by apply not_elem_of_nil|reflexivity..]|]; compute_state;
  eapply rtc_l; [left; eapply Encrypt_checks; reflexivity|]; compute_state;
  eapply rtc_l; [left; eapply (Encrypt_calls _ _ _ _ [{| dg_bytes := packet; enqueued_at := 0 |}]); reflexivity|]; compute_state.

(** A datagram arrives, is decrypted to [packet] and written to the TUN device. *)
Ltac client_receives packet :=
  eapply rtc_l; [right; left; eapply (Udp_waits _ (Ok true)); [by apply not_elem_of_nil|reflexivity..]|]; compute_state;
  eapply rtc_l; [right; left; eapply (Udp_receives _ (Ok packet)); [by apply not_elem_of_nil|reflexivity..]|]; compute_state;
  eapply rtc_l; [right; left; eapply Decrypt_checks; [by apply not_elem_of_nil|reflexivity]|]; compute_state;
  eapply rtc_l; [right; left; eapply (Decrypt_reads _ _ _ _ _ _ []); [by apply not_elem_of_nil|reflexivity..]|]; compute_state;
  eapply rtc_l; [right; left; eapply Decrypt_takes; [by apply not_elem_of_nil|reflexivity..]|]; compute_state;
  eapply rtc_l; [right; left; eapply (Decrypt_injects _ _ _ _ _ _ []); [by apply not_elem_of_nil|reflexivity..]|]; compute_state;
  eapply rtc_l; [right; left; eapply Decrypt_checks; [by apply not_elem_of_nil|reflexivity]|]; compute_state;
  eapply rtc_l; [right; left; eapply (Decrypt_reads _ _ _ _ _ _ []); [by apply not_elem_of_nil|reflexivity..]|]; compute_state;
  eapply rtc_l; [right; left; eapply Tun_reserves; [by apply not_elem_of_nil|reflexivity..]|]; compute_state;
  eapply rtc_l; [right; left; eapply Tun_checks; reflexivity|]; compute_state;
  eapply rtc_l; [right; left; eapply (Tun_writes _ _ (Ok (Z.of_nat (length packet)))); reflexivity|]; compute_state.

Lemma client_example_run :
  exists t, client_run t /\ tun_entered [t] = [[1]; upstream_packet] /\ client_sent [t] = [[1]; upstream_packet] /\
    client_read [t] = [downstream_packet] /\ tun_left [t] = [downstream_packet].
Proof.
  eexists. split; [exists tunnel_example; split; [by repeat split|]|].
  - client_sends [1]. client_sends upstream_packet. client_receives downstream_packet. apply rtc_refl.
  - split_and!; vm_compute; reflexivity.
Qed.

Lemma tunnel_end_to_end_witness :
  exists t : Tunnel PlainDtls, client_run t /\
    delivered_from (ipv4_new 10 8 1 2) (past (world example_relayed)) = [upstream_packet] /\
    [upstream_packet] `sublist_of` retain tunnelled (tun_entered [t]) /\
    tun_left [t] = [downstream_packet] /\ downstream_packet ∈ tun_routed (past (world example_relayed)).
Proof.
  destruct client_example_run as (t & Hrun & Hent & Hsent & Hread & Hleft).
  assert (read_from (ipv4_new 10 8 1 2) (past (world example_relayed)) = [[1]; upstream_packet]) as Hrf
    by (vm_compute; reflexivity).
  assert (sent_to (ipv4_new 10 8 1 2) (past (world example_relayed)) = [AUTH_OK; downstream_packet]) as Hst
    by (vm_compute; reflexivity).
  assert (delivered_from (ipv4_new 10 8 1 2) (past (world example_relayed)) = [upstream_packet]) as Hdl
    by (vm_compute; reflexivity).
  destruct (tunnel_end_to_end true example_ctx _ _ _ _ example_server example_relayed [t] (ipv4_new 10 8 1 2)
    ltac:(cbn; lia) ltac:(cbn; lia) (conj eq_refl eq_refl) example_relayed_run) as (Hup & Hin & _).
  - by constructor.
  - rewrite Hsent, Hrf. cbn [dtls_channel]. apply sublist_skip, sublist_skip, sublist_nil_l.
  - rewrite Hst, Hread. cbn [dtls_channel]. apply sublist_cons, sublist_skip, sublist_nil_l.
  - exists t. split_and!; [exact Hrun|exact Hdl| |exact Hleft|].
    + rewrite Hdl in Hup. exact Hup.
    + apply (Hin downstream_packet). rewrite Hleft. by left.
Defined.
